(** * Brandon Media OS: process lifecycle, schedulers and IPC mailbox

    A shallow embedding of [kernel/process/process.c],
    [kernel/process/scheduler.c], [kernel/process/ipc.c] and
    [kernel/smp/advanced_scheduler.c], with the properties of the
    scheduling core stated over it.

    Conventions of the embedding.
    - Process control blocks live in a heap [procs : gmap positive process];
      a C pointer is an [option positive], with [None] for NULL.
    - Fixed-width unsigned integers are [Z] with the wrap-around written
      out ([wrap32], [wrap64]).
    - A C function is a function from the kernel state to a [result]:
      [Ret] for a normal return, [Fault] when a pointer that is not in the
      heap is dereferenced, [Diverge] when a loop is still running after
      the given number of iterations ([fuel]).
    - [serial_puts], [print_dec], [interrupts_disable] and
      [interrupts_enable] have no effect on the modelled state and are
      left out; [context_switch_asm] only transplants CPU registers and is
      modelled as returning at once. *)

From Stdlib Require Import ZArith List Lia String.
From stdpp Require Import base option list gmap.

Local Open Scope Z_scope.

(** ** Machine integers *)

Definition wrap32 (z : Z) : Z := z mod 2 ^ 32.
Definition wrap64 (z : Z) : Z := z mod 2 ^ 64.
Definition UINT64_MAX : Z := 2 ^ 64 - 1.

(** ** Results of C functions *)

Inductive result (A : Type) : Type :=
  | Ret (a : A)
  | Fault
  | Diverge.
Arguments Ret {A} a.
Arguments Fault {A}.
Arguments Diverge {A}.

#[global] Instance result_bind : MBind result :=
  λ A B f m, match m with
             | Ret a => f a
             | Fault => Fault
             | Diverge => Diverge
             end.

(** ** include/kernel/process.h *)

Inductive process_state_t : Set :=
  | PROCESS_CREATED
  | PROCESS_READY
  | PROCESS_RUNNING
  | PROCESS_BLOCKED
  | PROCESS_SLEEPING
  | PROCESS_ZOMBIE
  | PROCESS_TERMINATED.

#[global] Instance process_state_eq_dec : EqDecision process_state_t.
Proof. solve_decision. Defined.

(** [process_priority_t]: the code compares and clamps priorities as
    integers, so they are kept as [Z] (non-negative: the enum is stored
    unsigned). *)
Definition PRIORITY_IDLE : Z := 0.
Definition PRIORITY_LOW : Z := 1.
Definition PRIORITY_NORMAL : Z := 2.
Definition PRIORITY_HIGH : Z := 3.
Definition PRIORITY_REALTIME : Z := 4.

Definition PROCESS_STACK_SIZE : Z := 8 * 1024.
Definition PROCESS_HEAP_SIZE : Z := 64 * 1024.
Definition MAX_PROCESSES : Z := 256.
Definition DEFAULT_TIME_SLICE : Z := 10.

(** [scheduler_algorithm_t], again as the integer the [switch] inspects. *)
Definition SCHED_ROUND_ROBIN : Z := 0.
Definition SCHED_PRIORITY : Z := 1.
Definition SCHED_CFS : Z := 2.

(** The registers [process_create] sets; all others are zeroed. *)
Record cpu_context : Set := mk_cpu_context {
  rip : Z;
  rsp : Z;
  rflags : Z;
  cr3 : Z;
  cs : Z;
  ds : Z
}.

Definition zero_context : cpu_context := mk_cpu_context 0 0 0 0 0 0.

(** [struct message_queue] of ipc.c. *)
Record message_queue : Set := mk_message_queue {
  mq_head : option positive;
  mq_tail : option positive;
  mq_count : Z
}.

(** [neural_priority_t] and [struct process_sched_stats] of
    advanced_scheduler.c. *)
Definition NEURAL_PRIORITY_CRITICAL : Z := 0.
Definition NEURAL_PRIORITY_HIGH : Z := 1.
Definition NEURAL_PRIORITY_NORMAL : Z := 2.
Definition NEURAL_PRIORITY_LOW : Z := 3.
Definition NEURAL_PRIORITY_BACKGROUND : Z := 4.
Definition NEURAL_PRIORITY_IDLE : Z := 5.

Record process_sched_stats : Set := mk_process_sched_stats {
  runtime : Z;
  wait_time : Z;
  neural_cycles : Z;
  st_context_switches : Z;
  preemptions : Z;
  last_runtime : Z;
  vruntime : Z;
  neural_class : Z;
  nice_value : Z;
  deadline : Z;
  neural_affinity : Z
}.

(** Modelled from the spec: the fields [next_in_queue] and [sched_stats],
    which advanced_scheduler.c uses but process.h does not declare.  They
    are the second set of queue-link fields of the data model, the one for
    the per-core queue, structurally independent of [next] and [prev], and
    the optional, lazily allocated scheduling-statistics block owned by the
    process.

    Everything else is [struct process] of process.h.  The fields the
    modelled functions never touch after the initial [memory_set]
    (memory_usage, children, next_sibling, pending_signals, file_table,
    page_faults, syscall_count) are left out.  The message queue and the
    statistics block are owned by the process and stored in place; [None]
    is the NULL pointer. *)
Record process : Set := mk_process {
  pid : Z;
  ppid : Z;
  name : string;
  state : process_state_t;
  priority : Z;
  time_slice : Z;
  cpu_time : Z;
  creation_time : Z;
  page_directory : option positive;
  stack_base : Z;
  stack_size : Z;
  heap_base : Z;
  heap_size : Z;
  context : cpu_context;
  parent : option positive;
  next : option positive;
  prev : option positive;
  last_scheduled : Z;
  sleep_until : Z;
  message_queue_of : option message_queue;
  context_switches : Z;
  next_in_queue : option positive;
  sched_stats : option process_sched_stats
}.

(** The PCB after [memory_set(proc, 0, sizeof(struct process))]. *)
Definition zero_process : process :=
  mk_process 0 0 EmptyString PROCESS_CREATED 0 0 0 0 None 0 0 0 0
             zero_context None None None 0 0 None 0 None None.

(** Field assignments. *)
Definition set_pid (v : Z) (p : process) : process :=
  mk_process v (ppid p) (name p) (state p) (priority p) (time_slice p)
    (cpu_time p) (creation_time p) (page_directory p) (stack_base p)
    (stack_size p) (heap_base p) (heap_size p) (context p) (parent p)
    (next p) (prev p) (last_scheduled p) (sleep_until p)
    (message_queue_of p) (context_switches p) (next_in_queue p)
    (sched_stats p).

Definition set_state (v : process_state_t) (p : process) : process :=
  mk_process (pid p) (ppid p) (name p) v (priority p) (time_slice p)
    (cpu_time p) (creation_time p) (page_directory p) (stack_base p)
    (stack_size p) (heap_base p) (heap_size p) (context p) (parent p)
    (next p) (prev p) (last_scheduled p) (sleep_until p)
    (message_queue_of p) (context_switches p) (next_in_queue p)
    (sched_stats p).

Definition set_cpu_time (v : Z) (p : process) : process :=
  mk_process (pid p) (ppid p) (name p) (state p) (priority p) (time_slice p)
    v (creation_time p) (page_directory p) (stack_base p)
    (stack_size p) (heap_base p) (heap_size p) (context p) (parent p)
    (next p) (prev p) (last_scheduled p) (sleep_until p)
    (message_queue_of p) (context_switches p) (next_in_queue p)
    (sched_stats p).

Definition set_page_directory (v : option positive) (p : process) : process :=
  mk_process (pid p) (ppid p) (name p) (state p) (priority p) (time_slice p)
    (cpu_time p) (creation_time p) v (stack_base p)
    (stack_size p) (heap_base p) (heap_size p) (context p) (parent p)
    (next p) (prev p) (last_scheduled p) (sleep_until p)
    (message_queue_of p) (context_switches p) (next_in_queue p)
    (sched_stats p).

Definition set_stack (base size : Z) (p : process) : process :=
  mk_process (pid p) (ppid p) (name p) (state p) (priority p) (time_slice p)
    (cpu_time p) (creation_time p) (page_directory p) base
    size (heap_base p) (heap_size p) (context p) (parent p)
    (next p) (prev p) (last_scheduled p) (sleep_until p)
    (message_queue_of p) (context_switches p) (next_in_queue p)
    (sched_stats p).

Definition set_heap (base size : Z) (p : process) : process :=
  mk_process (pid p) (ppid p) (name p) (state p) (priority p) (time_slice p)
    (cpu_time p) (creation_time p) (page_directory p) (stack_base p)
    (stack_size p) base size (context p) (parent p)
    (next p) (prev p) (last_scheduled p) (sleep_until p)
    (message_queue_of p) (context_switches p) (next_in_queue p)
    (sched_stats p).

Definition set_context (v : cpu_context) (p : process) : process :=
  mk_process (pid p) (ppid p) (name p) (state p) (priority p) (time_slice p)
    (cpu_time p) (creation_time p) (page_directory p) (stack_base p)
    (stack_size p) (heap_base p) (heap_size p) v (parent p)
    (next p) (prev p) (last_scheduled p) (sleep_until p)
    (message_queue_of p) (context_switches p) (next_in_queue p)
    (sched_stats p).

Definition set_next (v : option positive) (p : process) : process :=
  mk_process (pid p) (ppid p) (name p) (state p) (priority p) (time_slice p)
    (cpu_time p) (creation_time p) (page_directory p) (stack_base p)
    (stack_size p) (heap_base p) (heap_size p) (context p) (parent p)
    v (prev p) (last_scheduled p) (sleep_until p)
    (message_queue_of p) (context_switches p) (next_in_queue p)
    (sched_stats p).

Definition set_prev (v : option positive) (p : process) : process :=
  mk_process (pid p) (ppid p) (name p) (state p) (priority p) (time_slice p)
    (cpu_time p) (creation_time p) (page_directory p) (stack_base p)
    (stack_size p) (heap_base p) (heap_size p) (context p) (parent p)
    (next p) v (last_scheduled p) (sleep_until p)
    (message_queue_of p) (context_switches p) (next_in_queue p)
    (sched_stats p).

Definition set_last_scheduled (v : Z) (p : process) : process :=
  mk_process (pid p) (ppid p) (name p) (state p) (priority p) (time_slice p)
    (cpu_time p) (creation_time p) (page_directory p) (stack_base p)
    (stack_size p) (heap_base p) (heap_size p) (context p) (parent p)
    (next p) (prev p) v (sleep_until p)
    (message_queue_of p) (context_switches p) (next_in_queue p)
    (sched_stats p).

Definition set_sleep_until (v : Z) (p : process) : process :=
  mk_process (pid p) (ppid p) (name p) (state p) (priority p) (time_slice p)
    (cpu_time p) (creation_time p) (page_directory p) (stack_base p)
    (stack_size p) (heap_base p) (heap_size p) (context p) (parent p)
    (next p) (prev p) (last_scheduled p) v
    (message_queue_of p) (context_switches p) (next_in_queue p)
    (sched_stats p).

Definition set_message_queue (v : option message_queue) (p : process) : process :=
  mk_process (pid p) (ppid p) (name p) (state p) (priority p) (time_slice p)
    (cpu_time p) (creation_time p) (page_directory p) (stack_base p)
    (stack_size p) (heap_base p) (heap_size p) (context p) (parent p)
    (next p) (prev p) (last_scheduled p) (sleep_until p)
    v (context_switches p) (next_in_queue p)
    (sched_stats p).

Definition set_context_switches (v : Z) (p : process) : process :=
  mk_process (pid p) (ppid p) (name p) (state p) (priority p) (time_slice p)
    (cpu_time p) (creation_time p) (page_directory p) (stack_base p)
    (stack_size p) (heap_base p) (heap_size p) (context p) (parent p)
    (next p) (prev p) (last_scheduled p) (sleep_until p)
    (message_queue_of p) v (next_in_queue p)
    (sched_stats p).

Definition set_next_in_queue (v : option positive) (p : process) : process :=
  mk_process (pid p) (ppid p) (name p) (state p) (priority p) (time_slice p)
    (cpu_time p) (creation_time p) (page_directory p) (stack_base p)
    (stack_size p) (heap_base p) (heap_size p) (context p) (parent p)
    (next p) (prev p) (last_scheduled p) (sleep_until p)
    (message_queue_of p) (context_switches p) v
    (sched_stats p).

Definition set_sched_stats (v : option process_sched_stats) (p : process) : process :=
  mk_process (pid p) (ppid p) (name p) (state p) (priority p) (time_slice p)
    (cpu_time p) (creation_time p) (page_directory p) (stack_base p)
    (stack_size p) (heap_base p) (heap_size p) (context p) (parent p)
    (next p) (prev p) (last_scheduled p) (sleep_until p)
    (message_queue_of p) (context_switches p) (next_in_queue p)
    v.

(** ** Kernel state *)

(** [struct ipc_message] of ipc.c; [msg_data] is the 256-byte payload
    array. *)
Record ipc_message : Set := mk_ipc_message {
  sender_pid : Z;
  msg_size : Z;
  msg_data : list Byte.byte;
  msg_next : option positive
}.

(** [struct neural_runqueue] of advanced_scheduler.c (the load averages
    and the total weight are never read by the modelled functions). *)
Record neural_runqueue : Set := mk_neural_runqueue {
  active_queue : list (option positive);
  expired_queue : list (option positive);
  queue_bitmap : Z;
  process_count : Z;
  rq_current : option positive;
  idle_task : option positive;
  clock : Z;
  algorithm : Z;
  rq_time_slice : Z
}.

(** Calls into the memory subsystem, in the order they are made. *)
Inductive mem_event : Set :=
  | Ev_kmalloc (a : positive)
  | Ev_kfree (a : positive)
  | Ev_create_address_space (a : positive)
  | Ev_destroy_address_space (a : positive)
  | Ev_vmm_alloc (size base : Z)
  | Ev_vmm_free (base : Z).

(** Globals of process.c. *)
Record pm_state : Set := mk_pm_state {
  current_process : option positive;
  idle_process : option positive;
  next_pid : Z;
  active_process_count : Z;
  stats_total_processes : Z;
  stats_active_processes : Z;
  stats_context_switches : Z;
  process_table : list (option positive)
}.

(** Globals of scheduler.c. *)
Record sch_state : Set := mk_sch_state {
  current_algorithm : Z;
  ready_queue_head : option positive;
  ready_queue_tail : option positive;
  running_process : option positive;
  last_schedule_time : Z;
  time_slice_counter : Z;
  priority_queues : list (option positive)
}.

(** The modelled state: the PCB heap, the message heap, the globals of
    each translation unit, the run queues, the two clocks and the log of
    calls into the memory subsystem. *)
Record kernel : Type := mk_kernel {
  procs : gmap positive process;
  msgs : gmap positive ipc_message;
  pm : pm_state;
  sch : sch_state;
  neural_runqueues : list neural_runqueue;
  timer_ticks : Z;
  system_time : Z;
  mem_log : list mem_event
}.

Definition set_procs (v : gmap positive process) (k : kernel) : kernel :=
  mk_kernel v (msgs k) (pm k) (sch k) (neural_runqueues k) (timer_ticks k)
            (system_time k) (mem_log k).
Definition set_msgs (v : gmap positive ipc_message) (k : kernel) : kernel :=
  mk_kernel (procs k) v (pm k) (sch k) (neural_runqueues k) (timer_ticks k)
            (system_time k) (mem_log k).
Definition set_pm (v : pm_state) (k : kernel) : kernel :=
  mk_kernel (procs k) (msgs k) v (sch k) (neural_runqueues k) (timer_ticks k)
            (system_time k) (mem_log k).
Definition set_sch (v : sch_state) (k : kernel) : kernel :=
  mk_kernel (procs k) (msgs k) (pm k) v (neural_runqueues k) (timer_ticks k)
            (system_time k) (mem_log k).
Definition set_neural_runqueues (v : list neural_runqueue) (k : kernel) : kernel :=
  mk_kernel (procs k) (msgs k) (pm k) (sch k) v (timer_ticks k)
            (system_time k) (mem_log k).
Definition set_timer_ticks (v : Z) (k : kernel) : kernel :=
  mk_kernel (procs k) (msgs k) (pm k) (sch k) (neural_runqueues k) v
            (system_time k) (mem_log k).
Definition log_event (e : mem_event) (k : kernel) : kernel :=
  mk_kernel (procs k) (msgs k) (pm k) (sch k) (neural_runqueues k)
            (timer_ticks k) (system_time k) (mem_log k ++ [e]).

Definition set_next_pid (v : Z) (s : pm_state) : pm_state :=
  mk_pm_state (current_process s) (idle_process s) v (active_process_count s)
    (stats_total_processes s) (stats_active_processes s)
    (stats_context_switches s) (process_table s).
Definition set_active_process_count (v : Z) (s : pm_state) : pm_state :=
  mk_pm_state (current_process s) (idle_process s) (next_pid s) v
    (stats_total_processes s) (stats_active_processes s)
    (stats_context_switches s) (process_table s).
Definition set_stats_total_processes (v : Z) (s : pm_state) : pm_state :=
  mk_pm_state (current_process s) (idle_process s) (next_pid s)
    (active_process_count s) v (stats_active_processes s)
    (stats_context_switches s) (process_table s).
Definition set_stats_active_processes (v : Z) (s : pm_state) : pm_state :=
  mk_pm_state (current_process s) (idle_process s) (next_pid s)
    (active_process_count s) (stats_total_processes s) v
    (stats_context_switches s) (process_table s).
Definition set_stats_context_switches (v : Z) (s : pm_state) : pm_state :=
  mk_pm_state (current_process s) (idle_process s) (next_pid s)
    (active_process_count s) (stats_total_processes s)
    (stats_active_processes s) v (process_table s).
Definition set_process_table (v : list (option positive)) (s : pm_state) : pm_state :=
  mk_pm_state (current_process s) (idle_process s) (next_pid s)
    (active_process_count s) (stats_total_processes s)
    (stats_active_processes s) (stats_context_switches s) v.

Definition set_current_algorithm (v : Z) (s : sch_state) : sch_state :=
  mk_sch_state v (ready_queue_head s) (ready_queue_tail s) (running_process s)
    (last_schedule_time s) (time_slice_counter s) (priority_queues s).
Definition set_ready_queue_head (v : option positive) (s : sch_state) : sch_state :=
  mk_sch_state (current_algorithm s) v (ready_queue_tail s) (running_process s)
    (last_schedule_time s) (time_slice_counter s) (priority_queues s).
Definition set_ready_queue_tail (v : option positive) (s : sch_state) : sch_state :=
  mk_sch_state (current_algorithm s) (ready_queue_head s) v (running_process s)
    (last_schedule_time s) (time_slice_counter s) (priority_queues s).
Definition set_running_process (v : option positive) (s : sch_state) : sch_state :=
  mk_sch_state (current_algorithm s) (ready_queue_head s) (ready_queue_tail s) v
    (last_schedule_time s) (time_slice_counter s) (priority_queues s).
Definition set_last_schedule_time (v : Z) (s : sch_state) : sch_state :=
  mk_sch_state (current_algorithm s) (ready_queue_head s) (ready_queue_tail s)
    (running_process s) v (time_slice_counter s) (priority_queues s).
Definition set_time_slice_counter (v : Z) (s : sch_state) : sch_state :=
  mk_sch_state (current_algorithm s) (ready_queue_head s) (ready_queue_tail s)
    (running_process s) (last_schedule_time s) v (priority_queues s).
Definition set_priority_queues (v : list (option positive)) (s : sch_state) : sch_state :=
  mk_sch_state (current_algorithm s) (ready_queue_head s) (ready_queue_tail s)
    (running_process s) (last_schedule_time s) (time_slice_counter s) v.

Definition upd_pm (f : pm_state → pm_state) (k : kernel) : kernel :=
  set_pm (f (pm k)) k.
Definition upd_sch (f : sch_state → sch_state) (k : kernel) : kernel :=
  set_sch (f (sch k)) k.

(** Pointer access: [p->field] reads through [deref], [p->field = v]
    writes through [store]; both fault on a pointer outside the heap. *)
Definition deref (k : kernel) (a : positive) : result process :=
  match procs k !! a with
  | Some P => Ret P
  | None => Fault
  end.

Definition store (a : positive) (f : process → process) (k : kernel) : result kernel :=
  match procs k !! a with
  | Some P => Ret (set_procs (<[a := f P]> (procs k)) k)
  | None => Fault
  end.

(** [timer_get_ticks()] reads the 64-bit tick counter. *)
Definition timer_get_ticks (k : kernel) : Z := timer_ticks k.

(** Array reads; an index outside the array (undefined in C, and never
    produced by the code below) reads as NULL. *)
Definition table_get (k : kernel) (i : Z) : option positive :=
  if i <? 0 then None
  else default None (process_table (pm k) !! Z.to_nat i).

Definition pq_get (k : kernel) (i : Z) : option positive :=
  default None (priority_queues (sch k) !! Z.to_nat i).

Definition pq_set (i : Z) (v : option positive) (k : kernel) : kernel :=
  upd_sch (λ s, set_priority_queues (<[Z.to_nat i := v]> (priority_queues s)) s) k.

(** ** kernel/process/process.c *)

(** The memory subsystem is an external collaborator: the answers it
    gives to the calls of one [process_create] are parameters.  A pointer
    answer [None] and a region answer [0] are the failure sentinels. *)
Record alloc_outcomes : Set := mk_alloc_outcomes {
  kmalloc_pcb : option positive;
  create_address_space : option positive;
  vmm_alloc_stack : Z;
  vmm_alloc_heap : Z
}.

(** [kfree(proc)]. *)
Definition kfree_process (a : positive) (k : kernel) : kernel :=
  log_event (Ev_kfree a) (set_procs (delete a (procs k)) k).

(** [pid = next_pid++; if (next_pid >= MAX_PROCESSES) next_pid = 1;] *)
Definition take_next_pid (k : kernel) : Z * kernel :=
  let pid := next_pid (pm k) in
  let n := wrap32 (pid + 1) in
  (pid, upd_pm (set_next_pid (if MAX_PROCESSES <=? n then 1 else n)) k).

(** The probing loop of [process_get_next_pid]:
    [while (process_table[pid] != NULL && pid < MAX_PROCESSES)]. *)
Fixpoint probe_pid (fuel : nat) (pid : Z) (k : kernel) : result (Z * kernel) :=
  match table_get k pid with
  | Some _ =>
      if pid <? MAX_PROCESSES then
        match fuel with
        | O => Diverge
        | S fuel' =>
            let '(pid', k') := take_next_pid k in
            probe_pid fuel' pid' k'
        end
      else Ret (pid, k)
  | None => Ret (pid, k)
  end.

Definition process_get_next_pid (fuel : nat) (k : kernel) : result (Z * kernel) :=
  let '(pid, k1) := take_next_pid k in
  probe_pid fuel pid k1.

(** The metadata block of [process_create] (lines 103-113). *)
Definition init_metadata (nm : string) (prio ticks : Z)
    (par : option positive) (pp : Z) (p : process) : process :=
  mk_process (pid p) pp (substring 0 63 nm) PROCESS_CREATED prio
    DEFAULT_TIME_SLICE (cpu_time p) ticks (page_directory p) (stack_base p)
    (stack_size p) (heap_base p) (heap_size p) (context p) par
    (next p) (prev p) (last_scheduled p) (sleep_until p)
    (message_queue_of p) (context_switches p) (next_in_queue p)
    (sched_stats p).

(** The saved context of a new process (lines 147-153). *)
Definition initial_context (entry_point : Z) (p : process) : cpu_context :=
  mk_cpu_context entry_point
    (wrap64 (stack_base p + stack_size p - 16))
    514 (* 0x202 *)
    (match page_directory p with Some d => Z.pos d | None => 0 end)
    8 (* 0x08 *) 16 (* 0x10 *).

Definition process_create (fuel : nat) (env : alloc_outcomes) (nm : string)
    (entry_point prio : Z) (k : kernel) : result (option positive * kernel) :=
  match kmalloc_pcb env with
  | None => Ret (None, k)
  | Some a =>
      (* kmalloc succeeded; memory_set clears the block *)
      let k := log_event (Ev_kmalloc a)
                 (set_procs (<[a := zero_process]> (procs k)) k) in
      '(newpid, k) ← process_get_next_pid fuel k;
      k ← store a (set_pid newpid) k;
      if MAX_PROCESSES <=? newpid then Ret (None, kfree_process a k)
      else
        pp ← match current_process (pm k) with
             | Some c => C ← deref k c; Ret (pid C)
             | None => Ret 0
             end;
        k ← store a (init_metadata nm prio (timer_get_ticks k)
                       (current_process (pm k)) pp) k;
        match create_address_space env with
        | None => Ret (None, kfree_process a k)
        | Some d =>
            let k := log_event (Ev_create_address_space d) k in
            k ← store a (set_page_directory (Some d)) k;
            let stk := vmm_alloc_stack env in
            k ← store a (set_stack stk PROCESS_STACK_SIZE) k;
            if stk =? 0 then
              Ret (None, kfree_process a
                           (log_event (Ev_destroy_address_space d) k))
            else
              let k := log_event (Ev_vmm_alloc PROCESS_STACK_SIZE stk) k in
              let hp := vmm_alloc_heap env in
              k ← store a (set_heap hp PROCESS_HEAP_SIZE) k;
              if hp =? 0 then
                Ret (None, kfree_process a
                             (log_event (Ev_destroy_address_space d)
                                (log_event (Ev_vmm_free stk) k)))
              else
                let k := log_event (Ev_vmm_alloc PROCESS_HEAP_SIZE hp) k in
                k ← store a (λ p, set_context (initial_context entry_point p) p) k;
                let k := upd_pm (λ s, set_process_table
                                        (<[Z.to_nat newpid := Some a]> (process_table s)) s) k in
                let k := upd_pm (λ s, set_active_process_count
                                        (wrap32 (active_process_count s + 1)) s) k in
                let k := upd_pm (λ s, set_stats_total_processes
                                        (wrap64 (stats_total_processes s + 1)) s) k in
                k ← store a (set_state PROCESS_READY) k;
                Ret (Some a, k)
        end
  end.

Definition process_get_current (k : kernel) : option positive :=
  current_process (pm k).

Definition process_get_by_pid (p : Z) (k : kernel) : option positive :=
  if MAX_PROCESSES <=? p then None else table_get k p.

(** [process_wake]. *)
Definition process_wake (proc : option positive) (k : kernel) : result kernel :=
  match proc with
  | None => Ret k
  | Some p =>
      P ← deref k p;
      if decide (state P = PROCESS_SLEEPING) then
        k ← store p (set_state PROCESS_READY) k;
        store p (set_sleep_until 0) k
      else Ret k
  end.

(** [get_scheduler_stats()] refreshes the active count before handing out
    the statistics block. *)
Definition get_scheduler_stats (k : kernel) : kernel :=
  upd_pm (λ s, set_stats_active_processes (active_process_count s) s) k.

(** ** kernel/process/scheduler.c *)

Definition scheduler_init (k : kernel) : kernel :=
  let k := upd_sch (set_ready_queue_head None) k in
  let k := upd_sch (set_ready_queue_tail None) k in
  let k := upd_sch (set_running_process None) k in
  let k := fold_left (λ k i, pq_set (Z.of_nat i) None k) (seq 0 5) k in
  let k := upd_sch (set_last_schedule_time (timer_get_ticks k)) k in
  upd_sch (set_time_slice_counter 0) k.

(** The insertion-point search of the SCHED_CFS case:
    [while (current->next && current->next->cpu_time < proc->cpu_time)]. *)
Fixpoint cfs_walk (fuel : nat) (k : kernel) (t : Z) (cur : positive) : result positive :=
  match fuel with
  | O => Diverge
  | S fuel' =>
      C ← deref k cur;
      match next C with
      | None => Ret cur
      | Some n =>
          N ← deref k n;
          if cpu_time N <? t then cfs_walk fuel' k t n else Ret cur
      end
  end.

Definition scheduler_add_process (fuel : nat) (proc : option positive)
    (k : kernel) : result kernel :=
  match proc with
  | None => Ret k
  | Some p =>
      P ← deref k p;
      if decide (state P = PROCESS_READY) then
        let alg := current_algorithm (sch k) in
        if alg =? SCHED_ROUND_ROBIN then
          k ← store p (set_next None) k;
          k ← store p (set_prev (ready_queue_tail (sch k))) k;
          k ← match ready_queue_tail (sch k) with
              | Some t => store t (set_next (Some p)) k
              | None => Ret (upd_sch (set_ready_queue_head (Some p)) k)
              end;
          Ret (upd_sch (set_ready_queue_tail (Some p)) k)
        else if alg =? SCHED_PRIORITY then
          if priority P <? 5 then
            k ← store p (set_next (pq_get k (priority P))) k;
            Ret (pq_set (priority P) (Some p) k)
          else Ret k
        else if alg =? SCHED_CFS then
          front ← match ready_queue_head (sch k) with
                  | None => Ret true
                  | Some h => H ← deref k h; Ret (cpu_time P <=? cpu_time H)
                  end;
          if front : bool then
            k ← store p (set_next (ready_queue_head (sch k))) k;
            k ← match ready_queue_head (sch k) with
                | Some h => store h (set_prev (Some p)) k
                | None => Ret k
                end;
            let k := upd_sch (set_ready_queue_head (Some p)) k in
            k ← store p (set_prev None) k;
            match ready_queue_tail (sch k) with
            | None => Ret (upd_sch (set_ready_queue_tail (Some p)) k)
            | Some _ => Ret k
            end
          else
            match ready_queue_head (sch k) with
            | None => Ret k (* excluded by [front] *)
            | Some h =>
                cur ← cfs_walk fuel k (cpu_time P) h;
                C ← deref k cur;
                k ← store p (set_next (next C)) k;
                k ← store p (set_prev (Some cur)) k;
                C ← deref k cur;
                k ← match next C with
                    | Some n => store n (set_prev (Some p)) k
                    | None => Ret (upd_sch (set_ready_queue_tail (Some p)) k)
                    end;
                store cur (set_next (Some p)) k
            end
        else Ret k
      else Ret k
  end.

(** The search of the SCHED_PRIORITY case of [scheduler_remove_process]:
    [while (current && current != proc)], returning [(prev, current)]. *)
Fixpoint pq_find (fuel : nat) (k : kernel) (p : positive)
    (pv cur : option positive) : result (option positive * option positive) :=
  match cur with
  | None => Ret (pv, None)
  | Some c =>
      if decide (c = p) then Ret (pv, Some c)
      else
        match fuel with
        | O => Diverge
        | S fuel' => C ← deref k c; pq_find fuel' k p (Some c) (next C)
        end
  end.

Definition scheduler_remove_process (fuel : nat) (proc : option positive)
    (k : kernel) : result kernel :=
  match proc with
  | None => Ret k
  | Some p =>
      let alg := current_algorithm (sch k) in
      k ← (if (alg =? SCHED_ROUND_ROBIN) || (alg =? SCHED_CFS) then
             P ← deref k p;
             k ← match prev P with
                 | Some q => store q (set_next (next P)) k
                 | None => Ret (upd_sch (set_ready_queue_head (next P)) k)
                 end;
             P ← deref k p;
             match next P with
             | Some n => store n (set_prev (prev P)) k
             | None => Ret (upd_sch (set_ready_queue_tail (prev P)) k)
             end
           else if alg =? SCHED_PRIORITY then
             P ← deref k p;
             if priority P <? 5 then
               '(pv, cur) ← pq_find fuel k p None (pq_get k (priority P));
               match cur with
               | None => Ret k
               | Some c =>
                   C ← deref k c;
                   match pv with
                   | Some q => store q (set_next (next C)) k
                   | None => Ret (pq_set (priority P) (next C) k)
                   end
               end
             else Ret k
           else Ret k);
      k ← store p (set_next None) k;
      store p (set_prev None) k
  end.

(** The bucket scan of the SCHED_PRIORITY case of [scheduler_next],
    from PRIORITY_REALTIME down to PRIORITY_IDLE; [n] is the number of
    buckets still to visit, the next one being [n - 1]. *)
Fixpoint priority_scan (n : nat) (k : kernel) : result (option positive * kernel) :=
  match n with
  | O => Ret (None, k)
  | S n' =>
      match pq_get k (Z.of_nat n') with
      | Some q =>
          Q ← deref k q;
          let k := pq_set (Z.of_nat n') (next Q) k in
          k ← store q (set_next None) k;
          Ret (Some q, k)
      | None => priority_scan n' k
      end
  end.

Definition scheduler_next (fuel : nat) (k : kernel) : result (option positive * kernel) :=
  let alg := current_algorithm (sch k) in
  if (alg =? SCHED_ROUND_ROBIN) || (alg =? SCHED_CFS) then
    match ready_queue_head (sch k) with
    | Some h => k ← scheduler_remove_process fuel (Some h) k; Ret (Some h, k)
    | None => Ret (None, k)
    end
  else if alg =? SCHED_PRIORITY then priority_scan 5 k
  else Ret (None, k).

(** [context_switch], up to its call of [context_switch_asm]: the
    bookkeeping that precedes the transfer of control.  The assembly
    routine is not among the sources; it saves the registers of [from] and
    loads those of [to], and it returns only when [from] is resumed by a
    later switch.  The state returned here is therefore the state in which
    [to] starts or resumes, and in the source whatever follows a call that
    switched is executed by [from] after its resumption. *)
Definition context_switch (from to : option positive) (k : kernel) : result kernel :=
  match to with
  | None => Ret k
  | Some t =>
      let k := get_scheduler_stats k in
      let k := upd_pm (λ s, set_stats_context_switches
                              (wrap64 (stats_context_switches s + 1)) s) k in
      k ← match from with
          | Some f =>
              k ← store f (λ p, set_context_switches
                                   (wrap64 (context_switches p + 1)) p) k;
              store f (λ p, if decide (state p = PROCESS_RUNNING)
                            then set_state PROCESS_READY p else p) k
          | None => Ret k
          end;
      k ← store t (set_state PROCESS_RUNNING) k;
      k ← store t (set_last_scheduled (timer_get_ticks k)) k;
      Ret (upd_sch (set_running_process (Some t)) k)
  end.

Definition scheduler_yield (fuel : nat) (k : kernel) : result kernel :=
  match process_get_current k with
  | None => Ret k
  | Some c =>
      C ← deref k c;
      k ← (if decide (state C = PROCESS_RUNNING) then
             k ← store c (set_state PROCESS_READY) k;
             scheduler_add_process fuel (Some c) k
           else Ret k);
      '(nxt, k) ← scheduler_next fuel k;
      match nxt with
      | Some n => context_switch (Some c) (Some n) k
      | None => Ret k
      end
  end.

Definition scheduler_preempt (fuel : nat) (k : kernel) : result kernel :=
  match process_get_current k with
  | None => Ret k
  | Some c =>
      let k := upd_sch (λ s, set_time_slice_counter
                               (wrap32 (time_slice_counter s + 1)) s) k in
      C ← deref k c;
      if time_slice C <=? time_slice_counter (sch k) then
        scheduler_yield fuel (upd_sch (set_time_slice_counter 0) k)
      else Ret k
  end.

(** One iteration of the wake-up loop of [scheduler_tick], for slot [i]. *)
Definition wake_slot (fuel : nat) (current_time : Z) (i : Z) (k : kernel) : result kernel :=
  match table_get k i with
  | None => Ret k
  | Some p =>
      P ← deref k p;
      if decide (state P = PROCESS_SLEEPING) then
        if sleep_until P <=? current_time then
          k ← process_wake (Some p) k;
          scheduler_add_process fuel (Some p) k
        else Ret k
      else Ret k
  end.

(** [for (int i = 0; i < MAX_PROCESSES; i++)]: [n] iterations from [i]. *)
Fixpoint wake_sleepers (fuel : nat) (current_time : Z) (n : nat) (i : Z)
    (k : kernel) : result kernel :=
  match n with
  | O => Ret k
  | S n' =>
      k ← wake_slot fuel current_time i k;
      wake_sleepers fuel current_time n' (i + 1) k
  end.

Definition scheduler_tick (fuel : nat) (k : kernel) : result kernel :=
  let current_time := timer_get_ticks k in
  k ← match process_get_current k with
      | Some c =>
          C ← deref k c;
          if decide (state C = PROCESS_RUNNING) then
            store c (λ p, set_cpu_time
                            (wrap64 (cpu_time p + (current_time - last_schedule_time (sch k)))) p) k
          else Ret k
      | None => Ret k
      end;
  k ← wake_sleepers fuel current_time (Z.to_nat MAX_PROCESSES) 0 k;
  k ← scheduler_preempt fuel k;
  Ret (upd_sch (set_last_schedule_time current_time) k).

Definition scheduler_set_algorithm (alg : Z) (k : kernel) : kernel :=
  scheduler_init (upd_sch (set_current_algorithm alg) k).

(** ** process.c, continued: the functions that call into the scheduler *)

(** The two assignments of [process_sleep] that precede the yield. *)
Definition enter_sleep (milliseconds : Z) (c : positive) (k : kernel) : result kernel :=
  k ← store c (set_state PROCESS_SLEEPING) k;
  store c (set_sleep_until (wrap32 (wrap64 (timer_get_ticks k + milliseconds / 10)))) k.

Definition process_sleep (fuel : nat) (milliseconds : Z) (k : kernel) : result kernel :=
  match current_process (pm k) with
  | None => Ret k
  | Some c =>
      k ← enter_sleep milliseconds c k;
      scheduler_yield fuel k
  end.

Definition process_terminate (fuel : nat) (proc : option positive) (k : kernel) : result kernel :=
  match proc with
  | None => Ret k
  | Some p =>
      k ← store p (set_state PROCESS_ZOMBIE) k;
      P ← deref k p;
      k ← match parent P with
          | Some q =>
              Q ← deref k q;
              if decide (state Q = PROCESS_BLOCKED)
              then store q (set_state PROCESS_READY) k
              else Ret k
          | None => Ret k
          end;
      scheduler_remove_process fuel (Some p) k
  end.

(** ** kernel/process/ipc.c *)

(** [memory_copy(dst, src, n)]: the first [n] bytes of [dst] are
    overwritten by the first [n] bytes of [src]. *)
Definition memory_copy (dst src : list Byte.byte) (n : Z) : list Byte.byte :=
  take (Z.to_nat n) src ++ drop (Z.to_nat n) dst.

(** Conversion of a [size_t] to the [int] a function returns. *)
Definition to_int (z : Z) : Z :=
  let w := wrap32 z in if w <? 2 ^ 31 then w else w - 2 ^ 32.

(** Answers of [kmalloc] to one [ipc_send_message]: the message block
    (with the bytes its data array happens to hold) and whether the queue
    header could be allocated. *)
Record ipc_outcomes : Set := mk_ipc_outcomes {
  kmalloc_msg : option positive;
  msg_block_bytes : list Byte.byte;
  kmalloc_queue : bool
}.

Definition deref_msg (k : kernel) (a : positive) : result ipc_message :=
  match msgs k !! a with
  | Some M => Ret M
  | None => Fault
  end.

Definition set_msg_next (v : option positive) (m : ipc_message) : ipc_message :=
  mk_ipc_message (sender_pid m) (msg_size m) (msg_data m) v.

Definition ipc_send_message (fuel : nat) (env : ipc_outcomes) (dest_pid : Z)
    (data : list Byte.byte) (size : Z) (k : kernel) : result (Z * kernel) :=
  if 256 <? size then Ret (-1, k)
  else
    match process_get_by_pid dest_pid k with
    | None => Ret (-1, k)
    | Some dest =>
        match process_get_current k with
        | None => Ret (-1, k)
        | Some sender =>
            Sp ← deref k sender;
            match kmalloc_msg env with
            | None => Ret (-1, k)
            | Some m =>
                let M := mk_ipc_message (pid Sp) (wrap32 size)
                           (memory_copy (msg_block_bytes env) data size) None in
                let k := log_event (Ev_kmalloc m)
                           (set_msgs (<[m := M]> (msgs k)) k) in
                D ← deref k dest;
                r ← match message_queue_of D with
                    | Some _ => Ret (Some k)
                    | None =>
                        if kmalloc_queue env then
                          k ← store dest (set_message_queue
                                            (Some (mk_message_queue None None 0))) k;
                          Ret (Some k)
                        else Ret None
                    end;
                match r with
                | None =>
                    Ret (-1, log_event (Ev_kfree m)
                               (set_msgs (delete m (msgs k)) k))
                | Some k =>
                    D ← deref k dest;
                    match message_queue_of D with
                    | None => Fault
                    | Some q =>
                        k ← match mq_tail q with
                            | Some t =>
                                T ← deref_msg k t;
                                Ret (set_msgs (<[t := set_msg_next (Some m) T]> (msgs k)) k)
                            | None => Ret k
                            end;
                        let q' := mk_message_queue
                                    (match mq_tail q with
                                     | Some _ => mq_head q
                                     | None => Some m
                                     end)
                                    (Some m) (wrap32 (mq_count q + 1)) in
                        k ← store dest (set_message_queue (Some q')) k;
                        D ← deref k dest;
                        k ← (if decide (state D = PROCESS_BLOCKED) then
                               k ← store dest (set_state PROCESS_READY) k;
                               scheduler_add_process fuel (Some dest) k
                             else Ret k);
                        Ret (0, k)
                    end
                end
            end
        end
    end.

(** [ipc_receive_message]: the result is the returned [int], the buffer
    after the call, and the new state. *)
Definition ipc_receive_message (buffer : list Byte.byte) (max_size : Z)
    (k : kernel) : result (Z * list Byte.byte * kernel) :=
  match process_get_current k with
  | None => Ret (-1, buffer, k)
  | Some c =>
      C ← deref k c;
      match message_queue_of C with
      | None => Ret (-1, buffer, k)
      | Some q =>
          match mq_head q with
          | None => Ret (-1, buffer, k)
          | Some m =>
              M ← deref_msg k m;
              let q' := mk_message_queue (msg_next M)
                          (match msg_next M with
                           | None => None
                           | Some _ => mq_tail q
                           end)
                          (wrap32 (mq_count q - 1)) in
              k ← store c (set_message_queue (Some q')) k;
              let copy_size := if msg_size M <? max_size then msg_size M else max_size in
              let buffer' := memory_copy buffer (msg_data M) copy_size in
              let k := log_event (Ev_kfree m) (set_msgs (delete m (msgs k)) k) in
              Ret (to_int copy_size, buffer', k)
          end
      end
  end.

(** ** kernel/smp/advanced_scheduler.c *)

Definition SCHED_ALGORITHM_ROUND_ROBIN : Z := 0.
Definition SCHED_ALGORITHM_CFS : Z := 1.
Definition SCHED_ALGORITHM_REALTIME : Z := 2.
Definition SCHED_ALGORITHM_NEURAL : Z := 3.
Definition SCHED_ALGORITHM_CYBERPUNK : Z := 4.

Definition neural_priority_to_weight (c : Z) : Z :=
  if c =? NEURAL_PRIORITY_CRITICAL then 88761
  else if c =? NEURAL_PRIORITY_HIGH then 29154
  else if c =? NEURAL_PRIORITY_NORMAL then 1024
  else if c =? NEURAL_PRIORITY_LOW then 335
  else if c =? NEURAL_PRIORITY_BACKGROUND then 110
  else if c =? NEURAL_PRIORITY_IDLE then 15
  else 1024.

(** [get_system_time()] is external; its current value is part of the
    state. *)
Definition get_system_time (k : kernel) : Z := system_time k.

(** [rq->active_queue[i]]. *)
Definition bucket (rq : neural_runqueue) (i : Z) : option positive :=
  default None (active_queue rq !! Z.to_nat i).

(** [for (int priority = lo; priority < lo + n; priority++)] with a body
    that threads an accumulator. *)
Fixpoint for_buckets {A : Type} (body : Z → A → result A) (n : nat) (lo : Z)
    (acc : A) : result A :=
  match n with
  | O => Ret acc
  | S n' => acc ← body lo acc; for_buckets body n' (lo + 1) acc
  end.

(** The [while (proc)] loop of [realtime_pick_next_task] over one bucket;
    the accumulator is [(earliest_deadline, earliest_time)]. *)
Fixpoint realtime_walk (fuel : nat) (k : kernel) (proc : option positive)
    (acc : option positive * Z) : result (option positive * Z) :=
  match proc with
  | None => Ret acc
  | Some p =>
      match fuel with
      | O => Diverge
      | S fuel' =>
          P ← deref k p;
          let acc' :=
            match sched_stats P with
            | Some st =>
                if (0 <? deadline st) && (deadline st <? snd acc)
                then (Some p, deadline st) else acc
            | None => acc
            end in
          realtime_walk fuel' k (next_in_queue P) acc'
      end
  end.

Definition realtime_pick_next_task (fuel : nat) (k : kernel)
    (rq : neural_runqueue) : result (option positive) :=
  r ← for_buckets (λ i acc, realtime_walk fuel k (bucket rq i) acc)
        2 0 (None, UINT64_MAX);
  Ret (fst r).

(** The score of [neural_pick_next_task], in 64-bit unsigned arithmetic;
    a zero divisor is a fault. *)
Definition neural_score (current_time : Z) (st : process_sched_stats) : result Z :=
  let wait := wrap64 (current_time - last_runtime st) in
  let neural_weight := neural_priority_to_weight (neural_class st) in
  let divisor := wrap64 (runtime st + 1) in
  if divisor =? 0 then Fault
  else Ret (wrap64 (wait * neural_weight) / divisor).

(** The [while (proc)] loop of [neural_pick_next_task] over one bucket;
    the accumulator is [(best_proc, best_score)]. *)
Fixpoint neural_walk (fuel : nat) (k : kernel) (current_time : Z)
    (proc : option positive) (acc : option positive * Z)
    : result (option positive * Z) :=
  match proc with
  | None => Ret acc
  | Some p =>
      match fuel with
      | O => Diverge
      | S fuel' =>
          P ← deref k p;
          acc' ← match sched_stats P with
                 | Some st =>
                     score ← neural_score current_time st;
                     Ret (if snd acc <? score then (Some p, score) else acc)
                 | None => Ret acc
                 end;
          neural_walk fuel' k current_time (next_in_queue P) acc'
      end
  end.

Definition neural_pick_next_task (fuel : nat) (k : kernel)
    (rq : neural_runqueue) : result (option positive) :=
  let current_time := get_system_time k in
  r ← for_buckets (λ i acc, neural_walk fuel k current_time (bucket rq i) acc)
        6 0 (None, 0);
  Ret (fst r).

Definition set_active_queue (v : list (option positive)) (rq : neural_runqueue) : neural_runqueue :=
  mk_neural_runqueue v (expired_queue rq) (queue_bitmap rq) (process_count rq)
    (rq_current rq) (idle_task rq) (clock rq) (algorithm rq) (rq_time_slice rq).
Definition set_queue_bitmap (v : Z) (rq : neural_runqueue) : neural_runqueue :=
  mk_neural_runqueue (active_queue rq) (expired_queue rq) v (process_count rq)
    (rq_current rq) (idle_task rq) (clock rq) (algorithm rq) (rq_time_slice rq).
Definition set_process_count (v : Z) (rq : neural_runqueue) : neural_runqueue :=
  mk_neural_runqueue (active_queue rq) (expired_queue rq) (queue_bitmap rq) v
    (rq_current rq) (idle_task rq) (clock rq) (algorithm rq) (rq_time_slice rq).

(** [int priority = (int)proc->priority; if (priority >= 6) priority = 5;] *)
Definition bucket_index (prio : Z) : Z :=
  let p := to_int prio in if 6 <=? p then 5 else p.

(** Read and write [neural_runqueues[cpu_id]]. *)
Definition rq_get (k : kernel) (cpu_id : Z) : result neural_runqueue :=
  match neural_runqueues k !! Z.to_nat cpu_id with
  | Some rq => Ret rq
  | None => Fault
  end.

Definition rq_upd (cpu_id : Z) (f : neural_runqueue → neural_runqueue) (k : kernel) : kernel :=
  set_neural_runqueues (alter f (Z.to_nat cpu_id) (neural_runqueues k)) k.

Section PriorityCritical.

(** [PRIORITY_CRITICAL] is named by [priority_to_nice] but declared
    nowhere in the headers of the repository; it stays a parameter. *)
Variable PRIORITY_CRITICAL : Z.

Definition priority_to_nice (prio : Z) : Z :=
  if prio =? PRIORITY_CRITICAL then -20
  else if prio =? PRIORITY_HIGH then -10
  else if prio =? PRIORITY_NORMAL then 0
  else if prio =? PRIORITY_LOW then 10
  else if prio =? PRIORITY_IDLE then 19
  else 0.

(** The statistics block written by [sched_init_process_stats]. *)
Definition initial_sched_stats (now prio : Z) : process_sched_stats :=
  mk_process_sched_stats 0 0 0 0 0 now 0 NEURAL_PRIORITY_NORMAL
    (priority_to_nice prio) 0 4294967295 (* 0xFFFFFFFF *).

(** [kmalloc_stats] tells whether the statistics block could be
    allocated. *)
Definition sched_add_process_to_runqueue (kmalloc_stats : bool)
    (proc : option positive) (cpu_id : Z) (k : kernel) : result kernel :=
  match proc with
  | None => Ret k
  | Some p =>
      if 64 <=? cpu_id then Ret k
      else
        rq ← rq_get k cpu_id;
        P ← deref k p;
        let i := bucket_index (priority P) in
        if i <? 0 then Fault
        else
          k ← store p (set_next_in_queue (bucket rq i)) k;
          let k := rq_upd cpu_id (λ rq, set_active_queue
                                          (<[Z.to_nat i := Some p]> (active_queue rq)) rq) k in
          let k := rq_upd cpu_id (λ rq, set_process_count
                                          (wrap32 (process_count rq + 1)) rq) k in
          let k := rq_upd cpu_id (λ rq, set_queue_bitmap
                                          (Z.lor (queue_bitmap rq) (Z.shiftl 1 i)) rq) k in
          P ← deref k p;
          match sched_stats P with
          | Some _ => Ret k
          | None =>
              if kmalloc_stats then
                store p (set_sched_stats
                           (Some (initial_sched_stats (get_system_time k) (priority P)))) k
              else Ret k
          end
  end.

End PriorityCritical.

(** The search of [sched_remove_process_from_runqueue]:
    [while (prev && prev->next_in_queue != proc)]. *)
Fixpoint rq_find_prev (fuel : nat) (k : kernel) (p : positive)
    (pv : option positive) : result (option positive) :=
  match pv with
  | None => Ret None
  | Some q =>
      Q ← deref k q;
      if decide (next_in_queue Q = Some p) then Ret (Some q)
      else
        match fuel with
        | O => Diverge
        | S fuel' => rq_find_prev fuel' k p (next_in_queue Q)
        end
  end.

Definition sched_remove_process_from_runqueue (fuel : nat)
    (proc : option positive) (cpu_id : Z) (k : kernel) : result kernel :=
  match proc with
  | None => Ret k
  | Some p =>
      if 64 <=? cpu_id then Ret k
      else
        rq ← rq_get k cpu_id;
        P ← deref k p;
        let i := bucket_index (priority P) in
        if i <? 0 then Fault
        else
          k ← (if decide (bucket rq i = Some p) then
                 Ret (rq_upd cpu_id (λ rq, set_active_queue
                                             (<[Z.to_nat i := next_in_queue P]> (active_queue rq)) rq) k)
               else
                 pv ← rq_find_prev fuel k p (bucket rq i);
                 match pv with
                 | Some q => store q (set_next_in_queue (next_in_queue P)) k
                 | None => Ret k
                 end);
          k ← store p (set_next_in_queue None) k;
          let k := rq_upd cpu_id (λ rq, set_process_count
                                          (wrap32 (process_count rq - 1)) rq) k in
          rq ← rq_get k cpu_id;
          match bucket rq i with
          | None =>
              Ret (rq_upd cpu_id (λ rq, set_queue_bitmap
                                          (Z.land (queue_bitmap rq)
                                                  (wrap32 (Z.lnot (Z.shiftl 1 i)))) rq) k)
          | Some _ => Ret k
          end
  end.

(** The run queue written by [advanced_scheduler_init] for one core. *)
Definition initial_runqueue (now global_algorithm : Z) : neural_runqueue :=
  mk_neural_runqueue (replicate 6 None) (replicate 6 None) 0 0 None None now
    global_algorithm (1000000000 / 1000).


(** ** process.c, continued: initialisation and destruction *)

Definition set_current_process (v : option positive) (s : pm_state) : pm_state :=
  mk_pm_state v (idle_process s) (next_pid s) (active_process_count s)
    (stats_total_processes s) (stats_active_processes s)
    (stats_context_switches s) (process_table s).
Definition set_idle_process (v : option positive) (s : pm_state) : pm_state :=
  mk_pm_state (current_process s) v (next_pid s) (active_process_count s)
    (stats_total_processes s) (stats_active_processes s)
    (stats_context_switches s) (process_table s).

(** [process_init]; [idle_entry] is the address of [idle_process_main]. *)
Definition process_init (fuel : nat) (env : alloc_outcomes) (idle_entry : Z)
    (k : kernel) : result kernel :=
  '(idle, k) ← process_create fuel env "idle" idle_entry PRIORITY_IDLE k;
  let k := upd_pm (set_idle_process idle) k in
  match idle with
  | None => Ret k
  | Some _ => Ret (upd_pm (set_current_process idle) k)
  end.

(** [process_destroy]: the stack, the heap and the address space are given
    back when the PCB names one, the slot of the pid is cleared, the active
    count is decremented and the PCB is freed. *)
Definition process_destroy (proc : option positive) (k : kernel) : result kernel :=
  match proc with
  | None => Ret k
  | Some p =>
      P ← deref k p;
      let k := if stack_base P =? 0 then k
               else log_event (Ev_vmm_free (stack_base P)) k in
      let k := if heap_base P =? 0 then k
               else log_event (Ev_vmm_free (heap_base P)) k in
      let k := match page_directory P with
               | Some d => log_event (Ev_destroy_address_space d) k
               | None => k
               end in
      let k := if pid P <? MAX_PROCESSES
               then upd_pm (λ s, set_process_table
                                   (<[Z.to_nat (pid P) := None]> (process_table s)) s) k
               else k in
      let k := upd_pm (λ s, set_active_process_count
                              (wrap32 (active_process_count s - 1)) s) k in
      Ret (kfree_process p k)
  end.

(** ** advanced_scheduler.c, continued *)

(** The table of [nice_to_weight]. *)
Definition nice_weights : list Z :=
  [88761; 71755; 56483; 46273; 36291;
   29154; 23254; 18705; 14949; 11916;
   9548; 7620; 6100; 4904; 3906;
   3121; 2501; 1991; 1586; 1277;
   1024; 820; 655; 526; 423;
   335; 272; 215; 172; 137;
   110; 87; 70; 56; 45;
   36; 29; 23; 18; 15].

(** [nice] is an [int], and so is [index]: the sum [nice + 20] is kept
    in 32 bits, two's complement, as the compiled code does.  Past
    [INT_MAX - 20] it comes out negative and the first test sends it to
    entry 0. *)
Definition nice_to_weight (nice : Z) : Z :=
  let index := to_int (nice + 20) in
  let index := if index <? 0 then 0 else index in
  let index := if 40 <=? index then 39 else index in
  default 0 (nice_weights !! Z.to_nat index).

(** The three accumulations of [sched_update_runtime_stats], on the
    statistics block. *)
Definition account_runtime (r : Z) (st : process_sched_stats) : process_sched_stats :=
  let weight := nice_to_weight (nice_value st) in
  mk_process_sched_stats (wrap64 (runtime st + r)) (wait_time st)
    (wrap64 (neural_cycles st + r / 1000)) (st_context_switches st)
    (preemptions st) (last_runtime st)
    (wrap64 (vruntime st + wrap64 (r * 1024) / weight))
    (neural_class st) (nice_value st) (deadline st) (neural_affinity st).

Definition sched_update_runtime_stats (proc : option positive) (r : Z)
    (k : kernel) : result kernel :=
  match proc with
  | None => Ret k
  | Some p =>
      P ← deref k p;
      match sched_stats P with
      | None => Ret k
      | Some st => store p (set_sched_stats (Some (account_runtime r st))) k
      end
  end.

(** The [while (proc)] loop of [cfs_pick_next_task] over one bucket; the
    accumulator is [(best_proc, min_vruntime)]. *)
Fixpoint cfs_pick_walk (fuel : nat) (k : kernel) (proc : option positive)
    (acc : option positive * Z) : result (option positive * Z) :=
  match proc with
  | None => Ret acc
  | Some p =>
      match fuel with
      | O => Diverge
      | S fuel' =>
          P ← deref k p;
          let acc' :=
            match sched_stats P with
            | Some st =>
                if vruntime st <? snd acc then (Some p, vruntime st) else acc
            | None => acc
            end in
          cfs_pick_walk fuel' k (next_in_queue P) acc'
      end
  end.

Definition cfs_pick_next_task (fuel : nat) (k : kernel)
    (rq : neural_runqueue) : result (option positive) :=
  r ← for_buckets (λ i acc, cfs_pick_walk fuel k (bucket rq i) acc)
        6 0 (None, UINT64_MAX);
  Ret (fst r).

(** [strstr(haystack, needle) != NULL]. *)
Fixpoint strstr (haystack needle : string) : bool :=
  String.prefix needle haystack ||
  match haystack with
  | EmptyString => false
  | String _ rest => strstr rest needle
  end.

(** The test of [cyberpunk_pick_next_task] on a process name. *)
Definition cyberpunk_name (nm : string) : bool :=
  strstr nm "neural" || strstr nm "cyber" || strstr nm "matrix".

(** The [while (proc)] loop of [cyberpunk_pick_next_task]: it stops at the
    first process with a cyberpunk name and keeps [best], the bucket head,
    when there is none. *)
Fixpoint cyberpunk_walk (fuel : nat) (k : kernel) (proc : option positive)
    (best : positive) : result positive :=
  match proc with
  | None => Ret best
  | Some p =>
      match fuel with
      | O => Diverge
      | S fuel' =>
          P ← deref k p;
          if cyberpunk_name (name P) then Ret p
          else cyberpunk_walk fuel' k (next_in_queue P) best
      end
  end.

(** The head of the first non-empty bucket among the [n] buckets from
    [lo] on. *)
Fixpoint first_bucket (rq : neural_runqueue) (n : nat) (lo : Z) : option positive :=
  match n with
  | O => None
  | S n' =>
      match bucket rq lo with
      | Some h => Some h
      | None => first_bucket rq n' (lo + 1)
      end
  end.

Definition cyberpunk_pick_next_task (fuel : nat) (k : kernel)
    (rq : neural_runqueue) : result (option positive) :=
  match first_bucket rq 6 0 with
  | Some h => r ← cyberpunk_walk fuel k (Some h) h; Ret (Some r)
  | None => Ret None
  end.

Definition pick_next_task (fuel : nat) (k : kernel) (rq : neural_runqueue)
    : result (option positive) :=
  let alg := algorithm rq in
  if alg =? SCHED_ALGORITHM_CFS then cfs_pick_next_task fuel k rq
  else if alg =? SCHED_ALGORITHM_REALTIME then realtime_pick_next_task fuel k rq
  else if alg =? SCHED_ALGORITHM_NEURAL then neural_pick_next_task fuel k rq
  else if alg =? SCHED_ALGORITHM_CYBERPUNK then cyberpunk_pick_next_task fuel k rq
  else Ret (first_bucket rq 6 0).

Definition set_rq_current (v : option positive) (rq : neural_runqueue) : neural_runqueue :=
  mk_neural_runqueue (active_queue rq) (expired_queue rq) (queue_bitmap rq)
    (process_count rq) v (idle_task rq) (clock rq) (algorithm rq) (rq_time_slice rq).
Definition set_clock (v : Z) (rq : neural_runqueue) : neural_runqueue :=
  mk_neural_runqueue (active_queue rq) (expired_queue rq) (queue_bitmap rq)
    (process_count rq) (rq_current rq) (idle_task rq) v (algorithm rq) (rq_time_slice rq).
Definition set_algorithm (v : Z) (rq : neural_runqueue) : neural_runqueue :=
  mk_neural_runqueue (active_queue rq) (expired_queue rq) (queue_bitmap rq)
    (process_count rq) (rq_current rq) (idle_task rq) (clock rq) v (rq_time_slice rq).

(** [stats->context_switches++; stats->last_runtime = rq->clock;] *)
Definition mark_scheduled (now : Z) (st : process_sched_stats) : process_sched_stats :=
  mk_process_sched_stats (runtime st) (wait_time st) (neural_cycles st)
    (wrap32 (st_context_switches st + 1)) (preemptions st) now (vruntime st)
    (neural_class st) (nice_value st) (deadline st) (neural_affinity st).

Definition sched_schedule_next (fuel : nat) (cpu_id : Z) (k : kernel)
    : result (option positive * kernel) :=
  if 64 <=? cpu_id then Ret (None, k)
  else
    rq ← rq_get k cpu_id;
    next_proc ← pick_next_task fuel k rq;
    match next_proc with
    | Some n =>
        let k := rq_upd cpu_id (set_rq_current (Some n)) k in
        let now := get_system_time k in
        let k := rq_upd cpu_id (set_clock now) k in
        N ← deref k n;
        k ← match sched_stats N with
            | Some st => store n (set_sched_stats (Some (mark_scheduled now st))) k
            | None => Ret k
            end;
        Ret (Some n, k)
    | None =>
        Ret (idle_task rq, rq_upd cpu_id (λ rq, set_rq_current (idle_task rq) rq) k)
    end.

(** The file-scope variables of advanced_scheduler.c that are not part of
    a run queue. *)
Record adv_globals : Set := mk_adv_globals {
  global_algorithm : Z;
  neural_time_base : Z;
  advanced_scheduler_initialized : Z
}.

(** [for (uint32_t i = lo; i < lo + n; i++)] over the cores. *)
Fixpoint for_cpus (body : Z → kernel → result kernel) (n : nat) (lo : Z)
    (k : kernel) : result kernel :=
  match n with
  | O => Ret k
  | S n' => k ← body lo k; for_cpus body n' (lo + 1) k
  end.

(** A write to [neural_runqueues[cpu_id]]; outside the array it is a
    fault. *)
Definition rq_store (cpu_id : Z) (f : neural_runqueue → neural_runqueue)
    (k : kernel) : result kernel :=
  _ ← rq_get k cpu_id; Ret (rq_upd cpu_id f k).


Definition advanced_scheduler_init (cpu_count : Z) (g : adv_globals) (k : kernel)
    : result (adv_globals * kernel) :=
  k ← for_cpus (λ i k, rq_store i (λ _, initial_runqueue (get_system_time k)
                                          (global_algorithm g)) k)
        (Z.to_nat cpu_count) 0 k;
  Ret (mk_adv_globals (global_algorithm g) (get_system_time k) 1, k).


(** ** scheduler.c, continued *)


(** ** kernel/interrupts/irq.c *)



(** ** kernel/syscalls/syscall.c *)

(** The error codes are defined as negative numbers in syscalls.h. *)
Definition ESRCH : Z := -3.

(** [sys_exit(status)]: the status is kept in [cpu_time]. *)
Definition sys_exit (fuel : nat) (status : Z) (k : kernel) : result (Z * kernel) :=
  match process_get_current k with
  | None => Ret (- ESRCH, k)
  | Some c =>
      k ← store c (set_cpu_time (wrap64 status)) k;
      k ← process_terminate fuel (Some c) k;
      k ← scheduler_yield fuel k;
      Ret (0, k)
  end.

(** * Specification vocabulary

    Predicates, observers and concrete states the properties are stated
    with.  None of them is part of the kernel. *)

(** ** Process table and memory log *)

(** Every slot a pid can name is occupied. *)
Definition slots_full (k : kernel) : Prop :=
  ∀ i, 1 ≤ i < MAX_PROCESSES → table_get k i ≠ None.

(** The invariant of [next_pid]: it starts at 1 and wraps back to 1. *)
Definition next_pid_in_range (k : kernel) : Prop :=
  1 ≤ next_pid (pm k) < MAX_PROCESSES.

(** Cyclic distance from the candidate [p] to a slot [f], both in 1..255. *)
Definition pid_distance (p f : Z) : Z := if p <=? f then f - p else f - p + 255.

(** A kernel whose process table is full: slot [i] holds the PCB at
    address [i + 1], whose pid is [i]. *)
Definition full_table : list (option positive) :=
  (λ i, Some (Pos.of_nat (S i))) <$> seq 0 256.

Definition full_heap : gmap positive process :=
  list_to_map ((λ i, (Pos.of_nat (S i),
                      set_state PROCESS_READY (set_pid (Z.of_nat i) zero_process)))
               <$> seq 0 256).

Definition full_kernel : kernel :=
  mk_kernel full_heap ∅
    (mk_pm_state None None 1 256 256 256 0 full_table)
    (mk_sch_state SCHED_ROUND_ROBIN None None None 0 0 (replicate 5 None))
    (replicate 64 (initial_runqueue 0 SCHED_ALGORITHM_NEURAL)) 0 0 [].

(** The fullest table 255 successful calls of [process_create] produce:
    slot 0, whose pid is never handed out, is free; the slots 1 to 255 are
    taken, and [next_pid] has come back to 1. *)
Definition crowded_table : list (option positive) :=
  None :: ((λ i, Some (Pos.of_nat (S i))) <$> seq 1 255).

Definition crowded_heap : gmap positive process :=
  list_to_map ((λ i, (Pos.of_nat (S i),
                      set_state PROCESS_READY (set_pid (Z.of_nat i) zero_process)))
               <$> seq 1 255).

Definition crowded_kernel : kernel :=
  mk_kernel crowded_heap ∅
    (mk_pm_state None None 1 255 255 255 0 crowded_table)
    (mk_sch_state SCHED_ROUND_ROBIN None None None 0 0 (replicate 5 None))
    (replicate 64 (initial_runqueue 0 SCHED_ALGORITHM_NEURAL)) 0 0 [].

(** The call that gives back what an acquiring call obtained. *)
Definition release_of (e : mem_event) : mem_event :=
  match e with
  | Ev_kmalloc a => Ev_kfree a
  | Ev_create_address_space d => Ev_destroy_address_space d
  | Ev_vmm_alloc _ base => Ev_vmm_free base
  | _ => e
  end.

(** What [process_create] has acquired when the address space, the stack
    or the heap cannot be had. *)
Definition acquired_before_failure (env : alloc_outcomes) : list mem_event :=
  match kmalloc_pcb env with
  | None => []
  | Some a =>
      Ev_kmalloc a ::
      match create_address_space env with
      | None => []
      | Some d =>
          Ev_create_address_space d ::
          (if vmm_alloc_stack env =? 0 then []
           else [Ev_vmm_alloc PROCESS_STACK_SIZE (vmm_alloc_stack env)])
      end
  end.

(** ** Concrete states *)

(** The state after boot, before any process exists. *)
Definition boot_kernel : kernel :=
  mk_kernel ∅ ∅
    (mk_pm_state None None 1 0 0 0 0 (replicate 256 None))
    (mk_sch_state SCHED_ROUND_ROBIN None None None 0 0 (replicate 5 None))
    (replicate 64 (initial_runqueue 0 SCHED_ALGORITHM_NEURAL)) 0 0 [].

(** A PCB as [process_create] leaves it, in a given state. *)
Definition demo_pcb (p : Z) (prio : Z) (st : process_state_t) : process :=
  set_state st (init_metadata "proc" prio 0 None 0 (set_pid p zero_process)).

(** ** Sleeping *)

(** One running process, pid 1, in slot 1 of the table, with the tick
    counter at [ticks]. *)
Definition sleeper_kernel (ticks : Z) : kernel :=
  mk_kernel {[ 1%positive := demo_pcb 1 PRIORITY_NORMAL PROCESS_RUNNING ]} ∅
    (mk_pm_state (Some 1%positive) (Some 1%positive) 2 1 1 1 0
                 (<[1%nat := Some 1%positive]> (replicate 256 None)))
    (mk_sch_state SCHED_ROUND_ROBIN None None None 0 0 (replicate 5 None))
    (replicate 64 (initial_runqueue 0 SCHED_ALGORITHM_NEURAL)) ticks 0 [].

(** ** Per-core run queues *)

(** The number of entries linked from a bucket head through
    [next_in_queue], and from the six buckets of a run queue. *)
Fixpoint chain_length (fuel : nat) (k : kernel) (proc : option positive) : result nat :=
  match proc with
  | None => Ret O
  | Some p =>
      match fuel with
      | O => Diverge
      | S fuel' =>
          P ← deref k p;
          n ← chain_length fuel' k (next_in_queue P);
          Ret (S n)
      end
  end.

Definition linked_entries (fuel : nat) (k : kernel) (rq : neural_runqueue) : result nat :=
  for_buckets (λ i acc, n ← chain_length fuel k (bucket rq i); Ret (acc + n)%nat) 6 0 O.

(** The equality the run queue is meant to maintain. *)
Definition count_matches (fuel : nat) (k : kernel) (cpu_id : Z) : Prop :=
  ∃ rq, neural_runqueues k !! Z.to_nat cpu_id = Some rq ∧
        linked_entries fuel k rq = Ret (Z.to_nat (process_count rq)).

(** Two processes of normal priority, at addresses 1 and 2, and empty run
    queues. *)
Definition two_process_kernel : kernel :=
  mk_kernel {[ 1%positive := demo_pcb 1 PRIORITY_NORMAL PROCESS_READY;
               2%positive := demo_pcb 2 PRIORITY_NORMAL PROCESS_READY ]} ∅
    (mk_pm_state None None 3 2 2 2 0
       (<[2%nat := Some 2%positive]> (<[1%nat := Some 1%positive]> (replicate 256 None))))
    (mk_sch_state SCHED_ROUND_ROBIN None None None 0 0 (replicate 5 None))
    (replicate 64 (initial_runqueue 0 SCHED_ALGORITHM_NEURAL)) 0 0 [].

(** ** Bucket chains and left-to-right selection *)

(** [chain k start l]: following [next_in_queue] from [start] visits
    exactly the PCBs [l], in order, and ends at NULL. *)
Fixpoint chain (k : kernel) (start : option positive) (l : list positive) : Prop :=
  match l with
  | [] => start = None
  | p :: l' =>
      start = Some p ∧ ∃ P, procs k !! p = Some P ∧ chain k (next_in_queue P) l'
  end.

(** The update both selection loops perform: a candidate without a key is
    passed over, and the incumbent is kept unless the candidate is strictly
    better. *)
Definition improve {A : Type} (key : A → option Z) (acc : option A * Z) (x : A)
    : option A * Z :=
  match key x with
  | Some s => if snd acc <? s then (Some x, s) else acc
  | None => acc
  end.

(** ** Earliest-deadline-first selection *)

(** The deadline of the PCB at [p], if it has a statistics block. *)
Definition proc_deadline (k : kernel) (p : positive) : option Z :=
  match procs k !! p with
  | Some P => deadline <$> sched_stats P
  | None => None
  end.

(** A candidate of the scan: a positive deadline, negated so that the
    earliest deadline is the largest key. *)
Definition deadline_key (k : kernel) (p : positive) : option Z :=
  match proc_deadline k p with
  | Some d => if 0 <? d then Some (- d) else None
  | None => None
  end.

Definition edf_step (k : kernel) (acc : option positive * Z) (p : positive)
    : option positive * Z :=
  let r := improve (deadline_key k) (acc.1, - acc.2) p in (r.1, - r.2).

(** A PCB of the given priority that carries a statistics block with the
    given deadline. *)
Definition deadline_pcb (p prio d : Z) : process :=
  set_sched_stats
    (Some (mk_process_sched_stats 0 0 0 0 0 0 0 NEURAL_PRIORITY_NORMAL 0 d 4294967295))
    (demo_pcb p prio PROCESS_READY).

(** Two processes of priority PRIORITY_REALTIME with deadlines 10 and 20. *)
Definition realtime_kernel : kernel :=
  mk_kernel {[ 1%positive := deadline_pcb 1 PRIORITY_REALTIME 10;
               2%positive := deadline_pcb 2 PRIORITY_REALTIME 20 ]} ∅
    (mk_pm_state None None 3 2 2 2 0
       (<[2%nat := Some 2%positive]> (<[1%nat := Some 1%positive]> (replicate 256 None))))
    (mk_sch_state SCHED_ROUND_ROBIN None None None 0 0 (replicate 5 None))
    (replicate 64 (initial_runqueue 0 SCHED_ALGORITHM_REALTIME)) 0 0 [].

(** ** Neural-adaptive selection *)

(** The score as a plain number, for a divisor that is not zero. *)
Definition score_of (now : Z) (st : process_sched_stats) : Z :=
  wrap64 (wrap64 (now - last_runtime st) * neural_priority_to_weight (neural_class st))
  / wrap64 (runtime st + 1).

(** The score of the PCB at [p], if it has a statistics block. *)
Definition proc_score (k : kernel) (p : positive) : option Z :=
  match procs k !! p with
  | Some P => score_of (get_system_time k) <$> sched_stats P
  | None => None
  end.

(** [runtime + 1] does not wrap to zero for the PCB at [p]. *)
Definition divisor_ok (k : kernel) (p : positive) : Prop :=
  ∀ P st, procs k !! p = Some P → sched_stats P = Some st → wrap64 (runtime st + 1) ≠ 0.

(** A PCB with a statistics block of the given runtime, last-run time and
    class, linked to [nxt] in its bucket. *)
Definition stats_pcb (p prio rt lr cls : Z) (nxt : option positive) : process :=
  set_next_in_queue nxt
    (set_sched_stats
       (Some (mk_process_sched_stats rt 0 0 0 0 lr 0 cls 0 0 4294967295))
       (demo_pcb p prio PROCESS_READY)).

(** Core 0 at time 1000 holds process 3 in bucket 0 (score 51200) and
    processes 2 and 1, in that order, in bucket 2 (both of score 102400). *)
Definition neural_kernel : kernel :=
  mk_kernel {[ 1%positive := stats_pcb 1 PRIORITY_NORMAL 9 0 NEURAL_PRIORITY_NORMAL None;
               2%positive := stats_pcb 2 PRIORITY_NORMAL 4 500 NEURAL_PRIORITY_NORMAL (Some 1%positive);
               3%positive := stats_pcb 3 PRIORITY_IDLE 0 950 NEURAL_PRIORITY_NORMAL None ]} ∅
    (mk_pm_state None None 4 3 3 3 0
       (<[3%nat := Some 3%positive]>
          (<[2%nat := Some 2%positive]> (<[1%nat := Some 1%positive]> (replicate 256 None)))))
    (mk_sch_state SCHED_ROUND_ROBIN None None None 0 0 (replicate 5 None))
    (mk_neural_runqueue [Some 3%positive; None; Some 2%positive; None; None; None]
       (replicate 6 None) 5 3 None None 0 SCHED_ALGORITHM_NEURAL 1000000
     :: replicate 63 (initial_runqueue 0 SCHED_ALGORITHM_NEURAL))
    0 1000 [].

Definition neural_rq0 : neural_runqueue :=
  mk_neural_runqueue [Some 3%positive; None; Some 2%positive; None; None; None]
    (replicate 6 None) 5 3 None None 0 SCHED_ALGORITHM_NEURAL 1000000.

Definition critical_stats : process_sched_stats :=
  mk_process_sched_stats 0 0 0 0 0 0 0 NEURAL_PRIORITY_CRITICAL 0 0 4294967295.

(** Core 0 at time 1000 holds one process, last run at time 1000. *)
Definition fresh_kernel : kernel :=
  mk_kernel {[ 1%positive := stats_pcb 1 PRIORITY_NORMAL 0 1000 NEURAL_PRIORITY_NORMAL None ]} ∅
    (mk_pm_state None None 2 1 1 1 0 (<[1%nat := Some 1%positive]> (replicate 256 None)))
    (mk_sch_state SCHED_ROUND_ROBIN None None None 0 0 (replicate 5 None))
    (mk_neural_runqueue [None; None; Some 1%positive; None; None; None]
       (replicate 6 None) 4 1 None None 0 SCHED_ALGORITHM_NEURAL 1000000
     :: replicate 63 (initial_runqueue 0 SCHED_ALGORITHM_NEURAL))
    0 1000 [].

(** ** IPC mailbox *)

(** [k'] has the same messages as [k], and every PCB of [k] is still
    there with the same mailbox. *)
Definition mailboxes_kept (k k' : kernel) : Prop :=
  msgs k' = msgs k ∧
  ∀ a P, procs k !! a = Some P →
         ∃ P', procs k' !! a = Some P' ∧ message_queue_of P' = message_queue_of P.

(** A mailbox with nothing in it: not allocated yet, or drained. *)
Definition mailbox_empty (P : process) : Prop :=
  message_queue_of P = None ∨
  message_queue_of P = Some (mk_message_queue None None 0).

(** The state in which the PCB at [c] is the current process. *)
Definition as_current (c : positive) (k : kernel) : kernel :=
  set_pm (mk_pm_state (Some c) (idle_process (pm k)) (next_pid (pm k))
            (active_process_count (pm k)) (stats_total_processes (pm k))
            (stats_active_processes (pm k)) (stats_context_switches (pm k))
            (process_table (pm k))) k.

(** Process 1 sends the three bytes "ABC" to process 2, whose mailbox has
    not been allocated yet. *)
Definition ipc_env : ipc_outcomes :=
  mk_ipc_outcomes (Some 9%positive) (replicate 256 Byte.x00) true.

Definition ipc_payload : list Byte.byte := [Byte.x41; Byte.x42; Byte.x43].

Definition ipc_sent : kernel :=
  match ipc_send_message 0 ipc_env 2 ipc_payload 3 (as_current 1 two_process_kernel) with
  | Ret (_, k) => k
  | _ => two_process_kernel
  end.

(** ** Round-robin ready queue *)

(** [dll k pv l]: the PCBs [l] are doubly linked in this order through
    [next] and [prev]; the first has [prev = pv], the last [next = NULL]. *)
Fixpoint dll (k : kernel) (pv : option positive) (l : list positive) : Prop :=
  match l with
  | [] => True
  | p :: l' =>
      ∃ P, procs k !! p = Some P ∧ prev P = pv ∧ next P = head l' ∧
           dll k (Some p) l'
  end.

(** The ready queue of [k] holds exactly the PCBs [l], head first. *)
Definition ready_queue (k : kernel) (l : list positive) : Prop :=
  ready_queue_head (sch k) = head l ∧
  ready_queue_tail (sch k) = last l ∧
  NoDup l ∧
  dll k None l.

(** [scheduler_add_process] called for each of [ps] in turn, and
    [scheduler_next] called [n] times, collecting what it returns. *)
Fixpoint add_all (fuel : nat) (ps : list positive) (k : kernel) : result kernel :=
  match ps with
  | [] => Ret k
  | p :: ps' => k ← scheduler_add_process fuel (Some p) k; add_all fuel ps' k
  end.

Fixpoint next_n (fuel : nat) (n : nat) (k : kernel)
    : result (list (option positive) * kernel) :=
  match n with
  | O => Ret ([], k)
  | S n' =>
      '(r, k) ← scheduler_next fuel k;
      '(rs, k) ← next_n fuel n' k;
      Ret (r :: rs, k)
  end.

(** Processes 1 and 2 are READY, process 3 is RUNNING and current; the
    ready queue is empty. *)
Definition rr_kernel : kernel :=
  mk_kernel {[ 1%positive := demo_pcb 1 PRIORITY_NORMAL PROCESS_READY;
               2%positive := demo_pcb 2 PRIORITY_NORMAL PROCESS_READY;
               3%positive := demo_pcb 3 PRIORITY_NORMAL PROCESS_RUNNING ]} ∅
    (mk_pm_state (Some 3%positive) (Some 3%positive) 4 3 3 3 0
       (<[3%nat := Some 3%positive]>
          (<[2%nat := Some 2%positive]> (<[1%nat := Some 1%positive]> (replicate 256 None)))))
    (mk_sch_state SCHED_ROUND_ROBIN None None None 0 0 (replicate 5 None))
    (replicate 64 (initial_runqueue 0 SCHED_ALGORITHM_NEURAL)) 0 0 [].

(** The same with processes 1 and 2 queued, in this order. *)
Definition rr_queued : kernel :=
  match add_all 0 [1%positive; 2%positive] rr_kernel with
  | Ret k => k
  | _ => rr_kernel
  end.

(** ** Pid allocation *)

(** The pid after [p] in the cycle 1, 2, ..., 255, 1. *)
Definition succ_pid (p : Z) : Z := if p =? 255 then 1 else p + 1.

(** [f] is the first free slot met when going round the cycle from
    [next_pid]. *)
Definition first_free (k : kernel) (f : Z) : Prop :=
  1 ≤ f < MAX_PROCESSES ∧ table_get k f = None ∧
  ∀ g, 1 ≤ g < MAX_PROCESSES →
       pid_distance (next_pid (pm k)) g < pid_distance (next_pid (pm k)) f →
       table_get k g ≠ None.

(** ** Creation and destruction *)

(** The pid of the current process, 0 when there is none: the [ppid] a new
    process is given. *)
Definition current_pid (k : kernel) : Z :=
  match current_process (pm k) with
  | Some c => match procs k !! c with Some C => pid C | None => 0 end
  | None => 0
  end.

(** The PCB a successful [process_create] leaves behind. *)
Definition created_pcb (env : alloc_outcomes) (nm : string) (entry_point prio : Z)
    (f : Z) (d : positive) (k : kernel) : process :=
  mk_process f (current_pid k) (substring 0 63 nm) PROCESS_READY prio
    DEFAULT_TIME_SLICE 0 (timer_ticks k) (Some d)
    (vmm_alloc_stack env) PROCESS_STACK_SIZE (vmm_alloc_heap env) PROCESS_HEAP_SIZE
    (mk_cpu_context entry_point
       (wrap64 (vmm_alloc_stack env + PROCESS_STACK_SIZE - 16)) 514 (Z.pos d) 8 16)
    (current_process (pm k)) None None 0 0 None 0 None None.

(** The state a successful [process_create] leaves behind: the PCB at [a]
    with pid [f], registered in slot [f]. *)
Definition created_kernel (env : alloc_outcomes) (nm : string) (entry_point prio : Z)
    (a : positive) (f : Z) (d : positive) (k : kernel) : kernel :=
  mk_kernel (<[a := created_pcb env nm entry_point prio f d k]> (procs k)) (msgs k)
    (mk_pm_state (current_process (pm k)) (idle_process (pm k)) (succ_pid f)
       (wrap32 (active_process_count (pm k) + 1))
       (wrap64 (stats_total_processes (pm k) + 1))
       (stats_active_processes (pm k)) (stats_context_switches (pm k))
       (<[Z.to_nat f := Some a]> (process_table (pm k))))
    (sch k) (neural_runqueues k) (timer_ticks k) (system_time k)
    (mem_log k ++ [Ev_kmalloc a; Ev_create_address_space d;
                   Ev_vmm_alloc PROCESS_STACK_SIZE (vmm_alloc_stack env);
                   Ev_vmm_alloc PROCESS_HEAP_SIZE (vmm_alloc_heap env)]).

(** Every occupied slot of the 256-entry table points to a PCB in the heap
    whose pid is the slot number; in particular no PCB sits in two slots. *)
Definition table_consistent (k : kernel) : Prop :=
  length (process_table (pm k)) = 256%nat ∧
  ∀ i a, table_get k i = Some a → ∃ P, procs k !! a = Some P ∧ pid P = i.

(** The calls by which [process_destroy] gives back what the PCB [P] at
    address [p] holds. *)
Definition releases (p : positive) (P : process) : list mem_event :=
  (if stack_base P =? 0 then [] else [Ev_vmm_free (stack_base P)]) ++
  (if heap_base P =? 0 then [] else [Ev_vmm_free (heap_base P)]) ++
  match page_directory P with
  | Some d => [Ev_destroy_address_space d]
  | None => []
  end ++ [Ev_kfree p].

(** ** Queue links *)

(** A PCB with its two ready-queue links cleared. *)
Definition unlinked (P : process) : process := set_prev None (set_next None P).

(** Everything of the state that is neither a PCB nor a queue head:
    the globals of process.c, the messages, the clocks, the per-core run
    queues, the log, and the scheduler's algorithm, running process and
    time accounting. *)
Definition globals_kept (k k' : kernel) : Prop :=
  pm k' = pm k ∧ msgs k' = msgs k ∧ timer_ticks k' = timer_ticks k ∧
  system_time k' = system_time k ∧ neural_runqueues k' = neural_runqueues k ∧
  mem_log k' = mem_log k ∧
  current_algorithm (sch k') = current_algorithm (sch k) ∧
  running_process (sch k') = running_process (sch k) ∧
  last_schedule_time (sch k') = last_schedule_time (sch k) ∧
  time_slice_counter (sch k') = time_slice_counter (sch k).

(** [k'] differs from [k] at most in the queue heads of the scheduler and
    in the [next] and [prev] links of PCBs. *)
Definition links_only (k k' : kernel) : Prop :=
  globals_kept k k' ∧
  ∀ a, (unlinked <$> (procs k' !! a)) = (unlinked <$> (procs k !! a)).

(** The link a queue element has to its predecessor: the last element of
    what precedes it, or [pv] when nothing does. *)
Definition link_before (pv : option positive) (l : list positive) : option positive :=
  match last l with
  | Some q => Some q
  | None => pv
  end.

(** ** More concrete states *)

(** Processes 1, 2 and 3, all READY, queued in this order by
    [scheduler_add_process] under the algorithm [alg]; process 4 is
    RUNNING, current, and in no queue. *)
Definition four_process_kernel (alg : Z) : kernel :=
  mk_kernel {[ 1%positive := demo_pcb 1 PRIORITY_NORMAL PROCESS_READY;
               2%positive := demo_pcb 2 PRIORITY_NORMAL PROCESS_READY;
               3%positive := demo_pcb 3 PRIORITY_NORMAL PROCESS_READY;
               4%positive := demo_pcb 4 PRIORITY_NORMAL PROCESS_RUNNING ]} ∅
    (mk_pm_state (Some 4%positive) (Some 4%positive) 5 4 4 4 0
       (<[4%nat := Some 4%positive]>
          (<[3%nat := Some 3%positive]>
             (<[2%nat := Some 2%positive]>
                (<[1%nat := Some 1%positive]> (replicate 256 None))))))
    (mk_sch_state alg None None None 0 0 (replicate 5 None))
    (replicate 64 (initial_runqueue 0 SCHED_ALGORITHM_NEURAL)) 0 0 [].

Definition three_queued (alg : Z) : kernel :=
  match add_all 0 [1%positive; 2%positive; 3%positive] (four_process_kernel alg) with
  | Ret k => k
  | _ => four_process_kernel alg
  end.

(** ** The wake-up loop *)

(** What the wake-up loop looks at and writes: state and sleep-until. *)
Definition sleep_obs (P : process) : process_state_t * Z := (state P, sleep_until P).

(** The PCB at [p] is SLEEPING with its sleep-until reached at [now]. *)
Definition due_b (k : kernel) (now : Z) (p : positive) : bool :=
  match procs k !! p with
  | Some P => bool_decide (state P = PROCESS_SLEEPING) && (sleep_until P <=? now)
  | None => false
  end.

(** The due sleepers of the [n] table slots from [i] on, in slot order. *)
Fixpoint due_from (k : kernel) (now : Z) (n : nat) (i : Z) : list positive :=
  match n with
  | O => []
  | S n' =>
      match table_get k i with
      | Some p =>
          if due_b k now p then p :: due_from k now n' (i + 1)
          else due_from k now n' (i + 1)
      | None => due_from k now n' (i + 1)
      end
  end.

(** No PCB sits in two slots of the table, and every PCB in the table is
    in the heap. *)
Definition table_sound (k : kernel) : Prop :=
  (∀ i p, table_get k i = Some p → is_Some (procs k !! p)) ∧
  (∀ i j p, table_get k i = Some p → table_get k j = Some p → i = j).

(** A PCB that sleeps until tick [t]. *)
Definition sleeping_pcb (p t : Z) : process :=
  set_sleep_until t (demo_pcb p PRIORITY_NORMAL PROCESS_SLEEPING).

(** At tick 10, with an empty ready queue: process 1 sleeps until tick 5,
    process 2 until tick 50, process 3 until tick 3; process 4 is RUNNING
    and current, with 3 of its 10 ticks used. *)
Definition sleepers_kernel : kernel :=
  mk_kernel {[ 1%positive := sleeping_pcb 1 5;
               2%positive := sleeping_pcb 2 50;
               3%positive := sleeping_pcb 3 3;
               4%positive := demo_pcb 4 PRIORITY_NORMAL PROCESS_RUNNING ]} ∅
    (mk_pm_state (Some 4%positive) (Some 4%positive) 5 4 4 4 0
       (<[4%nat := Some 4%positive]>
          (<[3%nat := Some 3%positive]>
             (<[2%nat := Some 2%positive]>
                (<[1%nat := Some 1%positive]> (replicate 256 None))))))
    (mk_sch_state SCHED_ROUND_ROBIN None None (Some 4%positive) 8 3 (replicate 5 None))
    (replicate 64 (initial_runqueue 0 SCHED_ALGORITHM_NEURAL)) 10 0 [].

(** What [process_wake] writes to a SLEEPING PCB. *)
Definition woken (P : process) : process :=
  set_sleep_until 0 (set_state PROCESS_READY P).

(** ** The timer tick *)

(** [k'] has the algorithm, the time accounting of the scheduler, the
    tick counter, the current process and the process table of [k], and
    the field [g] of every PCB is as in [k]. *)
Definition kept {A : Type} (g : process → A) (k k' : kernel) : Prop :=
  current_algorithm (sch k') = current_algorithm (sch k) ∧
  time_slice_counter (sch k') = time_slice_counter (sch k) ∧
  last_schedule_time (sch k') = last_schedule_time (sch k) ∧
  timer_ticks k' = timer_ticks k ∧
  current_process (pm k') = current_process (pm k) ∧
  process_table (pm k') = process_table (pm k) ∧
  ∀ a, (g <$> (procs k' !! a)) = (g <$> (procs k !! a)).

(** The fields of a PCB that a yield never writes. *)
Definition yield_fixed (P : process)
    : Z * Z * Z * Z * Z * option message_queue :=
  (pid P, priority P, time_slice P, cpu_time P, sleep_until P, message_queue_of P).

(** ** Priority queues *)

(** [nchain k start l]: following [next] from [start] visits exactly the
    PCBs [l], in order, and ends at NULL. *)
Fixpoint nchain (k : kernel) (start : option positive) (l : list positive) : Prop :=
  match l with
  | [] => start = None
  | p :: l' =>
      start = Some p ∧ ∃ P, procs k !! p = Some P ∧ nchain k (next P) l'
  end.

(** The five priority queues of [k] hold the PCBs [ls], queue by queue
    and head first; no PCB is queued twice. *)
Definition priority_buckets (k : kernel) (ls : list (list positive)) : Prop :=
  length (priority_queues (sch k)) = 5%nat ∧ length ls = 5%nat ∧
  (∀ i l, ls !! i = Some l → nchain k (pq_get k (Z.of_nat i)) l ∧ NoDup l) ∧
  (∀ i j l l' p, ls !! i = Some l → ls !! j = Some l' → p ∈ l → p ∈ l' → i = j).

(** Under SCHED_PRIORITY: process 1 of low priority and processes 2 and 3
    of high priority, all READY, added in this order; process 4 is RUNNING
    and current. *)
Definition mixed_priority_kernel : kernel :=
  mk_kernel {[ 1%positive := demo_pcb 1 PRIORITY_LOW PROCESS_READY;
               2%positive := demo_pcb 2 PRIORITY_HIGH PROCESS_READY;
               3%positive := demo_pcb 3 PRIORITY_HIGH PROCESS_READY;
               4%positive := demo_pcb 4 PRIORITY_NORMAL PROCESS_RUNNING ]} ∅
    (mk_pm_state (Some 4%positive) (Some 4%positive) 5 4 4 4 0
       (<[4%nat := Some 4%positive]>
          (<[3%nat := Some 3%positive]>
             (<[2%nat := Some 2%positive]>
                (<[1%nat := Some 1%positive]> (replicate 256 None))))))
    (mk_sch_state SCHED_PRIORITY None None None 0 0 (replicate 5 None))
    (replicate 64 (initial_runqueue 0 SCHED_ALGORITHM_NEURAL)) 0 0 [].

Definition mixed_priority_queued : kernel :=
  match add_all 0 [1%positive; 2%positive; 3%positive] mixed_priority_kernel with
  | Ret k => k
  | _ => mixed_priority_kernel
  end.

(** A READY PCB that has used [t] ticks of CPU time. *)
Definition cpu_pcb (p t : Z) : process :=
  set_cpu_time t (demo_pcb p PRIORITY_NORMAL PROCESS_READY).

(** Under SCHED_CFS: processes 1, 2 and 3 have used 5, 20 and 10 ticks. *)
Definition fair_kernel : kernel :=
  mk_kernel {[ 1%positive := cpu_pcb 1 5;
               2%positive := cpu_pcb 2 20;
               3%positive := cpu_pcb 3 10 ]} ∅
    (mk_pm_state None None 4 3 3 3 0
       (<[3%nat := Some 3%positive]>
          (<[2%nat := Some 2%positive]>
             (<[1%nat := Some 1%positive]> (replicate 256 None)))))
    (mk_sch_state SCHED_CFS None None None 0 0 (replicate 5 None))
    (replicate 64 (initial_runqueue 0 SCHED_ALGORITHM_NEURAL)) 0 0 [].

(** The same with processes 2 and 1 added, in this order. *)
Definition fair_queued : kernel :=
  match add_all 2 [2%positive; 1%positive] fair_kernel with
  | Ret k => k
  | _ => fair_kernel
  end.

From stdpp Require sorting.

(** The CPU time accounted to the PCB at [a] (0 for a dangling pointer),
    and the order of the fair queue. *)
Definition cpu_of (k : kernel) (a : positive) : Z :=
  default 0 (cpu_time <$> (procs k !! a)).

Definition by_cpu_time (k : kernel) (l : list positive) : Prop :=
  Sorted.StronglySorted (λ a b, cpu_of k a ≤ cpu_of k b) l.

(** ** The mailbox as a queue *)

(** [mchain k start l]: following [next] from the message [start] visits
    exactly the messages [l], in order, and ends at NULL. *)
Fixpoint mchain (k : kernel) (start : option positive) (l : list positive) : Prop :=
  match l with
  | [] => start = None
  | m :: l' =>
      start = Some m ∧ ∃ M, msgs k !! m = Some M ∧ mchain k (msg_next M) l'
  end.

(** The mailbox of the PCB at [p] holds exactly the messages [l], oldest
    first; a mailbox that has not been allocated holds nothing. *)
Definition mailbox (k : kernel) (p : positive) (l : list positive) : Prop :=
  ∃ P, procs k !! p = Some P ∧
       match message_queue_of P with
       | None => l = []
       | Some q =>
           mq_head q = head l ∧ mq_tail q = last l ∧
           mq_count q = wrap32 (Z.of_nat (length l)) ∧
           NoDup l ∧ mchain k (mq_head q) l
       end.


(** Processes 1 and 2 are READY and queued under round-robin; process 3
    is BLOCKED and in no queue; process 4 is RUNNING and current. *)
Definition blocked_receiver_kernel : kernel :=
  let k := four_process_kernel SCHED_ROUND_ROBIN in
  let k := set_procs (<[3%positive := demo_pcb 3 PRIORITY_NORMAL PROCESS_BLOCKED]> (procs k)) k in
  match add_all 0 [1%positive; 2%positive] k with
  | Ret k' => k'
  | _ => k
  end.

(** ** Fair selection on a run queue *)

(** The virtual runtime of the PCB at [p], if it has a statistics
    block. *)
Definition proc_vruntime (k : kernel) (p : positive) : option Z :=
  match procs k !! p with
  | Some P => vruntime <$> sched_stats P
  | None => None
  end.

(** Negated, so that the least virtual runtime is the largest key. *)
Definition vruntime_key (k : kernel) (p : positive) : option Z :=
  Z.opp <$> proc_vruntime k p.

Definition cfs_step (k : kernel) (acc : option positive * Z) (p : positive)
    : option positive * Z :=
  let r := improve (vruntime_key k) (acc.1, - acc.2) p in (r.1, - r.2).

(** A PCB with a statistics block of the given virtual runtime, linked to
    [nxt] in its bucket. *)
Definition vruntime_pcb (p prio vr : Z) (nxt : option positive) : process :=
  set_next_in_queue nxt
    (set_sched_stats
       (Some (mk_process_sched_stats 0 0 0 0 0 0 vr NEURAL_PRIORITY_NORMAL 0 0 4294967295))
       (demo_pcb p prio PROCESS_READY)).

(** Core 0 runs the fair algorithm and holds process 3 (virtual runtime
    10) in bucket 0 and processes 2 (virtual runtime 30) and 1 (virtual
    runtime 10), in that order, in bucket 2. *)
Definition vruntime_kernel : kernel :=
  mk_kernel {[ 1%positive := vruntime_pcb 1 PRIORITY_NORMAL 10 None;
               2%positive := vruntime_pcb 2 PRIORITY_NORMAL 30 (Some 1%positive);
               3%positive := vruntime_pcb 3 PRIORITY_IDLE 10 None ]} ∅
    (mk_pm_state None None 4 3 3 3 0
       (<[3%nat := Some 3%positive]>
          (<[2%nat := Some 2%positive]> (<[1%nat := Some 1%positive]> (replicate 256 None)))))
    (mk_sch_state SCHED_ROUND_ROBIN None None None 0 0 (replicate 5 None))
    (mk_neural_runqueue [Some 3%positive; None; Some 2%positive; None; None; None]
       (replicate 6 None) 5 3 None None 0 SCHED_ALGORITHM_CFS 1000000
     :: replicate 63 (initial_runqueue 0 SCHED_ALGORITHM_CFS))
    0 1000 [].

Definition vruntime_rq0 : neural_runqueue :=
  mk_neural_runqueue [Some 3%positive; None; Some 2%positive; None; None; None]
    (replicate 6 None) 5 3 None None 0 SCHED_ALGORITHM_CFS 1000000.

(** ** Cyberpunk selection *)

(** The PCB at [p] has a name that [cyberpunk_pick_next_task] prefers. *)
Definition cyber (k : kernel) (p : positive) : bool :=
  match procs k !! p with
  | Some P => cyberpunk_name (name P)
  | None => false
  end.

(** A PCB with the given name, linked to [nxt] in its bucket. *)
Definition named_pcb (nm : string) (p prio : Z) (nxt : option positive) : process :=
  set_next_in_queue nxt (init_metadata nm prio 0 None 0 (set_pid p zero_process)).

(** Core 0 holds, in bucket 1, the processes 1 (shell), 2 (cyberdeck) and
    3 (neural-net) in that order, and in bucket 3 the process 4
    (matrix). *)
Definition cyberpunk_kernel : kernel :=
  mk_kernel {[ 1%positive := named_pcb "shell" 1 PRIORITY_LOW (Some 2%positive);
               2%positive := named_pcb "cyberdeck" 2 PRIORITY_LOW (Some 3%positive);
               3%positive := named_pcb "neural-net" 3 PRIORITY_LOW None;
               4%positive := named_pcb "matrix" 4 PRIORITY_HIGH None ]} ∅
    (mk_pm_state None None 5 4 4 4 0
       (<[4%nat := Some 4%positive]>
          (<[3%nat := Some 3%positive]>
             (<[2%nat := Some 2%positive]>
                (<[1%nat := Some 1%positive]> (replicate 256 None))))))
    (mk_sch_state SCHED_ROUND_ROBIN None None None 0 0 (replicate 5 None))
    (mk_neural_runqueue [None; Some 1%positive; None; Some 4%positive; None; None]
       (replicate 6 None) 10 4 None None 0 SCHED_ALGORITHM_CYBERPUNK 1000000
     :: replicate 63 (initial_runqueue 0 SCHED_ALGORITHM_CYBERPUNK))
    0 1000 [].

Definition cyberpunk_rq0 : neural_runqueue :=
  mk_neural_runqueue [None; Some 1%positive; None; Some 4%positive; None; None]
    (replicate 6 None) 10 4 None None 0 SCHED_ALGORITHM_CYBERPUNK 1000000.

(** ** Scheduling on a core *)

(** [n] calls of [sched_schedule_next] on the same core, with the
    processes they returned. *)
Fixpoint schedule_n (fuel : nat) (cpu_id : Z) (n : nat) (k : kernel)
    : result (list (option positive) * kernel) :=
  match n with
  | O => Ret ([], k)
  | S n' =>
      '(r, k) ← sched_schedule_next fuel cpu_id k;
      '(rs, k) ← schedule_n fuel cpu_id n' k;
      Ret (r :: rs, k)
  end.

(** The run queue of core [cpu_id] uses the fallback of [pick_next_task]
    and the head of its first non-empty bucket is [h], a PCB of the
    heap. *)
Definition fallback_head (cpu_id : Z) (h : positive) (k : kernel) : Prop :=
  ∃ rq (i : nat),
    neural_runqueues k !! Z.to_nat cpu_id = Some rq ∧
    ¬ (1 ≤ algorithm rq ≤ 4) ∧
    (i < 6)%nat ∧
    (∀ j : nat, (j < i)%nat → bucket rq (Z.of_nat j) = None) ∧
    bucket rq (Z.of_nat i) = Some h ∧
    is_Some (procs k !! h).

(** ** Per-core run queues as lists *)

(** The run queue [rq] holds, in its six buckets, exactly the chains
    [ls]: no process is linked twice, the count is the number of linked
    processes and the bitmap has the bits of the non-empty buckets
    set. *)
Definition runqueue_holds (k : kernel) (rq : neural_runqueue)
    (ls : list (list positive)) : Prop :=
  length ls = 6%nat ∧ length (active_queue rq) = 6%nat ∧
  (∀ (j : nat) l, ls !! j = Some l → chain k (bucket rq (Z.of_nat j)) l) ∧
  NoDup (concat ls) ∧
  process_count rq = wrap32 (Z.of_nat (length (concat ls))) ∧
  (∀ (j : nat) l, ls !! j = Some l →
                  Z.testbit (queue_bitmap rq) (Z.of_nat j) = bool_decide (l ≠ [])).

(** ** The boot sequence *)

(** What the allocators answer to the creation of the process whose PCB is
    the block [a]. *)
Definition boot_alloc (a : positive) : alloc_outcomes :=
  mk_alloc_outcomes (Some a) (Some (a + 100)%positive)
    (Z.pos a * 1048576) (Z.pos a * 1048576 + 524288).

(** The calls by which [kernel_main] sets up process management and its
    two test processes: [process_init], [scheduler_init], two
    [process_create] and, for each process created, a
    [scheduler_add_process].  The PCBs are the blocks 1 (idle, pid 1), 2
    (test_proc_1, pid 2) and 3 (test_proc_2, pid 3). *)
Definition booted : result kernel :=
  k ← process_init 255 (boot_alloc 1) 4198400 boot_kernel;
  let k := scheduler_init k in
  '(proc1, k) ← process_create 255 (boot_alloc 2) "test_proc_1" 4202496 PRIORITY_NORMAL k;
  '(proc2, k) ← process_create 255 (boot_alloc 3) "test_proc_2" 4206592 PRIORITY_LOW k;
  k ← scheduler_add_process 0 proc1 k;
  scheduler_add_process 0 proc2 k.
(** * Properties *)

(** ** Reasoning about [result] *)

Lemma bind_Ret {A B : Type} (a : A) (f : A → result B) : (Ret a ≫= f) = f a.
Proof. reflexivity. Qed.

Lemma bind_Ret_inv {A B : Type} (m : result A) (f : A → result B) (b : B) :
  (m ≫= f) = Ret b → ∃ a, m = Ret a ∧ f a = Ret b.
Proof. destruct m as [a| |]; simpl; intros H; try discriminate; eauto. Qed.

Lemma deref_Some k a P : procs k !! a = Some P → deref k a = Ret P.
Proof. unfold deref. by intros ->. Qed.

Lemma deref_Ret k a P : deref k a = Ret P → procs k !! a = Some P.
Proof. unfold deref. destruct (procs k !! a); naive_solver. Qed.

Lemma store_Some k a f P :
  procs k !! a = Some P → store a f k = Ret (set_procs (<[a := f P]> (procs k)) k).
Proof. unfold store. by intros ->. Qed.

Lemma store_Ret k a f k' :
  store a f k = Ret k' →
  ∃ P, procs k !! a = Some P ∧ k' = set_procs (<[a := f P]> (procs k)) k.
Proof. unfold store. destruct (procs k !! a); naive_solver. Qed.

(** ** Algorithm switching (scheduler.c) *)

(** C10: [scheduler_set_algorithm], for any algorithm argument, records the
    argument and reinitializes the scheduler: afterwards the ready-queue
    head and tail and the running-process pointer are null and all five
    priority queues are empty, while no process is touched, so that
    whatever was queued has been dropped and nothing is re-enqueued. *)
Theorem scheduler_set_algorithm_drops_queues (alg : Z) (k : kernel) :
  let k' := scheduler_set_algorithm alg k in
  current_algorithm (sch k') = alg ∧
  ready_queue_head (sch k') = None ∧
  ready_queue_tail (sch k') = None ∧
  running_process (sch k') = None ∧
  pq_get k' 0 = None ∧ pq_get k' 1 = None ∧ pq_get k' 2 = None ∧
  pq_get k' 3 = None ∧ pq_get k' 4 = None ∧
  procs k' = procs k ∧
  process_table (pm k') = process_table (pm k).
Proof.
  destruct k as [h m p s r t y l].
  destruct s as [a0 hd tl rn ls tc pqs].
  cbv [scheduler_set_algorithm scheduler_init upd_sch set_sch sch fold_left
       seq pq_set pq_get set_ready_queue_head set_ready_queue_tail
       set_running_process set_priority_queues set_last_schedule_time
       set_time_slice_counter set_current_algorithm current_algorithm
       ready_queue_head ready_queue_tail running_process priority_queues
       procs pm timer_ticks timer_get_ticks].
  repeat split;
    destruct pqs as [|q0 [|q1 [|q2 [|q3 [|q4 rest]]]]]; reflexivity.
Qed.

(** ** Process creation (process.c) *)

Lemma take_next_pid_spec k :
  next_pid_in_range k →
  ∃ n, take_next_pid k = (next_pid (pm k), upd_pm (set_next_pid n) k) ∧
       1 ≤ n < MAX_PROCESSES ∧
       n = (if next_pid (pm k) =? 255 then 1 else next_pid (pm k) + 1).
Proof.
  unfold next_pid_in_range, take_next_pid, MAX_PROCESSES, wrap32. intros H.
  rewrite Z.mod_small by lia.
  destruct (Z.leb_spec 256 (next_pid (pm k) + 1)), (Z.eqb_spec (next_pid (pm k)) 255);
    try lia; eexists; (split; [reflexivity|]); lia.
Qed.

Lemma probe_pid_eq fuel pid k :
  probe_pid fuel pid k =
  match table_get k pid with
  | Some _ =>
      if pid <? MAX_PROCESSES then
        match fuel with
        | O => Diverge
        | S fuel' => probe_pid fuel' (take_next_pid k).1 (take_next_pid k).2
        end
      else Ret (pid, k)
  | None => Ret (pid, k)
  end.
Proof. destruct fuel; reflexivity. Qed.

Lemma probe_pid_full fuel : ∀ pid k,
  slots_full k → next_pid_in_range k → 1 ≤ pid < MAX_PROCESSES →
  probe_pid fuel pid k = Diverge.
Proof.
  induction fuel as [|fuel IH]; intros pid k Hfull Hn Hp; rewrite probe_pid_eq.
  - destruct (table_get k pid) eqn:E; [|by apply Hfull in E].
    destruct (Z.ltb_spec pid MAX_PROCESSES); [done|lia].
  - destruct (table_get k pid) eqn:E; [|by apply Hfull in E].
    destruct (Z.ltb_spec pid MAX_PROCESSES); [|lia].
    destruct (take_next_pid_spec k Hn) as (n & -> & Hr & _).
    apply IH; [exact Hfull | exact Hr | exact Hn].
Qed.

Lemma process_get_next_pid_full fuel k :
  slots_full k → next_pid_in_range k → process_get_next_pid fuel k = Diverge.
Proof.
  intros Hfull Hn. unfold process_get_next_pid.
  destruct (take_next_pid_spec k Hn) as (n & -> & Hr & _).
  apply probe_pid_full; [exact Hfull | exact Hr | exact Hn].
Qed.

Lemma probe_pid_returns fuel : ∀ pid k f,
  1 ≤ f < MAX_PROCESSES → table_get k f = None →
  1 ≤ pid < MAX_PROCESSES →
  next_pid (pm k) = (if pid =? 255 then 1 else pid + 1) →
  (Z.to_nat (pid_distance pid f) ≤ fuel)%nat →
  ∃ pid' n, probe_pid fuel pid k = Ret (pid', upd_pm (set_next_pid n) k) ∧
            1 ≤ pid' < MAX_PROCESSES ∧ table_get k pid' = None ∧
            1 ≤ n < MAX_PROCESSES.
Proof.
  induction fuel as [|fuel IH]; intros pid k f Hf Hfree Hp Hn Hd;
    rewrite probe_pid_eq.
  - assert (pid = f) as ->.
    { unfold pid_distance, MAX_PROCESSES in *. destruct (Z.leb_spec pid f); lia. }
    rewrite Hfree. exists f, (next_pid (pm k)). split.
    + destruct k as [h m [c i np ac st sa sc tb] s r t y l]. reflexivity.
    + repeat split; try lia; try done; unfold MAX_PROCESSES in *; rewrite Hn;
        destruct (Z.eqb_spec f 255); lia.
  - destruct (table_get k pid) eqn:E.
    + destruct (Z.ltb_spec pid MAX_PROCESSES); [|lia].
      assert (next_pid_in_range k) as Hr.
      { unfold next_pid_in_range, MAX_PROCESSES in *. rewrite Hn. destruct (Z.eqb_spec pid 255); lia. }
      destruct (take_next_pid_spec k Hr) as (n & -> & Hn1 & Hn2). simpl.
      assert (pid ≠ f) by congruence.
      destruct (IH (next_pid (pm k)) (upd_pm (set_next_pid n) k) f) as (pid' & n' & Heq & ? & ? & ?).
      * done.
      * exact Hfree.
      * exact Hr.
      * exact Hn2.
      * unfold pid_distance, MAX_PROCESSES in *. rewrite Hn.
        destruct (Z.eqb_spec pid 255), (Z.leb_spec pid f); repeat case_match; lia.
      * exists pid', n'. split; [exact Heq|done].
    + exists pid, (next_pid (pm k)). split.
      * destruct k as [h m [c i np ac st sa sc tb] s r t y l]. reflexivity.
      * repeat split; try lia; try done; unfold MAX_PROCESSES in *; rewrite Hn;
          destruct (Z.eqb_spec pid 255); lia.
Qed.

Lemma process_get_next_pid_returns fuel k f :
  next_pid_in_range k → 1 ≤ f < MAX_PROCESSES → table_get k f = None →
  (255 ≤ fuel)%nat →
  ∃ pid n, process_get_next_pid fuel k = Ret (pid, upd_pm (set_next_pid n) k) ∧
           1 ≤ pid < MAX_PROCESSES ∧ table_get k pid = None ∧
           1 ≤ n < MAX_PROCESSES.
Proof.
  intros Hr Hf Hfree Hfuel. unfold process_get_next_pid.
  destruct (take_next_pid_spec k Hr) as (n & -> & Hn1 & Hn2).
  destruct (probe_pid_returns fuel (next_pid (pm k)) (upd_pm (set_next_pid n) k) f)
    as (pid' & n' & Heq & ? & ? & ?); try done.
  - unfold pid_distance, next_pid_in_range, MAX_PROCESSES in *.
    destruct (Z.leb_spec (next_pid (pm k)) f); lia.
  - exists pid', n'. split; [exact Heq|done].
Qed.

Lemma full_kernel_slots_full : slots_full full_kernel.
Proof.
  intros i Hi. unfold table_get, full_kernel, full_table, MAX_PROCESSES in *.
  destruct (Z.ltb_spec i 0); [lia|]. cbn [pm process_table].
  rewrite list_lookup_fmap, lookup_seq_lt by lia. done.
Qed.

Lemma crowded_kernel_slots_full : slots_full crowded_kernel.
Proof.
  intros i Hi. unfold table_get, crowded_kernel, crowded_table, MAX_PROCESSES in *.
  destruct (Z.ltb_spec i 0); [lia|]. cbn [pm process_table].
  destruct (Z.to_nat i) as [|j] eqn:Ej; [lia|].
  rewrite lookup_cons_ne_0 by done. cbn [pred].
  rewrite list_lookup_fmap, lookup_seq_lt by lia. done.
Qed.

(** C2 (evaluation at the failing input): with every slot of the process
    table occupied, and already with the 255 slots that a pid can name
    occupied, [process_create] never returns, whatever the number of loop
    iterations granted: [process_get_next_pid] only ever proposes pids
    1..255, so its loop cannot leave through [pid < MAX_PROCESSES], and
    the "process limit exceeded" branch is never reached. *)
Theorem process_create_full_table_diverges (fuel : nat) (nm : string)
    (entry_point prio : Z) :
  process_create fuel (mk_alloc_outcomes (Some 1000%positive) (Some 1001%positive) 4096 8192)
    nm entry_point prio full_kernel = Diverge
  ∧
  process_create fuel (mk_alloc_outcomes (Some 1000%positive) (Some 1001%positive) 4096 8192)
    nm entry_point prio crowded_kernel = Diverge.
Proof.
  split; unfold process_create; cbn [kmalloc_pcb].
  - rewrite process_get_next_pid_full; [reflexivity| |].
    + intros i Hi. apply (full_kernel_slots_full i Hi).
    + unfold next_pid_in_range, MAX_PROCESSES. cbn. lia.
  - rewrite process_get_next_pid_full; [reflexivity| |].
    + intros i Hi. apply (crowded_kernel_slots_full i Hi).
    + unfold next_pid_in_range, MAX_PROCESSES. cbn. lia.
Qed.

(** The global counters are not left alone either: the probing has
    already advanced [next_pid] when the loop is entered. *)
Lemma take_next_pid_full_kernel :
  next_pid (pm (take_next_pid full_kernel).2) = 2.
Proof. reflexivity. Qed.

Ltac step_store :=
  erewrite store_Some by (cbn [procs set_procs log_event upd_pm set_pm]; apply lookup_insert_eq);
  rewrite bind_Ret.

(** C1: when [process_create] has obtained its PCB and a pid and then the
    address space, the stack or the heap cannot be allocated, it returns
    NULL after giving back everything it had acquired, in the reverse of
    the order of acquisition (stack, then address space, then PCB; the heap
    is the last acquisition, so no failure path holds one); the process
    table is exactly as before, the PCB is gone from the heap, and the
    process counters and the scheduler are untouched. *)
Theorem process_create_rolls_back (fuel : nat) (env : alloc_outcomes)
    (nm : string) (entry_point prio : Z) (k : kernel) (a : positive) (f : Z) :
  kmalloc_pcb env = Some a →
  create_address_space env = None ∨ vmm_alloc_stack env = 0 ∨ vmm_alloc_heap env = 0 →
  next_pid_in_range k → 1 ≤ f < MAX_PROCESSES → table_get k f = None →
  (255 ≤ fuel)%nat →
  (∀ c, current_process (pm k) = Some c → c = a ∨ is_Some (procs k !! c)) →
  ∃ k',
    process_create fuel env nm entry_point prio k = Ret (None, k') ∧
    mem_log k' = mem_log k ++ acquired_before_failure env
                           ++ map release_of (rev (acquired_before_failure env)) ∧
    process_table (pm k') = process_table (pm k) ∧
    procs k' = delete a (procs k) ∧
    active_process_count (pm k') = active_process_count (pm k) ∧
    stats_total_processes (pm k') = stats_total_processes (pm k) ∧
    sch k' = sch k.
Proof.
  intros Ha Hfail Hr Hf Hfree Hfuel Hcur.
  unfold process_create, acquired_before_failure. rewrite Ha.
  set (k1 := log_event (Ev_kmalloc a) (set_procs (<[a:=zero_process]> (procs k)) k)).
  destruct (process_get_next_pid_returns fuel k1 f) as (newpid & n & -> & Hp & _ & _);
    try done.
  rewrite bind_Ret. cbn beta iota.
  step_store.
  destruct (Z.leb_spec MAX_PROCESSES newpid) as [|_]; [lia|].
  match goal with
  | |- ∃ k', (?m ≫= _) = _ ∧ _ => assert (∃ pp, m = Ret pp) as [pp ->]
  end.
  { subst k1. cbn [current_process pm set_procs upd_pm set_pm set_next_pid log_event].
    destruct (current_process (pm k)) as [c|] eqn:Ec; [|by eexists].
    unfold deref. cbn [procs set_procs upd_pm set_pm log_event].
    destruct (decide (c = a)) as [->|Hne].
    - rewrite lookup_insert_eq. by eexists.
    - rewrite !lookup_insert_ne by done.
      destruct (Hcur c eq_refl) as [|[C ->]]; [done|by eexists]. }
  rewrite bind_Ret. step_store.
  destruct (create_address_space env) as [d|] eqn:Ed.
  - step_store. step_store.
    destruct Hfail as [|[Hs|Hh]]; [done| |].
    + rewrite Hs. cbn [Z.eqb]. eexists. split; [reflexivity|].
      subst k1. cbn. rewrite !delete_insert_eq, <- !app_assoc. done.
    + destruct (Z.eqb_spec (vmm_alloc_stack env) 0) as [Hs|Hs].
      * eexists. split; [reflexivity|].
        subst k1. cbn. rewrite !delete_insert_eq, <- !app_assoc. done.
      * step_store. rewrite Hh. cbn [Z.eqb]. eexists. split; [reflexivity|].
        subst k1. cbn. rewrite !delete_insert_eq, <- !app_assoc. done.
  - eexists. split; [reflexivity|].
    subst k1. cbn. rewrite !delete_insert_eq, <- !app_assoc. done.
Qed.

Lemma process_create_rolls_back_witness :
  ∃ k',
    process_create 255 (mk_alloc_outcomes (Some 7%positive) (Some 8%positive) 4096 0)
      "init" 0 PRIORITY_NORMAL boot_kernel = Ret (None, k') ∧
    mem_log k' =
      mem_log boot_kernel
      ++ acquired_before_failure (mk_alloc_outcomes (Some 7%positive) (Some 8%positive) 4096 0)
      ++ map release_of
           (rev (acquired_before_failure
                   (mk_alloc_outcomes (Some 7%positive) (Some 8%positive) 4096 0))) ∧
    process_table (pm k') = process_table (pm boot_kernel) ∧
    procs k' = delete 7%positive (procs boot_kernel) ∧
    active_process_count (pm k') = active_process_count (pm boot_kernel) ∧
    stats_total_processes (pm k') = stats_total_processes (pm boot_kernel) ∧
    sch k' = sch boot_kernel.
Proof.
  apply (process_create_rolls_back 255
           (mk_alloc_outcomes (Some 7%positive) (Some 8%positive) 4096 0)
           "init" 0 PRIORITY_NORMAL boot_kernel 7%positive 1).
  - reflexivity.
  - right. right. reflexivity.
  - unfold next_pid_in_range, MAX_PROCESSES. simpl. lia.
  - unfold MAX_PROCESSES. lia.
  - reflexivity.
  - lia.
  - intros c H. discriminate H.
Defined.

(** On a heap-allocation failure the log reads: PCB, address space and
    stack acquired, then stack, address space and PCB given back. *)
Example process_create_heap_failure_log :
  (process_create 255 (mk_alloc_outcomes (Some 7%positive) (Some 8%positive) 4096 0)
     "init" 0 PRIORITY_NORMAL boot_kernel ≫= λ r, Ret (r.1, mem_log r.2)) =
  Ret (None, [Ev_kmalloc 7; Ev_create_address_space 8;
              Ev_vmm_alloc PROCESS_STACK_SIZE 4096;
              Ev_vmm_free 4096; Ev_destroy_address_space 8; Ev_kfree 7]).
Proof. vm_compute. reflexivity. Qed.

(** A successful creation registers the process. *)
Example process_create_success :
  (process_create 255 (mk_alloc_outcomes (Some 7%positive) (Some 8%positive) 4096 8192)
     "init" 0 PRIORITY_NORMAL boot_kernel
   ≫= λ r, Ret (r.1, table_get r.2 1, state <$> (procs r.2 !! 7%positive))) =
  Ret (Some 7%positive, Some 7%positive, Some PROCESS_READY).
Proof. vm_compute. reflexivity. Qed.

(** ** Sleeping and waking (process.c, scheduler.c) *)

Lemma enter_sleep_Some ms c k P :
  procs k !! c = Some P →
  enter_sleep ms c k =
  Ret (set_procs (<[c := set_sleep_until
                          (wrap32 (wrap64 (timer_get_ticks k + ms / 10)))
                          (set_state PROCESS_SLEEPING P)]> (procs k)) k).
Proof.
  intros HP. unfold enter_sleep.
  rewrite (store_Some _ _ _ _ HP), bind_Ret.
  erewrite store_Some by (cbn [procs set_procs]; apply lookup_insert_eq).
  cbn [procs set_procs]. rewrite insert_insert_eq. destruct k; reflexivity.
Qed.

(** C8 (as amended): when the tick arithmetic does not wrap,
    [process_sleep(ms)] puts the caller in SLEEPING state with a
    sleep-until equal to the current tick plus [ms / 10] before it yields;
    this is never before the current tick, and strictly after it exactly
    when [ms] is at least 10. *)
Theorem process_sleep_deadline_not_before_now (fuel : nat) (ms : Z)
    (c : positive) (k : kernel) (P : process) :
  current_process (pm k) = Some c → procs k !! c = Some P →
  0 ≤ ms → 0 ≤ timer_get_ticks k → timer_get_ticks k + ms / 10 < 2 ^ 32 →
  ∃ k' P',
    enter_sleep ms c k = Ret k' ∧
    process_sleep fuel ms k = scheduler_yield fuel k' ∧
    procs k' !! c = Some P' ∧
    state P' = PROCESS_SLEEPING ∧
    sleep_until P' = timer_get_ticks k + ms / 10 ∧
    timer_get_ticks k ≤ sleep_until P' ∧
    (timer_get_ticks k < sleep_until P' ↔ 10 ≤ ms).
Proof.
  intros Hc HP Hms Ht Hfit.
  assert (0 ≤ ms / 10) by (apply Z.div_pos; lia).
  eexists _, _. split; [apply (enter_sleep_Some ms c k P HP)|].
  split; [unfold process_sleep; rewrite Hc, (enter_sleep_Some ms c k P HP); reflexivity|].
  split; [cbn [procs set_procs]; apply lookup_insert_eq|].
  cbn [state set_sleep_until set_state sleep_until]. unfold wrap32, wrap64.
  rewrite (Z.mod_small _ (2 ^ 64)) by lia.
  rewrite Z.mod_small by lia.
  repeat split; try lia.
  - intros Hlt. destruct (Z.lt_ge_cases ms 10) as [Hs|]; [|done].
    rewrite Z.div_small in Hlt by lia. lia.
  - intros Hge. assert (1 ≤ ms / 10) by (apply Z.div_le_lower_bound; lia). lia.
Qed.

Lemma process_sleep_deadline_not_before_now_witness :
  ∃ k' P',
    enter_sleep 50 1%positive (sleeper_kernel 100) = Ret k' ∧
    process_sleep 0 50 (sleeper_kernel 100) = scheduler_yield 0 k' ∧
    procs k' !! 1%positive = Some P' ∧
    state P' = PROCESS_SLEEPING ∧
    sleep_until P' = timer_get_ticks (sleeper_kernel 100) + 50 / 10 ∧
    timer_get_ticks (sleeper_kernel 100) ≤ sleep_until P' ∧
    (timer_get_ticks (sleeper_kernel 100) < sleep_until P' ↔ 10 ≤ 50).
Proof.
  apply (process_sleep_deadline_not_before_now 0 50 1%positive (sleeper_kernel 100)
           (demo_pcb 1 PRIORITY_NORMAL PROCESS_RUNNING)).
  - reflexivity.
  - reflexivity.
  - lia.
  - vm_compute. discriminate.
  - vm_compute. reflexivity.
Defined.

(** C8 (counterexample): [process_sleep(5)] at tick 100 leaves the caller
    SLEEPING with sleep-until 100, which is not after the current tick. *)
Lemma process_sleep_short_deadline_is_now :
  ∃ k' P',
    current_process (pm (sleeper_kernel 100)) = Some 1%positive ∧
    enter_sleep 5 1%positive (sleeper_kernel 100) = Ret k' ∧
    procs k' !! 1%positive = Some P' ∧
    state P' = PROCESS_SLEEPING ∧
    sleep_until P' = 100 ∧
    ¬ (timer_get_ticks (sleeper_kernel 100) < sleep_until P').
Proof.
  eexists _, _. split; [reflexivity|].
  split; [apply (enter_sleep_Some 5 1%positive (sleeper_kernel 100)
                   (demo_pcb 1 PRIORITY_NORMAL PROCESS_RUNNING)); reflexivity|].
  split; [cbn [procs set_procs]; apply lookup_insert_eq|].
  split; [reflexivity|]. split; [reflexivity|].
  vm_compute. discriminate.
Qed.

(** One iteration of the wake-up loop leaves a sleeper whose sleep-until
    lies after the current time untouched... *)
Lemma wake_slot_early fuel now i k p P :
  table_get k i = Some p → procs k !! p = Some P →
  state P = PROCESS_SLEEPING → now < sleep_until P →
  wake_slot fuel now i k = Ret k.
Proof.
  intros Hi HP Hs Hlt. unfold wake_slot. rewrite Hi, (deref_Some _ _ _ HP), bind_Ret.
  rewrite decide_True by done.
  destruct (Z.leb_spec (sleep_until P) now); [lia|done].
Qed.

(** ...and, under round-robin, makes one whose sleep-until has been
    reached READY, resets its sleep-until and appends it to the ready
    queue. *)
Lemma wake_slot_due fuel now i k p P :
  table_get k i = Some p → procs k !! p = Some P →
  state P = PROCESS_SLEEPING → sleep_until P ≤ now →
  current_algorithm (sch k) = SCHED_ROUND_ROBIN →
  (∀ t, ready_queue_tail (sch k) = Some t → t ≠ p ∧ is_Some (procs k !! t)) →
  ∃ k' P',
    wake_slot fuel now i k = Ret k' ∧
    procs k' !! p = Some P' ∧ state P' = PROCESS_READY ∧ sleep_until P' = 0 ∧
    ready_queue_tail (sch k') = Some p ∧
    prev P' = ready_queue_tail (sch k) ∧ next P' = None.
Proof.
  intros Hi HP Hs Hle Halg Htail. unfold wake_slot.
  rewrite Hi, (deref_Some _ _ _ HP), bind_Ret, decide_True by done.
  destruct (Z.leb_spec (sleep_until P) now); [|lia].
  unfold process_wake. rewrite (deref_Some _ _ _ HP), bind_Ret, decide_True by done.
  rewrite (store_Some _ _ _ _ HP), bind_Ret.
  erewrite store_Some by (cbn [procs set_procs]; apply lookup_insert_eq).
  rewrite bind_Ret. unfold scheduler_add_process.
  erewrite deref_Some by (cbn [procs set_procs]; apply lookup_insert_eq).
  rewrite bind_Ret. cbn [state set_state set_sleep_until].
  rewrite decide_True by done.
  cbn [sch set_procs]. rewrite Halg. cbn [Z.eqb SCHED_ROUND_ROBIN].
  erewrite store_Some by (cbn [procs set_procs]; apply lookup_insert_eq).
  rewrite bind_Ret.
  erewrite store_Some by (cbn [procs set_procs]; apply lookup_insert_eq).
  rewrite bind_Ret. cbn [sch set_procs].
  destruct (ready_queue_tail (sch k)) as [t|] eqn:Et.
  - destruct (Htail t eq_refl) as [Hne [T HT]].
    erewrite store_Some
      by (cbn [procs set_procs]; rewrite !lookup_insert_ne by done; exact HT).
    rewrite bind_Ret. eexists _, _. split; [reflexivity|].
    cbn [procs set_procs upd_sch set_sch sch ready_queue_tail set_ready_queue_tail].
    rewrite lookup_insert_ne by done. rewrite lookup_insert_eq.
    split; [reflexivity|]. done.
  - rewrite bind_Ret. eexists _, _. split; [reflexivity|].
    cbn [procs set_procs upd_sch set_sch sch ready_queue_tail set_ready_queue_tail
         set_ready_queue_head].
    rewrite lookup_insert_eq. split; [reflexivity|]. done.
Qed.

(** C4 (evaluation at the failing input): with the 64-bit tick counter at
    2^32 - 1, [process_sleep(50)] stores sleep-until 4 in the 32-bit
    field, not the current tick plus 5; the very next [scheduler_tick], at
    tick 2^32, already finds [current_time >= sleep_until] and wakes the
    process, four ticks early. *)
Theorem process_sleep_deadline_wraps :
  ∃ k1 k2 P1 P2,
    process_sleep 0 50 (sleeper_kernel (2 ^ 32 - 1)) = Ret k1 ∧
    procs k1 !! 1%positive = Some P1 ∧
    state P1 = PROCESS_SLEEPING ∧
    sleep_until P1 = 4 ∧
    sleep_until P1 ≠ timer_get_ticks (sleeper_kernel (2 ^ 32 - 1)) + 5 ∧
    scheduler_tick 0 (set_timer_ticks (2 ^ 32) k1) = Ret k2 ∧
    procs k2 !! 1%positive = Some P2 ∧
    state P2 = PROCESS_READY ∧
    ready_queue_head (sch k2) = Some 1%positive.
Proof.
  eexists _, _, _, _.
  split; [vm_compute; reflexivity|].
  split; [vm_compute; reflexivity|].
  split; [reflexivity|]. split; [reflexivity|].
  split; [vm_compute; discriminate|].
  split; [vm_compute; reflexivity|].
  split; [vm_compute; reflexivity|].
  split; reflexivity.
Qed.

(** ** Per-core run queues (advanced_scheduler.c) *)

(** Adding and then removing linked processes keeps count and links in
    step. *)
Example sched_add_remove_linked :
  (k ← sched_add_process_to_runqueue 5 true (Some 1%positive) 0 two_process_kernel;
   k ← sched_add_process_to_runqueue 5 true (Some 2%positive) 0 k;
   k ← sched_remove_process_from_runqueue 8 (Some 1%positive) 0 k;
   rq ← rq_get k 0;
   n ← linked_entries 8 k rq;
   Ret (n, process_count rq, active_queue rq))
  = Ret (1%nat, 1, [None; None; Some 2%positive; None; None; None]).
Proof. vm_compute. reflexivity. Qed.

(** C7 (evaluation at the failing input): process 1 is enqueued on core 0
    and the count matches the one linked entry; removing process 2, which
    was never enqueued, leaves process 1 linked but brings the count to 0,
    so that count and links disagree.  Removing it from a still empty run
    queue wraps the count to 2^32 - 1. *)
Theorem sched_remove_unlinked_breaks_count :
  ∃ k1 k2 rq2 k3 rq3,
    sched_add_process_to_runqueue 5 true (Some 1%positive) 0 two_process_kernel = Ret k1 ∧
    count_matches 8 k1 0 ∧
    sched_remove_process_from_runqueue 8 (Some 2%positive) 0 k1 = Ret k2 ∧
    neural_runqueues k2 !! 0%nat = Some rq2 ∧
    linked_entries 8 k2 rq2 = Ret 1%nat ∧ process_count rq2 = 0 ∧
    ¬ count_matches 8 k2 0 ∧
    sched_remove_process_from_runqueue 8 (Some 2%positive) 0 two_process_kernel = Ret k3 ∧
    neural_runqueues k3 !! 0%nat = Some rq3 ∧
    linked_entries 8 k3 rq3 = Ret 0%nat ∧ process_count rq3 = 4294967295.
Proof.
  eexists _, _, _, _, _.
  split; [vm_compute; reflexivity|].
  split; [eexists; split; [vm_compute; reflexivity|vm_compute; reflexivity]|].
  split; [vm_compute; reflexivity|].
  split; [vm_compute; reflexivity|].
  split; [vm_compute; reflexivity|].
  split; [reflexivity|].
  split.
  { intros (rq & Hrq & Hn). vm_compute in Hrq. injection Hrq as <-.
    vm_compute in Hn. discriminate Hn. }
  split; [vm_compute; reflexivity|].
  split; [vm_compute; reflexivity|].
  split; [vm_compute; reflexivity|].
  reflexivity.
Qed.

(** ** Bucket chains and left-to-right selection *)

Section FirstBest.

Context {A : Type} (key : A → option Z).

Lemma fold_improve_none l b m :
  (∀ x s, x ∈ l → key x = Some s → s ≤ m) → fold_left (improve key) l (b, m) = (b, m).
Proof.
  induction l as [|a l IH]; intros H; [done|]. simpl. unfold improve at 2. simpl.
  assert (fold_left (improve key) l (b, m) = (b, m)) as IH'.
  { apply IH. intros x s Hx. apply H. by right. }
  destruct (key a) as [s|] eqn:Ea; [|done].
  destruct (Z.ltb_spec m s) as [Hlt|_]; [|done].
  specialize (H a s ltac:(left) Ea). lia.
Qed.

Lemma fold_improve_some l : ∀ b m,
  (∃ x s, x ∈ l ∧ key x = Some s ∧ m < s) →
  ∃ pre x post s,
    l = pre ++ x :: post ∧ key x = Some s ∧
    fold_left (improve key) l (b, m) = (Some x, s) ∧
    m < s ∧
    (∀ y t, y ∈ pre → key y = Some t → t < s) ∧
    (∀ y t, y ∈ post → key y = Some t → t ≤ s).
Proof.
  induction l as [|a l IH]; intros b m (x & s & Hx & Hk & Hm).
  { by apply elem_of_nil in Hx. }
  simpl. unfold improve at 2. simpl.
  destruct (key a) as [sa|] eqn:Ea.
  - destruct (Z.ltb_spec m sa) as [Hlt|Hge].
    + destruct (existsb (λ y, match key y with Some t => sa <? t | None => false end) l)
        eqn:HE.
      * apply existsb_exists in HE as (y & Hy%list_elem_of_In & Hyt).
        destruct (key y) as [t|] eqn:Ht; [|done]. apply Z.ltb_lt in Hyt.
        destruct (IH (Some a) sa) as (pre & z & post & sz & -> & Hkz & Hf & Hz & Hpre & Hpost).
        { by exists y, t. }
        exists (a :: pre), z, post, sz. repeat split; try done; try lia.
        intros y' t' [->|Hy']%elem_of_cons Hk'; [|by eapply Hpre].
        rewrite Ea in Hk'. injection Hk' as <-. done.
      * assert (∀ y t, y ∈ l → key y = Some t → t ≤ sa) as Hle.
        { intros y t Hy Ht. destruct (Z.le_gt_cases t sa) as [|Hgt]; [done|].
          exfalso. apply not_true_iff_false in HE. apply HE, existsb_exists.
          exists y. split; [by apply list_elem_of_In|]. rewrite Ht. by apply Z.ltb_lt. }
        exists [], a, l, sa. repeat split; try done.
        -- by apply fold_improve_none.
        -- intros y t Hy. by apply elem_of_nil in Hy.
    + apply elem_of_cons in Hx as [->|Hx].
      { rewrite Ea in Hk. injection Hk as <-. lia. }
      destruct (IH b m) as (pre & z & post & sz & -> & Hkz & Hf & Hz & Hpre & Hpost).
      { by exists x, s. }
      exists (a :: pre), z, post, sz. repeat split; try done.
      intros y' t' [->|Hy']%elem_of_cons Hk'; [|by eapply Hpre].
      rewrite Ea in Hk'. injection Hk' as <-. lia.
  - apply elem_of_cons in Hx as [->|Hx]; [congruence|].
    destruct (IH b m) as (pre & z & post & sz & -> & Hkz & Hf & Hz & Hpre & Hpost).
    { by exists x, s. }
    exists (a :: pre), z, post, sz. repeat split; try done.
    intros y' t' [->|Hy']%elem_of_cons Hk'; [congruence|by eapply Hpre].
Qed.

End FirstBest.

Lemma for_buckets_chains {A : Type} (walk : option positive → A → result A)
    (step : A → positive → A) (good : list positive → Prop)
    (k : kernel) (rq : neural_runqueue) :
  (∀ start l acc, chain k start l → good l → walk start acc = Ret (fold_left step l acc)) →
  ∀ (ls : list (list positive)) (lo : Z) (acc : A),
    0 ≤ lo →
    (∀ (j : nat) l, ls !! j = Some l → chain k (bucket rq (lo + Z.of_nat j)) l ∧ good l) →
    for_buckets (λ i acc, walk (bucket rq i) acc) (length ls) lo acc
    = Ret (fold_left step (concat ls) acc).
Proof.
  intros Hwalk ls. induction ls as [|l ls IH]; intros lo acc Hlo Hls; [done|].
  simpl. destruct (Hls 0%nat l eq_refl) as [Hc Hg].
  rewrite Z.add_0_r in Hc. rewrite (Hwalk _ _ _ Hc Hg), bind_Ret.
  rewrite fold_left_app. apply IH; [lia|].
  intros j l' Hj. specialize (Hls (S j) l' Hj).
  by replace (lo + 1 + Z.of_nat j) with (lo + Z.of_nat (S j)) by lia.
Qed.

(** ** Earliest-deadline-first selection (advanced_scheduler.c) *)

Lemma realtime_walk_eq fuel k proc acc :
  realtime_walk fuel k proc acc =
  match proc with
  | None => Ret acc
  | Some p =>
      match fuel with
      | O => Diverge
      | S fuel' =>
          P ← deref k p;
          realtime_walk fuel' k (next_in_queue P)
            match sched_stats P with
            | Some st =>
                if (0 <? deadline st) && (deadline st <? snd acc)
                then (Some p, deadline st) else acc
            | None => acc
            end
      end
  end.
Proof. destruct fuel; reflexivity. Qed.

Lemma realtime_walk_chain fuel k : ∀ l start acc,
  chain k start l → (length l ≤ fuel)%nat →
  realtime_walk fuel k start acc = Ret (fold_left (edf_step k) l acc).
Proof.
  intros l. revert fuel.
  induction l as [|p l IH]; intros fuel start acc Hc Hlen;
    rewrite realtime_walk_eq; simpl in Hc.
  - by subst.
  - destruct Hc as (-> & P & HP & Hc). destruct fuel as [|fuel]; [simpl in Hlen; lia|].
    rewrite (deref_Some _ _ _ HP), bind_Ret. simpl.
    assert (match sched_stats P with
            | Some st =>
                if (0 <? deadline st) && (deadline st <? snd acc)
                then (Some p, deadline st) else acc
            | None => acc
            end = edf_step k acc p) as ->.
    { unfold edf_step, improve, deadline_key, proc_deadline. rewrite HP.
      destruct acc as [b e]. simpl.
      destruct (sched_stats P) as [st|]; simpl; [|by rewrite Z.opp_involutive].
      destruct (Z.ltb_spec 0 (deadline st)); simpl; [|by rewrite Z.opp_involutive].
      destruct (Z.ltb_spec (deadline st) e), (Z.ltb_spec (- e) (- deadline st));
        simpl; try lia; by rewrite Z.opp_involutive. }
    apply IH; [done|simpl in Hlen; lia].
Qed.

Lemma fold_edf_step k l : ∀ acc,
  fold_left (edf_step k) l acc =
  ((fold_left (improve (deadline_key k)) l (acc.1, - acc.2)).1,
   - (fold_left (improve (deadline_key k)) l (acc.1, - acc.2)).2).
Proof.
  induction l as [|p l IH]; intros [b e]; simpl.
  - by rewrite Z.opp_involutive.
  - rewrite IH. unfold edf_step. simpl. rewrite Z.opp_involutive.
    by destruct (improve (deadline_key k) (b, - e) p).
Qed.

(** Over well-formed chains in buckets 0 and 1, the scan returns the
    first process in scan order among those of least positive deadline
    below [UINT64_MAX], and nobody when there is no such deadline; the
    buckets 2 to 5 play no part. *)
Lemma realtime_pick_first_two_buckets fuel k rq (l0 l1 : list positive) :
  chain k (bucket rq 0) l0 → chain k (bucket rq 1) l1 →
  (length l0 ≤ fuel)%nat → (length l1 ≤ fuel)%nat →
  ((∀ p d, p ∈ l0 ++ l1 → proc_deadline k p = Some d → d ≤ 0 ∨ UINT64_MAX ≤ d) →
   realtime_pick_next_task fuel k rq = Ret None)
  ∧
  ((∃ p d, p ∈ l0 ++ l1 ∧ proc_deadline k p = Some d ∧ 0 < d < UINT64_MAX) →
   ∃ pre p post d,
     l0 ++ l1 = pre ++ p :: post ∧
     proc_deadline k p = Some d ∧ 0 < d < UINT64_MAX ∧
     realtime_pick_next_task fuel k rq = Ret (Some p) ∧
     (∀ q t, q ∈ pre → proc_deadline k q = Some t → 0 < t → d < t) ∧
     (∀ q t, q ∈ post → proc_deadline k q = Some t → 0 < t → d ≤ t)).
Proof.
  intros Hc0 Hc1 Hl0 Hl1.
  assert (realtime_pick_next_task fuel k rq
          = Ret (fold_left (edf_step k) (l0 ++ l1) (None, UINT64_MAX)).1) as ->.
  { unfold realtime_pick_next_task.
    pose proof (for_buckets_chains
                  (λ start acc, realtime_walk fuel k start acc) (edf_step k)
                  (λ l, (length l ≤ fuel)%nat) k rq
                  (λ start l, realtime_walk_chain fuel k l start) [l0; l1] 0
                  (None, UINT64_MAX)) as Hfb.
    cbn [length concat] in Hfb. rewrite Hfb; [by rewrite (app_nil_r l1)|lia|].
    intros j l Hj. destruct j as [|[|j]]; simpl in Hj; try discriminate Hj;
      injection Hj as <-; done. }
  rewrite fold_edf_step. cbn [fst snd]. split.
  - intros Hnone. rewrite fold_improve_none; [done|].
    intros x s Hx Hs. unfold deadline_key in Hs.
    destruct (proc_deadline k x) as [d|] eqn:Ed; [|done].
    destruct (Z.ltb_spec 0 d); [|done]. injection Hs as <-.
    destruct (Hnone x d Hx Ed); lia.
  - intros (p & d & Hp & Hd & Hr).
    destruct (fold_improve_some (deadline_key k) (l0 ++ l1) None (- UINT64_MAX))
      as (pre & x & post & s & Hsplit & Hk & Hf & Hs & Hpre & Hpost).
    { exists p, (- d). split; [done|]. unfold deadline_key. rewrite Hd.
      destruct (Z.ltb_spec 0 d); [|lia]. split; [done|lia]. }
    unfold deadline_key in Hk.
    destruct (proc_deadline k x) as [dx|] eqn:Ex; [|done].
    destruct (Z.ltb_spec 0 dx); [|done]. injection Hk as <-.
    exists pre, x, post, dx. rewrite Hf.
    split; [done|]. split; [done|]. split; [lia|]. split; [done|]. split.
    + intros q t Hq Ht Hpos.
      assert (- t < - dx); [|lia]. apply (Hpre q); [done|].
      unfold deadline_key. rewrite Ht. by destruct (Z.ltb_spec 0 t); [|lia].
    + intros q t Hq Ht Hpos.
      assert (- t ≤ - dx); [|lia]. apply (Hpost q); [done|].
      unfold deadline_key. rewrite Ht. by destruct (Z.ltb_spec 0 t); [|lia].
Qed.

(** C5 (evaluation at the failing input): two processes of the highest
    priority class, PRIORITY_REALTIME, with deadlines 10 and 20, are put on
    core 0 by [sched_add_process_to_runqueue]; they land in bucket 4, the
    bucket of their priority.  [realtime_pick_next_task] looks at buckets 0
    and 1 only, which hold the PRIORITY_IDLE and PRIORITY_LOW processes,
    and selects nobody. *)
Theorem realtime_pick_skips_realtime_bucket :
  ∃ k1 k2 rq,
    sched_add_process_to_runqueue 5 true (Some 1%positive) 0 realtime_kernel = Ret k1 ∧
    sched_add_process_to_runqueue 5 true (Some 2%positive) 0 k1 = Ret k2 ∧
    neural_runqueues k2 !! 0%nat = Some rq ∧
    active_queue rq = [None; None; None; None; Some 2%positive; None] ∧
    (next_in_queue <$> (procs k2 !! 2%positive)) = Some (Some 1%positive) ∧
    (next_in_queue <$> (procs k2 !! 1%positive)) = Some None ∧
    ∀ fuel, realtime_pick_next_task fuel k2 rq = Ret None.
Proof.
  eexists _, _, _.
  split; [vm_compute; reflexivity|].
  split; [vm_compute; reflexivity|].
  split; [vm_compute; reflexivity|].
  split; [reflexivity|].
  split; [vm_compute; reflexivity|].
  split; [vm_compute; reflexivity|].
  intros fuel. destruct fuel; reflexivity.
Qed.

(** ** Neural-adaptive selection (advanced_scheduler.c) *)

Lemma neural_score_ok now st :
  wrap64 (runtime st + 1) ≠ 0 → neural_score now st = Ret (score_of now st).
Proof.
  intros H. unfold neural_score, score_of.
  destruct (Z.eqb_spec (wrap64 (runtime st + 1)) 0); [done|reflexivity].
Qed.

Lemma neural_walk_eq fuel k now proc acc :
  neural_walk fuel k now proc acc =
  match proc with
  | None => Ret acc
  | Some p =>
      match fuel with
      | O => Diverge
      | S fuel' =>
          P ← deref k p;
          acc' ← match sched_stats P with
                 | Some st =>
                     score ← neural_score now st;
                     Ret (if snd acc <? score then (Some p, score) else acc)
                 | None => Ret acc
                 end;
          neural_walk fuel' k now (next_in_queue P) acc'
      end
  end.
Proof. destruct fuel; reflexivity. Qed.

Lemma neural_walk_chain fuel k : ∀ l start acc,
  chain k start l → (Forall (divisor_ok k) l ∧ (length l ≤ fuel)%nat) →
  neural_walk fuel k (get_system_time k) start acc
  = Ret (fold_left (improve (proc_score k)) l acc).
Proof.
  intros l. revert fuel.
  induction l as [|p l IH]; intros fuel start acc Hc [Hok Hlen];
    rewrite neural_walk_eq; simpl in Hc.
  - by subst.
  - destruct Hc as (-> & P & HP & Hc). destruct fuel as [|fuel]; [simpl in Hlen; lia|].
    rewrite (deref_Some _ _ _ HP), bind_Ret.
    apply Forall_cons in Hok as [Hp Hok]. simpl.
    assert ((match sched_stats P with
             | Some st =>
                 score ← neural_score (get_system_time k) st;
                 Ret (if snd acc <? score then (Some p, score) else acc)
             | None => Ret acc
             end) = Ret (improve (proc_score k) acc p)) as ->.
    { unfold improve, proc_score. rewrite HP.
      destruct (sched_stats P) as [st|] eqn:Est; [|done].
      rewrite neural_score_ok by (by eapply Hp). reflexivity. }
    rewrite bind_Ret. apply IH; [done|]. split; [done|simpl in Hlen; lia].
Qed.

(** Scores are never negative. *)
Lemma score_of_nonneg now st : 0 ≤ score_of now st.
Proof.
  unfold score_of, wrap64.
  destruct (Z.eq_dec ((runtime st + 1) mod 2 ^ 64) 0) as [->|Hne].
  - by rewrite Z.div_0_r.
  - apply Z.div_pos.
    + apply Z.mod_pos_bound. lia.
    + pose proof (Z.mod_pos_bound (runtime st + 1) (2 ^ 64) ltac:(lia)). lia.
Qed.

(** Monotonicity of the score in the waiting time, short of overflow. *)
Lemma score_of_monotone now1 now2 st :
  0 ≤ runtime st < UINT64_MAX →
  wrap64 (now1 - last_runtime st) ≤ wrap64 (now2 - last_runtime st) →
  wrap64 (now2 - last_runtime st) * neural_priority_to_weight (neural_class st) < 2 ^ 64 →
  score_of now1 st ≤ score_of now2 st.
Proof.
  intros Hr Hw Hfit. unfold score_of.
  set (w1 := wrap64 (now1 - last_runtime st)) in *.
  set (w2 := wrap64 (now2 - last_runtime st)) in *.
  set (c := neural_priority_to_weight (neural_class st)) in *.
  assert (0 ≤ w1) by (apply Z.mod_pos_bound; lia).
  assert (0 < c).
  { subst c. unfold neural_priority_to_weight. repeat case_match; lia. }
  assert (w1 * c ≤ w2 * c) by nia.
  assert (wrap64 (runtime st + 1) = runtime st + 1) as ->.
  { unfold wrap64, UINT64_MAX in *. apply Z.mod_small. lia. }
  assert (wrap64 (w1 * c) = w1 * c) as ->.
  { unfold wrap64. apply Z.mod_small. nia. }
  assert (wrap64 (w2 * c) = w2 * c) as ->.
  { unfold wrap64. apply Z.mod_small. nia. }
  apply Z.div_le_mono; lia.
Qed.

Lemma neural_pick_fold fuel k rq (ls : list (list positive)) :
  length ls = 6%nat →
  (∀ (j : nat) l, ls !! j = Some l →
     chain k (bucket rq (Z.of_nat j)) l ∧ Forall (divisor_ok k) l ∧ (length l ≤ fuel)%nat) →
  neural_pick_next_task fuel k rq
  = Ret (fst (fold_left (improve (proc_score k)) (concat ls) (None, 0))).
Proof.
  intros Hlen Hls. unfold neural_pick_next_task. rewrite <- Hlen.
  rewrite (for_buckets_chains
             (λ start acc, neural_walk fuel k (get_system_time k) start acc)
             (improve (proc_score k))
             (λ l, Forall (divisor_ok k) l ∧ (length l ≤ fuel)%nat)
             k rq (λ start l, neural_walk_chain fuel k l start) ls 0 (None, 0)); [done|lia|].
  intros j l Hj. rewrite Z.add_0_l. by apply Hls.
Qed.

(** C9 (as amended): as long as the product of waiting time and class
    weight fits in 64 bits and [runtime + 1] does not wrap, a longer wait
    with the same runtime and class never gives a smaller score; and over
    a run queue whose six buckets are well-formed chains, selection
    returns the first process in scan order among those of maximal score
    when that score is positive, and no process when every score is
    zero. *)
Theorem neural_selection_first_positive_maximum :
  (∀ now1 now2 st,
     0 ≤ runtime st < UINT64_MAX →
     wrap64 (now1 - last_runtime st) ≤ wrap64 (now2 - last_runtime st) →
     wrap64 (now2 - last_runtime st) * neural_priority_to_weight (neural_class st) < 2 ^ 64 →
     ∃ s1 s2, neural_score now1 st = Ret s1 ∧ neural_score now2 st = Ret s2 ∧ s1 ≤ s2)
  ∧
  (∀ fuel k rq (ls : list (list positive)),
     length ls = 6%nat →
     (∀ (j : nat) l, ls !! j = Some l →
        chain k (bucket rq (Z.of_nat j)) l ∧ Forall (divisor_ok k) l ∧ (length l ≤ fuel)%nat) →
     ((∀ p s, p ∈ concat ls → proc_score k p = Some s → s = 0) →
      neural_pick_next_task fuel k rq = Ret None)
     ∧
     ((∃ p s, p ∈ concat ls ∧ proc_score k p = Some s ∧ 0 < s) →
      ∃ pre p post s,
        concat ls = pre ++ p :: post ∧
        proc_score k p = Some s ∧ 0 < s ∧
        neural_pick_next_task fuel k rq = Ret (Some p) ∧
        (∀ q t, q ∈ pre → proc_score k q = Some t → t < s) ∧
        (∀ q t, q ∈ post → proc_score k q = Some t → t ≤ s))).
Proof.
  split.
  - intros now1 now2 st Hr Hw Hfit.
    assert (wrap64 (runtime st + 1) ≠ 0) as Hd.
    { unfold wrap64, UINT64_MAX in *. rewrite Z.mod_small by lia. lia. }
    exists (score_of now1 st), (score_of now2 st).
    rewrite !neural_score_ok by done. repeat split.
    by apply score_of_monotone.
  - intros fuel k rq ls Hlen Hls. rewrite (neural_pick_fold fuel k rq ls Hlen Hls). split.
    + intros Hzero. rewrite fold_improve_none; [done|].
      intros x s Hx Hs. rewrite (Hzero x s Hx Hs). done.
    + intros Hpos.
      destruct (fold_improve_some (proc_score k) (concat ls) None 0 Hpos)
        as (pre & p & post & s & Hsplit & Hk & Hf & Hs & Hpre & Hpost).
      exists pre, p, post, s. rewrite Hf. done.
Qed.

Ltac solve_divisor_ok :=
  repeat first
    [ apply List.Forall_nil
    | apply List.Forall_cons;
      [ intros P st HP Hst; vm_compute in HP; injection HP as <-;
        vm_compute in Hst; injection Hst as <-; vm_compute; discriminate | ] ].

Lemma neural_selection_first_positive_maximum_witness :
  (∃ s1 s2, neural_score 10 critical_stats = Ret s1 ∧
            neural_score 20 critical_stats = Ret s2 ∧ s1 ≤ s2)
  ∧
  (∃ pre p post s,
     concat [[3%positive]; []; [2%positive; 1%positive]; []; []; []] = pre ++ p :: post ∧
     proc_score neural_kernel p = Some s ∧ 0 < s ∧
     neural_pick_next_task 4 neural_kernel neural_rq0 = Ret (Some p) ∧
     (∀ q t, q ∈ pre → proc_score neural_kernel q = Some t → t < s) ∧
     (∀ q t, q ∈ post → proc_score neural_kernel q = Some t → t ≤ s)).
Proof.
  split.
  - apply (proj1 neural_selection_first_positive_maximum 10 20 critical_stats).
    + vm_compute. split; [discriminate|reflexivity].
    + vm_compute. discriminate.
    + vm_compute. reflexivity.
  - apply (proj2 neural_selection_first_positive_maximum 4%nat neural_kernel neural_rq0
             [[3%positive]; []; [2%positive; 1%positive]; []; []; []]).
    + reflexivity.
    + intros j l Hj.
      destruct j as [|[|[|[|[|[|j]]]]]]; simpl in Hj; try discriminate Hj;
        injection Hj as <-.
      * split; [|split; [solve_divisor_ok|simpl; lia]].
        simpl. split; [reflexivity|]. eexists. split; [vm_compute; reflexivity|]. reflexivity.
      * split; [reflexivity|split; [apply List.Forall_nil|simpl; lia]].
      * split; [|split; [solve_divisor_ok|simpl; lia]].
        simpl. split; [reflexivity|]. eexists. split; [vm_compute; reflexivity|].
        split; [reflexivity|]. eexists. split; [vm_compute; reflexivity|]. reflexivity.
      * split; [reflexivity|split; [apply List.Forall_nil|simpl; lia]].
      * split; [reflexivity|split; [apply List.Forall_nil|simpl; lia]].
      * split; [reflexivity|split; [apply List.Forall_nil|simpl; lia]].
    + exists 2%positive, 102400.
      split; [simpl; apply elem_of_cons; right; apply elem_of_cons; by left|].
      split; [vm_compute; reflexivity|lia].
Defined.

(** The process selected in [neural_kernel] is process 2: it ties with
    process 1 and is met first. *)
Example neural_pick_tie :
  neural_pick_next_task 4 neural_kernel neural_rq0 = Ret (Some 2%positive) ∧
  proc_score neural_kernel 1 = Some 102400 ∧
  proc_score neural_kernel 2 = Some 102400 ∧
  proc_score neural_kernel 3 = Some 51200.
Proof. vm_compute. done. Qed.

(** C9 (counterexample): a run queue whose only process has score 0 (it
    has not waited yet) yields no process at all, although that process is
    of maximal score; and for a process of class CRITICAL that has never
    run, waiting one time unit longer than 207824878873712 makes the
    64-bit product wrap and the score drop from 18446744073709550832 to
    87977. *)
Lemma neural_selection_counterexample :
  (∃ rq, neural_runqueues fresh_kernel !! 0%nat = Some rq ∧
         bucket rq 2 = Some 1%positive ∧
         proc_score fresh_kernel 1 = Some 0 ∧
         neural_pick_next_task 4 fresh_kernel rq = Ret None)
  ∧
  (neural_score 207824878873712 critical_stats = Ret 18446744073709550832 ∧
   neural_score 207824878873713 critical_stats = Ret 87977).
Proof.
  split.
  - eexists. split; [reflexivity|]. vm_compute. done.
  - vm_compute. done.
Qed.

(** ** IPC mailbox (ipc.c) *)

Lemma mailboxes_kept_refl k : mailboxes_kept k k.
Proof. split; [done|]. intros a P HP. by exists P. Qed.

Lemma mailboxes_kept_trans k1 k2 k3 :
  mailboxes_kept k1 k2 → mailboxes_kept k2 k3 → mailboxes_kept k1 k3.
Proof.
  intros [Hm1 H1] [Hm2 H2]. split; [congruence|].
  intros a P HP. destruct (H1 a P HP) as (P' & HP' & E1).
  destruct (H2 a P' HP') as (P'' & HP'' & E2). exists P''. split; [done|congruence].
Qed.

Lemma mailboxes_kept_store a f k k' :
  (∀ P, message_queue_of (f P) = message_queue_of P) →
  store a f k = Ret k' → mailboxes_kept k k'.
Proof.
  intros Hf (P & HP & ->)%store_Ret. split; [done|].
  intros b Q HQ. cbn [procs set_procs].
  destruct (decide (a = b)) as [->|Hne].
  - rewrite lookup_insert_eq. exists (f P). split; [done|]. rewrite Hf. congruence.
  - rewrite lookup_insert_ne by done. by exists Q.
Qed.

Lemma mailboxes_kept_same k k' :
  procs k' = procs k → msgs k' = msgs k → mailboxes_kept k k'.
Proof. intros Hp Hm. split; [done|]. intros a P HP. exists P. by rewrite Hp. Qed.

Ltac mailbox_step :=
  match goal with
  | H : (_ ≫= _) = Ret _ |- _ =>
      apply bind_Ret_inv in H; destruct H as (? & ? & ?)
  | H : Ret _ = Ret _ |- _ => injection H as ?; subst
  | H : Fault = Ret _ |- _ => discriminate H
  | H : Diverge = Ret _ |- _ => discriminate H
  | H : store _ _ _ = Ret _ |- _ =>
      apply mailboxes_kept_store in H; [|by intros []]
  | H : context [match ?x with _ => _ end] |- _ => destruct x eqn:?
  end.

Lemma scheduler_add_process_mailboxes fuel proc k k' :
  scheduler_add_process fuel proc k = Ret k' → mailboxes_kept k k'.
Proof.
  unfold scheduler_add_process, pq_set. intros H.
  repeat mailbox_step;
    repeat (eapply mailboxes_kept_trans; [eassumption|]);
    apply mailboxes_kept_same; reflexivity.
Qed.

(** After a successful send to an empty mailbox the mailbox holds exactly
    the new message. *)
Lemma ipc_send_message_delivers fuel env dest_pid data n k k1 dest D :
  0 ≤ n ≤ 256 →
  process_get_by_pid dest_pid k = Some dest → procs k !! dest = Some D →
  mailbox_empty D →
  ipc_send_message fuel env dest_pid data n k = Ret (0, k1) →
  ∃ ma D1 M,
    procs k1 !! dest = Some D1 ∧
    message_queue_of D1 = Some (mk_message_queue (Some ma) (Some ma) 1) ∧
    msgs k1 !! ma = Some M ∧
    msg_size M = n ∧ msg_next M = None ∧
    msg_data M = memory_copy (msg_block_bytes env) data n.
Proof.
  intros Hn Hdest HD Hempty Hsend. unfold ipc_send_message in Hsend.
  destruct (Z.ltb_spec 256 n); [lia|]. rewrite Hdest in Hsend.
  destruct (process_get_current k) as [sender|]; [|by injection Hsend].
  apply bind_Ret_inv in Hsend as (Sp & HS & Hsend).
  destruct (kmalloc_msg env) as [ma|]; [|by injection Hsend].
  match type of Hsend with
  | context [deref ?k0 dest] => set (kk := k0) in Hsend
  end.
  rewrite (deref_Some kk dest D HD), bind_Ret in Hsend.
  destruct Hempty as [Hq|Hq]; rewrite Hq in Hsend.
  1: destruct (kmalloc_queue env); [|by injection Hsend];
     rewrite (store_Some kk dest _ D HD) in Hsend.
  all: rewrite !bind_Ret in Hsend.
  all: erewrite deref_Some in Hsend
         by first [cbn [procs set_procs]; apply lookup_insert_eq | exact HD].
  all: rewrite bind_Ret in Hsend.
  all: cbn [message_queue_of set_message_queue] in Hsend; try rewrite Hq in Hsend.
  all: cbn [mq_tail mq_head mq_count] in Hsend; rewrite bind_Ret in Hsend.
  all: erewrite store_Some in Hsend
         by first [cbn [procs set_procs]; apply lookup_insert_eq | exact HD].
  all: rewrite bind_Ret in Hsend.
  all: erewrite deref_Some in Hsend by (cbn [procs set_procs]; apply lookup_insert_eq).
  all: rewrite bind_Ret in Hsend.
  all: cbn [state set_message_queue] in Hsend.
  all: apply bind_Ret_inv in Hsend as (kx & Hx & Hret); injection Hret as <-.
  all: match type of Hx with
       | context [store _ (set_state PROCESS_READY) ?ks] => assert (mailboxes_kept ks kx) as [Hm Hp]
       end;
       [ destruct (decide (state D = PROCESS_BLOCKED));
         [ apply bind_Ret_inv in Hx as (ky & Hst & Hadd);
           apply mailboxes_kept_store in Hst; [|by intros []];
           apply scheduler_add_process_mailboxes in Hadd;
           by eapply mailboxes_kept_trans
         | injection Hx as <-; apply mailboxes_kept_refl ]
       | ].
  all: edestruct (Hp dest) as (D1 & HD1 & Hq1);
         [cbn [procs set_procs]; apply lookup_insert_eq|].
  all: eexists ma, D1, _; split; [exact HD1|]; split; [rewrite Hq1; reflexivity|].
  all: rewrite Hm; cbn [msgs set_procs log_event set_msgs kk].
  all: split; [subst kk; cbn [msgs set_procs log_event set_msgs]; apply lookup_insert_eq|].
  all: cbn [msg_size msg_next msg_data]; repeat split.
  all: unfold wrap32; apply Z.mod_small; lia.
Qed.

Lemma take_memory_copy (dst src : list Byte.byte) (n c : Z) :
  0 ≤ c ≤ n → (Z.to_nat n ≤ length src)%nat →
  take (Z.to_nat c) (memory_copy dst src n) = take (Z.to_nat c) src.
Proof.
  intros Hc Hlen. unfold memory_copy.
  rewrite take_app_le by (rewrite length_take; lia).
  rewrite take_take. f_equal. lia.
Qed.

Lemma drop_memory_copy (dst src : list Byte.byte) (n : Z) :
  (Z.to_nat n ≤ length src)%nat →
  drop (Z.to_nat n) (memory_copy dst src n) = drop (Z.to_nat n) dst.
Proof.
  intros Hlen. unfold memory_copy.
  rewrite drop_app_ge by (rewrite length_take; lia).
  rewrite length_take.
  replace (Z.to_nat n - Z.to_nat n `min` length src)%nat with 0%nat by lia.
  reflexivity.
Qed.

Lemma length_memory_copy (dst src : list Byte.byte) (n : Z) :
  (Z.to_nat n ≤ length src)%nat → (Z.to_nat n ≤ length dst)%nat →
  length (memory_copy dst src n) = length dst.
Proof.
  intros Hs Hd. unfold memory_copy.
  rewrite length_app, length_take, length_drop. lia.
Qed.

(** Send and receive as a pair, for a receiver that [current_process]
    names: a message of [n <= 256] bytes sent successfully to a process
    whose mailbox is empty is what a receive on behalf of that process
    returns next: the call returns [min n m], the first [min n m] bytes of
    the buffer are the first [min n m] bytes of the payload (the rest of
    the buffer is untouched), and the mailbox is empty again, with count
    0.  Whether the receiving process is the one [current_process] names
    is another matter, see [ipc_receive_after_dispatch_fails]. *)
Theorem ipc_send_receive_round_trip (fuel : nat) (env : ipc_outcomes)
    (dest_pid : Z) (data buffer : list Byte.byte) (n m : Z)
    (k k1 k2 : kernel) (dest : positive) (D : process) :
  0 ≤ n ≤ 256 → (Z.to_nat n ≤ length data)%nat →
  (256 ≤ length (msg_block_bytes env))%nat →
  0 ≤ m < 2 ^ 64 → (Z.to_nat m ≤ length buffer)%nat →
  process_get_by_pid dest_pid k = Some dest → procs k !! dest = Some D →
  mailbox_empty D →
  ipc_send_message fuel env dest_pid data n k = Ret (0, k1) →
  procs k2 = procs k1 → msgs k2 = msgs k1 → process_get_current k2 = Some dest →
  ∃ buffer' k3 D3,
    ipc_receive_message buffer m k2 = Ret (Z.min n m, buffer', k3) ∧
    take (Z.to_nat (Z.min n m)) buffer' = take (Z.to_nat (Z.min n m)) data ∧
    drop (Z.to_nat (Z.min n m)) buffer' = drop (Z.to_nat (Z.min n m)) buffer ∧
    procs k3 !! dest = Some D3 ∧
    message_queue_of D3 = Some (mk_message_queue None None 0).
Proof.
  intros Hn Hdata Hblock Hm Hbuf Hdest HD Hempty Hsend Hp2 Hm2 Hcur.
  destruct (ipc_send_message_delivers fuel env dest_pid data n k k1 dest D
              Hn Hdest HD Hempty Hsend)
    as (ma & D1 & M & HD1 & Hq1 & HM & Hsize & Hnext & Hdata1).
  unfold ipc_receive_message. rewrite Hcur.
  rewrite (deref_Some k2 dest D1) by (rewrite Hp2; exact HD1).
  rewrite bind_Ret, Hq1. cbn [mq_head mq_tail mq_count].
  unfold deref_msg. rewrite Hm2, HM, bind_Ret, Hnext, Hsize.
  rewrite (store_Some k2 dest _ D1) by (rewrite Hp2; exact HD1).
  rewrite bind_Ret.
  assert ((if n <? m then n else m) = Z.min n m) as ->.
  { destruct (Z.ltb_spec n m); lia. }
  assert (to_int (Z.min n m) = Z.min n m) as ->.
  { unfold to_int, wrap32. rewrite Z.mod_small by lia.
    destruct (Z.ltb_spec (Z.min n m) (2 ^ 31)); lia. }
  eexists _, _, _. split; [reflexivity|].
  split; [|split; [|split]].
  - assert (length (msg_data M) = length (msg_block_bytes env)) as Hlen.
    { rewrite Hdata1. apply length_memory_copy; lia. }
    rewrite take_memory_copy by lia.
    rewrite Hdata1. apply take_memory_copy; lia.
  - assert (length (msg_data M) = length (msg_block_bytes env)) as Hlen.
    { rewrite Hdata1. apply length_memory_copy; lia. }
    apply drop_memory_copy. lia.
  - cbn [procs set_procs log_event set_msgs]. apply lookup_insert_eq.
  - reflexivity.
Qed.

Lemma ipc_send_receive_round_trip_witness :
  ∃ buffer' k3 D3,
    ipc_receive_message (replicate 2 Byte.xff) 2 (as_current 2 ipc_sent)
    = Ret (Z.min 3 2, buffer', k3) ∧
    take (Z.to_nat (Z.min 3 2)) buffer' = take (Z.to_nat (Z.min 3 2)) ipc_payload ∧
    drop (Z.to_nat (Z.min 3 2)) buffer' = drop (Z.to_nat (Z.min 3 2)) (replicate 2 Byte.xff) ∧
    procs k3 !! 2%positive = Some D3 ∧
    message_queue_of D3 = Some (mk_message_queue None None 0).
Proof.
  apply (ipc_send_receive_round_trip 0 ipc_env 2 ipc_payload (replicate 2 Byte.xff) 3 2
           (as_current 1 two_process_kernel) ipc_sent (as_current 2 ipc_sent)
           2%positive (demo_pcb 2 PRIORITY_NORMAL PROCESS_READY)).
  - lia.
  - simpl. lia.
  - simpl. lia.
  - split; [lia|reflexivity].
  - simpl. lia.
  - reflexivity.
  - reflexivity.
  - left. reflexivity.
  - vm_compute. reflexivity.
  - reflexivity.
  - reflexivity.
  - reflexivity.
Defined.

(** The receiver's two-byte buffer ends up holding "AB". *)
Example ipc_receive_truncates :
  (ipc_receive_message (replicate 2 Byte.xff) 2 (as_current 2 ipc_sent)
   ≫= λ r, Ret (r.1.1, r.1.2)) = Ret (2, [Byte.x41; Byte.x42]).
Proof. vm_compute. reflexivity. Qed.

(** ** Round-robin order (scheduler.c) *)

Lemma dll_frame k k' pv l :
  (∀ a, a ∈ l → procs k' !! a = procs k !! a) → dll k pv l → dll k' pv l.
Proof.
  revert pv. induction l as [|p l IH]; intros pv Hsame; [done|].
  simpl. intros (P & HP & Hpv & Hnx & Hrest).
  exists P. rewrite Hsame by left. repeat split; try done.
  apply IH; [|done]. intros a Ha. apply Hsame. by right.
Qed.

(** Linking [p] behind the last element of a list. *)
Lemma dll_snoc h0 k k' pv l p P :
  dll k pv l → NoDup l → p ∉ l →
  prev P = match last l with Some t => Some t | None => pv end →
  next P = None →
  procs k = h0 →
  procs k' =
    match last l with
    | Some t =>
        match h0 !! t with
        | Some T => <[t := set_next (Some p) T]> (<[p := P]> h0)
        | None => <[p := P]> h0
        end
    | None => <[p := P]> h0
    end →
  dll k' pv (l ++ [p]).
Proof.
  revert pv k. induction l as [|a l IH]; intros pv k Hdll Hnd Hp Hprev Hnext Hh0 Hk'.
  - simpl in *. exists P. rewrite Hk', lookup_insert_eq. done.
  - simpl in Hdll. destruct Hdll as (A & HA & HpvA & HnxA & Hrest).
    apply NoDup_cons in Hnd as [Ha Hnd].
    apply not_elem_of_cons in Hp as [Hpa Hp].
    destruct l as [|b l].
    + (* a is the last element *)
      simpl in *. rewrite <- Hh0, HA in Hk'.
      exists (set_next (Some p) A). rewrite Hk', lookup_insert_eq.
      repeat split; try done.
      exists P. rewrite lookup_insert_ne, lookup_insert_eq by done. done.
    + change (last (a :: b :: l)) with (last (b :: l)) in Hprev, Hk'.
      assert (∃ t, last (b :: l) = Some t ∧ t ∈ b :: l) as (t & Ht & Htin).
      { destruct (last (b :: l)) as [t|] eqn:E.
        - exists t. split; [done|]. by apply last_Some_elem_of.
        - by apply last_None in E. }
      rewrite Ht in Hprev, Hk'.
      assert (a ≠ t) by (intros ->; done).
      assert (procs k' !! a = Some A) as HA'.
      { rewrite Hk'. destruct (h0 !! t);
          rewrite ?lookup_insert_ne by done; by rewrite <- Hh0. }
      change ((a :: b :: l) ++ [p]) with (a :: ((b :: l) ++ [p])).
      simpl. exists A. repeat split; try done.
      apply (IH (Some a) k); try done.
      * by rewrite Ht.
      * by rewrite Ht.
Qed.

Lemma dll_lookup k pv l a : dll k pv l → a ∈ l → is_Some (procs k !! a).
Proof.
  revert pv. induction l as [|p l IH]; intros pv Hdll Ha.
  - by apply elem_of_nil in Ha.
  - destruct Hdll as (P & HP & _ & _ & Hrest).
    apply elem_of_cons in Ha as [->|Ha]; [by exists P|by eapply IH].
Qed.

Ltac sch_simpl :=
  cbn [procs set_procs upd_sch set_sch sch set_ready_queue_tail
       set_ready_queue_head ready_queue_head ready_queue_tail
       current_algorithm running_process pm timer_ticks upd_pm set_pm
       set_running_process].

(** Under round-robin, adding a READY process that is not queued appends
    it to the ready queue and changes nothing but queue links. *)
Lemma scheduler_add_process_rr fuel k l p P :
  current_algorithm (sch k) = SCHED_ROUND_ROBIN →
  ready_queue k l → p ∉ l →
  procs k !! p = Some P → state P = PROCESS_READY →
  ∃ k',
    scheduler_add_process fuel (Some p) k = Ret k' ∧
    ready_queue k' (l ++ [p]) ∧
    current_algorithm (sch k') = SCHED_ROUND_ROBIN ∧
    running_process (sch k') = running_process (sch k) ∧
    pm k' = pm k ∧ timer_ticks k' = timer_ticks k ∧
    (∀ a, state <$> (procs k' !! a) = state <$> (procs k !! a)).
Proof.
  intros Halg (Hhead & Htail & Hnd & Hdll) Hp HP Hst.
  unfold scheduler_add_process.
  rewrite (deref_Some _ _ _ HP), bind_Ret, decide_True, Halg by done.
  cbn [Z.eqb SCHED_ROUND_ROBIN].
  rewrite (store_Some _ _ _ _ HP), bind_Ret.
  erewrite store_Some by (cbn [procs set_procs]; apply lookup_insert_eq).
  rewrite bind_Ret. cbn [sch set_procs procs]. rewrite insert_insert_eq.
  set (P2 := set_prev (ready_queue_tail (sch k)) (set_next None P)).
  destruct (ready_queue_tail (sch k)) as [t|] eqn:Et.
  - assert (t ∈ l) as Htl by (apply last_Some_elem_of; congruence).
    assert (t ≠ p) as Hne by (intros ->; done).
    destruct (dll_lookup k None l t Hdll Htl) as [T HT].
    erewrite store_Some
      by (cbn [procs set_procs]; rewrite lookup_insert_ne by done; exact HT).
    rewrite bind_Ret. eexists. split; [reflexivity|].
    cbn [procs set_procs upd_sch set_sch sch set_ready_queue_tail
         ready_queue_head ready_queue_tail current_algorithm running_process
         pm timer_ticks].
    split; [|split; [done|split; [done|split; [done|split; [done|]]]]].
    + unfold ready_queue. sch_simpl. split; [|split; [|split]].
      * rewrite Hhead. destruct l; [by apply elem_of_nil in Htl|done].
      * by rewrite last_snoc.
      * apply NoDup_app. split; [done|]. split; [|apply NoDup_singleton].
        intros x Hx Hx2. apply list_elem_of_singleton in Hx2 as ->. done.
      * eapply (dll_snoc (procs k) k _ None l p P2); try done.
        -- subst P2. cbn. by rewrite <- Htail.
        -- cbn [procs set_procs]. rewrite <- Htail, HT. done.
    + intros a. destruct (decide (a = t)) as [->|Hat].
      * rewrite lookup_insert_eq, HT. done.
      * rewrite lookup_insert_ne by done.
        destruct (decide (a = p)) as [->|Hap].
        -- rewrite lookup_insert_eq, HP. done.
        -- rewrite lookup_insert_ne by done. done.
  - assert (l = []) as -> by (apply last_None; congruence).
    rewrite bind_Ret. eexists. split; [reflexivity|].
    cbn [procs set_procs upd_sch set_sch sch set_ready_queue_tail set_ready_queue_head
         ready_queue_head ready_queue_tail current_algorithm running_process
         pm timer_ticks].
    split; [|split; [done|split; [done|split; [done|split; [done|]]]]].
    + unfold ready_queue. sch_simpl.
      split; [done|]. split; [done|]. split; [apply NoDup_singleton|].
      simpl. exists P2. rewrite lookup_insert_eq. done.
    + intros a. destruct (decide (a = p)) as [->|Hap].
      * rewrite lookup_insert_eq, HP. done.
      * rewrite lookup_insert_ne by done. done.
Qed.

Lemma scheduler_next_rr_empty fuel k :
  current_algorithm (sch k) = SCHED_ROUND_ROBIN → ready_queue k [] →
  scheduler_next fuel k = Ret (None, k).
Proof.
  intros Halg (Hhead & _). unfold scheduler_next. rewrite Halg, Hhead. reflexivity.
Qed.

(** Under round-robin, [scheduler_next] on a non-empty ready queue
    returns its head and unlinks it. *)
Lemma scheduler_next_rr fuel k h l :
  current_algorithm (sch k) = SCHED_ROUND_ROBIN → ready_queue k (h :: l) →
  ∃ k',
    scheduler_next fuel k = Ret (Some h, k') ∧
    ready_queue k' l ∧
    current_algorithm (sch k') = SCHED_ROUND_ROBIN ∧
    running_process (sch k') = running_process (sch k) ∧
    pm k' = pm k ∧ timer_ticks k' = timer_ticks k ∧
    (∀ a, state <$> (procs k' !! a) = state <$> (procs k !! a)).
Proof.
  intros Halg (Hhead & Htail & Hnd & Hdll).
  destruct Hdll as (H & HH & Hpv & Hnx & Hrest).
  apply NoDup_cons in Hnd as [Hh Hnd].
  unfold scheduler_next, scheduler_remove_process.
  rewrite Halg, Hhead. cbn [Z.eqb SCHED_ROUND_ROBIN orb head].
  rewrite (deref_Some _ _ _ HH), bind_Ret, Hpv.
  rewrite bind_Ret.
  erewrite deref_Some by (sch_simpl; exact HH).
  rewrite bind_Ret, Hnx, Hpv.
  destruct l as [|n l].
  - cbn [head]. rewrite bind_Ret.
    erewrite store_Some by (sch_simpl; exact HH). rewrite bind_Ret.
    erewrite store_Some by (sch_simpl; apply lookup_insert_eq). rewrite !bind_Ret.
    eexists. split; [reflexivity|]. unfold ready_queue. sch_simpl.
    repeat split; try done; try apply NoDup_nil_2.
    intros a. rewrite insert_insert_eq. destruct (decide (a = h)) as [->|Hne].
    + rewrite lookup_insert_eq, HH. done.
    + rewrite lookup_insert_ne by done. done.
  - cbn [head]. destruct Hrest as (N & HN & HpvN & HnxN & Hrest).
    apply not_elem_of_cons in Hh as [Hhn Hh].
    apply NoDup_cons in Hnd as [Hn Hnd].
    erewrite store_Some by (sch_simpl; exact HN). rewrite bind_Ret.
    erewrite store_Some by (sch_simpl; rewrite lookup_insert_ne by done; exact HH).
    rewrite bind_Ret.
    erewrite store_Some by (sch_simpl; apply lookup_insert_eq). rewrite !bind_Ret.
    eexists. split; [reflexivity|]. unfold ready_queue. sch_simpl.
    rewrite insert_insert_eq.
    split; [|split; [done|split; [done|split; [done|split; [done|]]]]].
    + split; [done|]. split; [done|]. split; [by apply NoDup_cons|].
      simpl. exists (set_prev None N).
      rewrite lookup_insert_ne, lookup_insert_eq by done.
      repeat split; try done.
      eapply dll_frame; [|exact Hrest].
      intros a Ha. sch_simpl.
      rewrite !lookup_insert_ne; [done| |]; intros ->; done.
    + intros a. destruct (decide (a = h)) as [->|Hne].
      * rewrite lookup_insert_eq, HH. done.
      * rewrite lookup_insert_ne by done.
        destruct (decide (a = n)) as [->|Hne2].
        -- rewrite lookup_insert_eq, HN. done.
        -- rewrite lookup_insert_ne by done. done.
Qed.

Lemma add_all_rr fuel ps : ∀ k l,
  current_algorithm (sch k) = SCHED_ROUND_ROBIN →
  ready_queue k l → NoDup ps →
  (∀ p, p ∈ ps → (p ∉ l) ∧ (state <$> (procs k !! p)) = Some PROCESS_READY) →
  ∃ k',
    add_all fuel ps k = Ret k' ∧
    ready_queue k' (l ++ ps) ∧
    current_algorithm (sch k') = SCHED_ROUND_ROBIN ∧
    running_process (sch k') = running_process (sch k) ∧
    pm k' = pm k ∧ timer_ticks k' = timer_ticks k ∧
    (∀ a, state <$> (procs k' !! a) = state <$> (procs k !! a)).
Proof.
  induction ps as [|p ps IH]; intros k l Halg Hq Hnd Hps.
  - exists k. rewrite app_nil_r. done.
  - apply NoDup_cons in Hnd as [Hp Hnd].
    destruct (Hps p ltac:(left)) as [Hpl HP].
    apply fmap_Some in HP as (P & HP & Hst).
    destruct (scheduler_add_process_rr fuel k l p P Halg Hq Hpl HP (eq_sym Hst))
      as (k1 & Hadd & Hq1 & Halg1 & Hrun1 & Hpm1 & Htk1 & Hst1).
    destruct (IH k1 (l ++ [p]) Halg1 Hq1 Hnd)
      as (k' & Hall & Hq' & Halg' & Hrun' & Hpm' & Htk' & Hst').
    { intros q Hq2. destruct (Hps q ltac:(by right)) as [Hql HQ]. split.
      - apply not_elem_of_app. split; [done|].
        intros ->%list_elem_of_singleton. done.
      - by rewrite Hst1. }
    exists k'. cbn [add_all]. rewrite Hadd, bind_Ret, Hall.
    rewrite <- app_assoc in Hq'.
    split; [done|]. split; [exact Hq'|]. split; [done|].
    split; [congruence|]. split; [congruence|]. split; [congruence|].
    intros a. by rewrite Hst', Hst1.
Qed.

Lemma next_n_rr fuel l : ∀ k,
  current_algorithm (sch k) = SCHED_ROUND_ROBIN → ready_queue k l →
  ∃ k',
    next_n fuel (length l) k = Ret (Some <$> l, k') ∧
    ready_queue k' [] ∧
    (∀ a, state <$> (procs k' !! a) = state <$> (procs k !! a)).
Proof.
  induction l as [|h l IH]; intros k Halg Hq.
  - exists k. done.
  - destruct (scheduler_next_rr fuel k h l Halg Hq)
      as (k1 & Hnext & Hq1 & Halg1 & _ & _ & _ & Hst1).
    destruct (IH k1 Halg1 Hq1) as (k' & Hn & Hq' & Hst').
    exists k'. cbn [next_n length]. rewrite Hnext, bind_Ret. cbn beta iota. rewrite Hn, bind_Ret.
    split; [done|]. split; [exact Hq'|].
    intros a. by rewrite Hst', Hst1.
Qed.

(** Assignments to fields other than [next] and [prev] leave the ready
    queue as it is. *)
Lemma dll_store k k' pv l a f :
  (∀ P, next (f P) = next P ∧ prev (f P) = prev P) →
  store a f k = Ret k' → dll k pv l → dll k' pv l.
Proof.
  intros Hf (Q & HQ & ->)%store_Ret. revert pv.
  induction l as [|p l IH]; intros pv; [done|].
  simpl. intros (P & HP & Hpv & Hnx & Hrest).
  destruct (decide (p = a)) as [->|Hne].
  - exists (f Q). rewrite lookup_insert_eq.
    destruct (Hf Q) as [-> ->]. assert (Q = P) as -> by congruence.
    repeat split; try done. by apply IH.
  - exists P. rewrite lookup_insert_ne by done. repeat split; try done. by apply IH.
Qed.

Lemma ready_queue_store k k' l a f :
  (∀ P, next (f P) = next P ∧ prev (f P) = prev P) →
  store a f k = Ret k' → ready_queue k l → ready_queue k' l.
Proof.
  intros Hf Hs (Hh & Ht & Hnd & Hdll).
  pose proof (dll_store k k' None l a f Hf Hs Hdll) as Hdll'.
  apply store_Ret in Hs as (Q & HQ & ->). done.
Qed.

Lemma store_state k a f P :
  procs k !! a = Some P →
  ∃ k', store a f k = Ret k' ∧
        procs k' !! a = Some (f P) ∧
        (∀ b, b ≠ a → procs k' !! b = procs k !! b) ∧
        sch k' = sch k ∧ pm k' = pm k ∧ timer_ticks k' = timer_ticks k.
Proof.
  intros HP. rewrite (store_Some _ _ _ _ HP). eexists. split; [reflexivity|].
  cbn [procs set_procs sch pm timer_ticks]. rewrite lookup_insert_eq.
  repeat split. intros b Hb. by rewrite lookup_insert_ne.
Qed.

(** What [context_switch] does to the two processes and to the queue. *)
Lemma context_switch_spec k c n C N :
  procs k !! c = Some C → procs k !! n = Some N →
  ∃ k',
    context_switch (Some c) (Some n) k = Ret k' ∧
    running_process (sch k') = Some n ∧
    current_algorithm (sch k') = current_algorithm (sch k) ∧
    (state <$> (procs k' !! n)) = Some PROCESS_RUNNING ∧
    (n ≠ c →
     (state <$> (procs k' !! c)) =
     Some (if decide (state C = PROCESS_RUNNING) then PROCESS_READY else state C)) ∧
    (∀ l, ready_queue k l → ready_queue k' l).
Proof.
  intros HC HN. unfold context_switch.
  set (k0 := upd_pm _ (get_scheduler_stats k)).
  assert (procs k0 !! c = Some C) as HC0 by exact HC.
  destruct (store_state k0 c
              (λ p, set_context_switches (wrap64 (context_switches p + 1)) p) C HC0)
    as (k1 & Hs1 & Hc1 & Ho1 & Hsch1 & _).
  rewrite Hs1, bind_Ret.
  destruct (store_state k1 c
              (λ p, if decide (state p = PROCESS_RUNNING)
                    then set_state PROCESS_READY p else p) _ Hc1)
    as (k2 & Hs2 & Hc2 & Ho2 & Hsch2 & _).
  rewrite Hs2, !bind_Ret.
  assert (∃ N2, procs k2 !! n = Some N2 ∧
                (n ≠ c → N2 = N)) as (N2 & HN2 & HN2eq).
  { destruct (decide (n = c)) as [->|Hne].
    - eexists. split; [exact Hc2|done].
    - exists N. split; [|done]. rewrite Ho2, Ho1 by done. exact HN. }
  destruct (store_state k2 n (set_state PROCESS_RUNNING) N2 HN2)
    as (k3 & Hs3 & Hn3 & Ho3 & Hsch3 & _).
  rewrite Hs3, bind_Ret.
  destruct (store_state k3 n (set_last_scheduled (timer_get_ticks k3)) _ Hn3)
    as (k4 & Hs4 & Hn4 & Ho4 & Hsch4 & _).
  rewrite Hs4, bind_Ret.
  eexists. split; [reflexivity|]. sch_simpl.
  split; [done|]. split; [by rewrite Hsch4, Hsch3, Hsch2, Hsch1|].
  split; [by rewrite Hn4|]. split.
  - intros Hne. rewrite Ho4, Ho3, Hc2 by done. cbn [fmap option_fmap option_map].
    f_equal. cbn [state set_context_switches]. by destruct (decide _).
  - intros l Hq.
    assert (ready_queue k4 l) as (Hh & Ht & Hnd & Hdll).
    { eapply ready_queue_store; [|exact Hs4|]; [by intros []|].
      eapply ready_queue_store; [|exact Hs3|]; [by intros []|].
      eapply ready_queue_store; [|exact Hs2|];
        [intros P; cbn beta; destruct (decide (state P = PROCESS_RUNNING)); done|].
      eapply ready_queue_store; [|exact Hs1|]; [by intros []|].
      destruct Hq as (? & ? & ? & Hd). split; [done|]. split; [done|]. split; [done|].
      eapply dll_frame; [|exact Hd]. done. }
    split; [done|]. split; [done|]. split; [done|].
    eapply dll_frame; [|exact Hdll]. done.
Qed.

(** Under round-robin, a yield by a RUNNING process that is not queued
    first appends it behind everything already queued, then pops the head
    of that queue and switches to it. *)
Lemma scheduler_yield_rr fuel k l c C :
  current_algorithm (sch k) = SCHED_ROUND_ROBIN → ready_queue k l →
  process_get_current k = Some c → procs k !! c = Some C →
  state C = PROCESS_RUNNING → c ∉ l →
  ∃ k_ready k_mid k' n,
    store c (set_state PROCESS_READY) k = Ret k_ready ∧
    scheduler_add_process fuel (Some c) k_ready = Ret k_mid ∧
    ready_queue k_mid (l ++ [c]) ∧
    head (l ++ [c]) = Some n ∧
    scheduler_yield fuel k = Ret k' ∧
    running_process (sch k') = Some n ∧
    (state <$> (procs k' !! n)) = Some PROCESS_RUNNING ∧
    ready_queue k' (tail (l ++ [c])) ∧
    (∀ q l', l = q :: l' →
       n = q ∧ ready_queue k' (l' ++ [c]) ∧
       ready_queue_tail (sch k') = Some c ∧
       (state <$> (procs k' !! c)) = Some PROCESS_READY).
Proof.
  intros Halg Hq Hcur HC Hrun Hcl.
  destruct (store_state k c (set_state PROCESS_READY) C HC)
    as (k0 & Hs0 & Hc0 & Ho0 & Hsch0 & Hpm0 & Htk0).
  assert (ready_queue k0 l) as Hq0.
  { eapply ready_queue_store; [|exact Hs0|exact Hq]. by intros []. }
  assert (current_algorithm (sch k0) = SCHED_ROUND_ROBIN) as Halg0 by congruence.
  destruct (scheduler_add_process_rr fuel k0 l c _ Halg0 Hq0 Hcl Hc0 eq_refl)
    as (k1 & Hadd & Hq1 & Halg1 & Hrun1 & Hpm1 & Htk1 & Hst1).
  assert (∃ n rest, l ++ [c] = n :: rest) as (n & rest & Hsplit).
  { destruct l as [|q l']; simpl; eauto. }
  rewrite Hsplit in Hq1.
  destruct (scheduler_next_rr fuel k1 n rest Halg1 Hq1)
    as (k2 & Hnext & Hq2 & Halg2 & Hrun2 & Hpm2 & Htk2 & Hst2).
  assert ((state <$> (procs k2 !! c)) = Some PROCESS_READY) as Hc2.
  { rewrite Hst2, Hst1, Hc0. done. }
  apply fmap_Some in Hc2 as (C2 & HC2 & HC2st).
  assert (is_Some (procs k2 !! n)) as [N2 HN2].
  { destruct (decide (n = c)) as [->|Hne]; [by eexists|].
    assert (n ∈ l ++ [c]) as Hin by (rewrite Hsplit; left).
    apply elem_of_app in Hin as [Hin|Hin%list_elem_of_singleton]; [|done].
    destruct Hq0 as (_ & _ & _ & Hd).
    destruct (dll_lookup k0 None l n Hd Hin) as [N0 HN0].
    assert (is_Some (state <$> (procs k2 !! n))) as [s Hs].
    { rewrite Hst2, Hst1, HN0. by eexists. }
    apply fmap_Some in Hs as (N2 & HN2 & _). by eexists. }
  destruct (context_switch_spec k2 c n C2 N2 HC2 HN2)
    as (k3 & Hcs & Hrun3 & Halg3 & Hn3 & Hc3 & Hq3).
  exists k0, k1, k3, n.
  split; [exact Hs0|]. split; [exact Hadd|]. split; [by rewrite Hsplit|].
  split; [by rewrite Hsplit|]. split.
  { unfold scheduler_yield. rewrite Hcur, (deref_Some _ _ _ HC), bind_Ret.
    rewrite decide_True by done. rewrite Hs0, bind_Ret, Hadd, bind_Ret.
    rewrite Hnext, bind_Ret. exact Hcs. }
  split; [exact Hrun3|]. split; [exact Hn3|].
  split; [rewrite Hsplit; apply Hq3, Hq2|].
  intros q l' ->. simpl in Hsplit. injection Hsplit as <- <-.
  split; [done|]. split; [by apply Hq3|]. split.
  - destruct (Hq3 _ Hq2) as (_ & Ht & _). rewrite Ht. apply last_snoc.
  - assert (q ≠ c) as Hne by (intros ->; apply Hcl; left).
    rewrite (Hc3 Hne), <- HC2st. reflexivity.
Qed.

(** Under round-robin, processes that are READY, distinct and not yet
    queued, added by [scheduler_add_process] in the order P1..Pn, come
    back from successive [scheduler_next] calls in that order (after
    whatever was queued before them); and [scheduler_yield], when the
    process that [current_process] names is RUNNING, first appends that
    process behind everything queued and only then takes the head of the
    queue as the next process, so that it ends up at the tail of what
    remains.  A dispatched process that yields is not the one
    [current_process] names, see
    [scheduler_yield_loses_dispatched_caller]. *)
Theorem round_robin_insertion_order :
  (∀ fuel k l ps,
     current_algorithm (sch k) = SCHED_ROUND_ROBIN → ready_queue k l →
     NoDup ps →
     (∀ p, p ∈ ps → (p ∉ l) ∧ (state <$> (procs k !! p)) = Some PROCESS_READY) →
     ∃ k1 k2,
       add_all fuel ps k = Ret k1 ∧
       ready_queue k1 (l ++ ps) ∧
       next_n fuel (length (l ++ ps)) k1 = Ret (Some <$> (l ++ ps), k2) ∧
       ready_queue k2 [])
  ∧
  (∀ fuel k l c C,
     current_algorithm (sch k) = SCHED_ROUND_ROBIN → ready_queue k l →
     process_get_current k = Some c → procs k !! c = Some C →
     state C = PROCESS_RUNNING → c ∉ l →
     ∃ k_ready k_mid k' n,
       store c (set_state PROCESS_READY) k = Ret k_ready ∧
       scheduler_add_process fuel (Some c) k_ready = Ret k_mid ∧
       ready_queue k_mid (l ++ [c]) ∧
       head (l ++ [c]) = Some n ∧
       scheduler_yield fuel k = Ret k' ∧
       running_process (sch k') = Some n ∧
       (state <$> (procs k' !! n)) = Some PROCESS_RUNNING ∧
       ready_queue k' (tail (l ++ [c])) ∧
       (∀ q l', l = q :: l' →
          n = q ∧ ready_queue k' (l' ++ [c]) ∧
          ready_queue_tail (sch k') = Some c ∧
          (state <$> (procs k' !! c)) = Some PROCESS_READY)).
Proof.
  split.
  - intros fuel k l ps Halg Hq Hnd Hps.
    destruct (add_all_rr fuel ps k l Halg Hq Hnd Hps)
      as (k1 & Hadd & Hq1 & Halg1 & _).
    destruct (next_n_rr fuel (l ++ ps) k1 Halg1 Hq1) as (k2 & Hn & Hq2 & _).
    by exists k1, k2.
  - intros fuel k l c C. apply scheduler_yield_rr.
Qed.

Ltac solve_not_elem_of :=
  let H := fresh in
  intros H;
  repeat (apply elem_of_cons in H as [H|H]; [discriminate H|]);
  by apply elem_of_nil in H.

Lemma round_robin_insertion_order_witness :
  (∃ k1 k2,
     add_all 0 [1%positive; 2%positive] rr_kernel = Ret k1 ∧
     ready_queue k1 ([] ++ [1%positive; 2%positive]) ∧
     next_n 0 (length ([] ++ [1%positive; 2%positive])) k1
     = Ret (Some <$> ([] ++ [1%positive; 2%positive]), k2) ∧
     ready_queue k2 [])
  ∧
  (∃ k_ready k_mid k' n,
     store 3%positive (set_state PROCESS_READY) rr_queued = Ret k_ready ∧
     scheduler_add_process 0 (Some 3%positive) k_ready = Ret k_mid ∧
     ready_queue k_mid ([1%positive; 2%positive] ++ [3%positive]) ∧
     head ([1%positive; 2%positive] ++ [3%positive]) = Some n ∧
     scheduler_yield 0 rr_queued = Ret k' ∧
     running_process (sch k') = Some n ∧
     (state <$> (procs k' !! n)) = Some PROCESS_RUNNING ∧
     ready_queue k' (tail ([1%positive; 2%positive] ++ [3%positive])) ∧
     (∀ q l', [1%positive; 2%positive] = q :: l' →
        n = q ∧ ready_queue k' (l' ++ [3%positive]) ∧
        ready_queue_tail (sch k') = Some 3%positive ∧
        (state <$> (procs k' !! 3%positive)) = Some PROCESS_READY)).
Proof.
  split.
  - apply (proj1 round_robin_insertion_order 0%nat rr_kernel [] [1%positive; 2%positive]).
    + reflexivity.
    + split; [reflexivity|]. split; [reflexivity|]. split; [apply NoDup_nil_2|exact I].
    + apply NoDup_cons. split; [solve_not_elem_of|]. apply NoDup_singleton.
    + intros p Hp. split; [apply not_elem_of_nil|].
      apply elem_of_cons in Hp as [->|Hp]; [vm_compute; reflexivity|].
      apply list_elem_of_singleton in Hp as ->. vm_compute. reflexivity.
  - apply (proj2 round_robin_insertion_order 0%nat rr_queued [1%positive; 2%positive]
             3%positive (demo_pcb 3 PRIORITY_NORMAL PROCESS_RUNNING)).
    + reflexivity.
    + split; [vm_compute; reflexivity|]. split; [vm_compute; reflexivity|].
      split; [apply NoDup_cons; split; [solve_not_elem_of|apply NoDup_singleton]|].
      simpl. eexists. split; [vm_compute; reflexivity|].
      split; [reflexivity|]. split; [reflexivity|].
      eexists. split; [vm_compute; reflexivity|].
      split; [reflexivity|]. split; [reflexivity|]. exact I.
    + reflexivity.
    + vm_compute. reflexivity.
    + reflexivity.
    + solve_not_elem_of.
Defined.

(** Two processes queued, and the process that [current_process] names
    is RUNNING when [scheduler_yield] is called: the first queued process
    is switched to and the current one is at the tail of the queue. *)
Example yield_scenario :
  (scheduler_yield 0 rr_queued
   ≫= λ k, Ret (running_process (sch k), ready_queue_head (sch k),
               ready_queue_tail (sch k))) =
  Ret (Some 1%positive, Some 2%positive, Some 3%positive).
Proof. vm_compute. reflexivity. Qed.

(** * Further properties

    Properties of the functions around the ones above: pid allocation,
    creation and destruction, removal and termination, the priority and
    fair ready queues, the wake-up loop, the mailbox as a queue, and the
    remaining pieces of the per-core scheduler. *)

(** ** Pid allocation and the process table (process.c) *)

Lemma upd_next_pid_id k : upd_pm (set_next_pid (next_pid (pm k))) k = k.
Proof. by destruct k as [h m [c i np ac st sa sc tb] s r t y l]. Qed.

Lemma upd_next_pid_twice n m k :
  upd_pm (set_next_pid n) (upd_pm (set_next_pid m) k) = upd_pm (set_next_pid n) k.
Proof. by destruct k as [h m' [c i np ac st sa sc tb] s r t y l]. Qed.

Lemma probe_pid_first_free fuel : ∀ pid k f,
  1 ≤ f < MAX_PROCESSES → table_get k f = None →
  1 ≤ pid < MAX_PROCESSES →
  next_pid (pm k) = succ_pid pid →
  (∀ g, 1 ≤ g < MAX_PROCESSES → pid_distance pid g < pid_distance pid f →
        table_get k g ≠ None) →
  (Z.to_nat (pid_distance pid f) ≤ fuel)%nat →
  probe_pid fuel pid k = Ret (f, upd_pm (set_next_pid (succ_pid f)) k).
Proof.
  induction fuel as [|fuel IH]; intros pid k f Hf Hfree Hp Hn Hocc Hd;
    rewrite probe_pid_eq.
  - assert (pid = f) as ->.
    { unfold pid_distance, MAX_PROCESSES in *. destruct (Z.leb_spec pid f); lia. }
    rewrite Hfree, <- Hn. by rewrite upd_next_pid_id.
  - destruct (decide (pid = f)) as [->|Hne].
    { rewrite Hfree, <- Hn. by rewrite upd_next_pid_id. }
    destruct (table_get k pid) eqn:E.
    2:{ exfalso. apply (Hocc pid Hp); [|done].
        unfold pid_distance, MAX_PROCESSES in *.
        destruct (Z.leb_spec pid pid), (Z.leb_spec pid f); lia. }
    destruct (Z.ltb_spec pid MAX_PROCESSES); [|lia].
    assert (next_pid_in_range k) as Hr.
    { unfold next_pid_in_range, succ_pid, MAX_PROCESSES in *. rewrite Hn.
      destruct (Z.eqb_spec pid 255); lia. }
    destruct (take_next_pid_spec k Hr) as (n & -> & Hn1 & Hn2). cbn [fst snd].
    rewrite (IH (next_pid (pm k)) (upd_pm (set_next_pid n) k) f); try done.
    + intros g Hg Hlt. change (table_get k g ≠ None). apply (Hocc g Hg).
      rewrite Hn in Hlt. unfold pid_distance, succ_pid, MAX_PROCESSES in *.
      destruct (Z.eqb_spec pid 255);
        repeat match goal with
               | H : context [?a <=? ?b] |- _ => destruct (Z.leb_spec a b)
               | |- context [?a <=? ?b] => destruct (Z.leb_spec a b)
               end; lia.
    + rewrite Hn. unfold pid_distance, succ_pid, MAX_PROCESSES in *.
      destruct (Z.eqb_spec pid 255);
        repeat match goal with
               | H : context [?a <=? ?b] |- _ => destruct (Z.leb_spec a b)
               | |- context [?a <=? ?b] => destruct (Z.leb_spec a b)
               end; lia.
Qed.

Lemma process_get_next_pid_first_free fuel k f :
  next_pid_in_range k → first_free k f → (255 ≤ fuel)%nat →
  process_get_next_pid fuel k = Ret (f, upd_pm (set_next_pid (succ_pid f)) k).
Proof.
  intros Hr (Hf & Hfree & Hocc) Hfuel. unfold process_get_next_pid.
  destruct (take_next_pid_spec k Hr) as (n & -> & Hn1 & Hn2).
  rewrite (probe_pid_first_free fuel (next_pid (pm k)) (upd_pm (set_next_pid n) k) f);
    try done.
  unfold pid_distance, next_pid_in_range, MAX_PROCESSES in *.
    destruct (Z.leb_spec (next_pid (pm k)) f); lia.
Qed.

(** Unfolding of the record updates and projections of the state. *)
Ltac kernel_cbv :=
  cbv [procs msgs pm sch neural_runqueues timer_ticks system_time mem_log
       set_procs set_msgs set_pm set_sch set_neural_runqueues set_timer_ticks
       log_event upd_pm upd_sch timer_get_ticks get_system_time
       current_process idle_process next_pid active_process_count
       stats_total_processes stats_active_processes stats_context_switches
       process_table set_current_process set_idle_process set_next_pid
       set_active_process_count set_stats_total_processes
       set_stats_active_processes set_stats_context_switches set_process_table
       current_algorithm ready_queue_head ready_queue_tail running_process
       last_schedule_time time_slice_counter priority_queues
       set_current_algorithm set_ready_queue_head set_ready_queue_tail
       set_running_process set_last_schedule_time set_time_slice_counter
       set_priority_queues
       pid ppid name state priority time_slice cpu_time creation_time
       page_directory stack_base stack_size heap_base heap_size context parent
       next prev last_scheduled sleep_until message_queue_of context_switches
       next_in_queue sched_stats
       set_pid set_state set_cpu_time set_page_directory set_stack set_heap
       set_context set_next set_prev set_last_scheduled set_sleep_until
       set_message_queue set_context_switches set_next_in_queue set_sched_stats
       init_metadata initial_context zero_process zero_context kfree_process].

Lemma process_create_succeeds fuel env nm entry_point prio k a d f :
  kmalloc_pcb env = Some a → procs k !! a = None →
  create_address_space env = Some d →
  vmm_alloc_stack env ≠ 0 → vmm_alloc_heap env ≠ 0 →
  next_pid_in_range k → first_free k f → (255 ≤ fuel)%nat →
  (∀ c, current_process (pm k) = Some c → is_Some (procs k !! c)) →
  process_create fuel env nm entry_point prio k
  = Ret (Some a, created_kernel env nm entry_point prio a f d k).
Proof.
  intros Ha Hfresh Hd Hs Hh Hr Hf Hfuel Hcur.
  unfold process_create. rewrite Ha.
  set (k1 := log_event (Ev_kmalloc a) (set_procs (<[a:=zero_process]> (procs k)) k)).
  rewrite (process_get_next_pid_first_free fuel k1 f); [|done| |done].
  2:{ destruct Hf as (? & ? & ?). split; [done|]. split; done. }
  rewrite bind_Ret. cbn beta iota.
  step_store.
  destruct Hf as (Hf1 & Hf2 & Hf3).
  destruct (Z.leb_spec MAX_PROCESSES f) as [|_]; [lia|].
  match goal with
  | |- (?m ≫= _) = _ => assert (m = Ret (current_pid k)) as ->
  end.
  { subst k1. unfold current_pid.
    cbn [current_process pm set_procs upd_pm set_pm set_next_pid log_event].
    destruct (current_process (pm k)) as [c|] eqn:Ec; [|done].
    unfold deref. cbn [procs set_procs upd_pm set_pm log_event].
    destruct (Hcur c eq_refl) as [C HC].
    assert (c ≠ a) by congruence.
    rewrite !lookup_insert_ne by done. by rewrite HC. }
  rewrite bind_Ret. step_store. rewrite Hd. step_store. step_store.
  destruct (Z.eqb_spec (vmm_alloc_stack env) 0) as [|_]; [done|].
  step_store.
  destruct (Z.eqb_spec (vmm_alloc_heap env) 0) as [|_]; [done|].
  step_store. step_store.
  subst k1. unfold created_kernel, created_pcb.
  destruct k as [h m [c i np ac st sa sc tb] s r t y l].
  kernel_cbv. rewrite !insert_insert_eq, <- !app_assoc. reflexivity.
Qed.

Lemma succ_pid_in_range f : 1 ≤ f < MAX_PROCESSES → 1 ≤ succ_pid f < MAX_PROCESSES.
Proof. unfold succ_pid, MAX_PROCESSES. destruct (Z.eqb_spec f 255); lia. Qed.

Lemma process_create_gives_up fuel env nm entry_point prio k a f :
  kmalloc_pcb env = Some a → procs k !! a = None →
  create_address_space env = None ∨ vmm_alloc_stack env = 0 ∨ vmm_alloc_heap env = 0 →
  next_pid_in_range k → first_free k f → (255 ≤ fuel)%nat →
  (∀ c, current_process (pm k) = Some c → is_Some (procs k !! c)) →
  ∃ k',
    process_create fuel env nm entry_point prio k = Ret (None, k') ∧
    procs k' = procs k ∧
    pm k' = set_next_pid (succ_pid f) (pm k) ∧
    sch k' = sch k ∧ msgs k' = msgs k.
Proof.
  intros Ha Hfresh Hfail Hr Hf Hfuel Hcur.
  unfold process_create. rewrite Ha.
  set (k1 := log_event (Ev_kmalloc a) (set_procs (<[a:=zero_process]> (procs k)) k)).
  rewrite (process_get_next_pid_first_free fuel k1 f); [|done| |done].
  2:{ destruct Hf as (? & ? & ?). split; [done|]. split; done. }
  rewrite bind_Ret. cbn beta iota.
  step_store.
  destruct Hf as (Hf1 & Hf2 & Hf3).
  destruct (Z.leb_spec MAX_PROCESSES f) as [|_]; [lia|].
  match goal with
  | |- ∃ k', (?m ≫= _) = _ ∧ _ => assert (m = Ret (current_pid k)) as ->
  end.
  { subst k1. unfold current_pid.
    cbn [current_process pm set_procs upd_pm set_pm set_next_pid log_event].
    destruct (current_process (pm k)) as [c|] eqn:Ec; [|done].
    unfold deref. cbn [procs set_procs upd_pm set_pm log_event].
    destruct (Hcur c eq_refl) as [C HC].
    assert (c ≠ a) by congruence.
    rewrite !lookup_insert_ne by done. by rewrite HC. }
  rewrite bind_Ret. step_store.
  assert (∀ P, delete a (<[a:=P]> (procs k)) = procs k) as Hdel.
  { intros P. rewrite delete_insert_eq. by apply delete_id. }
  destruct (create_address_space env) as [d|] eqn:Ed.
  - step_store. step_store.
    destruct (Z.eqb_spec (vmm_alloc_stack env) 0) as [Hs|Hs].
    + eexists. split; [reflexivity|]. subst k1. kernel_cbv.
      rewrite !insert_insert_eq, Hdel. done.
    + step_store.
      destruct (Z.eqb_spec (vmm_alloc_heap env) 0) as [Hh|Hh].
      * eexists. split; [reflexivity|]. subst k1. kernel_cbv.
        rewrite !insert_insert_eq, Hdel. done.
      * destruct Hfail as [|[|]]; done.
  - eexists. split; [reflexivity|]. subst k1. kernel_cbv.
    rewrite !insert_insert_eq, Hdel. done.
Qed.

Lemma table_get_insert_eq k k' f v :
  process_table (pm k') = <[Z.to_nat f := v]> (process_table (pm k)) →
  0 ≤ f → (Z.to_nat f < length (process_table (pm k)))%nat →
  table_get k' f = v.
Proof.
  intros Ht Hf Hlen. unfold table_get. rewrite Ht.
  destruct (Z.ltb_spec f 0); [lia|]. by rewrite list_lookup_insert_eq.
Qed.

Lemma table_get_insert_ne k k' f g v :
  process_table (pm k') = <[Z.to_nat f := v]> (process_table (pm k)) →
  0 ≤ f → g ≠ f → table_get k' g = table_get k g.
Proof.
  intros Ht Hf Hne. unfold table_get. rewrite Ht.
  destruct (Z.ltb_spec g 0); [done|]. rewrite list_lookup_insert_ne; [done|lia].
Qed.

Lemma table_get_same k k' i :
  process_table (pm k') = process_table (pm k) → table_get k' i = table_get k i.
Proof. unfold table_get. by intros ->. Qed.



(** X2: when the allocator grants the PCB (at a fresh address), the
    address space, the stack and the heap, [process_create] returns the
    PCB, registered under the first free pid of the cycle: the lookup by
    that pid finds it and every other lookup is as before.  The process is
    READY, carries the given priority, the caller as parent, a context
    that starts at the entry point on top of its stack, and is linked into
    no queue: the scheduler state is untouched.  The four acquisitions are
    logged in order and the active count grows by one. *)
Theorem process_create_registers (fuel : nat) (env : alloc_outcomes)
    (nm : string) (entry_point prio : Z) (k : kernel) (a d : positive) (f : Z) :
  kmalloc_pcb env = Some a → procs k !! a = None →
  create_address_space env = Some d →
  vmm_alloc_stack env ≠ 0 → vmm_alloc_heap env ≠ 0 →
  next_pid_in_range k → first_free k f → (255 ≤ fuel)%nat →
  (∀ c, current_process (pm k) = Some c → is_Some (procs k !! c)) →
  length (process_table (pm k)) = 256%nat →
  ∃ k' P,
    process_create fuel env nm entry_point prio k = Ret (Some a, k') ∧
    process_get_by_pid f k' = Some a ∧
    procs k' !! a = Some P ∧
    pid P = f ∧ 1 ≤ f < MAX_PROCESSES ∧
    state P = PROCESS_READY ∧ priority P = prio ∧
    ppid P = current_pid k ∧ parent P = current_process (pm k) ∧
    next P = None ∧ prev P = None ∧ message_queue_of P = None ∧
    rip (context P) = entry_point ∧
    rsp (context P) = wrap64 (vmm_alloc_stack env + PROCESS_STACK_SIZE - 16) ∧
    (∀ g, g ≠ f → process_get_by_pid g k' = process_get_by_pid g k) ∧
    (∀ b, b ≠ a → procs k' !! b = procs k !! b) ∧
    active_process_count (pm k') = wrap32 (active_process_count (pm k) + 1) ∧
    current_process (pm k') = current_process (pm k) ∧
    sch k' = sch k ∧
    mem_log k' = mem_log k ++ [Ev_kmalloc a; Ev_create_address_space d;
                               Ev_vmm_alloc PROCESS_STACK_SIZE (vmm_alloc_stack env);
                               Ev_vmm_alloc PROCESS_HEAP_SIZE (vmm_alloc_heap env)].
Proof.
  intros Ha Hfresh Hd Hs Hh Hr Hf Hfuel Hcur Hlen.
  exists (created_kernel env nm entry_point prio a f d k),
         (created_pcb env nm entry_point prio f d k).
  split; [by apply process_create_succeeds|].
  destruct Hf as (Hf1 & Hf2 & _). unfold MAX_PROCESSES in *.
  split.
  { unfold process_get_by_pid, MAX_PROCESSES. destruct (Z.leb_spec 256 f); [lia|].
    apply (table_get_insert_eq k); [done|lia|lia]. }
  split; [apply lookup_insert_eq|].
  do 11 (split; [done|]).
  split.
  { intros g Hg. unfold process_get_by_pid. destruct (MAX_PROCESSES <=? g); [done|].
    apply (table_get_insert_ne k _ f _ (Some a)); [done|lia|done]. }
  split; [|done].
  intros b Hb. cbn [procs created_kernel]. by rewrite lookup_insert_ne.
Qed.

Lemma process_create_registers_witness :
  ∃ k' P,
    process_create 255 (mk_alloc_outcomes (Some 7%positive) (Some 8%positive) 4096 8192)
      "init" 4198400 PRIORITY_NORMAL two_process_kernel = Ret (Some 7%positive, k') ∧
    process_get_by_pid 3 k' = Some 7%positive ∧
    procs k' !! 7%positive = Some P ∧
    pid P = 3 ∧ 1 ≤ 3 < MAX_PROCESSES ∧
    state P = PROCESS_READY ∧ priority P = PRIORITY_NORMAL ∧
    ppid P = current_pid two_process_kernel ∧
    parent P = current_process (pm two_process_kernel) ∧
    next P = None ∧ prev P = None ∧ message_queue_of P = None ∧
    rip (context P) = 4198400 ∧
    rsp (context P) = wrap64 (4096 + PROCESS_STACK_SIZE - 16) ∧
    (∀ g, g ≠ 3 → process_get_by_pid g k' = process_get_by_pid g two_process_kernel) ∧
    (∀ b, b ≠ 7%positive → procs k' !! b = procs two_process_kernel !! b) ∧
    active_process_count (pm k') = wrap32 (active_process_count (pm two_process_kernel) + 1) ∧
    current_process (pm k') = current_process (pm two_process_kernel) ∧
    sch k' = sch two_process_kernel ∧
    mem_log k' = mem_log two_process_kernel
                 ++ [Ev_kmalloc 7; Ev_create_address_space 8;
                     Ev_vmm_alloc PROCESS_STACK_SIZE 4096;
                     Ev_vmm_alloc PROCESS_HEAP_SIZE 8192].
Proof.
  apply (process_create_registers 255
           (mk_alloc_outcomes (Some 7%positive) (Some 8%positive) 4096 8192)
           "init" 4198400 PRIORITY_NORMAL two_process_kernel 7%positive 8%positive 3).
  - reflexivity.
  - reflexivity.
  - reflexivity.
  - simpl. lia.
  - simpl. lia.
  - unfold next_pid_in_range, MAX_PROCESSES. simpl. lia.
  - split; [unfold MAX_PROCESSES; lia|]. split; [reflexivity|].
    intros g Hg. simpl. unfold pid_distance.
    destruct (Z.leb_spec 3 g); simpl; lia.
  - lia.
  - intros c H. discriminate H.
  - reflexivity.
Defined.

(** X3: as long as some pid in 1..255 is free, [table_consistent] and the
    range of [next_pid] are invariants of [process_create], whatever the
    allocator answers for the PCB (at a fresh address), the address space,
    the stack and the heap: the call returns, every occupied slot still
    points to a live PCB that carries the slot number as pid, the current
    process is still live, and no PCB that existed before is changed.
    (Without a free pid the pid search does not end, see
    [process_create_full_table_diverges].) *)
Theorem process_create_keeps_table_consistent (fuel : nat) (env : alloc_outcomes)
    (nm : string) (entry_point prio : Z) (k : kernel) (f : Z) :
  table_consistent k → next_pid_in_range k → first_free k f → (255 ≤ fuel)%nat →
  (∀ a, kmalloc_pcb env = Some a → procs k !! a = None) →
  (∀ c, current_process (pm k) = Some c → is_Some (procs k !! c)) →
  ∃ r k',
    process_create fuel env nm entry_point prio k = Ret (r, k') ∧
    table_consistent k' ∧ next_pid_in_range k' ∧
    (∀ c, current_process (pm k') = Some c → is_Some (procs k' !! c)) ∧
    (∀ b P, procs k !! b = Some P → procs k' !! b = Some P).
Proof.
  intros [Hlen Htc] Hr Hf Hfuel Hfresh Hcur.
  destruct (kmalloc_pcb env) as [a|] eqn:Ha.
  2:{ exists None, k. unfold process_create. rewrite Ha. done. }
  specialize (Hfresh a eq_refl).
  assert (1 ≤ f < MAX_PROCESSES) as Hf1 by apply Hf.
  destruct (create_address_space env) as [d|] eqn:Ed.
  - destruct (decide (vmm_alloc_stack env = 0)) as [Hs|Hs];
      [|destruct (decide (vmm_alloc_heap env = 0)) as [Hh|Hh]].
    3:{ exists (Some a), (created_kernel env nm entry_point prio a f d k).
        split; [by apply process_create_succeeds|].
        split; [split|].
        - cbn [created_kernel pm process_table]. by rewrite length_insert.
        - intros i b Hi. destruct (decide (i = f)) as [->|Hne].
          + rewrite (table_get_insert_eq k _ f (Some a)) in Hi;
              [|done|lia|unfold MAX_PROCESSES in *; lia].
            injection Hi as <-. eexists. split; [apply lookup_insert_eq|done].
          + rewrite (table_get_insert_ne k _ f i (Some a)) in Hi; [|done|lia|done].
            destruct (Htc i b Hi) as (P & HP & Hpid). exists P. split; [|done].
            cbn [created_kernel procs]. rewrite lookup_insert_ne; [done|congruence].
        - split; [by apply succ_pid_in_range|]. split.
          + intros c Hc. cbn [created_kernel pm current_process procs] in *.
            destruct (Hcur c Hc) as [C HC].
            rewrite lookup_insert_ne; [by eexists|congruence].
          + intros b P HP. cbn [created_kernel procs].
            rewrite lookup_insert_ne; [done|congruence]. }
    all: destruct (process_create_gives_up fuel env nm entry_point prio k a f)
           as (k' & Hk' & Hp & Hpm & _); try done; try (rewrite Ed; tauto); try tauto.
    all: exists None, k'; split; [done|].
    all: split; [split; [by rewrite Hpm|]|].
    all: try (intros i b Hi; rewrite (table_get_same k) in Hi by (by rewrite Hpm);
              rewrite Hp; by apply Htc).
    all: split; [unfold next_pid_in_range; rewrite Hpm; by apply succ_pid_in_range|].
    all: rewrite Hp, Hpm; done.
  - destruct (process_create_gives_up fuel env nm entry_point prio k a f)
      as (k' & Hk' & Hp & Hpm & _); try done; [rewrite Ed; tauto|].
    exists None, k'. split; [done|].
    split; [split; [by rewrite Hpm|]|].
    { intros i b Hi. rewrite (table_get_same k) in Hi by (by rewrite Hpm).
      rewrite Hp. by apply Htc. }
    split; [unfold next_pid_in_range; rewrite Hpm; by apply succ_pid_in_range|].
    rewrite Hp, Hpm. done.
Qed.

Lemma process_create_keeps_table_consistent_witness :
  ∃ r k',
    process_create 255 (mk_alloc_outcomes (Some 7%positive) (Some 8%positive) 4096 8192)
      "init" 4198400 PRIORITY_NORMAL boot_kernel = Ret (r, k') ∧
    table_consistent k' ∧ next_pid_in_range k' ∧
    (∀ c, current_process (pm k') = Some c → is_Some (procs k' !! c)) ∧
    (∀ b P, procs boot_kernel !! b = Some P → procs k' !! b = Some P).
Proof.
  apply (process_create_keeps_table_consistent 255
           (mk_alloc_outcomes (Some 7%positive) (Some 8%positive) 4096 8192)
           "init" 4198400 PRIORITY_NORMAL boot_kernel 1).
  - split; [reflexivity|]. intros i a. unfold table_get, boot_kernel.
    cbn [pm process_table]. destruct (i <? 0); [discriminate|].
    destruct (replicate 256 None !! Z.to_nat i) as [o|] eqn:E; [|discriminate].
    apply lookup_replicate in E as [-> _]. discriminate.
  - unfold next_pid_in_range, MAX_PROCESSES. simpl. lia.
  - split; [unfold MAX_PROCESSES; lia|]. split; [reflexivity|].
    intros g Hg. simpl. unfold pid_distance.
    destruct (Z.leb_spec 1 g); simpl; lia.
  - lia.
  - intros a _. reflexivity.
  - intros c H. discriminate H.
Defined.

Lemma process_destroy_Some k p P :
  procs k !! p = Some P →
  ∃ k',
    process_destroy (Some p) k = Ret k' ∧
    procs k' = delete p (procs k) ∧
    mem_log k' = mem_log k ++ releases p P ∧
    process_table (pm k') =
      (if pid P <? MAX_PROCESSES
       then <[Z.to_nat (pid P) := None]> (process_table (pm k))
       else process_table (pm k)) ∧
    active_process_count (pm k') = wrap32 (active_process_count (pm k) - 1) ∧
    next_pid (pm k') = next_pid (pm k) ∧
    current_process (pm k') = current_process (pm k) ∧
    sch k' = sch k ∧ msgs k' = msgs k ∧ neural_runqueues k' = neural_runqueues k.
Proof.
  intros HP. unfold process_destroy. rewrite (deref_Some _ _ _ HP), bind_Ret.
  eexists. split; [reflexivity|]. unfold releases.
  destruct k as [h m [c i np ac st sa sc tb] s r t y l].
  destruct (stack_base P =? 0), (heap_base P =? 0), (page_directory P),
    (pid P <? MAX_PROCESSES); kernel_cbv; rewrite <- ?app_assoc; done.
Qed.

(** X4: [process_destroy] gives back the stack, the heap, the address
    space (each only if the PCB names one) and then the PCB, in this
    order; afterwards no pid lookup finds the process, the other slots are
    as before, and the active count is one less.  It does not touch the
    scheduler, the per-core run queues or the message heap: a destroyed
    process is not unlinked from any queue and its queued messages stay
    allocated.  [table_consistent] is preserved. *)
Theorem process_destroy_releases (k : kernel) (p : positive) (P : process) :
  procs k !! p = Some P → 0 ≤ pid P →
  ∃ k',
    process_destroy (Some p) k = Ret k' ∧
    procs k' = delete p (procs k) ∧
    mem_log k' = mem_log k ++ releases p P ∧
    process_get_by_pid (pid P) k' = None ∧
    (∀ g, g ≠ pid P → process_get_by_pid g k' = process_get_by_pid g k) ∧
    active_process_count (pm k') = wrap32 (active_process_count (pm k) - 1) ∧
    sch k' = sch k ∧ neural_runqueues k' = neural_runqueues k ∧
    msgs k' = msgs k ∧
    (table_consistent k → table_consistent k').
Proof.
  intros HP Hpid.
  destruct (process_destroy_Some k p P HP)
    as (k' & Hk' & Hprocs & Hlog & Htb & Hac & _ & _ & Hsch & Hmsgs & Hrq).
  exists k'. split; [done|]. split; [done|]. split; [done|].
  assert (∀ g, g ≠ pid P → table_get k' g = table_get k g) as Hother.
  { intros g Hg. destruct (pid P <? MAX_PROCESSES).
    - by apply (table_get_insert_ne k k' (pid P) g None).
    - by apply table_get_same. }
  assert (process_get_by_pid (pid P) k' = None) as Hgone.
  { unfold process_get_by_pid. destruct (Z.leb_spec MAX_PROCESSES (pid P)); [done|].
    destruct (Z.ltb_spec (pid P) MAX_PROCESSES); [|lia].
    unfold table_get. rewrite Htb. destruct (pid P <? 0); [done|].
    destruct (decide (Z.to_nat (pid P) < length (process_table (pm k)))%nat).
    - by rewrite list_lookup_insert_eq.
    - rewrite list_insert_ge by lia. by rewrite lookup_ge_None_2 by lia. }
  split; [done|]. split.
  { intros g Hg. unfold process_get_by_pid. rewrite Hother; done. }
  split; [done|]. split; [done|]. split; [done|]. split; [done|].
  intros [Hlen Htc]. split.
  { rewrite Htb. destruct (pid P <? MAX_PROCESSES); [by rewrite length_insert|done]. }
  intros i a Hi. destruct (decide (i = pid P)) as [->|Hne].
  { unfold process_get_by_pid in Hgone.
    destruct (Z.leb_spec MAX_PROCESSES (pid P)) as [Hge|]; [|congruence].
    exfalso. unfold table_get in Hi. destruct (pid P <? 0); [done|].
    rewrite Htb in Hi. destruct (Z.ltb_spec (pid P) MAX_PROCESSES); [lia|].
    rewrite lookup_ge_None_2 in Hi; [done|]. unfold MAX_PROCESSES in *. lia. }
  rewrite Hother in Hi by done. destruct (Htc i a Hi) as (Q & HQ & Hq).
  exists Q. split; [|done]. rewrite Hprocs, lookup_delete_ne; [done|].
  intros ->. rewrite HP in HQ. injection HQ as <-. done.
Qed.

Lemma process_destroy_releases_witness :
  ∃ k',
    process_destroy (Some 1%positive) two_process_kernel = Ret k' ∧
    procs k' = delete 1%positive (procs two_process_kernel) ∧
    mem_log k' = mem_log two_process_kernel
                 ++ releases 1 (demo_pcb 1 PRIORITY_NORMAL PROCESS_READY) ∧
    process_get_by_pid (pid (demo_pcb 1 PRIORITY_NORMAL PROCESS_READY)) k' = None ∧
    (∀ g, g ≠ pid (demo_pcb 1 PRIORITY_NORMAL PROCESS_READY) →
          process_get_by_pid g k' = process_get_by_pid g two_process_kernel) ∧
    active_process_count (pm k')
    = wrap32 (active_process_count (pm two_process_kernel) - 1) ∧
    sch k' = sch two_process_kernel ∧
    neural_runqueues k' = neural_runqueues two_process_kernel ∧
    msgs k' = msgs two_process_kernel ∧
    (table_consistent two_process_kernel → table_consistent k').
Proof.
  apply (process_destroy_releases two_process_kernel 1%positive
           (demo_pcb 1 PRIORITY_NORMAL PROCESS_READY)).
  - reflexivity.
  - simpl. lia.
Defined.



(** X6: [process_init] creates the idle process, of priority
    PRIORITY_IDLE and named "idle", under the first free pid, and makes it
    both the idle and the current process.  The idle process is left READY
    (not RUNNING) and is in no queue.  When the PCB cannot be allocated,
    the current process stays as it was and the idle process is NULL. *)
Theorem process_init_makes_idle_current (fuel : nat) (env : alloc_outcomes)
    (idle_entry : Z) (k : kernel) (f : Z) :
  next_pid_in_range k → first_free k f → (255 ≤ fuel)%nat →
  (∀ a, kmalloc_pcb env = Some a → procs k !! a = None) →
  create_address_space env ≠ None →
  vmm_alloc_stack env ≠ 0 → vmm_alloc_heap env ≠ 0 →
  (∀ c, current_process (pm k) = Some c → is_Some (procs k !! c)) →
  length (process_table (pm k)) = 256%nat →
  ∃ k',
    process_init fuel env idle_entry k = Ret k' ∧
    idle_process (pm k') = kmalloc_pcb env ∧
    match kmalloc_pcb env with
    | Some a =>
        current_process (pm k') = Some a ∧
        process_get_by_pid f k' = Some a ∧
        ∃ P, procs k' !! a = Some P ∧ pid P = f ∧
             name P = "idle"%string ∧ priority P = PRIORITY_IDLE ∧
             state P = PROCESS_READY ∧ sch k' = sch k
    | None =>
        current_process (pm k') = current_process (pm k) ∧
        procs k' = procs k ∧ process_table (pm k') = process_table (pm k)
    end.
Proof.
  intros Hr Hf Hfuel Hfresh Hd Hs Hh Hcur Hlen. unfold process_init.
  destruct (kmalloc_pcb env) as [a|] eqn:Ha.
  2:{ unfold process_create. rewrite Ha, bind_Ret. eexists. split; [reflexivity|].
      by destruct k as [h m [c i np ac st sa sc tb] s r t y l]. }
  destruct (create_address_space env) as [d|] eqn:Ed; [|done].
  rewrite (process_create_succeeds fuel env "idle" idle_entry PRIORITY_IDLE k a d f);
    try done; [|by apply Hfresh].
  rewrite bind_Ret. eexists. split; [reflexivity|]. split; [done|]. split; [done|].
  destruct Hf as (Hf1 & Hf2 & _). unfold MAX_PROCESSES in Hf1.
  split.
  { unfold process_get_by_pid, MAX_PROCESSES. destruct (Z.leb_spec 256 f); [lia|].
    apply (table_get_insert_eq k); [done|lia|lia]. }
  eexists. split; [apply lookup_insert_eq|]. done.
Qed.

Lemma process_init_makes_idle_current_witness :
  ∃ k',
    process_init 255 (mk_alloc_outcomes (Some 7%positive) (Some 8%positive) 4096 8192)
      4198400 boot_kernel = Ret k' ∧
    idle_process (pm k')
    = kmalloc_pcb (mk_alloc_outcomes (Some 7%positive) (Some 8%positive) 4096 8192) ∧
    match kmalloc_pcb (mk_alloc_outcomes (Some 7%positive) (Some 8%positive) 4096 8192) with
    | Some a =>
        current_process (pm k') = Some a ∧
        process_get_by_pid 1 k' = Some a ∧
        ∃ P, procs k' !! a = Some P ∧ pid P = 1 ∧
             name P = "idle"%string ∧ priority P = PRIORITY_IDLE ∧
             state P = PROCESS_READY ∧ sch k' = sch boot_kernel
    | None =>
        current_process (pm k') = current_process (pm boot_kernel) ∧
        procs k' = procs boot_kernel ∧
        process_table (pm k') = process_table (pm boot_kernel)
    end.
Proof.
  apply (process_init_makes_idle_current 255
           (mk_alloc_outcomes (Some 7%positive) (Some 8%positive) 4096 8192)
           4198400 boot_kernel 1).
  - unfold next_pid_in_range, MAX_PROCESSES. simpl. lia.
  - split; [unfold MAX_PROCESSES; lia|]. split; [reflexivity|].
    intros g Hg. simpl. unfold pid_distance.
    destruct (Z.leb_spec 1 g); simpl; lia.
  - lia.
  - intros a _. reflexivity.
  - discriminate.
  - simpl. lia.
  - simpl. lia.
  - intros c H. discriminate H.
  - reflexivity.
Defined.

(** ** Removal from the ready queue (scheduler.c) *)

Lemma links_only_refl k : links_only k k.
Proof. split; [by repeat split|done]. Qed.

Lemma links_only_trans k1 k2 k3 :
  links_only k1 k2 → links_only k2 k3 → links_only k1 k3.
Proof.
  intros [(? & ? & ? & ? & ? & ? & ? & ? & ? & ?) Ha]
         [(? & ? & ? & ? & ? & ? & ? & ? & ? & ?) Hb].
  split; [repeat split; congruence|]. intros a. by rewrite Hb.
Qed.

Lemma links_only_store a f k k' :
  (∀ P, unlinked (f P) = unlinked P) → store a f k = Ret k' → links_only k k'.
Proof.
  intros Hf (P & HP & ->)%store_Ret. split; [by repeat split|].
  intros b. cbn [procs set_procs].
  destruct (decide (b = a)) as [->|Hne].
  - rewrite lookup_insert_eq, HP. simpl. by rewrite Hf.
  - by rewrite lookup_insert_ne.
Qed.

Lemma links_only_same k k' :
  procs k' = procs k → globals_kept k k' → links_only k k'.
Proof. intros Hp Hg. split; [done|]. intros a. by rewrite Hp. Qed.

Lemma links_only_field {A : Type} (g : process → A) k k' a :
  (∀ P, g (unlinked P) = g P) →
  links_only k k' → (g <$> (procs k' !! a)) = (g <$> (procs k !! a)).
Proof.
  intros Hg [_ H]. specialize (H a).
  destruct (procs k' !! a) as [P'|], (procs k !! a) as [P|];
    cbn [fmap option_fmap option_map] in *; try done.
  apply (inj Some) in H. rewrite <- (Hg P'), <- (Hg P). by rewrite H.
Qed.

Lemma links_only_state k k' a :
  links_only k k' → (state <$> (procs k' !! a)) = (state <$> (procs k !! a)).
Proof. apply links_only_field. by intros []. Qed.

Lemma links_only_lookup k k' a P :
  links_only k k' → procs k !! a = Some P →
  ∃ P', procs k' !! a = Some P' ∧ unlinked P' = unlinked P.
Proof.
  intros [_ H] HP. specialize (H a). rewrite HP in H.
  destruct (procs k' !! a) as [P'|]; cbn [fmap option_fmap option_map] in H; [|done].
  exists P'. split; [done|]. by apply (inj Some) in H.
Qed.

Ltac links_step :=
  match goal with
  | H : (_ ≫= _) = Ret _ |- _ =>
      apply bind_Ret_inv in H; destruct H as (? & ? & ?)
  | H : Ret _ = Ret _ |- _ => injection H as ?; subst
  | H : Fault = Ret _ |- _ => discriminate H
  | H : Diverge = Ret _ |- _ => discriminate H
  | H : store _ _ _ = Ret _ |- _ =>
      apply links_only_store in H; [|by intros []]
  | H : context [match ?x with _ => _ end] |- _ => destruct x eqn:?
  end.

Ltac links_close :=
  repeat (eapply links_only_trans; [eassumption|]);
  apply links_only_same; [reflexivity|by repeat split].

(** Whatever the algorithm, [scheduler_add_process] and
    [scheduler_remove_process] write queue links and scheduler globals
    only. *)
Lemma scheduler_add_process_links fuel proc k k' :
  scheduler_add_process fuel proc k = Ret k' → links_only k k'.
Proof.
  unfold scheduler_add_process, pq_set. intros H.
  repeat links_step; links_close.
Qed.

Lemma scheduler_remove_process_links fuel proc k k' :
  scheduler_remove_process fuel proc k = Ret k' → links_only k k'.
Proof.
  unfold scheduler_remove_process, pq_set. intros H.
  repeat links_step; links_close.
Qed.

Lemma link_before_cons pv a l : link_before pv (a :: l) = link_before (Some a) l.
Proof. unfold link_before. rewrite last_cons. by destruct (last l). Qed.

(** The links of an element in the middle of a doubly linked list. *)
Lemma dll_middle k l1 : ∀ pv p l2,
  dll k pv (l1 ++ p :: l2) →
  ∃ P, procs k !! p = Some P ∧ prev P = link_before pv l1 ∧ next P = head l2.
Proof.
  induction l1 as [|a l1 IH]; intros pv p l2 Hdll.
  - destruct Hdll as (P & HP & Hpv & Hnx & _). by exists P.
  - destruct Hdll as (A & _ & _ & _ & Hrest).
    rewrite link_before_cons. by apply IH.
Qed.

(** Unlinking an element: its predecessor's [next] and its successor's
    [prev] are redirected, everything else in the list is untouched. *)
Lemma dll_remove k k' l1 : ∀ pv p l2,
  dll k pv (l1 ++ p :: l2) → NoDup (l1 ++ p :: l2) →
  (∀ a, a ∈ l1 ++ l2 → last l1 ≠ Some a → head l2 ≠ Some a →
        procs k' !! a = procs k !! a) →
  (∀ q, last l1 = Some q → l2 = [] →
        procs k' !! q = (set_next None <$> (procs k !! q))) →
  (∀ n, head l2 = Some n → l1 = [] →
        procs k' !! n = (set_prev pv <$> (procs k !! n))) →
  (∀ q n, last l1 = Some q → head l2 = Some n →
          procs k' !! q = (set_next (Some n) <$> (procs k !! q)) ∧
          procs k' !! n = (set_prev (Some q) <$> (procs k !! n))) →
  dll k' pv (l1 ++ l2).
Proof.
  induction l1 as [|a l1 IH]; intros pv p l2 Hdll Hnd Hframe Hq Hn Hqn.
  - destruct Hdll as (P & HP & Hpv & Hnx & Hrest). simpl in Hnd |- *.
    apply NoDup_cons in Hnd as [Hp Hnd].
    destruct l2 as [|n l2]; [done|].
    destruct Hrest as (N & HN & HpvN & HnxN & Hrest).
    apply NoDup_cons in Hnd as [Hn2 Hnd].
    exists (set_prev pv N). rewrite (Hn n eq_refl eq_refl), HN.
    repeat split; try done.
    eapply dll_frame; [|exact Hrest].
    intros x Hx. apply Hframe; [by right|done|].
    simpl. intros [= ->]. done.
  - simpl in Hdll, Hnd. destruct Hdll as (A & HA & HpvA & HnxA & Hrest).
    apply NoDup_cons in Hnd as [Ha Hnd].
    assert ((a ∉ l1) ∧ (a ≠ p) ∧ (a ∉ l2)) as (Ha1 & Hap & Ha2).
    { rewrite elem_of_app, elem_of_cons in Ha. tauto. }
    destruct l1 as [|b l1].
    + (* [a] is the predecessor of [p] *)
      simpl in *. destruct Hrest as (P & HP & HpvP & HnxP & Hrest).
      apply NoDup_cons in Hnd as [Hp Hnd].
      destruct l2 as [|n l2].
      * exists (set_next None A). rewrite (Hq a eq_refl eq_refl), HA. done.
      * destruct Hrest as (N & HN & HpvN & HnxN & Hrest).
        apply NoDup_cons in Hnd as [Hn2 Hnd].
        destruct (Hqn a n eq_refl eq_refl) as [Ea En].
        exists (set_next (Some n) A). rewrite Ea, HA. repeat split; try done.
        exists (set_prev (Some a) N). rewrite En, HN. repeat split; try done.
        eapply dll_frame; [|exact Hrest].
        intros x Hx. apply Hframe.
        -- right. by right.
        -- intros [= ->]. apply Ha2. by right.
        -- intros [= ->]. done.
    + assert (last (a :: b :: l1) = last (b :: l1)) as Hlast by done.
      assert (procs k' !! a = Some A) as HA'.
      { rewrite Hframe; [done|by left| |].
        - rewrite Hlast. intros Hl. apply last_Some_elem_of in Hl. done.
        - intros Hh. destruct l2; [done|]. injection Hh as ->. apply Ha2. by left. }
      change ((a :: b :: l1) ++ l2) with (a :: ((b :: l1) ++ l2)).
      simpl. exists A. split; [done|]. split; [done|]. split; [done|].
      apply (IH (Some a) p l2); try done.
      intros x Hx Hl Hh. apply Hframe; [by right|by rewrite Hlast|done].
Qed.

Lemma last_app_cons_cons (l1 l2 : list positive) p :
  head l2 ≠ None → last (l1 ++ p :: l2) = last (l1 ++ l2).
Proof.
  intros H. destruct l2 as [|n l2]; [done|].
  rewrite !last_app, (last_cons p).
  destruct (last (n :: l2)) eqn:E; [done|]. by apply last_None in E.
Qed.

Lemma link_before_None l : link_before None l = last l.
Proof. unfold link_before. by destruct (last l). Qed.

Lemma NoDup_remove_middle (l1 l2 : list positive) p :
  NoDup (l1 ++ p :: l2) → NoDup (l1 ++ l2) ∧ (p ∉ l1) ∧ (p ∉ l2).
Proof.
  intros H. apply NoDup_app in H as (H1 & H12 & H2).
  apply NoDup_cons in H2 as [Hp H2]. split; [|split; [|done]].
  - apply NoDup_app. split; [done|]. split; [|done].
    intros x Hx Hx2. apply (H12 x Hx). by right.
  - intros Hp1. apply (H12 p Hp1). by left.
Qed.

Ltac lookup_solve :=
  cbn [procs set_procs upd_sch set_sch sch];
  repeat first [ rewrite lookup_insert_eq
               | rewrite lookup_insert_ne by congruence ];
  try done.

Lemma scheduler_remove_process_queued fuel k l1 p l2 :
  current_algorithm (sch k) = SCHED_ROUND_ROBIN ∨
  current_algorithm (sch k) = SCHED_CFS →
  ready_queue k (l1 ++ p :: l2) →
  ∃ k',
    scheduler_remove_process fuel (Some p) k = Ret k' ∧
    ready_queue k' (l1 ++ l2) ∧
    links_only k k' ∧
    current_algorithm (sch k') = current_algorithm (sch k) ∧
    running_process (sch k') = running_process (sch k) ∧
    ∃ P', procs k' !! p = Some P' ∧ next P' = None ∧ prev P' = None.
Proof.
  intros Halg (Hhead & Htail & Hnd & Hdll).
  destruct (dll_middle k l1 None p l2 Hdll) as (P & HP & Hpv & Hnx).
  rewrite link_before_None in Hpv.
  destruct (NoDup_remove_middle l1 l2 p Hnd) as (Hnd' & Hp1 & Hp2).
  assert (∃ k', scheduler_remove_process fuel (Some p) k = Ret k' ∧
                ready_queue k' (l1 ++ l2) ∧
                current_algorithm (sch k') = current_algorithm (sch k) ∧
                running_process (sch k') = running_process (sch k) ∧
                ∃ P', procs k' !! p = Some P' ∧ next P' = None ∧ prev P' = None)
    as (k' & Hk' & Hq' & Ha' & Hr' & HP').
  2:{ exists k'. split; [done|]. split; [done|].
      split; [by eapply scheduler_remove_process_links|]. done. }
  unfold scheduler_remove_process.
  assert ((current_algorithm (sch k) =? SCHED_ROUND_ROBIN)
          || (current_algorithm (sch k) =? SCHED_CFS) = true) as ->.
  { destruct Halg as [-> | ->]; reflexivity. }
  rewrite (deref_Some _ _ _ HP), bind_Ret, Hpv, Hnx.
  destruct (last l1) as [q|] eqn:Eq, (head l2) as [n|] eqn:En.
  - (* a predecessor and a successor *)
    assert (q ∈ l1) as Hq1 by by apply last_Some_elem_of.
    assert (n ∈ l2) as Hn2 by (destruct l2; [done|]; injection En as ->; left).
    assert (q ≠ p ∧ n ≠ p ∧ q ≠ n) as (Hqp & Hnp & Hqn).
    { split; [intros ->; done|]. split; [intros ->; done|].
      intros ->. apply NoDup_app in Hnd as (_ & H12 & _). apply (H12 n Hq1). by right. }
    destruct (dll_lookup k None _ q Hdll) as [Q HQ];
      [apply elem_of_app; by left|].
    destruct (dll_lookup k None _ n Hdll) as [N HN];
      [apply elem_of_app; right; by right|].
    rewrite (store_Some _ _ _ _ HQ), bind_Ret.
    erewrite deref_Some by (lookup_solve; exact HP).
    rewrite bind_Ret, Hnx, Hpv.
    erewrite store_Some by (lookup_solve; exact HN). rewrite bind_Ret.
    erewrite store_Some by (lookup_solve; exact HP). rewrite bind_Ret.
    erewrite store_Some by (lookup_solve). 
    eexists. split; [reflexivity|]. unfold ready_queue. sch_simpl.
    rewrite insert_insert_eq.
    split; [|split; [done|split; [done|]]].
    + split; [|split; [|split; [done|]]].
      * rewrite Hhead. destruct l1; [done|done].
      * rewrite Htail. apply last_app_cons_cons. by rewrite En.
      * eapply (dll_remove k _ l1 None p l2 Hdll Hnd).
        -- intros a Ha Hla Hha.
           assert (a ≠ p) by (intros ->; apply elem_of_app in Ha as [?|?]; done).
           lookup_solve.
        -- intros q' Hq' ->. done.
        -- intros n' Hn' ->. done.
        -- intros q' n' Hq' Hn'.
           assert (q' = q) as -> by congruence. assert (n' = n) as -> by congruence.
           split; lookup_solve; by rewrite ?HQ, ?HN.
    + eexists. split; [lookup_solve|]. done.
  - (* last element of a longer queue *)
    assert (q ∈ l1) as Hq1 by by apply last_Some_elem_of.
    assert (q ≠ p) as Hqp by (intros ->; done).
    assert (l2 = []) as -> by (by destruct l2).
    destruct (dll_lookup k None _ q Hdll) as [Q HQ];
      [apply elem_of_app; by left|].
    rewrite (store_Some _ _ _ _ HQ), bind_Ret.
    erewrite deref_Some by (lookup_solve; exact HP).
    rewrite bind_Ret, Hnx, Hpv, bind_Ret.
    erewrite store_Some by (lookup_solve; exact HP). rewrite bind_Ret.
    erewrite store_Some by (lookup_solve).
    eexists. split; [reflexivity|]. unfold ready_queue. sch_simpl.
    rewrite insert_insert_eq.
    split; [|split; [done|split; [done|]]].
    + split; [|split; [|split; [done|]]].
      * rewrite Hhead. destruct l1; [done|done].
      * by rewrite app_nil_r.
      * eapply (dll_remove k _ l1 None p [] Hdll Hnd).
        -- intros a Ha Hla Hha.
           assert (a ≠ p) by (intros ->; apply elem_of_app in Ha as [?|?]; done).
           lookup_solve.
        -- intros q' Hq' _. assert (q' = q) as -> by congruence.
           lookup_solve. by rewrite HQ.
        -- intros n' Hn'. done.
        -- intros q' n' _ Hn'. done.
    + eexists. split; [lookup_solve|]. done.
  - (* head of a longer queue *)
    assert (n ∈ l2) as Hn2 by (destruct l2; [done|]; injection En as ->; left).
    assert (n ≠ p) as Hnp by (intros ->; done).
    assert (l1 = []) as -> by (by apply last_None).
    destruct (dll_lookup k None _ n Hdll) as [N HN]; [right; done|].
    rewrite bind_Ret.
    erewrite deref_Some by (lookup_solve; exact HP).
    rewrite bind_Ret, Hnx, Hpv.
    erewrite store_Some by (lookup_solve; exact HN). rewrite bind_Ret.
    erewrite store_Some by (lookup_solve; exact HP). rewrite bind_Ret.
    erewrite store_Some by (lookup_solve).
    eexists. split; [reflexivity|]. unfold ready_queue. sch_simpl.
    rewrite insert_insert_eq.
    split; [|split; [done|split; [done|]]].
    + split; [|split; [|split; [done|]]].
      * done.
      * rewrite Htail. apply (last_app_cons_cons [] l2 p). by rewrite En.
      * eapply (dll_remove k _ [] None p l2 Hdll Hnd).
        -- intros a Ha Hla Hha.
           assert (a ≠ p) by (intros ->; done).
           lookup_solve.
        -- intros q' Hq'. done.
        -- intros n' Hn' _. assert (n' = n) as -> by congruence.
           lookup_solve. by rewrite HN.
        -- intros q' n' Hq'. done.
    + eexists. split; [lookup_solve|]. done.
  - (* the only element *)
    assert (l1 = []) as -> by (by apply last_None).
    assert (l2 = []) as -> by (by destruct l2).
    rewrite bind_Ret.
    erewrite deref_Some by (lookup_solve; exact HP).
    rewrite bind_Ret, Hnx, Hpv, bind_Ret.
    erewrite store_Some by (lookup_solve; exact HP). rewrite bind_Ret.
    erewrite store_Some by (lookup_solve).
    eexists. split; [reflexivity|]. unfold ready_queue. sch_simpl.
    rewrite insert_insert_eq.
    split; [|split; [done|split; [done|]]].
    + done.
    + eexists. split; [lookup_solve|]. done.
Qed.

Ltac solve_NoDup :=
  repeat (apply NoDup_cons; split; [solve_not_elem_of|]); apply NoDup_nil_2.

(** A closed fact [ready_queue k l] by evaluation. *)
Ltac solve_ready_queue :=
  split; [vm_compute; reflexivity|];
  split; [vm_compute; reflexivity|];
  split; [solve_NoDup|];
  simpl;
  repeat (eexists; split; [vm_compute; reflexivity|];
          split; [reflexivity|]; split; [reflexivity|]);
  exact I.

(** X7: under round-robin and under the fair algorithm,
    [scheduler_remove_process] takes a queued process out of the ready
    queue wherever it stands (head, middle or tail): the others keep
    their order, the links of the removed process are cleared, and
    nothing but queue links and the queue's head and tail is written. *)
Theorem scheduler_remove_process_unlinks (fuel : nat) (k : kernel)
    (l1 : list positive) (p : positive) (l2 : list positive) :
  current_algorithm (sch k) = SCHED_ROUND_ROBIN ∨
  current_algorithm (sch k) = SCHED_CFS →
  ready_queue k (l1 ++ p :: l2) →
  ∃ k' P',
    scheduler_remove_process fuel (Some p) k = Ret k' ∧
    ready_queue k' (l1 ++ l2) ∧
    procs k' !! p = Some P' ∧ next P' = None ∧ prev P' = None ∧
    links_only k k' ∧
    (∀ a, (state <$> (procs k' !! a)) = (state <$> (procs k !! a))) ∧
    current_algorithm (sch k') = current_algorithm (sch k) ∧
    running_process (sch k') = running_process (sch k).
Proof.
  intros Halg Hq.
  destruct (scheduler_remove_process_queued fuel k l1 p l2 Halg Hq)
    as (k' & Hk' & Hq' & Hl & Ha & Hr & P' & HP' & Hn & Hp).
  exists k', P'. do 6 (split; [done|]). split; [|done].
  intros a. by apply links_only_state.
Qed.

Lemma scheduler_remove_process_unlinks_witness :
  ∃ k' P',
    scheduler_remove_process 0 (Some 2%positive) (three_queued SCHED_ROUND_ROBIN) = Ret k' ∧
    ready_queue k' ([1%positive] ++ [3%positive]) ∧
    procs k' !! 2%positive = Some P' ∧ next P' = None ∧ prev P' = None ∧
    links_only (three_queued SCHED_ROUND_ROBIN) k' ∧
    (∀ a, (state <$> (procs k' !! a))
          = (state <$> (procs (three_queued SCHED_ROUND_ROBIN) !! a))) ∧
    current_algorithm (sch k') = current_algorithm (sch (three_queued SCHED_ROUND_ROBIN)) ∧
    running_process (sch k') = running_process (sch (three_queued SCHED_ROUND_ROBIN)).
Proof.
  apply (scheduler_remove_process_unlinks 0 (three_queued SCHED_ROUND_ROBIN)
           [1%positive] 2%positive [3%positive]).
  - left. reflexivity.
  - solve_ready_queue.
Defined.

(** X8: [process_terminate] of a queued process (round-robin or fair
    algorithm) marks it ZOMBIE and takes it out of the ready queue, the
    others keeping their order.  Nothing is given back: the PCB stays in
    the heap and in the process table, the active count and the memory log
    are unchanged.  A parent that is BLOCKED becomes READY, but is not put
    on the ready queue; no other process changes state. *)
Theorem process_terminate_queued (fuel : nat) (k : kernel)
    (l1 : list positive) (p : positive) (l2 : list positive) (P : process) :
  current_algorithm (sch k) = SCHED_ROUND_ROBIN ∨
  current_algorithm (sch k) = SCHED_CFS →
  ready_queue k (l1 ++ p :: l2) →
  procs k !! p = Some P →
  (∀ q, parent P = Some q → is_Some (procs k !! q)) →
  ∃ k',
    process_terminate fuel (Some p) k = Ret k' ∧
    ready_queue k' (l1 ++ l2) ∧
    (state <$> (procs k' !! p)) = Some PROCESS_ZOMBIE ∧
    pm k' = pm k ∧ mem_log k' = mem_log k ∧ msgs k' = msgs k ∧
    (∀ a, a ≠ p → parent P ≠ Some a →
          (state <$> (procs k' !! a)) = (state <$> (procs k !! a))) ∧
    (∀ q Q, parent P = Some q → q ≠ p → procs k !! q = Some Q →
            (state <$> (procs k' !! q))
            = Some (if decide (state Q = PROCESS_BLOCKED)
                    then PROCESS_READY else state Q)).
Proof.
  intros Halg Hq HP Hpar. unfold process_terminate.
  destruct (store_state k p (set_state PROCESS_ZOMBIE) P HP)
    as (k0 & Hs0 & Hp0 & Ho0 & Hsch0 & Hpm0 & _).
  assert (ready_queue k0 (l1 ++ p :: l2)) as Hq0.
  { eapply ready_queue_store; [|exact Hs0|exact Hq]. by intros []. }
  assert (mem_log k0 = mem_log k ∧ msgs k0 = msgs k) as [Hlog0 Hmsg0].
  { apply store_Ret in Hs0 as (? & _ & ->). done. }
  rewrite Hs0, bind_Ret, (deref_Some _ _ _ Hp0), bind_Ret.
  cbn [parent set_state].
  assert (∃ k1,
            match parent P with
            | Some q =>
                Q ← deref k0 q;
                if decide (state Q = PROCESS_BLOCKED)
                then store q (set_state PROCESS_READY) k0 else Ret k0
            | None => Ret k0
            end = Ret k1 ∧
            ready_queue k1 (l1 ++ p :: l2) ∧ sch k1 = sch k0 ∧ pm k1 = pm k0 ∧
            mem_log k1 = mem_log k0 ∧ msgs k1 = msgs k0 ∧
            procs k1 !! p = Some (set_state PROCESS_ZOMBIE P) ∧
            (∀ a, a ≠ p → parent P ≠ Some a → procs k1 !! a = procs k !! a) ∧
            (∀ q Q, parent P = Some q → q ≠ p → procs k !! q = Some Q →
                    (state <$> (procs k1 !! q))
                    = Some (if decide (state Q = PROCESS_BLOCKED)
                            then PROCESS_READY else state Q)))
    as (k1 & -> & Hq1 & Hsch1 & Hpm1 & Hlog1 & Hmsg1 & Hp1 & Ho1 & Hpar1).
  { destruct (parent P) as [q|] eqn:Epar.
    2:{ exists k0. do 7 (split; [done|]).
        split; [intros a Ha _; by apply Ho0|]. intros q Q [=]. }
    destruct (decide (q = p)) as [->|Hqp].
    { rewrite (deref_Some _ _ _ Hp0), bind_Ret. cbn [state set_state].
      rewrite decide_False by done. exists k0. do 7 (split; [done|]).
      split; [intros a Ha _; by apply Ho0|]. intros q Q [= ->]. done. }
    destruct (Hpar q eq_refl) as [Q HQ].
    assert (procs k0 !! q = Some Q) as HQ0 by (rewrite Ho0; done).
    rewrite (deref_Some _ _ _ HQ0), bind_Ret.
    destruct (decide (state Q = PROCESS_BLOCKED)) as [Hb|Hb].
    - destruct (store_state k0 q (set_state PROCESS_READY) Q HQ0)
        as (k1 & Hs1 & Hq1 & Ho1 & Hsch1 & Hpm1 & _).
      exists k1. split; [done|]. split.
      { eapply ready_queue_store; [|exact Hs1|exact Hq0]. by intros []. }
      split; [done|]. split; [done|].
      assert (mem_log k1 = mem_log k0 ∧ msgs k1 = msgs k0) as [? ?].
      { apply store_Ret in Hs1 as (? & _ & ->). done. }
      split; [done|]. split; [done|].
      split; [rewrite Ho1; done|]. split.
      + intros a Ha Hne. rewrite Ho1, Ho0; [done|done|congruence].
      + intros q' Q' [= <-] _ HQ'. rewrite Hq1.
        assert (Q' = Q) as -> by congruence.
        cbn. by rewrite decide_True.
    - exists k0. do 7 (split; [done|]).
      split; [intros a Ha _; by apply Ho0|].
      + intros q' Q' [= <-] _ HQ'. rewrite HQ0.
        assert (Q' = Q) as -> by congruence.
        cbn. by rewrite decide_False. }
  rewrite bind_Ret.
  destruct (scheduler_remove_process_queued fuel k1 l1 p l2)
    as (k' & Hk' & Hq' & Hl & _ & _ & _); [congruence|done|].
  exists k'. split; [done|]. split; [done|].
  assert (∀ a, (state <$> (procs k' !! a)) = (state <$> (procs k1 !! a))) as Hst.
  { intros a. by apply links_only_state. }
  destruct Hl as [(Hpm' & Hmsg' & _ & _ & _ & Hlog' & _) Hfields].
  split; [by rewrite Hst, Hp1|].
  split; [congruence|]. split; [congruence|]. split; [congruence|].
  split.
  - intros a Ha Hne. by rewrite Hst, Ho1.
  - intros q Q Hpq Hqp HQ. rewrite Hst. by eapply Hpar1.
Qed.

Lemma process_terminate_queued_witness :
  ∃ k',
    process_terminate 0 (Some 2%positive) (three_queued SCHED_ROUND_ROBIN) = Ret k' ∧
    ready_queue k' ([1%positive] ++ [3%positive]) ∧
    (state <$> (procs k' !! 2%positive)) = Some PROCESS_ZOMBIE ∧
    pm k' = pm (three_queued SCHED_ROUND_ROBIN) ∧
    mem_log k' = mem_log (three_queued SCHED_ROUND_ROBIN) ∧
    msgs k' = msgs (three_queued SCHED_ROUND_ROBIN) ∧
    (∀ a, a ≠ 2%positive →
          parent (set_prev (Some 1%positive)
                    (set_next (Some 3%positive)
                       (demo_pcb 2 PRIORITY_NORMAL PROCESS_READY))) ≠ Some a →
          (state <$> (procs k' !! a))
          = (state <$> (procs (three_queued SCHED_ROUND_ROBIN) !! a))) ∧
    (∀ q Q,
       parent (set_prev (Some 1%positive)
                 (set_next (Some 3%positive)
                    (demo_pcb 2 PRIORITY_NORMAL PROCESS_READY))) = Some q →
       q ≠ 2%positive →
       procs (three_queued SCHED_ROUND_ROBIN) !! q = Some Q →
       (state <$> (procs k' !! q))
       = Some (if decide (state Q = PROCESS_BLOCKED) then PROCESS_READY else state Q)).
Proof.
  apply (process_terminate_queued 0 (three_queued SCHED_ROUND_ROBIN)
           [1%positive] 2%positive [3%positive]).
  - left. reflexivity.
  - solve_ready_queue.
  - vm_compute. reflexivity.
  - intros q H. discriminate H.
Defined.

Lemma unlinked_id P : next P = None → prev P = None → unlinked P = P.
Proof. destruct P. simpl. by intros -> ->. Qed.

(** Removing a process whose links are both NULL resets the head and the
    tail of the ready queue. *)
Lemma scheduler_remove_process_unlinked fuel k p P :
  current_algorithm (sch k) = SCHED_ROUND_ROBIN ∨
  current_algorithm (sch k) = SCHED_CFS →
  procs k !! p = Some P → next P = None → prev P = None →
  ∃ k',
    scheduler_remove_process fuel (Some p) k = Ret k' ∧
    ready_queue_head (sch k') = None ∧ ready_queue_tail (sch k') = None ∧
    procs k' = procs k ∧ pm k' = pm k ∧ mem_log k' = mem_log k ∧
    msgs k' = msgs k ∧ timer_ticks k' = timer_ticks k ∧
    current_algorithm (sch k') = current_algorithm (sch k) ∧
    running_process (sch k') = running_process (sch k) ∧
    time_slice_counter (sch k') = time_slice_counter (sch k).
Proof.
  intros Halg HP Hnx Hpv. unfold scheduler_remove_process.
  assert ((current_algorithm (sch k) =? SCHED_ROUND_ROBIN)
          || (current_algorithm (sch k) =? SCHED_CFS) = true) as ->.
  { destruct Halg as [-> | ->]; reflexivity. }
  rewrite (deref_Some _ _ _ HP), bind_Ret, Hpv, Hnx, bind_Ret.
  erewrite deref_Some by (sch_simpl; exact HP).
  rewrite bind_Ret, Hnx, Hpv, bind_Ret.
  erewrite store_Some by (sch_simpl; exact HP). rewrite bind_Ret.
  erewrite store_Some by (sch_simpl; apply lookup_insert_eq).
  eexists. split; [reflexivity|]. sch_simpl.
  rewrite insert_insert_eq.
  change (set_prev None (set_next None P)) with (unlinked P).
  rewrite unlinked_id, insert_id by done. done.
Qed.

(** X9: under round-robin and under the fair algorithm,
    [scheduler_remove_process] called for a process that is not queued
    and whose links are NULL (such as the running process, which
    [scheduler_next] unlinked when it was picked) empties the ready queue:
    head and tail become NULL although no queued PCB was touched, so the
    processes that were queued are still READY and still linked to each
    other, and [scheduler_next] finds nobody. *)
Theorem scheduler_remove_unlinked_empties_queue (fuel : nat) (k : kernel)
    (l : list positive) (p : positive) (P : process) :
  current_algorithm (sch k) = SCHED_ROUND_ROBIN ∨
  current_algorithm (sch k) = SCHED_CFS →
  ready_queue k l → p ∉ l →
  procs k !! p = Some P → next P = None → prev P = None →
  ∃ k',
    scheduler_remove_process fuel (Some p) k = Ret k' ∧
    ready_queue k' [] ∧
    procs k' = procs k ∧ dll k' None l ∧
    scheduler_next fuel k' = Ret (None, k').
Proof.
  intros Halg (_ & _ & _ & Hdll) Hp HP Hnx Hpv.
  destruct (scheduler_remove_process_unlinked fuel k p P Halg HP Hnx Hpv)
    as (k' & Hk' & Hh & Ht & Hprocs & _ & _ & _ & _ & Ha & _).
  exists k'. split; [done|]. split.
  { split; [done|]. split; [done|]. split; [apply NoDup_nil_2|done]. }
  split; [done|]. split.
  { eapply dll_frame; [|exact Hdll]. intros a _. by rewrite Hprocs. }
  unfold scheduler_next. rewrite Ha.
  assert ((current_algorithm (sch k) =? SCHED_ROUND_ROBIN)
          || (current_algorithm (sch k) =? SCHED_CFS) = true) as ->.
  { destruct Halg as [-> | ->]; reflexivity. }
  by rewrite Hh.
Qed.

Lemma scheduler_remove_unlinked_empties_queue_witness :
  ∃ k',
    scheduler_remove_process 0 (Some 4%positive) (three_queued SCHED_ROUND_ROBIN) = Ret k' ∧
    ready_queue k' [] ∧
    procs k' = procs (three_queued SCHED_ROUND_ROBIN) ∧
    dll k' None [1%positive; 2%positive; 3%positive] ∧
    scheduler_next 0 k' = Ret (None, k').
Proof.
  apply (scheduler_remove_unlinked_empties_queue 0 (three_queued SCHED_ROUND_ROBIN)
           [1%positive; 2%positive; 3%positive] 4%positive
           (demo_pcb 4 PRIORITY_NORMAL PROCESS_RUNNING)).
  - left. reflexivity.
  - solve_ready_queue.
  - solve_not_elem_of.
  - vm_compute. reflexivity.
  - reflexivity.
  - reflexivity.
Defined.

(** X10: [sys_exit] called by the running process under round-robin,
    the caller being in no queue with its links NULL: the status is
    stored in [cpu_time], the caller becomes a ZOMBIE, and the removal of
    the caller from a queue it is not in empties the ready queue.  The
    following [scheduler_yield] therefore finds nobody to switch to: no
    context switch takes place, the zombie is still the current process,
    and the call returns 0 to it.  Without a current process the call
    returns [-ESRCH], which is 3. *)
Theorem sys_exit_returns_to_caller (fuel : nat) (status : Z) (k : kernel)
    (l : list positive) (c : positive) (C : process) :
  current_algorithm (sch k) = SCHED_ROUND_ROBIN →
  ready_queue k l → c ∉ l →
  process_get_current k = Some c → procs k !! c = Some C →
  next C = None → prev C = None → parent C = None →
  ∃ k',
    sys_exit fuel status k = Ret (0, k') ∧
    ready_queue k' [] ∧
    procs k' = <[c := set_state PROCESS_ZOMBIE (set_cpu_time (wrap64 status) C)]> (procs k) ∧
    process_get_current k' = Some c ∧
    running_process (sch k') = running_process (sch k) ∧
    stats_context_switches (pm k') = stats_context_switches (pm k) ∧
    sys_exit fuel status (upd_pm (set_current_process None) k)
    = Ret (3, upd_pm (set_current_process None) k).
Proof.
  intros Halg Hq Hcl Hcur HC Hnx Hpv Hpar. unfold sys_exit.
  rewrite Hcur.
  set (C1 := set_state PROCESS_ZOMBIE (set_cpu_time (wrap64 status) C)).
  destruct (store_state k c (set_cpu_time (wrap64 status)) C HC)
    as (k0 & Hs0 & Hc0 & Ho0 & Hsch0 & Hpm0 & _).
  destruct (store_state k0 c (set_state PROCESS_ZOMBIE) _ Hc0)
    as (k1 & Hs1 & Hc1 & Ho1 & Hsch1 & Hpm1 & _).
  fold C1 in Hc1.
  assert (procs k1 = <[c := C1]> (procs k)) as Hprocs1.
  { apply store_Ret in Hs0 as (? & E0 & ->). apply store_Ret in Hs1 as (? & E1 & ->).
    cbn [procs set_procs] in *. rewrite lookup_insert_eq in E1.
    rewrite insert_insert_eq. subst C1. congruence. }
  destruct (scheduler_remove_process_unlinked fuel k1 c C1)
    as (k2 & Hk2 & Hh2 & Ht2 & Hprocs2 & Hpm2 & _ & _ & _ & Ha2 & Hr2 & _);
    [left; congruence|done|by destruct C|by destruct C|].
  exists k2. split.
  { rewrite Hs0, bind_Ret. unfold process_terminate.
    rewrite Hs1, bind_Ret, (deref_Some _ _ _ Hc1), bind_Ret.
    assert (parent C1 = None) as -> by (by destruct C).
    rewrite bind_Ret, Hk2, bind_Ret.
    unfold scheduler_yield, process_get_current in *.
    rewrite Hpm2, Hpm1, Hpm0, Hcur.
    erewrite deref_Some by (rewrite Hprocs2; exact Hc1).
    rewrite bind_Ret, decide_False by (by destruct C).
    rewrite bind_Ret. unfold scheduler_next.
    rewrite Ha2, Hsch1, Hsch0, Halg, Hh2. done. }
  split.
  { split; [done|]. split; [done|]. split; [apply NoDup_nil_2|done]. }
  split; [congruence|].
  split; [unfold process_get_current in *; congruence|].
  split; [congruence|]. split; [congruence|]. done.
Qed.

Lemma sys_exit_returns_to_caller_witness :
  ∃ k',
    sys_exit 0 7 (three_queued SCHED_ROUND_ROBIN) = Ret (0, k') ∧
    ready_queue k' [] ∧
    procs k' = <[4%positive := set_state PROCESS_ZOMBIE
                                (set_cpu_time (wrap64 7)
                                   (demo_pcb 4 PRIORITY_NORMAL PROCESS_RUNNING))]>
                 (procs (three_queued SCHED_ROUND_ROBIN)) ∧
    process_get_current k' = Some 4%positive ∧
    running_process (sch k') = running_process (sch (three_queued SCHED_ROUND_ROBIN)) ∧
    stats_context_switches (pm k')
    = stats_context_switches (pm (three_queued SCHED_ROUND_ROBIN)) ∧
    sys_exit 0 7 (upd_pm (set_current_process None) (three_queued SCHED_ROUND_ROBIN))
    = Ret (3, upd_pm (set_current_process None) (three_queued SCHED_ROUND_ROBIN)).
Proof.
  apply (sys_exit_returns_to_caller 0 7 (three_queued SCHED_ROUND_ROBIN)
           [1%positive; 2%positive; 3%positive] 4%positive
           (demo_pcb 4 PRIORITY_NORMAL PROCESS_RUNNING)).
  - reflexivity.
  - solve_ready_queue.
  - solve_not_elem_of.
  - reflexivity.
  - vm_compute. reflexivity.
  - reflexivity.
  - reflexivity.
  - reflexivity.
Defined.

(** X11: [process_destroy] does not take the process out of the ready
    queue.  When the head of the queue is destroyed, the queue head still
    points to the freed PCB, and the next [scheduler_next] dereferences
    it. *)
Theorem process_destroy_leaves_queue_link (fuel : nat) (k : kernel)
    (p : positive) (l : list positive) :
  current_algorithm (sch k) = SCHED_ROUND_ROBIN ∨
  current_algorithm (sch k) = SCHED_CFS →
  ready_queue k (p :: l) →
  ∃ k',
    process_destroy (Some p) k = Ret k' ∧
    ready_queue_head (sch k') = Some p ∧
    procs k' !! p = None ∧
    scheduler_next fuel k' = Fault.
Proof.
  intros Halg (Hh & _ & _ & P & HP & _).
  destruct (process_destroy_Some k p P HP)
    as (k' & Hk' & Hprocs & _ & _ & _ & _ & _ & Hsch & _).
  exists k'. split; [done|]. split; [by rewrite Hsch|].
  assert (procs k' !! p = None) as Hgone by (rewrite Hprocs; apply lookup_delete_eq).
  split; [done|].
  unfold scheduler_next, scheduler_remove_process. rewrite Hsch.
  assert ((current_algorithm (sch k) =? SCHED_ROUND_ROBIN)
          || (current_algorithm (sch k) =? SCHED_CFS) = true) as ->.
  { destruct Halg as [-> | ->]; reflexivity. }
  rewrite Hh. cbn [head]. unfold deref. by rewrite Hgone.
Qed.

Lemma process_destroy_leaves_queue_link_witness :
  ∃ k',
    process_destroy (Some 1%positive) (three_queued SCHED_ROUND_ROBIN) = Ret k' ∧
    ready_queue_head (sch k') = Some 1%positive ∧
    procs k' !! 1%positive = None ∧
    scheduler_next 0 k' = Fault.
Proof.
  apply (process_destroy_leaves_queue_link 0 (three_queued SCHED_ROUND_ROBIN)
           1%positive [2%positive; 3%positive]).
  - left. reflexivity.
  - solve_ready_queue.
Defined.


(** ** The wake-up loop of the timer tick (scheduler.c) *)

Lemma links_only_sleep_obs k k' a :
  links_only k k' → (sleep_obs <$> (procs k' !! a)) = (sleep_obs <$> (procs k !! a)).
Proof. apply links_only_field. by intros []. Qed.

Lemma due_b_obs k k' now p :
  (sleep_obs <$> (procs k' !! p)) = (sleep_obs <$> (procs k !! p)) →
  due_b k' now p = due_b k now p.
Proof.
  unfold due_b. intros H.
  destruct (procs k' !! p) as [P'|], (procs k !! p) as [P|];
    cbn [fmap option_fmap option_map] in H; try done.
  apply (inj Some) in H. unfold sleep_obs in H. injection H as -> ->. done.
Qed.

(** One slot of the loop under round-robin. *)
Lemma wake_slot_rr fuel now i k l :
  current_algorithm (sch k) = SCHED_ROUND_ROBIN → ready_queue k l →
  (∀ p, p ∈ l → (state <$> (procs k !! p)) ≠ Some PROCESS_SLEEPING) →
  (∀ p, table_get k i = Some p → is_Some (procs k !! p)) →
  ∃ k',
    wake_slot fuel now i k = Ret k' ∧
    ready_queue k' (l ++ due_from k now 1 i) ∧
    current_algorithm (sch k') = SCHED_ROUND_ROBIN ∧
    running_process (sch k') = running_process (sch k) ∧
    time_slice_counter (sch k') = time_slice_counter (sch k) ∧
    pm k' = pm k ∧ timer_ticks k' = timer_ticks k ∧
    (∀ a, a ∉ due_from k now 1 i →
          (unlinked <$> (procs k' !! a)) = (unlinked <$> (procs k !! a))) ∧
    (∀ a, a ∈ due_from k now 1 i →
          (unlinked <$> (procs k' !! a)) = (unlinked <$> (woken <$> (procs k !! a)))).
Proof.
  intros Halg Hq Hns Hheap. unfold wake_slot. cbn [due_from].
  destruct (table_get k i) as [p|] eqn:Ei.
  2:{ exists k. rewrite app_nil_r. do 7 (split; [done|]).
      split; [done|]. intros a Ha. by apply elem_of_nil in Ha. }
  destruct (Hheap p eq_refl) as [P HP].
  rewrite (deref_Some _ _ _ HP), bind_Ret. unfold due_b. rewrite HP.
  destruct (decide (state P = PROCESS_SLEEPING)) as [Hs|Hs].
  2:{ rewrite bool_decide_eq_false_2 by done. cbn [andb].
      exists k. rewrite app_nil_r. do 7 (split; [done|]).
      split; [done|]. intros a Ha. by apply elem_of_nil in Ha. }
  rewrite bool_decide_eq_true_2 by done. cbn [andb].
  destruct (Z.leb_spec (sleep_until P) now) as [Hle|Hgt].
  2:{ exists k. rewrite app_nil_r. do 7 (split; [done|]).
      split; [done|]. intros a Ha. by apply elem_of_nil in Ha. }
  unfold process_wake. rewrite (deref_Some _ _ _ HP), bind_Ret, decide_True by done.
  destruct (store_state k p (set_state PROCESS_READY) P HP)
    as (k0 & Hs0 & Hp0 & Ho0 & Hsch0 & Hpm0 & Htk0).
  destruct (store_state k0 p (set_sleep_until 0) _ Hp0)
    as (k1 & Hs1 & Hp1 & Ho1 & Hsch1 & Hpm1 & Htk1).
  rewrite Hs0, bind_Ret, Hs1, bind_Ret.
  assert (ready_queue k1 l) as Hq1.
  { eapply ready_queue_store; [|exact Hs1|]; [by intros []|].
    eapply ready_queue_store; [|exact Hs0|exact Hq]. by intros []. }
  assert (p ∉ l) as Hpl.
  { intros Hin. apply (Hns p Hin). by rewrite HP, <- Hs. }
  destruct (scheduler_add_process_rr fuel k1 l p _ ltac:(congruence) Hq1 Hpl Hp1 eq_refl)
    as (k2 & Hadd & Hq2 & Halg2 & Hrun2 & Hpm2 & Htk2 & _).
  pose proof (scheduler_add_process_links _ _ _ _ Hadd) as Hl.
  exists k2. split; [done|]. split; [done|]. split; [done|].
  split; [congruence|]. split.
  { destruct Hl as [(_ & _ & _ & _ & _ & _ & _ & _ & _ & Hc) _]. congruence. }
  split; [congruence|]. split; [congruence|]. split.
  - intros a Ha. apply not_elem_of_cons in Ha as [Ha _].
    destruct Hl as [_ Hl]. rewrite Hl, Ho1, Ho0; done.
  - intros a Ha. apply list_elem_of_singleton in Ha as ->.
    destruct Hl as [_ Hl]. rewrite Hl, Hp1, HP. done.
Qed.

Lemma due_from_obs k k' now n : ∀ i,
  pm k' = pm k →
  (∀ j p, i ≤ j → table_get k j = Some p →
          (sleep_obs <$> (procs k' !! p)) = (sleep_obs <$> (procs k !! p))) →
  due_from k' now n i = due_from k now n i.
Proof.
  induction n as [|n IH]; intros i Hpm Hobs; [done|]. cbn [due_from].
  rewrite (table_get_same k k') by (by rewrite Hpm).
  rewrite IH; [|done|intros j p Hj; apply Hobs; lia].
  destruct (table_get k i) as [p|] eqn:E; [|done].
  rewrite (due_b_obs k k' now p); [done|]. apply (Hobs i); [lia|done].
Qed.

Lemma elem_of_due_from k now n : ∀ i p,
  p ∈ due_from k now n i ↔
  ∃ j, i ≤ j < i + Z.of_nat n ∧ table_get k j = Some p ∧ due_b k now p = true.
Proof.
  induction n as [|n IH]; intros i p; cbn [due_from].
  - split; [by intros ?%elem_of_nil|]. intros (j & ? & _). lia.
  - assert (p ∈ due_from k now n (i + 1) ↔
            ∃ j, i + 1 ≤ j < i + Z.of_nat (S n) ∧ table_get k j = Some p ∧
                 due_b k now p = true) as IH'.
    { rewrite IH. split; intros (j & ? & ?); exists j; (split; [lia|done]). }
    assert ((∃ j, i ≤ j < i + Z.of_nat (S n) ∧ table_get k j = Some p ∧
                  due_b k now p = true) ↔
            (table_get k i = Some p ∧ due_b k now p = true) ∨
            p ∈ due_from k now n (i + 1)) as ->.
    { rewrite IH'. split.
      - intros (j & Hj & Ht & Hd). destruct (decide (j = i)) as [->|]; [by left|].
        right. exists j. split; [lia|done].
      - intros [[Ht Hd]|(j & Hj & ?)]; [exists i|exists j]; (split; [lia|done]). }
    destruct (table_get k i) as [q|] eqn:E.
    + destruct (due_b k now q) eqn:Ed.
      * rewrite elem_of_cons. split.
        -- intros [->|?]; [by left|by right].
        -- intros [[[= ->] _]|?]; [by left|by right].
      * split; [by right|]. intros [[[= ->] ?]|?]; [congruence|done].
    + split; [by right|]. intros [[? _]|?]; done.
Qed.

Lemma unlinked_fmap_field {A : Type} (g : process → A) (x y : option process) :
  (∀ P, g (unlinked P) = g P) →
  (unlinked <$> x) = (unlinked <$> y) → (g <$> x) = (g <$> y).
Proof.
  intros Hg H. destruct x as [P|], y as [Q|];
    cbn [fmap option_fmap option_map] in *; try done.
  apply (inj Some) in H. rewrite <- (Hg P), <- (Hg Q). by rewrite H.
Qed.

Lemma unlinked_sleep_obs (x y : option process) :
  (unlinked <$> x) = (unlinked <$> y) → (sleep_obs <$> x) = (sleep_obs <$> y).
Proof. apply unlinked_fmap_field. by intros []. Qed.

Lemma unlinked_state (x y : option process) :
  (unlinked <$> x) = (unlinked <$> y) → (state <$> x) = (state <$> y).
Proof. apply unlinked_fmap_field. by intros []. Qed.

Lemma unlinked_woken (x y : option process) :
  (unlinked <$> x) = (unlinked <$> y) →
  (unlinked <$> (woken <$> x)) = (unlinked <$> (woken <$> y)).
Proof.
  intros H. destruct x as [P|], y as [Q|];
    cbn [fmap option_fmap option_map] in *; try done.
  apply (inj Some) in H. f_equal.
  assert (∀ R, unlinked (woken R) = woken (unlinked R)) as E by (by intros []).
  by rewrite !E, H.
Qed.

Lemma due_from_S k now n i :
  due_from k now (S n) i = due_from k now 1 i ++ due_from k now n (i + 1).
Proof.
  cbn [due_from]. destruct (table_get k i) as [p|]; [|done].
  by destruct (due_b k now p).
Qed.

Lemma due_from_1 k now i a :
  a ∈ due_from k now 1 i → table_get k i = Some a ∧ due_b k now a = true.
Proof.
  intros (j & Hj & Ht & Hd)%elem_of_due_from.
  assert (j = i) as -> by lia. done.
Qed.

(** The whole loop under round-robin: the due sleepers of the slots
    visited are woken in slot order and appended to the ready queue. *)
Lemma wake_sleepers_rr fuel now n : ∀ i k l,
  current_algorithm (sch k) = SCHED_ROUND_ROBIN → ready_queue k l →
  (∀ p, p ∈ l → (state <$> (procs k !! p)) ≠ Some PROCESS_SLEEPING) →
  table_sound k →
  ∃ k',
    wake_sleepers fuel now n i k = Ret k' ∧
    ready_queue k' (l ++ due_from k now n i) ∧
    current_algorithm (sch k') = SCHED_ROUND_ROBIN ∧
    running_process (sch k') = running_process (sch k) ∧
    time_slice_counter (sch k') = time_slice_counter (sch k) ∧
    pm k' = pm k ∧ timer_ticks k' = timer_ticks k ∧
    (∀ a, a ∉ due_from k now n i →
          (unlinked <$> (procs k' !! a)) = (unlinked <$> (procs k !! a))) ∧
    (∀ a, a ∈ due_from k now n i →
          (unlinked <$> (procs k' !! a)) = (unlinked <$> (woken <$> (procs k !! a)))).
Proof.
  induction n as [|n IH]; intros i k l Halg Hq Hns [Hheap Hdist].
  { exists k. cbn [wake_sleepers due_from]. rewrite app_nil_r.
    do 7 (split; [done|]). split; [done|]. intros a Ha. by apply elem_of_nil in Ha. }
  destruct (wake_slot_rr fuel now i k l Halg Hq Hns (Hheap i))
    as (k1 & Hw & Hq1 & Halg1 & Hrun1 & Htc1 & Hpm1 & Htk1 & Hout1 & Hin1).
  assert (∀ j, table_get k1 j = table_get k j) as Htab.
  { intros j. apply table_get_same. by rewrite Hpm1. }
  assert (∀ a, is_Some (procs k !! a) → is_Some (procs k1 !! a)) as Hdom.
  { intros a [A HA]. destruct (decide (a ∈ due_from k now 1 i)) as [Hin|Hout].
    - specialize (Hin1 a Hin). rewrite HA in Hin1.
      destruct (procs k1 !! a); [by eexists|done].
    - specialize (Hout1 a Hout). rewrite HA in Hout1.
      destruct (procs k1 !! a); [by eexists|done]. }
  destruct (IH (i + 1) k1 (l ++ due_from k now 1 i) Halg1 Hq1)
    as (k' & Hws & Hq' & Halg' & Hrun' & Htc' & Hpm' & Htk' & Hout' & Hin').
  { intros p Hp. destruct (decide (p ∈ due_from k now 1 i)) as [Hin|Hout].
    - rewrite (unlinked_state _ _ (Hin1 p Hin)).
      by destruct (procs k !! p).
    - rewrite (unlinked_state _ _ (Hout1 p Hout)). apply Hns.
      apply elem_of_app in Hp as [?|?]; done. }
  { split.
    - intros j p Hj. rewrite Htab in Hj. apply Hdom. by eapply Hheap.
    - intros j j' p. rewrite !Htab. apply Hdist. }
  assert (due_from k1 now n (i + 1) = due_from k now n (i + 1)) as HW.
  { apply due_from_obs; [done|]. intros j p Hj Hp. apply unlinked_sleep_obs, Hout1.
    intros [Hi _]%due_from_1. specialize (Hdist _ _ _ Hi Hp). lia. }
  rewrite HW in *.
  assert (∀ a, a ∈ due_from k now 1 i → a ∉ due_from k now n (i + 1)) as Hdisj.
  { intros a Ha1 Ha2. destruct Hq' as (_ & _ & Hnd & _).
    apply NoDup_app in Hnd as (_ & Hd & _). apply (Hd a); [|done].
    apply elem_of_app. by right. }
  exists k'. cbn [wake_sleepers]. rewrite Hw, bind_Ret, Hws, due_from_S.
  split; [done|]. split; [by rewrite app_assoc|]. split; [done|].
  split; [congruence|]. split; [congruence|]. split; [congruence|].
  split; [congruence|]. split.
  - intros a Ha. apply not_elem_of_app in Ha as [Ha1 Ha2].
    by rewrite (Hout' a Ha2), (Hout1 a Ha1).
  - intros a Ha. apply elem_of_app in Ha as [Ha|Ha].
    + rewrite (Hout' a (Hdisj a Ha)). by apply Hin1.
    + rewrite (Hin' a Ha). apply unlinked_woken, Hout1.
      intros Ha1. by apply (Hdisj a Ha1).
Qed.

(** X12: the wake-up loop of [scheduler_tick] under round-robin.  Going
    through the process table in slot order, it wakes exactly the
    processes that are SLEEPING with their sleep-until reached: they
    become READY with sleep-until 0 and are appended to the ready queue in
    slot order, behind what was queued.  Apart from queue links, nothing
    else is written to a woken process and nothing at all to any other
    process; the process table, the running process and the time-slice
    counter are not touched. *)
Theorem wake_sleepers_wakes_due (fuel : nat) (now : Z) (k : kernel)
    (l : list positive) :
  current_algorithm (sch k) = SCHED_ROUND_ROBIN → ready_queue k l →
  (∀ p, p ∈ l → (state <$> (procs k !! p)) ≠ Some PROCESS_SLEEPING) →
  table_sound k →
  ∃ k',
    wake_sleepers fuel now (Z.to_nat MAX_PROCESSES) 0 k = Ret k' ∧
    ready_queue k' (l ++ due_from k now 256 0) ∧
    (∀ p, p ∈ due_from k now 256 0 ↔
          ∃ j P, 0 ≤ j < MAX_PROCESSES ∧ table_get k j = Some p ∧
                 procs k !! p = Some P ∧
                 state P = PROCESS_SLEEPING ∧ sleep_until P ≤ now) ∧
    (∀ p, p ∈ due_from k now 256 0 →
          (sleep_obs <$> (procs k' !! p)) = Some (PROCESS_READY, 0) ∧
          (unlinked <$> (procs k' !! p)) = (unlinked <$> (woken <$> (procs k !! p)))) ∧
    (∀ a, a ∉ due_from k now 256 0 →
          (unlinked <$> (procs k' !! a)) = (unlinked <$> (procs k !! a))) ∧
    pm k' = pm k ∧
    running_process (sch k') = running_process (sch k) ∧
    time_slice_counter (sch k') = time_slice_counter (sch k).
Proof.
  intros Halg Hq Hns Hts.
  destruct (wake_sleepers_rr fuel now 256 0 k l Halg Hq Hns Hts)
    as (k' & Hw & Hq' & _ & Hrun & Htc & Hpm & _ & Hout & Hin).
  assert (∀ p, p ∈ due_from k now 256 0 ↔
               ∃ j P, 0 ≤ j < MAX_PROCESSES ∧ table_get k j = Some p ∧
                      procs k !! p = Some P ∧
                      state P = PROCESS_SLEEPING ∧ sleep_until P ≤ now) as Hchar.
  { intros p. rewrite elem_of_due_from. unfold MAX_PROCESSES, due_b.
    split.
    - intros (j & Hj & Ht & Hd). destruct (procs k !! p) as [P|] eqn:HP; [|done].
      apply andb_true_iff in Hd as [Hs%bool_decide_eq_true Hu%Z.leb_le].
      exists j, P. split; [lia|done].
    - intros (j & P & Hj & Ht & HP & Hs & Hu). exists j. split; [lia|].
      split; [done|]. rewrite HP. apply andb_true_iff.
      split; [by apply bool_decide_eq_true|by apply Z.leb_le]. }
  exists k'. split; [exact Hw|]. split; [done|]. split; [done|]. split; [|done].
  intros p Hp. split; [|by apply Hin].
  apply Hchar in Hp as Hp'. destruct Hp' as (j & P & _ & _ & HP & _).
  specialize (Hin p Hp). rewrite HP in Hin.
  destruct (procs k' !! p) as [P'|]; cbn [fmap option_fmap option_map] in *; [|done].
  apply (inj Some) in Hin. f_equal.
  change (sleep_obs P' = sleep_obs (woken P)).
  assert (∀ R, sleep_obs (unlinked R) = sleep_obs R) as E by (by intros []).
  by rewrite <- (E P'), Hin, E.
Qed.

Lemma table_consistent_sound k : table_consistent k → table_sound k.
Proof.
  intros [_ H]. split.
  - intros i p Hi. destruct (H i p Hi) as (P & HP & _). by exists P.
  - intros i j p Hi Hj.
    destruct (H i p Hi) as (P & HP & <-), (H j p Hj) as (Q & HQ & <-). congruence.
Qed.

Lemma lookup_all_None (L : list (option positive)) n o :
  forallb (λ o, match o with None => true | Some _ => false end) L = true →
  L !! n = Some o → o = None.
Proof.
  revert n. induction L as [|x L IH]; intros n HL Hn; [done|].
  simpl in HL. apply andb_true_iff in HL as [Hx HL].
  destruct n as [|n]; simpl in Hn.
  - injection Hn as <-. by destruct x.
  - by eapply IH.
Qed.

(** [table_consistent] of a concrete table whose first slots are occupied. *)
Ltac solve_table_consistent :=
  split; [reflexivity|];
  let i := fresh "i" in let a := fresh "a" in let H := fresh "Hget" in
  let E := fresh "Eslot" in let n := fresh "n" in let Hi := fresh "Hneg" in
  intros i a; unfold table_get;
  destruct (Z.ltb_spec i 0) as [Hi|Hi]; [discriminate|];
  destruct (Z.to_nat i) as [|[|[|[|[|n]]]]] eqn:E; cbn; intros H;
  try discriminate H;
  try (injection H as <-; eexists; split; [vm_compute; reflexivity|cbn; lia]);
  exfalso; revert H;
  match goal with
  | |- context [?l !! ?m] =>
      destruct (l !! m) as [?|] eqn:?; [|discriminate]
  end;
  match goal with
  | H' : _ !! _ = Some _ |- _ =>
      apply lookup_all_None in H'; [subst; discriminate|reflexivity]
  end.

Lemma wake_sleepers_wakes_due_witness :
  ∃ k',
    wake_sleepers 0 10 (Z.to_nat MAX_PROCESSES) 0 sleepers_kernel = Ret k' ∧
    ready_queue k' ([] ++ due_from sleepers_kernel 10 256 0) ∧
    (∀ p, p ∈ due_from sleepers_kernel 10 256 0 ↔
          ∃ j P, 0 ≤ j < MAX_PROCESSES ∧ table_get sleepers_kernel j = Some p ∧
                 procs sleepers_kernel !! p = Some P ∧
                 state P = PROCESS_SLEEPING ∧ sleep_until P ≤ 10) ∧
    (∀ p, p ∈ due_from sleepers_kernel 10 256 0 →
          (sleep_obs <$> (procs k' !! p)) = Some (PROCESS_READY, 0) ∧
          (unlinked <$> (procs k' !! p))
          = (unlinked <$> (woken <$> (procs sleepers_kernel !! p)))) ∧
    (∀ a, a ∉ due_from sleepers_kernel 10 256 0 →
          (unlinked <$> (procs k' !! a)) = (unlinked <$> (procs sleepers_kernel !! a))) ∧
    pm k' = pm sleepers_kernel ∧
    running_process (sch k') = running_process (sch sleepers_kernel) ∧
    time_slice_counter (sch k') = time_slice_counter (sch sleepers_kernel).
Proof.
  apply (wake_sleepers_wakes_due 0 10 sleepers_kernel []).
  - reflexivity.
  - solve_ready_queue.
  - intros p Hp. by apply elem_of_nil in Hp.
  - apply table_consistent_sound. solve_table_consistent.
Defined.

(** In the state of the witness the woken processes are 1 and 3, in this
    order. *)
Example due_from_sleepers_kernel :
  due_from sleepers_kernel 10 256 0 = [1%positive; 3%positive].
Proof. vm_compute. reflexivity. Qed.

(** ** The timer tick (scheduler.c, irq.c) *)

Section Kept.

Context {A : Type} (g : process → A).

Lemma kept_refl k : kept g k k.
Proof. by repeat split. Qed.

Lemma kept_trans k1 k2 k3 : kept g k1 k2 → kept g k2 k3 → kept g k1 k3.
Proof.
  intros (? & ? & ? & ? & ? & ? & Ha) (? & ? & ? & ? & ? & ? & Hb).
  do 6 (split; [congruence|]). intros a. by rewrite Hb.
Qed.

Lemma kept_store a f k k' :
  (∀ P, g (f P) = g P) → store a f k = Ret k' → kept g k k'.
Proof.
  intros Hf (P & HP & ->)%store_Ret. do 6 (split; [done|]).
  intros b. cbn [procs set_procs].
  destruct (decide (b = a)) as [->|Hne].
  - rewrite lookup_insert_eq, HP. cbn. by rewrite Hf.
  - by rewrite lookup_insert_ne.
Qed.

Lemma kept_links k k' :
  (∀ P, g (unlinked P) = g P) → links_only k k' → kept g k k'.
Proof.
  intros Hg Hl.
  assert (∀ a, (g <$> (procs k' !! a)) = (g <$> (procs k !! a))) as Hf.
  { intros a. by apply links_only_field. }
  destruct Hl as [(Hpm & _ & ? & _ & _ & _ & ? & _ & ? & ?) _].
  do 4 (split; [done|]). rewrite Hpm. done.
Qed.

End Kept.

Ltac kept_step :=
  let g := match goal with |- kept ?g _ _ => g end in
  match goal with
  | H : (_ ≫= _) = Ret _ |- _ =>
      apply bind_Ret_inv in H; destruct H as (? & ? & ?)
  | H : Ret _ = Ret _ |- _ => injection H as ?; subst
  | H : Fault = Ret _ |- _ => discriminate H
  | H : Diverge = Ret _ |- _ => discriminate H
  | H : store _ _ _ = Ret _ |- _ =>
      eapply (kept_store g) in H;
      [|let P := fresh in intros P; destruct P; cbn; repeat case_decide; reflexivity]
  | H : scheduler_add_process _ _ _ = Ret _ |- _ =>
      apply scheduler_add_process_links in H;
      eapply (kept_links g) in H; [|by intros []]
  | H : scheduler_remove_process _ _ _ = Ret _ |- _ =>
      apply scheduler_remove_process_links in H;
      eapply (kept_links g) in H; [|by intros []]
  | H : context [match ?x with _ => _ end] |- _ =>
      first [progress cbn beta iota in H | destruct x eqn:?]
  end.

Ltac kept_close :=
  first [ eassumption | apply kept_refl | by repeat split
        | solve [eauto 6 using kept_refl, kept_trans]
        | eapply kept_trans; [eassumption|]; by repeat split ].

(** Under round-robin and under the fair algorithm, [scheduler_yield]
    leaves the time accounting of the scheduler alone, and of every
    process the pid, the priority, the time slice, the accounted CPU time,
    the sleep-until and the mailbox. *)
Lemma scheduler_yield_kept fuel k k' :
  current_algorithm (sch k) = SCHED_ROUND_ROBIN ∨
  current_algorithm (sch k) = SCHED_CFS →
  scheduler_yield fuel k = Ret k' →
  kept yield_fixed k k'.
Proof.
  intros Halg H. unfold scheduler_yield, process_get_current in H.
  destruct (current_process (pm k)) as [c|]; [|injection H as <-; apply kept_refl].
  apply bind_Ret_inv in H as (C & HC & H).
  apply bind_Ret_inv in H as (k1 & H1 & H).
  assert (kept yield_fixed k k1) as K1.
  { destruct (decide (state C = PROCESS_RUNNING)); repeat kept_step; kept_close. }

  apply bind_Ret_inv in H as ([nxt k2] & H2 & H).
  assert (kept yield_fixed k1 k2) as K2.
  { unfold scheduler_next in H2.
    assert ((current_algorithm (sch k1) =? SCHED_ROUND_ROBIN)
            || (current_algorithm (sch k1) =? SCHED_CFS) = true) as E.
    { destruct K1 as (-> & _). destruct Halg as [-> | ->]; reflexivity. }
    rewrite E in H2. repeat kept_step; kept_close. }
  eapply kept_trans; [exact K1|]. eapply kept_trans; [exact K2|].
  destruct nxt as [n|]; [|injection H as <-; apply kept_refl].
  unfold context_switch, get_scheduler_stats in H.
  repeat kept_step; kept_close.
Qed.










(** ** Sleeping under round-robin (process.c, scheduler.c) *)

(** A yield by a process that is not RUNNING: it is not put back on the
    queue; the head of the queue is switched to. *)
Lemma scheduler_yield_not_running_rr fuel k h l c C :
  current_algorithm (sch k) = SCHED_ROUND_ROBIN → ready_queue k (h :: l) →
  process_get_current k = Some c → procs k !! c = Some C →
  state C ≠ PROCESS_RUNNING → c ≠ h →
  ∃ k',
    scheduler_yield fuel k = Ret k' ∧
    running_process (sch k') = Some h ∧
    (state <$> (procs k' !! h)) = Some PROCESS_RUNNING ∧
    (state <$> (procs k' !! c)) = Some (state C) ∧
    ready_queue k' l ∧
    kept yield_fixed k k'.
Proof.
  intros Halg Hq Hcur HC Hst Hch.
  destruct (scheduler_next_rr fuel k h l Halg Hq)
    as (k1 & Hnext & Hq1 & Halg1 & _ & _ & _ & Hst1).
  assert (∃ C1, procs k1 !! c = Some C1 ∧ state C1 = state C) as (C1 & HC1 & HC1s).
  { specialize (Hst1 c). rewrite HC in Hst1.
    destruct (procs k1 !! c) as [C1|]; [|done]. exists C1. split; [done|].
    by injection Hst1. }
  assert (is_Some (procs k1 !! h)) as [H1 HH1].
  { destruct Hq as (_ & _ & _ & H0 & HH0 & _). specialize (Hst1 h). rewrite HH0 in Hst1.
    destruct (procs k1 !! h); [by eexists|done]. }
  destruct (context_switch_spec k1 c h C1 H1 HC1 HH1)
    as (k2 & Hcs & Hrun2 & _ & Hh2 & Hc2 & Hq2).
  assert (scheduler_yield fuel k = Ret k2) as Hy.
  { unfold scheduler_yield. rewrite Hcur, (deref_Some _ _ _ HC), bind_Ret.
    rewrite decide_False by done. rewrite bind_Ret, Hnext, bind_Ret. exact Hcs. }
  exists k2. split; [done|]. split; [done|]. split; [done|]. split.
  { rewrite Hc2 by done. rewrite decide_False by congruence. by rewrite HC1s. }
  split; [by apply Hq2|].
  by apply (scheduler_yield_kept fuel); [left|].
Qed.

(** X14: [process_sleep] under round-robin with a non-empty ready queue.
    The caller is left SLEEPING with its sleep-until set and is not put on
    the ready queue; the head of the queue is taken off the queue, made
    RUNNING and recorded as the running process.  [process_get_current]
    still answers the caller: a context switch records the new process in
    the scheduler only. *)
Theorem process_sleep_round_robin (fuel : nat) (ms : Z) (k : kernel)
    (h : positive) (l : list positive) (c : positive) (C : process) :
  current_algorithm (sch k) = SCHED_ROUND_ROBIN → ready_queue k (h :: l) →
  process_get_current k = Some c → procs k !! c = Some C → c ∉ h :: l →
  ∃ k',
    process_sleep fuel ms k = Ret k' ∧
    (sleep_obs <$> (procs k' !! c))
    = Some (PROCESS_SLEEPING, wrap32 (wrap64 (timer_get_ticks k + ms / 10))) ∧
    ready_queue k' l ∧
    running_process (sch k') = Some h ∧
    (state <$> (procs k' !! h)) = Some PROCESS_RUNNING ∧
    process_get_current k' = Some c.
Proof.
  intros Halg Hq Hcur HC Hcl. apply not_elem_of_cons in Hcl as [Hch Hcl].
  unfold process_sleep. unfold process_get_current in Hcur. rewrite Hcur.
  rewrite (enter_sleep_Some ms c k C HC), bind_Ret.
  set (C1 := set_sleep_until _ (set_state PROCESS_SLEEPING C)).
  set (k1 := set_procs _ k).
  assert (procs k1 !! c = Some C1) as HC1 by apply lookup_insert_eq.
  assert (ready_queue k1 (h :: l)) as Hq1.
  { destruct Hq as (Hh & Ht & Hnd & Hd). split; [done|]. split; [done|]. split; [done|].
    eapply dll_frame; [|exact Hd]. intros a Ha. subst k1. cbn [procs set_procs].
    rewrite lookup_insert_ne; [done|]. intros ->.
    apply elem_of_cons in Ha as [?|?]; done. }
  destruct (scheduler_yield_not_running_rr fuel k1 h l c C1)
    as (k' & Hy & Hrun & Hh' & Hc' & Hq' & Hk); try done.
  exists k'. split; [done|].
  destruct Hk as (_ & _ & _ & _ & Hcp & _ & Hf).
  split.
  { specialize (Hf c). rewrite HC1 in Hf.
    destruct (procs k' !! c) as [C'|]; cbn [fmap option_fmap option_map] in *; [|done].
    apply (inj Some) in Hf. injection Hc' as Hs. unfold yield_fixed in Hf.
    injection Hf as _ _ _ _ Hu _. unfold sleep_obs. rewrite Hs, Hu. done. }
  split; [done|]. split; [done|]. split; [done|].
  unfold process_get_current. rewrite Hcp. done.
Qed.

Lemma process_sleep_round_robin_witness :
  ∃ k',
    process_sleep 0 50 rr_queued = Ret k' ∧
    (sleep_obs <$> (procs k' !! 3%positive))
    = Some (PROCESS_SLEEPING, wrap32 (wrap64 (timer_get_ticks rr_queued + 50 / 10))) ∧
    ready_queue k' [2%positive] ∧
    running_process (sch k') = Some 1%positive ∧
    (state <$> (procs k' !! 1%positive)) = Some PROCESS_RUNNING ∧
    process_get_current k' = Some 3%positive.
Proof.
  apply (process_sleep_round_robin 0 50 rr_queued 1%positive [2%positive] 3%positive
           (demo_pcb 3 PRIORITY_NORMAL PROCESS_RUNNING)).
  - reflexivity.
  - solve_ready_queue.
  - reflexivity.
  - vm_compute. reflexivity.
  - solve_not_elem_of.
Defined.

(** ** The priority queues (scheduler.c) *)

Lemma nchain_frame k k' start l :
  (∀ a, a ∈ l → procs k' !! a = procs k !! a) → nchain k start l → nchain k' start l.
Proof.
  revert start. induction l as [|p l IH]; intros start Hsame; [done|].
  simpl. intros (-> & P & HP & Hrest). split; [done|].
  exists P. rewrite Hsame by left. split; [done|].
  apply IH; [|done]. intros a Ha. apply Hsame. by right.
Qed.

(** Pushing on the front of queue [i]. *)
Lemma priority_buckets_push k k' ls (i : nat) p P :
  priority_buckets k ls → (i < 5)%nat →
  (∀ j l, ls !! j = Some l → p ∉ l) →
  procs k' = <[p := P]> (procs k) →
  next P = pq_get k (Z.of_nat i) →
  priority_queues (sch k') = <[i := Some p]> (priority_queues (sch k)) →
  priority_buckets k' (alter (p ::.) i ls).
Proof.
  intros (Hlen & Hls & Hch & Hdisj) Hi Hp Hprocs Hnext Hpq.
  assert (∀ j, j ≠ i → pq_get k' (Z.of_nat j) = pq_get k (Z.of_nat j)) as Hother.
  { intros j Hj. unfold pq_get. rewrite Hpq, list_lookup_insert_ne; [done|lia]. }
  assert (pq_get k' (Z.of_nat i) = Some p) as Hi'.
  { unfold pq_get. rewrite Hpq, Nat2Z.id, list_lookup_insert_eq; [done|lia]. }
  assert (∀ j l, ls !! j = Some l → nchain k' (pq_get k (Z.of_nat j)) l) as Hfr.
  { intros j l Hj. eapply nchain_frame; [|by apply (Hch j l)].
    intros a Ha. rewrite Hprocs, lookup_insert_ne; [done|].
    intros <-. by apply (Hp j l). }
  split; [by rewrite Hpq, length_insert|]. split; [by rewrite length_alter|]. split.
  - intros j l Hj. destruct (decide (j = i)) as [->|Hne].
    + rewrite list_lookup_alter_eq in Hj.
      destruct (ls !! i) as [li|] eqn:Eli; [|done]. injection Hj as <-.
      rewrite Hi'. split.
      * split; [done|]. exists P. rewrite Hprocs, lookup_insert_eq. split; [done|].
        rewrite Hnext. by apply Hfr.
      * apply NoDup_cons. split; [by apply (Hp i)|]. by apply (Hch i).
    + rewrite list_lookup_alter_ne in Hj by done. rewrite Hother by done.
      split; [by apply Hfr|by apply (Hch j)].
  - intros j j' l l' q Hj Hj' Hq Hq'.
    destruct (decide (j = j')) as [|Hjj]; [done|]. exfalso.
    destruct (decide (j = i)) as [->|Hji], (decide (j' = i)) as [->|Hj'i]; [done| | |].
    + rewrite list_lookup_alter_eq in Hj. rewrite list_lookup_alter_ne in Hj' by done.
      destruct (ls !! i) as [li|] eqn:Eli; [|done]. injection Hj as <-.
      apply elem_of_cons in Hq as [->|Hq]; [by apply (Hp j' l')|].
      apply Hjj. symmetry. by eapply (Hdisj j' i).
    + rewrite list_lookup_alter_eq in Hj'. rewrite list_lookup_alter_ne in Hj by done.
      destruct (ls !! i) as [li|] eqn:Eli; [|done]. injection Hj' as <-.
      apply elem_of_cons in Hq' as [->|Hq']; [by apply (Hp j l)|].
      apply Hjj. by eapply (Hdisj j i).
    + rewrite list_lookup_alter_ne in Hj, Hj' by done.
      apply Hjj. by eapply Hdisj.
Qed.

(** Popping the head of queue [i]. *)
Lemma priority_buckets_pop k k' ls (i : nat) q rest Q :
  priority_buckets k ls → ls !! i = Some (q :: rest) →
  procs k !! q = Some Q →
  procs k' = <[q := set_next None Q]> (procs k) →
  priority_queues (sch k') = <[i := next Q]> (priority_queues (sch k)) →
  priority_buckets k' (<[i := rest]> ls).
Proof.
  intros (Hlen & Hls & Hch & Hdisj) Hi HQ Hprocs Hpq.
  assert (i < 5)%nat as Hi5 by (apply lookup_lt_Some in Hi; lia).
  destruct (Hch i _ Hi) as [(Hhd & Q' & HQ' & Hrest) Hnd].
  assert (Q' = Q) as -> by congruence.
  apply NoDup_cons in Hnd as [Hq Hnd].
  assert (∀ j l, ls !! j = Some l → j ≠ i → q ∉ l) as Hqo.
  { intros j l Hj Hne Hin. apply Hne. eapply (Hdisj j i); [done|done|done|left]. }
  split; [by rewrite Hpq, length_insert|]. split; [by rewrite length_insert|]. split.
  - intros j l Hj. destruct (decide (j = i)) as [->|Hne].
    + rewrite list_lookup_insert_eq in Hj by lia. injection Hj as <-.
      split; [|done].
      replace (pq_get k' (Z.of_nat i)) with (next Q).
      2:{ unfold pq_get. rewrite Hpq, Nat2Z.id, list_lookup_insert_eq; [done|lia]. }
      eapply nchain_frame; [|exact Hrest].
      intros a Ha. rewrite Hprocs, lookup_insert_ne; [done|]. by intros <-.
    + rewrite list_lookup_insert_ne in Hj by done.
      replace (pq_get k' (Z.of_nat j)) with (pq_get k (Z.of_nat j)).
      2:{ unfold pq_get. rewrite Hpq, list_lookup_insert_ne; [done|lia]. }
      split; [|by apply (Hch j)].
      eapply nchain_frame; [|by apply (Hch j)].
      intros a Ha. rewrite Hprocs, lookup_insert_ne; [done|].
      intros <-. by apply (Hqo j l).
  - intros j j' l l' p Hj Hj' Hp Hp'.
    destruct (decide (j = j')) as [|Hjj]; [done|]. exfalso.
    destruct (decide (j = i)) as [->|Hji], (decide (j' = i)) as [->|Hj'i]; [done| | |].
    + rewrite list_lookup_insert_eq in Hj by lia. injection Hj as <-.
      rewrite list_lookup_insert_ne in Hj' by done.
      apply Hjj. symmetry. eapply (Hdisj j' i); [done|done|done|by right].
    + rewrite list_lookup_insert_eq in Hj' by lia. injection Hj' as <-.
      rewrite list_lookup_insert_ne in Hj by done.
      apply Hjj. eapply (Hdisj j i); [done|done|done|by right].
    + rewrite list_lookup_insert_ne in Hj, Hj' by done.
      apply Hjj. by eapply Hdisj.
Qed.

(** The scan from queue [n - 1] downwards. *)
Lemma priority_scan_spec k ls : ∀ n,
  priority_buckets k ls → (n ≤ 5)%nat →
  ((∀ j l, (j < n)%nat → ls !! j = Some l → l = []) →
   priority_scan n k = Ret (None, k))
  ∧
  (∀ i q rest, (i < n)%nat → ls !! i = Some (q :: rest) →
     (∀ j l, (i < j < n)%nat → ls !! j = Some l → l = []) →
     ∃ k' Q,
       priority_scan n k = Ret (Some q, k') ∧
       priority_buckets k' (<[i := rest]> ls) ∧
       procs k !! q = Some Q ∧
       procs k' = <[q := set_next None Q]> (procs k) ∧
       links_only k k').
Proof.
  intros n Hb. induction n as [|n IH]; intros Hn.
  { split; [done|]. intros i q rest Hi. lia. }
  destruct IH as [IHnone IHsome]; [lia|].
  pose proof Hb as (Hlen & Hls & Hch & Hdisj).
  assert (is_Some (ls !! n)) as [ln Hln] by (apply lookup_lt_is_Some; lia).
  destruct (Hch n ln Hln) as [Hc _].
  cbn [priority_scan]. destruct ln as [|q' rest'].
  - (* queue [n] is empty *)
    simpl in Hc. rewrite Hc. split.
    + intros Hempty. apply IHnone. intros j l Hj. apply Hempty. lia.
    + intros i q rest Hi Hq Hempty.
      assert (i ≠ n) by (intros ->; congruence).
      apply IHsome; [lia|done|]. intros j l Hj. apply Hempty. lia.
  - destruct Hc as (Hhd & Q & HQ & Hrest). rewrite Hhd. split.
    + intros Hempty. specialize (Hempty n _ ltac:(lia) Hln). done.
    + intros i q rest Hi Hq Hempty.
      assert (i = n) as ->.
      { destruct (decide (i = n)) as [|Hne]; [done|].
        specialize (Hempty n _ ltac:(lia) Hln). done. }
      assert (q' = q ∧ rest' = rest) as [-> ->] by (split; congruence).
      rewrite (deref_Some _ _ _ HQ), bind_Ret.
      erewrite store_Some by (unfold pq_set; cbn [procs upd_sch set_sch]; exact HQ).
      rewrite bind_Ret. eexists _, Q. split; [reflexivity|].
      split; [|split; [done|split; [done|]]].
      * eapply (priority_buckets_pop k _ ls n q rest Q); try done.
        unfold pq_set.
        cbn [set_procs upd_sch set_sch sch set_priority_queues priority_queues].
        by rewrite Nat2Z.id.
      * split; [by repeat split|]. intros a. cbn [procs set_procs pq_set upd_sch set_sch].
        destruct (decide (a = q)) as [->|Hne].
        -- rewrite lookup_insert_eq, HQ. by destruct Q.
        -- by rewrite lookup_insert_ne.
Qed.

(** X15: under SCHED_PRIORITY, [scheduler_add_process] puts a READY
    process that is not queued on the front of the queue of its priority,
    ahead of the processes of the same priority that were queued before
    it; the other queues are untouched and nothing but a queue head and
    the [next] link of the process is written.  A process whose priority
    is 5 or more is left out of every queue. *)
Theorem scheduler_add_process_priority (fuel : nat) (k : kernel)
    (ls : list (list positive)) (p : positive) (P : process) :
  current_algorithm (sch k) = SCHED_PRIORITY → priority_buckets k ls →
  procs k !! p = Some P → state P = PROCESS_READY → 0 ≤ priority P →
  (∀ j l, ls !! j = Some l → p ∉ l) →
  ∃ k',
    scheduler_add_process fuel (Some p) k = Ret k' ∧
    links_only k k' ∧
    if priority P <? 5
    then priority_buckets k' (alter (p ::.) (Z.to_nat (priority P)) ls)
    else k' = k.
Proof.
  intros Halg Hb HP Hst Hprio Hp. unfold scheduler_add_process.
  rewrite (deref_Some _ _ _ HP), bind_Ret, decide_True, Halg by done.
  cbn [Z.eqb SCHED_PRIORITY SCHED_ROUND_ROBIN Pos.eqb].
  destruct (Z.ltb_spec (priority P) 5) as [Hlt|Hge].
  2:{ exists k. split; [done|]. split; [apply links_only_refl|done]. }
  rewrite (store_Some _ _ _ _ HP), bind_Ret. eexists. split; [reflexivity|]. split.
  - split; [by repeat split|]. intros a.
    cbn [procs set_procs pq_set upd_sch set_sch].
    destruct (decide (a = p)) as [->|Hne].
    + rewrite lookup_insert_eq, HP. by destruct P.
    + by rewrite lookup_insert_ne.
  - eapply (priority_buckets_push k _ ls (Z.to_nat (priority P)) p); try done.
    + lia.
    + cbn [next set_next]. by rewrite Z2Nat.id.
Qed.

Lemma priority_buckets_empty k :
  priority_queues (sch k) = replicate 5 None → priority_buckets k (replicate 5 []).
Proof.
  intros Hpq. split; [by rewrite Hpq|]. split; [done|]. split.
  - intros i l Hi. apply lookup_replicate in Hi as [-> Hi]. split; [|apply NoDup_nil_2].
    simpl. unfold pq_get. rewrite Hpq, Nat2Z.id.
    by rewrite lookup_replicate_2.
  - intros i j l l' p Hi _ Hp. apply lookup_replicate in Hi as [-> _].
    by apply elem_of_nil in Hp.
Qed.

Lemma scheduler_add_process_priority_witness :
  ∃ k',
    scheduler_add_process 0 (Some 2%positive) mixed_priority_kernel = Ret k' ∧
    links_only mixed_priority_kernel k' ∧
    if priority (demo_pcb 2 PRIORITY_HIGH PROCESS_READY) <? 5
    then priority_buckets k'
           (alter (2%positive ::.)
              (Z.to_nat (priority (demo_pcb 2 PRIORITY_HIGH PROCESS_READY)))
              (replicate 5 []))
    else k' = mixed_priority_kernel.
Proof.
  apply (scheduler_add_process_priority 0 mixed_priority_kernel (replicate 5 [])
           2%positive (demo_pcb 2 PRIORITY_HIGH PROCESS_READY)).
  - reflexivity.
  - apply priority_buckets_empty. reflexivity.
  - vm_compute. reflexivity.
  - reflexivity.
  - vm_compute. discriminate.
  - intros j l Hj. apply lookup_replicate in Hj as [-> _]. apply not_elem_of_nil.
Defined.

(** X16: under SCHED_PRIORITY, [scheduler_next] takes the head of the
    highest-numbered queue that is not empty, whatever waits in the lower
    queues, and unlinks it; since [scheduler_add_process] pushes on the
    front, among the processes of one priority the one added last is
    served first.  With all queues empty nobody is returned and nothing
    changes. *)
Theorem scheduler_next_priority (fuel : nat) (k : kernel)
    (ls : list (list positive)) :
  current_algorithm (sch k) = SCHED_PRIORITY → priority_buckets k ls →
  ((∀ j l, ls !! j = Some l → l = []) → scheduler_next fuel k = Ret (None, k))
  ∧
  (∀ i q rest, ls !! i = Some (q :: rest) →
     (∀ j l, (i < j)%nat → ls !! j = Some l → l = []) →
     ∃ k' Q',
       scheduler_next fuel k = Ret (Some q, k') ∧
       priority_buckets k' (<[i := rest]> ls) ∧
       procs k' !! q = Some Q' ∧ next Q' = None ∧
       links_only k k').
Proof.
  intros Halg Hb. unfold scheduler_next. rewrite Halg.
  cbn [Z.eqb SCHED_PRIORITY SCHED_ROUND_ROBIN SCHED_CFS Pos.eqb orb].
  destruct (priority_scan_spec k ls 5 Hb ltac:(lia)) as [Hnone Hsome]. split.
  - intros Hempty. apply Hnone. intros j l _. apply Hempty.
  - intros i q rest Hi Hempty.
    assert (i < 5)%nat as Hi5.
    { apply lookup_lt_Some in Hi. destruct Hb as (_ & Hl & _). lia. }
    destruct (Hsome i q rest Hi5 Hi) as (k' & Q & Hk' & Hb' & HQ & Hprocs & Hl).
    { intros j l Hj. apply Hempty. lia. }
    exists k', (set_next None Q). split; [done|]. split; [done|].
    split; [by rewrite Hprocs, lookup_insert_eq|]. done.
Qed.

(** [priority_buckets] of a concrete state by evaluation. *)
Ltac solve_nchain :=
  simpl;
  repeat (split; [vm_compute; reflexivity|]; eexists; split; [vm_compute; reflexivity|]);
  vm_compute; reflexivity.

Ltac solve_priority_buckets :=
  split; [reflexivity|]; split; [reflexivity|]; split;
  [ let i := fresh "i" in let l := fresh "l" in let H := fresh "Hslot" in
    intros i l H;
    destruct i as [|[|[|[|[|i]]]]]; simpl in H; try discriminate H;
    injection H as <-; (split; [solve_nchain|solve_NoDup])
  | let i := fresh "i" in let j := fresh "j" in
    let l := fresh "l" in let l' := fresh "l'" in let p := fresh "p" in
    let Hi := fresh "Hi" in let Hj := fresh "Hj" in
    let Hp := fresh "Hp" in let Hp' := fresh "Hp'" in
    intros i j l l' p Hi Hj Hp Hp';
    destruct i as [|[|[|[|[|i]]]]]; simpl in Hi; try discriminate Hi;
    injection Hi as <-;
    destruct j as [|[|[|[|[|j]]]]]; simpl in Hj; try discriminate Hj;
    injection Hj as <-;
    try reflexivity; exfalso;
    repeat (apply elem_of_cons in Hp as [Hp|Hp];
            [subst p;
             repeat (apply elem_of_cons in Hp' as [Hp'|Hp']; [discriminate Hp'|]);
             by apply elem_of_nil in Hp'|]);
    by apply elem_of_nil in Hp ].

Lemma scheduler_next_priority_witness :
  ∃ k' Q',
    scheduler_next 0 mixed_priority_queued = Ret (Some 3%positive, k') ∧
    priority_buckets k'
      (<[3%nat := [2%positive]]> [[]; [1%positive]; []; [3%positive; 2%positive]; []]) ∧
    procs k' !! 3%positive = Some Q' ∧ next Q' = None ∧
    links_only mixed_priority_queued k'.
Proof.
  refine (proj2 (scheduler_next_priority 0 mixed_priority_queued
                   [[]; [1%positive]; []; [3%positive; 2%positive]; []] _ _)
            3%nat 3%positive [2%positive] _ _).
  - reflexivity.
  - solve_priority_buckets.
  - reflexivity.
  - intros j l Hj Hl. destruct j as [|[|[|[|[|j]]]]]; try lia; simpl in Hl.
    + by injection Hl.
    + discriminate Hl.
Defined.

(** In the state of the witness the process served is 3, the high-priority
    process that was added last. *)
Example scheduler_next_priority_lifo :
  (scheduler_next 0 mixed_priority_queued ≫= λ r, Ret r.1) = Ret (Some 3%positive).
Proof. vm_compute. reflexivity. Qed.

(** ** Insertion by CPU time under the fair algorithm (scheduler.c) *)

(** Linking [p] between [l1] and [l2]. *)
Lemma dll_insert k k' p P' l1 : ∀ pv l2,
  dll k pv (l1 ++ l2) → NoDup (l1 ++ l2) → p ∉ l1 ++ l2 →
  procs k' !! p = Some P' → prev P' = link_before pv l1 → next P' = head l2 →
  (∀ a, a ∈ l1 ++ l2 → last l1 ≠ Some a → head l2 ≠ Some a →
        procs k' !! a = procs k !! a) →
  (∀ q, last l1 = Some q → procs k' !! q = (set_next (Some p) <$> (procs k !! q))) →
  (∀ n, head l2 = Some n → procs k' !! n = (set_prev (Some p) <$> (procs k !! n))) →
  dll k' pv (l1 ++ p :: l2).
Proof.
  induction l1 as [|a l1 IH]; intros pv l2 Hdll Hnd Hp HP' Hpv Hnx Hframe Hq Hn.
  - simpl in *. exists P'. split; [done|]. split; [done|]. split; [done|].
    destruct l2 as [|n l2]; [done|].
    destruct Hdll as (N & HN & HpvN & HnxN & Hrest).
    apply NoDup_cons in Hnd as [Hn2 Hnd].
    exists (set_prev (Some p) N). rewrite (Hn n eq_refl), HN.
    repeat split; try done.
    eapply dll_frame; [|exact Hrest].
    intros x Hx. apply Hframe; [by right|done|]. simpl. intros [= ->]. done.
  - simpl in Hdll, Hnd. destruct Hdll as (A & HA & HpvA & HnxA & Hrest).
    apply NoDup_cons in Hnd as [Ha Hnd].
    assert ((a ∉ l1) ∧ (a ∉ l2)) as (Ha1 & Ha2).
    { rewrite elem_of_app in Ha. tauto. }
    assert (p ≠ a ∧ (p ∉ l1 ++ l2)) as (Hpa & Hp').
    { change ((a :: l1) ++ l2) with (a :: (l1 ++ l2)) in Hp.
      by apply not_elem_of_cons in Hp. }
    rewrite link_before_cons in Hpv.
    change ((a :: l1) ++ p :: l2) with (a :: (l1 ++ p :: l2)).
    destruct l1 as [|b l1].
    + (* [a] is the predecessor of [p] *)
      simpl. exists (set_next (Some p) A). rewrite (Hq a eq_refl), HA.
      split; [done|]. split; [done|]. split; [done|].
      apply (IH (Some a) l2); try done.
      intros x Hx Hl Hh. apply Hframe; [by right| |done].
      simpl. intros [= ->]. done.
    + assert (last (a :: b :: l1) = last (b :: l1)) as Hlast by done.
      assert (procs k' !! a = Some A) as HA'.
      { rewrite Hframe; [done|by left| |].
        - rewrite Hlast. intros Hl. apply last_Some_elem_of in Hl. done.
        - intros Hh. destruct l2; [done|]. injection Hh as ->. apply Ha2. by left. }
      simpl. exists A. split; [done|]. split; [done|]. split; [done|].
      apply (IH (Some a) l2); try done.
      intros x Hx Hl Hh. apply Hframe; [by right|by rewrite Hlast|done].
Qed.

Lemma cfs_walk_eq fuel k t cur :
  cfs_walk fuel k t cur =
  match fuel with
  | O => Diverge
  | S fuel' =>
      C ← deref k cur;
      match next C with
      | None => Ret cur
      | Some n =>
          N ← deref k n;
          if cpu_time N <? t then cfs_walk fuel' k t n else Ret cur
      end
  end.
Proof. destruct fuel; reflexivity. Qed.

(** The insertion point: the walk from [cur] passes the successors whose
    CPU time is below [t] and stops before the first that is not. *)
Lemma cfs_walk_spec k t : ∀ rest fuel pv cur,
  dll k pv (cur :: rest) → (length rest < fuel)%nat →
  ∃ m1 m2 c,
    rest = m1 ++ m2 ∧ cfs_walk fuel k t cur = Ret c ∧
    last (cur :: m1) = Some c ∧
    (∀ a A, a ∈ m1 → procs k !! a = Some A → cpu_time A < t) ∧
    (∀ n N, head m2 = Some n → procs k !! n = Some N → t ≤ cpu_time N).
Proof.
  induction rest as [|n rest IH]; intros fuel pv cur Hdll Hfuel;
    rewrite cfs_walk_eq; (destruct fuel as [|fuel]; [simpl in Hfuel; lia|]);
    destruct Hdll as (C & HC & _ & Hnx & Hrest);
    rewrite (deref_Some _ _ _ HC), bind_Ret, Hnx; cbn [head].
  - exists [], [], cur. repeat split; try done.
    intros a A Ha. by apply elem_of_nil in Ha.
  - pose proof Hrest as (N & HN & _ & _ & _).
    rewrite (deref_Some _ _ _ HN), bind_Ret.
    destruct (Z.ltb_spec (cpu_time N) t) as [Hlt|Hge].
    + destruct (IH fuel (Some cur) n Hrest) as (m1 & m2 & c & -> & Hw & Hl & H1 & H2).
      { simpl in Hfuel. lia. }
      exists (n :: m1), m2, c. split; [done|]. split; [done|]. split; [done|]. split; [|done].
      intros a A [->|Ha]%elem_of_cons HA; [|by eapply H1].
      assert (A = N) as -> by congruence. done.
    + exists [], (n :: rest), cur. split; [done|]. split; [done|]. split; [done|]. split.
      * intros a A Ha. by apply elem_of_nil in Ha.
      * intros n' N' [= <-] HN'. assert (N' = N) as -> by congruence. done.
Qed.

(** Under SCHED_CFS, [scheduler_add_process] links a READY process that
    is not queued into the ready queue just before the first queued
    process whose CPU time is not below its own (at the tail when there is
    none). *)
Lemma scheduler_add_process_cfs_place (fuel : nat) (k : kernel) (l : list positive)
    (p : positive) (P : process) :
  current_algorithm (sch k) = SCHED_CFS → ready_queue k l → p ∉ l →
  procs k !! p = Some P → state P = PROCESS_READY → (length l ≤ fuel)%nat →
  ∃ k' l1 l2,
    l = l1 ++ l2 ∧
    scheduler_add_process fuel (Some p) k = Ret k' ∧
    ready_queue k' (l1 ++ p :: l2) ∧
    (∀ a A, a ∈ l1 → procs k !! a = Some A → cpu_time A < cpu_time P) ∧
    (∀ n N, head l2 = Some n → procs k !! n = Some N → cpu_time P ≤ cpu_time N) ∧
    links_only k k'.
Proof.
  intros Halg Hq Hpl HP Hst Hfuel.
  assert (∃ k' l1 l2,
            l = l1 ++ l2 ∧
            scheduler_add_process fuel (Some p) k = Ret k' ∧
            ready_queue k' (l1 ++ p :: l2) ∧
            (∀ a A, a ∈ l1 → procs k !! a = Some A → cpu_time A < cpu_time P) ∧
            (∀ n N, head l2 = Some n → procs k !! n = Some N → cpu_time P ≤ cpu_time N))
    as (k' & l1 & l2 & Hl & Hk' & Hq' & H1 & H2).
  2:{ exists k', l1, l2. do 5 (split; [done|]).
      by eapply scheduler_add_process_links. }
  destruct Hq as (Hhead & Htail & Hnd & Hdll).
  unfold scheduler_add_process.
  rewrite (deref_Some _ _ _ HP), bind_Ret, decide_True, Halg by done.
  cbn [Z.eqb SCHED_CFS SCHED_ROUND_ROBIN SCHED_PRIORITY Pos.eqb].
  rewrite Hhead. destruct l as [|h rest].
  - (* empty queue *)
    cbn [head]. rewrite bind_Ret.
    eexists _, [], []. split; [done|]. split.
    { rewrite (store_Some _ _ _ _ HP), bind_Ret.
      cbn [sch set_procs]. rewrite Hhead. cbn [head]. rewrite bind_Ret.
      erewrite store_Some by (lookup_solve). rewrite bind_Ret.
      cbn [sch upd_sch set_sch set_procs ready_queue_tail set_ready_queue_head].
      rewrite Htail. cbn [last]. reflexivity. }
    split.
    + unfold ready_queue. sch_simpl. rewrite insert_insert_eq.
      split; [done|]. split; [done|]. split; [apply NoDup_singleton|].
      simpl. eexists. split; [apply lookup_insert_eq|]. done.
    + split; [intros a A Ha; by apply elem_of_nil in Ha|]. intros n N [=].
  - cbn [head]. pose proof Hdll as (H & HH & HpvH & HnxH & Hrest).
    apply not_elem_of_cons in Hpl as [Hph Hprest].
    rewrite (deref_Some _ _ _ HH), bind_Ret.
    assert (is_Some (last (h :: rest))) as [t Ht].
    { destruct (last (h :: rest)) eqn:E; [by eexists|by apply last_None in E]. }
    destruct (Z.leb_spec (cpu_time P) (cpu_time H)) as [Hle|Hgt].
    + (* in front of the head *)
      eexists _, [], (h :: rest). split; [done|]. split.
      { rewrite bind_Ret, (store_Some _ _ _ _ HP), bind_Ret.
        cbn [sch set_procs]. rewrite Hhead. cbn [head].
        erewrite store_Some by (lookup_solve; exact HH). rewrite bind_Ret.
        erewrite store_Some by (lookup_solve). rewrite bind_Ret.
        cbn [sch upd_sch set_sch set_procs ready_queue_tail set_ready_queue_head].
        rewrite Htail, Ht. reflexivity. }
      split.
      * unfold ready_queue. sch_simpl.
        split; [done|].
        split; [rewrite Htail, Ht; cbn [app]; by rewrite (last_cons p), Ht|].
        split; [apply NoDup_cons; split; [by apply not_elem_of_cons|done]|].
        eapply (dll_insert k _ p (set_prev None (set_next (Some h) P)) []
                  None (h :: rest)); try done.
        -- by apply not_elem_of_cons.
        -- lookup_solve.
        -- intros a Ha _ Hha. assert (a ≠ h) by (intros ->; done).
           assert (a ≠ p) by (intros ->; by apply (not_elem_of_cons rest p h)).
           lookup_solve.
        -- intros n [= <-]. lookup_solve. by rewrite HH.
      * split; [intros a A Ha; by apply elem_of_nil in Ha|].
        intros n N [= <-] HN. assert (N = H) as -> by congruence. done.
    + (* behind the head: search for the place *)
      destruct (cfs_walk_spec k (cpu_time P) rest fuel None h Hdll)
        as (m1 & m2 & c & -> & Hw & Hlast & Hlt & Hge).
      { simpl in Hfuel. lia. }
      apply last_Some in Hlast as [l' Hl'].
      assert (dll k None (l' ++ c :: m2)) as Hdll'.
      { replace (l' ++ c :: m2) with ((l' ++ [c]) ++ m2) by (by rewrite <- app_assoc).
        by rewrite <- Hl'. }
      destruct (dll_middle k l' None c m2 Hdll') as (C & HC & _ & HnxC).
      assert (c ∈ h :: m1) as Hcin.
      { rewrite Hl'. apply elem_of_app. right. left. }
      assert (c ≠ p) as Hcp.
      { intros ->. apply (not_elem_of_cons (m1 ++ m2) p h); [done|].
        change (p ∈ (h :: m1) ++ m2). apply elem_of_app. by left. }
      assert (last (h :: m1) = Some c) as Hlast by (rewrite Hl'; apply last_snoc).
      assert (p ∉ (h :: m1) ++ m2) as Hpl by (by apply not_elem_of_cons).
      assert (NoDup ((h :: m1) ++ p :: m2)) as Hnd'.
      { change (h :: m1 ++ m2) with ((h :: m1) ++ m2) in Hnd.
        apply NoDup_app in Hnd as (Hn1 & Hn12 & Hn2).
        apply not_elem_of_app in Hpl as [Hp1 Hp2].
        apply NoDup_app. split; [done|]. split.
        - intros x Hx [->|Hx2]%elem_of_cons; [done|]. by apply (Hn12 x).
        - by apply NoDup_cons. }
      assert (ready_queue_head (sch k) = head ((h :: m1) ++ p :: m2)) as Hhead' by done.
      assert (∀ a A, a ∈ h :: m1 → procs k !! a = Some A → cpu_time A < cpu_time P)
        as Hl1.
      { intros a A [->|Ha]%elem_of_cons HA; [|by eapply Hlt].
        assert (A = H) as -> by congruence. done. }
      destruct m2 as [|n m2].
      * (* at the tail *)
        eexists _, (h :: m1), []. split; [done|]. split.
        { rewrite bind_Ret, Hw, bind_Ret, (deref_Some _ _ _ HC), bind_Ret, HnxC.
          rewrite (store_Some _ _ _ _ HP), bind_Ret.
          erewrite store_Some by (lookup_solve). rewrite bind_Ret.
          erewrite deref_Some by (lookup_solve; exact HC). rewrite bind_Ret, HnxC.
          cbn [head]. rewrite bind_Ret.
          erewrite store_Some by (lookup_solve; exact HC). reflexivity. }
        split; [|split; [done|intros n N [=]]].
        unfold ready_queue. sch_simpl. rewrite insert_insert_eq.
        split; [done|]. split; [by rewrite last_snoc|]. split; [done|].
        eapply (dll_insert k _ p (set_prev (Some c) (set_next None P)) (h :: m1)
                  None []); try done.
        -- lookup_solve.
        -- cbn [prev set_prev]. unfold link_before. by rewrite Hlast.
        -- intros a Ha Hla _. assert (a ≠ c) by congruence.
           assert (a ≠ p) by (intros ->; done). lookup_solve.
        -- intros q Hq. assert (q = c) as -> by congruence.
           lookup_solve. by rewrite HC.
      * assert (n ∈ (h :: m1) ++ n :: m2) as Hnin by (apply elem_of_app; right; left).
        assert (n ≠ p) as Hnp by (intros ->; done).
        assert (n ≠ c) as Hnc.
        { intros ->. change (h :: m1 ++ c :: m2) with ((h :: m1) ++ c :: m2) in Hnd.
          apply NoDup_app in Hnd as (_ & Hn12 & _). apply (Hn12 c Hcin). left. }
        destruct (dll_lookup k None _ n Hdll Hnin) as [N HN].
        eexists _, (h :: m1), (n :: m2). split; [done|].
        split.
        { rewrite bind_Ret, Hw, bind_Ret, (deref_Some _ _ _ HC), bind_Ret, HnxC.
          rewrite (store_Some _ _ _ _ HP), bind_Ret.
          erewrite store_Some by (lookup_solve). rewrite bind_Ret.
          erewrite deref_Some by (lookup_solve; exact HC). rewrite bind_Ret, HnxC.
          cbn [head].
          erewrite store_Some by (lookup_solve; exact HN). rewrite bind_Ret.
          erewrite store_Some by (lookup_solve; exact HC). reflexivity. }
        split; [|done].
        unfold ready_queue. sch_simpl. rewrite insert_insert_eq.
        split; [done|]. split.
        { rewrite Htail. symmetry. by apply (last_app_cons_cons (h :: m1) (n :: m2) p). }
        split; [done|].
        eapply (dll_insert k _ p (set_prev (Some c) (set_next (Some n) P)) (h :: m1)
                  None (n :: m2)); try done.
        -- lookup_solve.
        -- cbn [prev set_prev]. unfold link_before. by rewrite Hlast.
        -- intros a Ha Hla Hha. assert (a ≠ c) by congruence.
           assert (a ≠ n) by (simpl in Hha; congruence).
           assert (a ≠ p) by (intros ->; done). lookup_solve.
        -- intros q Hq. assert (q = c) as -> by congruence.
           lookup_solve. by rewrite HC.
        -- intros n' [= <-]. lookup_solve. by rewrite HN.
Qed.

Lemma StronglySorted_weaken {A : Type} (R R' : A → A → Prop) (l : list A) :
  (∀ a b, R a b → R' a b) → Sorted.StronglySorted R l → Sorted.StronglySorted R' l.
Proof.
  intros HR. induction l as [|x l IH]; intros Hs; [constructor|].
  apply sorting.StronglySorted_cons in Hs as [Hx Hs].
  apply sorting.StronglySorted_cons. split; [|by apply IH].
  eapply Forall_impl; [exact Hx|]. intros y. apply HR.
Qed.

(** X17: under SCHED_CFS, [scheduler_add_process] links a READY process
    that is not queued into the ready queue just before the first queued
    process whose CPU time is not below its own (at the tail when there is
    none): everything in front of it has used strictly less CPU time, and
    its successor at least as much.  The order of the others is kept,
    only queue links are written, and a queue that was in ascending order
    of CPU time still is.  The search needs one loop iteration per queued
    process at most. *)
Theorem scheduler_add_process_cfs (fuel : nat) (k : kernel) (l : list positive)
    (p : positive) (P : process) :
  current_algorithm (sch k) = SCHED_CFS → ready_queue k l → p ∉ l →
  procs k !! p = Some P → state P = PROCESS_READY → (length l ≤ fuel)%nat →
  ∃ k' l1 l2,
    l = l1 ++ l2 ∧
    scheduler_add_process fuel (Some p) k = Ret k' ∧
    ready_queue k' (l1 ++ p :: l2) ∧
    (∀ a, a ∈ l1 → cpu_of k a < cpu_time P) ∧
    (∀ n, head l2 = Some n → cpu_time P ≤ cpu_of k n) ∧
    links_only k k' ∧
    (by_cpu_time k l → by_cpu_time k' (l1 ++ p :: l2)).
Proof.
  intros Halg Hq Hpl HP Hst Hfuel.
  destruct (scheduler_add_process_cfs_place fuel k l p P Halg Hq Hpl HP Hst Hfuel)
    as (k' & l1 & l2 & -> & Hk' & Hq' & H1 & H2 & Hl).
  assert (∀ a, a ∈ l1 ++ l2 → ∃ A, procs k !! a = Some A ∧ cpu_of k a = cpu_time A)
    as Hheap.
  { intros a Ha. destruct Hq as (_ & _ & _ & Hd).
    destruct (dll_lookup k None _ a Hd Ha) as [A HA]. exists A. split; [done|].
    unfold cpu_of. by rewrite HA. }
  assert (∀ a, a ∈ l1 → cpu_of k a < cpu_time P) as H1'.
  { intros a Ha. destruct (Hheap a) as (A & HA & ->); [apply elem_of_app; by left|].
    by apply (H1 a). }
  assert (∀ n, head l2 = Some n → cpu_time P ≤ cpu_of k n) as H2'.
  { intros n Hn. destruct (Hheap n) as (N & HN & ->).
    - apply elem_of_app. right. destruct l2; [done|]. injection Hn as ->. left.
    - by apply (H2 n). }
  exists k', l1, l2. do 6 (split; [done|]).
  assert (∀ a, cpu_of k' a = cpu_of k a) as Hcpu.
  { intros a. unfold cpu_of. f_equal. apply links_only_field; [by intros []|done]. }
  assert (cpu_of k p = cpu_time P) as Hp by (unfold cpu_of; by rewrite HP).
  unfold by_cpu_time. intros Hs.
  apply (StronglySorted_weaken (λ a b, cpu_of k a ≤ cpu_of k b));
    [intros a b Hab; by rewrite !Hcpu|].
  apply sorting.StronglySorted_app in Hs as (H12 & Hs1 & Hs2).
  apply sorting.StronglySorted_app. split; [|split; [done|]].
  - intros x1 x2 Hx1 [->|Hx2]%elem_of_cons; [|by apply H12].
    specialize (H1' x1 Hx1). lia.
  - apply sorting.StronglySorted_cons. split; [|done].
    destruct l2 as [|n l2]; [done|].
    apply sorting.StronglySorted_cons in Hs2 as [Hn _].
    specialize (H2' n eq_refl). apply Forall_cons. split; [lia|].
    eapply Forall_impl; [exact Hn|]. intros x Hx. simpl in Hx. lia.
Qed.

Lemma scheduler_add_process_cfs_witness :
  ∃ k' l1 l2,
    [1%positive; 2%positive] = l1 ++ l2 ∧
    scheduler_add_process 2 (Some 3%positive) fair_queued = Ret k' ∧
    ready_queue k' (l1 ++ 3%positive :: l2) ∧
    (∀ a, a ∈ l1 → cpu_of fair_queued a < cpu_time (cpu_pcb 3 10)) ∧
    (∀ n, head l2 = Some n → cpu_time (cpu_pcb 3 10) ≤ cpu_of fair_queued n) ∧
    links_only fair_queued k' ∧
    (by_cpu_time fair_queued [1%positive; 2%positive] →
     by_cpu_time k' (l1 ++ 3%positive :: l2)).
Proof.
  apply (scheduler_add_process_cfs 2 fair_queued [1%positive; 2%positive]
           3%positive (cpu_pcb 3 10)).
  - reflexivity.
  - solve_ready_queue.
  - solve_not_elem_of.
  - vm_compute. reflexivity.
  - reflexivity.
  - simpl. lia.
Defined.

(** In the state of the witness process 3 (10 ticks) goes between
    process 1 (5 ticks) and process 2 (20 ticks). *)
Example scheduler_add_process_cfs_order :
  (scheduler_add_process 2 (Some 3%positive) fair_queued
   ≫= λ k, Ret (ready_queue_head (sch k),
               next <$> (procs k !! 1%positive),
               next <$> (procs k !! 3%positive),
               ready_queue_tail (sch k))) =
  Ret (Some 1%positive, Some (Some 3%positive), Some (Some 2%positive), Some 2%positive).
Proof. vm_compute. reflexivity. Qed.

(** ** The mailbox as a queue (ipc.c) *)

Lemma mchain_frame k k' start l :
  (∀ a, a ∈ l → msgs k' !! a = msgs k !! a) → mchain k start l → mchain k' start l.
Proof.
  revert start. induction l as [|m l IH]; intros start Hsame; [done|].
  simpl. intros (-> & M & HM & Hrest). split; [done|].
  exists M. rewrite Hsame by left. split; [done|].
  apply IH; [|done]. intros a Ha. apply Hsame. by right.
Qed.

Lemma mchain_lookup k start l a : mchain k start l → a ∈ l → is_Some (msgs k !! a).
Proof.
  revert start. induction l as [|m l IH]; intros start Hc Ha.
  - by apply elem_of_nil in Ha.
  - destruct Hc as (_ & M & HM & Hrest).
    apply elem_of_cons in Ha as [->|Ha]; [by exists M|by eapply IH].
Qed.

(** Linking a new message behind the last one. *)
Lemma mchain_snoc k k' m M l : ∀ start,
  mchain k start l → NoDup l → m ∉ l →
  msgs k' !! m = Some M → msg_next M = None →
  (∀ x, x ∈ l → last l ≠ Some x → msgs k' !! x = msgs k !! x) →
  (∀ t, last l = Some t → msgs k' !! t = (set_msg_next (Some m) <$> (msgs k !! t))) →
  mchain k' (match l with [] => Some m | _ => start end) (l ++ [m]).
Proof.
  induction l as [|a l IH]; intros start Hc Hnd Hm HM Hnx Hframe Hlast.
  - simpl. split; [done|]. exists M. by rewrite Hnx.
  - destruct Hc as (-> & A & HA & Hrest).
    apply NoDup_cons in Hnd as [Ha Hnd]. apply not_elem_of_cons in Hm as [Hma Hm].
    change ((a :: l) ++ [m]) with (a :: (l ++ [m])).
    destruct l as [|b l].
    + simpl in *. split; [done|]. exists (set_msg_next (Some m) A).
      rewrite (Hlast a eq_refl), HA. split; [done|]. cbn.
      split; [done|]. exists M. by rewrite Hnx.
    + split; [done|]. exists A. split.
      * rewrite Hframe; [done|by left|].
        change (last (a :: b :: l)) with (last (b :: l)).
        intros Hl. apply last_Some_elem_of in Hl. done.
      * apply (IH (msg_next A)); try done.
        intros x Hx Hl. apply Hframe; [by right|done].
Qed.


Lemma wrap32_succ n : wrap32 (wrap32 n + 1) = wrap32 (n + 1).
Proof. unfold wrap32. by rewrite Zplus_mod_idemp_l. Qed.

Lemma wrap32_pred n : wrap32 (wrap32 (n + 1) - 1) = wrap32 n.
Proof.
  unfold wrap32. rewrite Zminus_mod_idemp_l. f_equal. lia.
Qed.

(** The part of [ipc_send_message] up to the wake-up of the destination:
    the state [k4] reached there has the message at the end of the
    mailbox, and only the mailbox pointer of the destination differs from
    the PCBs of [k]. *)
Lemma ipc_send_message_enqueues fuel env dest_pid data size k dest sender Sp D m l :
  size ≤ 256 →
  process_get_by_pid dest_pid k = Some dest →
  process_get_current k = Some sender → procs k !! sender = Some Sp →
  kmalloc_msg env = Some m → msgs k !! m = None →
  procs k !! dest = Some D →
  (message_queue_of D = None → kmalloc_queue env = true) →
  mailbox k dest l →
  ∃ k4 q,
    ipc_send_message fuel env dest_pid data size k =
      (k ← (if decide (state D = PROCESS_BLOCKED) then
              k ← store dest (set_state PROCESS_READY) k4;
              scheduler_add_process fuel (Some dest) k
            else Ret k4);
       Ret (0, k)) ∧
    procs k4 = <[dest := set_message_queue (Some q) D]> (procs k) ∧
    mailbox k4 dest (l ++ [m]) ∧
    msgs k4 !! m = Some (mk_ipc_message (pid Sp) (wrap32 size)
                           (memory_copy (msg_block_bytes env) data size) None) ∧
    (∀ x, x ≠ m → last l ≠ Some x → msgs k4 !! x = msgs k !! x) ∧
    sch k4 = sch k ∧ pm k4 = pm k ∧
    mem_log k4 = mem_log k ++ [Ev_kmalloc m].
Proof.
  intros Hsize Hdest Hcur HSp Hm Hfresh HD Hkq (D' & HD' & Hbox).
  assert (D' = D) as -> by congruence. clear HD'.
  set (M := mk_ipc_message (pid Sp) (wrap32 size)
              (memory_copy (msg_block_bytes env) data size) None).
  set (k1 := log_event (Ev_kmalloc m) (set_msgs (<[m := M]> (msgs k)) k)).
  assert (m ∉ l) as Hml.
  { intros Hin. destruct (message_queue_of D) as [q|]; [|by subst l; apply elem_of_nil in Hin].
    destruct Hbox as (_ & _ & _ & _ & Hc).
    destruct (mchain_lookup k _ l m Hc Hin) as [? ?]. congruence. }
  assert (∃ k2 q,
            match message_queue_of D with
            | Some _ => Ret (Some k1)
            | None =>
                if kmalloc_queue env then
                  k ← store dest (set_message_queue
                                    (Some (mk_message_queue None None 0))) k1;
                  Ret (Some k)
                else Ret None
            end = Ret (Some k2) ∧
            procs k2 !! dest = Some (set_message_queue (Some q) D) ∧
            mq_head q = head l ∧ mq_tail q = last l ∧
            mq_count q = wrap32 (Z.of_nat (length l)) ∧ NoDup l ∧
            mchain k (mq_head q) l ∧
            msgs k2 = msgs k1 ∧ sch k2 = sch k ∧ pm k2 = pm k ∧
            mem_log k2 = mem_log k1 ∧
            <[dest := set_message_queue (Some q) D]> (procs k2) =
              <[dest := set_message_queue (Some q) D]> (procs k))
    as (k2 & q & Hstep & HD2 & Hqh & Hqt & Hqc & Hnd & Hc & Hm2 & Hs2 & Hp2 & Hl2 & Ho2).
  { destruct (message_queue_of D) as [q|] eqn:Eq.
    - destruct Hbox as (? & ? & ? & ? & ?). exists k1, q.
      split; [done|]. split; [|by repeat split].
      subst k1. cbn [procs log_event set_msgs]. rewrite HD. f_equal.
      clear -Eq. destruct D. cbn in Eq. by subst.
    - subst l. rewrite Hkq by done.
      rewrite (store_Some k1 dest _ D HD), bind_Ret.
      eexists _, _. split; [reflexivity|].
      cbn [procs set_procs]. rewrite lookup_insert_eq.
      split; [done|].
      do 3 (split; [done|]). split; [apply NoDup_nil_2|]. split; [done|].
      do 4 (split; [done|]). by rewrite insert_insert_eq. }
  set (D2 := set_message_queue (Some q) D) in *.
  assert (message_queue_of D2 = Some q) as Hq by by destruct D.
  unfold ipc_send_message.
  destruct (Z.ltb_spec 256 size); [lia|]. rewrite Hdest, Hcur.
  rewrite (deref_Some _ _ _ HSp), bind_Ret, Hm. fold M k1.
  rewrite (deref_Some k1 dest D HD), bind_Ret.
  rewrite Hstep, bind_Ret.
  rewrite (deref_Some _ _ _ HD2), bind_Ret, Hq.
  assert (∃ k3,
            match mq_tail q with
            | Some t =>
                T ← deref_msg k2 t;
                Ret (set_msgs (<[t := set_msg_next (Some m) T]> (msgs k2)) k2)
            | None => Ret k2
            end = Ret k3 ∧
            procs k3 = procs k2 ∧ sch k3 = sch k ∧ pm k3 = pm k ∧
            mem_log k3 = mem_log k1 ∧
            msgs k3 !! m = Some M ∧
            (∀ x, x ≠ m → last l ≠ Some x → msgs k3 !! x = msgs k !! x) ∧
            (∀ t, last l = Some t →
                  msgs k3 !! t = (set_msg_next (Some m) <$> (msgs k !! t))))
    as (k3 & Hstep3 & Hp3 & Hs3 & Hpm3 & Hl3 & Hm3 & Hfr3 & Hla3).
  { rewrite Hqt. destruct (last l) as [t|] eqn:El.
    - assert (t ∈ l) as Ht by by apply last_Some_elem_of.
      assert (t ≠ m) as Htm by (intros ->; done).
      destruct (mchain_lookup k _ l t Hc Ht) as [T HT].
      unfold deref_msg. rewrite Hm2. subst k1. cbn [msgs set_msgs log_event].
      rewrite lookup_insert_ne by done. rewrite HT, bind_Ret.
      eexists. split; [reflexivity|]. cbn [procs sch pm mem_log msgs set_msgs].
      do 4 (split; [done|]).
      split; [by rewrite lookup_insert_ne, lookup_insert_eq by done|].
      split.
      + intros x Hx Hl. rewrite !lookup_insert_ne by congruence. done.
      + intros t' [= <-]. by rewrite lookup_insert_eq, HT.
    - exists k2. split; [done|]. do 4 (split; [done|]).
      rewrite Hm2. subst k1. cbn [msgs set_msgs log_event].
      split; [by rewrite lookup_insert_eq|]. split; [|done].
      intros x Hx _. by rewrite lookup_insert_ne. }
  rewrite Hstep3, bind_Ret.
  assert (procs k3 !! dest = Some D2) as HD3 by by rewrite Hp3.
  rewrite (store_Some _ _ _ _ HD3), bind_Ret.
  set (q' := mk_message_queue
               (match mq_tail q with Some _ => mq_head q | None => Some m end)
               (Some m) (wrap32 (mq_count q + 1))).
  assert (set_message_queue (Some q') D2 = set_message_queue (Some q') D) as HD4
    by by destruct D.
  rewrite HD4.
  match goal with |- context [deref ?kk dest] =>
    rewrite (deref_Some kk dest (set_message_queue (Some q') D))
      by (cbn [procs set_procs]; apply lookup_insert_eq)
  end.
  rewrite bind_Ret.
  replace (state (set_message_queue (Some q') D)) with (state D) by by destruct D.
  eexists _, q'. split; [reflexivity|].
  cbn [procs set_procs msgs sch pm mem_log].
  split.
  { rewrite Hp3.
    rewrite <- (insert_insert_eq (procs k2) dest (set_message_queue (Some q') D) D2).
    by rewrite Ho2, insert_insert_eq. }
  split.
  { eexists. split; [apply lookup_insert_eq|].
    replace (message_queue_of (set_message_queue _ D)) with (Some q') by by destruct D.
    cbn [mq_head mq_tail mq_count q'].
    split; [|split; [by rewrite last_snoc|split; [|split]]].
    - rewrite Hqt, Hqh. destruct l as [|a l]; [done|].
      destruct (last (a :: l)) eqn:E; [done|]. by apply last_None in E.
    - rewrite Hqc, wrap32_succ, length_app. cbn [length]. f_equal. lia.
    - apply NoDup_app. split; [done|]. split; [|apply NoDup_singleton].
      intros x Hx Hxm. apply list_elem_of_singleton in Hxm. by subst x.
    - assert (match mq_tail q with Some _ => mq_head q | None => Some m end
              = match l with [] => Some m | _ => mq_head q end) as ->.
      { rewrite Hqt. destruct l as [|a l]; [done|].
        destruct (last (a :: l)) eqn:E; [done|].
        by apply last_None in E. }
      apply (mchain_snoc k _ m M l (mq_head q)); try done.
      intros x Hx Hl. apply Hfr3; [|done]. by intros ->. }
  split; [done|]. split; [done|]. split; [done|]. split; [done|].
  rewrite Hl3. by subst k1.
Qed.

Lemma mailbox_kept k k' a l : mailboxes_kept k k' → mailbox k a l → mailbox k' a l.
Proof.
  intros [Hm Hp] (P & HP & Hbox). destruct (Hp a P HP) as (P' & HP' & Hq).
  exists P'. split; [done|]. rewrite Hq.
  destruct (message_queue_of P) as [q|]; [|done].
  destruct Hbox as (? & ? & ? & ? & Hc). do 4 (split; [done|]).
  apply (mchain_frame k); [|done]. intros x _. by rewrite Hm.
Qed.

(** X18: a successful [ipc_send_message] appends the message to the
    mailbox of the destination: the messages already there keep their
    order, the new one comes last, and the count grows by one.  The
    message records the pid of the sender, the size, and the payload
    copied over the first bytes of the freshly allocated block.  A mailbox
    that was not allocated yet is allocated on the way (this allocation
    has to succeed).  No other PCB and no other message is written, and a
    destination that is not BLOCKED does not involve the scheduler. *)
Theorem ipc_send_message_appends (fuel : nat) (env : ipc_outcomes) (dest_pid : Z)
    (data : list Byte.byte) (size : Z) (k : kernel) (dest sender : positive)
    (Sp : process) (m : positive) (l : list positive) :
  size ≤ 256 →
  process_get_by_pid dest_pid k = Some dest →
  process_get_current k = Some sender → procs k !! sender = Some Sp →
  kmalloc_msg env = Some m → msgs k !! m = None →
  ((message_queue_of <$> (procs k !! dest)) = Some None → kmalloc_queue env = true) →
  mailbox k dest l →
  (state <$> (procs k !! dest)) ≠ Some PROCESS_BLOCKED →
  ∃ k',
    ipc_send_message fuel env dest_pid data size k = Ret (0, k') ∧
    mailbox k' dest (l ++ [m]) ∧
    msgs k' !! m = Some (mk_ipc_message (pid Sp) (wrap32 size)
                           (memory_copy (msg_block_bytes env) data size) None) ∧
    (∀ a, a ≠ dest → procs k' !! a = procs k !! a) ∧
    (∀ x, x ≠ m → last l ≠ Some x → msgs k' !! x = msgs k !! x) ∧
    sch k' = sch k ∧ pm k' = pm k ∧
    mem_log k' = mem_log k ++ [Ev_kmalloc m].
Proof.
  intros Hsize Hdest Hcur HSp Hm Hfresh Hkq Hbox Hnb.
  destruct Hbox as (D & HD & Hbox).
  rewrite HD in Hnb, Hkq. cbn in Hnb, Hkq.
  destruct (ipc_send_message_enqueues fuel env dest_pid data size k dest sender Sp D m l)
    as (k4 & q & Hrun & Hp4 & Hbox4 & Hm4 & Hfr4 & Hs4 & Hpm4 & Hl4); try done.
  { intros Eq. apply Hkq. by rewrite Eq. }
  { by exists D. }
  exists k4. rewrite Hrun.
  destruct (decide _) as [Hb|_]; [congruence|]. rewrite bind_Ret.
  split; [done|]. do 2 (split; [done|]). split; [|done].
  intros a Ha. rewrite Hp4. by apply lookup_insert_ne.
Qed.

Lemma ipc_send_message_appends_witness :
  ∃ k',
    ipc_send_message 0 (mk_ipc_outcomes (Some 10%positive) (replicate 256 Byte.xff) false)
      2 [Byte.x44] 1 (as_current 1 ipc_sent) = Ret (0, k') ∧
    mailbox k' 2 [9%positive; 10%positive].
Proof.
  destruct (ipc_send_message_appends 0
              (mk_ipc_outcomes (Some 10%positive) (replicate 256 Byte.xff) false)
              2 [Byte.x44] 1 (as_current 1 ipc_sent) 2 1
              (demo_pcb 1 PRIORITY_NORMAL PROCESS_READY) 10 [9%positive])
    as (k' & Hrun & Hbox & _).
  - lia.
  - by vm_compute.
  - by vm_compute.
  - by vm_compute.
  - done.
  - by vm_compute.
  - by vm_compute.
  - eexists. split; [by vm_compute|]. cbn.
    split; [done|]. split; [done|]. split; [done|].
    split; [apply NoDup_singleton|].
    split; [done|]. eexists. split; [by vm_compute|]. done.
  - by vm_compute.
  - exists k'. by split.
Defined.

Lemma mchain_head k start l : mchain k start l → start = head l.
Proof. destruct l; [done|]. by intros [-> _]. Qed.

(** X19: [ipc_receive_message] takes the oldest message of the mailbox of
    the current process.  On an empty mailbox (allocated or not) it
    returns -1 and changes nothing, the buffer included.  Otherwise it
    copies the first min(size, max_size) bytes of the oldest message into
    the buffer, returns that number, frees that message, and the mailbox
    holds the remaining messages in their order, its count one less.  No
    other PCB is written. *)
Theorem ipc_receive_message_pops (buffer : list Byte.byte) (max_size : Z)
    (k : kernel) (c : positive) (l : list positive) :
  process_get_current k = Some c → mailbox k c l →
  match l with
  | [] => ipc_receive_message buffer max_size k = Ret (-1, buffer, k)
  | m :: l' =>
      ∃ M k',
        msgs k !! m = Some M ∧
        ipc_receive_message buffer max_size k =
          Ret (to_int (Z.min (msg_size M) max_size),
               memory_copy buffer (msg_data M) (Z.min (msg_size M) max_size), k') ∧
        mailbox k' c l' ∧
        msgs k' = delete m (msgs k) ∧
        (∀ a, a ≠ c → procs k' !! a = procs k !! a) ∧
        sch k' = sch k ∧ pm k' = pm k ∧
        mem_log k' = mem_log k ++ [Ev_kfree m]
  end.
Proof.
  intros Hcur (C & HC & Hbox). unfold ipc_receive_message.
  rewrite Hcur, (deref_Some _ _ _ HC), bind_Ret.
  destruct l as [|m l'].
  - destruct (message_queue_of C) as [q|]; [|done].
    destruct Hbox as (-> & _). done.
  - destruct (message_queue_of C) as [q|] eqn:Eq; [|done].
    destruct Hbox as (Hh & Ht & Hn & Hnd & Hc).
    rewrite Hh. cbn [head].
    rewrite Hh in Hc. destruct Hc as (_ & M & HM & Hrest).
    apply NoDup_cons in Hnd as [Hm Hnd].
    exists M. eexists. split; [done|].
    unfold deref_msg. rewrite HM, bind_Ret, (store_Some _ _ _ _ HC), bind_Ret.
    cbv zeta.
    replace (if msg_size M <? max_size then msg_size M else max_size)
      with (Z.min (msg_size M) max_size)
      by (destruct (Z.ltb_spec (msg_size M) max_size); lia).
    split; [reflexivity|].
    cbn [procs msgs sch pm mem_log set_procs set_msgs log_event].
    split.
    { eexists. split; [apply lookup_insert_eq|].
      replace (message_queue_of (set_message_queue _ C)) with
        (Some (mk_message_queue (msg_next M)
                 (match msg_next M with None => None | Some _ => mq_tail q end)
                 (wrap32 (mq_count q - 1)))) by by destruct C.
      cbn [mq_head mq_tail mq_count].
      pose proof (mchain_head _ _ _ Hrest) as Hnx.
      split; [done|]. split.
      { rewrite Hnx, Ht. by destruct l'. }
      split.
      { rewrite Hn. cbn [length]. rewrite Nat2Z.inj_succ.
        unfold Z.succ. apply wrap32_pred. }
      split; [done|].
      apply (mchain_frame k); [|done].
      intros a Ha. apply lookup_delete_ne. by intros ->. }
    split; [done|]. split; [|done].
    intros a Ha. by apply lookup_insert_ne.
Qed.

Lemma ipc_receive_message_pops_witness :
  ∃ M k',
    msgs (as_current 2 ipc_sent) !! 9%positive = Some M ∧
    ipc_receive_message (replicate 2 Byte.xff) 2 (as_current 2 ipc_sent) =
      Ret (to_int (Z.min (msg_size M) 2),
           memory_copy (replicate 2 Byte.xff) (msg_data M) (Z.min (msg_size M) 2), k') ∧
    mailbox k' 2 [].
Proof.
  destruct (ipc_receive_message_pops (replicate 2 Byte.xff) 2 (as_current 2 ipc_sent)
              2 [9%positive]) as (M & k' & HM & Hrun & Hbox & _).
  - by vm_compute.
  - eexists. split; [by vm_compute|]. cbn.
    split; [done|]. split; [done|]. split; [done|].
    split; [apply NoDup_singleton|].
    split; [done|]. eexists. split; [by vm_compute|]. done.
  - by exists M, k'.
Defined.

(** X20: a send that fails leaves no trace.  [ipc_send_message] fails
    when the payload is longer than 256 bytes, when the destination pid is
    not in the process table, when there is no current process, when the
    message block cannot be allocated, and when the destination has no
    mailbox yet and the mailbox cannot be allocated.  In each case it
    returns -1 with all PCBs, all messages, the scheduler and the process
    manager as before; in the last case the message block that was
    allocated is freed again. *)
Theorem ipc_send_message_fails_clean (fuel : nat) (env : ipc_outcomes) (dest_pid : Z)
    (data : list Byte.byte) (size : Z) (k : kernel) :
  (∀ s, process_get_current k = Some s → is_Some (procs k !! s)) →
  (∀ m, kmalloc_msg env = Some m → msgs k !! m = None) →
  256 < size ∨ process_get_by_pid dest_pid k = None ∨
  process_get_current k = None ∨ kmalloc_msg env = None ∨
  (∃ dest D, process_get_by_pid dest_pid k = Some dest ∧ procs k !! dest = Some D ∧
             message_queue_of D = None ∧ kmalloc_queue env = false) →
  ∃ k',
    ipc_send_message fuel env dest_pid data size k = Ret (-1, k') ∧
    procs k' = procs k ∧ msgs k' = msgs k ∧ sch k' = sch k ∧ pm k' = pm k ∧
    (mem_log k' = mem_log k ∨
     ∃ m, kmalloc_msg env = Some m ∧ mem_log k' = mem_log k ++ [Ev_kmalloc m; Ev_kfree m]).
Proof.
  intros Hcur Hfresh Hfail. unfold ipc_send_message.
  destruct (Z.ltb_spec 256 size) as [_|Hsize]; [exists k; by auto 10|].
  destruct (process_get_by_pid dest_pid k) as [dest|] eqn:Edest; [|exists k; by auto 10].
  destruct (process_get_current k) as [sender|] eqn:Esender; [|exists k; by auto 10].
  destruct (Hcur sender eq_refl) as [Sp HSp].
  rewrite (deref_Some _ _ _ HSp), bind_Ret.
  destruct (kmalloc_msg env) as [m|] eqn:Em; [|exists k; by auto 10].
  destruct Hfail as [?|[?|[?|[?|(d & D & [= <-] & HD & Hq & Hkq)]]]]; [lia|done..|].
  rewrite (deref_Some _ dest D) by done.
  rewrite bind_Ret, Hq, Hkq, bind_Ret.
  eexists. split; [reflexivity|].
  cbn [procs msgs sch pm mem_log set_msgs log_event].
  split; [done|]. split.
  { rewrite delete_insert_eq. apply delete_id. by apply Hfresh. }
  split; [done|]. split; [done|]. right. exists m. split; [done|].
  by rewrite <- app_assoc.
Qed.

Lemma ipc_send_message_fails_clean_witness :
  ∃ k',
    ipc_send_message 0 (mk_ipc_outcomes (Some 9%positive) (replicate 256 Byte.x00) false)
      2 ipc_payload 3 (as_current 1 two_process_kernel) = Ret (-1, k') ∧
    procs k' = procs (as_current 1 two_process_kernel) ∧
    msgs k' = msgs (as_current 1 two_process_kernel).
Proof.
  destruct (ipc_send_message_fails_clean 0
              (mk_ipc_outcomes (Some 9%positive) (replicate 256 Byte.x00) false)
              2 ipc_payload 3 (as_current 1 two_process_kernel))
    as (k' & Hrun & Hp & Hm & _).
  - intros s Hs. vm_compute in Hs. injection Hs as <-. eexists. by vm_compute.
  - intros m Hm'. injection Hm' as <-. by vm_compute.
  - do 4 right. exists 2%positive, (demo_pcb 2 PRIORITY_NORMAL PROCESS_READY).
    by vm_compute.
  - by exists k'.
Defined.

(** X21: a send to a BLOCKED destination wakes it.  Under round-robin,
    with the destination in no queue, [ipc_send_message] delivers the
    message as before, sets the destination READY and appends it to the
    ready queue behind the processes already queued; no other process
    changes state and the process manager is untouched. *)
Theorem ipc_send_message_wakes_blocked (fuel : nat) (env : ipc_outcomes) (dest_pid : Z)
    (data : list Byte.byte) (size : Z) (k : kernel) (dest sender : positive)
    (Sp : process) (m : positive) (l : list positive) (rq : list positive) :
  size ≤ 256 →
  process_get_by_pid dest_pid k = Some dest →
  process_get_current k = Some sender → procs k !! sender = Some Sp →
  kmalloc_msg env = Some m → msgs k !! m = None →
  ((message_queue_of <$> (procs k !! dest)) = Some None → kmalloc_queue env = true) →
  mailbox k dest l →
  (state <$> (procs k !! dest)) = Some PROCESS_BLOCKED →
  current_algorithm (sch k) = SCHED_ROUND_ROBIN → ready_queue k rq → dest ∉ rq →
  ∃ k',
    ipc_send_message fuel env dest_pid data size k = Ret (0, k') ∧
    mailbox k' dest (l ++ [m]) ∧
    (state <$> (procs k' !! dest)) = Some PROCESS_READY ∧
    ready_queue k' (rq ++ [dest]) ∧
    (∀ a, a ≠ dest → (state <$> (procs k' !! a)) = (state <$> (procs k !! a))) ∧
    running_process (sch k') = running_process (sch k) ∧ pm k' = pm k.
Proof.
  intros Hsize Hdest Hcur HSp Hm Hfresh Hkq Hbox Hb Halg Hrq Hnq.
  destruct Hbox as (D & HD & Hbox).
  rewrite HD in Hb, Hkq. cbn in Hb, Hkq.
  destruct (ipc_send_message_enqueues fuel env dest_pid data size k dest sender Sp D m l)
    as (k4 & q & Hrun & Hp4 & Hbox4 & Hm4 & Hfr4 & Hs4 & Hpm4 & Hl4); try done.
  { intros Eq. apply Hkq. by rewrite Eq. }
  { by exists D. }
  rewrite Hrun. destruct (decide _) as [_|Hnb]; [|congruence].
  assert (procs k4 !! dest = Some (set_message_queue (Some q) D)) as HD4
    by (rewrite Hp4; apply lookup_insert_eq).
  assert (ready_queue k4 rq) as Hrq4.
  { destruct Hrq as (Hh & Ht & Hnd & Hdll). unfold ready_queue. rewrite Hs4.
    do 3 (split; [done|]). apply (dll_frame k); [|done].
    intros a Ha. rewrite Hp4. apply lookup_insert_ne. by intros ->. }
  destruct (store dest (set_state PROCESS_READY) k4) as [k5| |] eqn:Hst;
    rewrite (store_Some _ _ _ _ HD4) in Hst; [|done..].
  injection Hst as Hk5. rewrite bind_Ret.
  assert (store dest (set_state PROCESS_READY) k4 = Ret k5) as Hst
    by by rewrite (store_Some _ _ _ _ HD4), Hk5.
  assert (ready_queue k5 rq) as Hrq5.
  { apply (ready_queue_store k4 k5 rq dest (set_state PROCESS_READY)); [by intros []|done..]. }
  assert (procs k5 !! dest =
          Some (set_state PROCESS_READY (set_message_queue (Some q) D))) as HD5
    by (subst k5; apply lookup_insert_eq).
  destruct (scheduler_add_process_rr fuel k5 rq dest _
              ltac:(by subst k5; cbn; rewrite Hs4) Hrq5 Hnq HD5 ltac:(by destruct D))
    as (k' & Hadd & Hrq' & _ & Hrun' & Hpm' & _ & Hst').
  rewrite Hadd, bind_Ret. exists k'. split; [done|].
  split.
  { apply (mailbox_kept k5); [by eapply scheduler_add_process_mailboxes|].
    apply (mailbox_kept k4); [|done].
    eapply mailboxes_kept_store; [|done]. by intros []. }
  split; [by rewrite Hst', HD5; destruct D|].
  split; [done|]. split.
  { intros a Ha. rewrite Hst'. subst k5. cbn [procs set_procs].
    rewrite lookup_insert_ne by done. rewrite Hp4. by rewrite lookup_insert_ne. }
  split; [by rewrite Hrun'; subst k5; cbn; rewrite Hs4|].
  by rewrite Hpm'; subst k5.
Qed.

Lemma ipc_send_message_wakes_blocked_witness :
  ∃ k',
    ipc_send_message 0 ipc_env 3 ipc_payload 3 blocked_receiver_kernel = Ret (0, k') ∧
    mailbox k' 3 [9%positive] ∧
    (state <$> (procs k' !! 3%positive)) = Some PROCESS_READY ∧
    ready_queue k' [1%positive; 2%positive; 3%positive].
Proof.
  destruct (ipc_send_message_wakes_blocked 0 ipc_env 3 ipc_payload 3
              blocked_receiver_kernel 3 4 (demo_pcb 4 PRIORITY_NORMAL PROCESS_RUNNING)
              9 [] [1%positive; 2%positive])
    as (k' & Hrun & Hbox & Hst & Hrq & _).
  - lia.
  - by vm_compute.
  - by vm_compute.
  - by vm_compute.
  - done.
  - by vm_compute.
  - done.
  - eexists. split; [by vm_compute|]. done.
  - by vm_compute.
  - done.
  - solve_ready_queue.
  - solve_not_elem_of.
  - by exists k'.
Defined.

(** ** Weights and virtual runtime (advanced_scheduler.c) *)

Lemma to_int_small z : - 2 ^ 31 ≤ z < 2 ^ 31 → to_int z = z.
Proof.
  intros Hz. unfold to_int, wrap32. cbv zeta.
  destruct (Z.lt_ge_cases z 0) as [Hneg|Hpos].
  - assert (z mod 2 ^ 32 = z + 2 ^ 32) as ->.
    { symmetry. apply (Z.mod_unique_pos z (2 ^ 32) (-1) (z + 2 ^ 32)); lia. }
    destruct (Z.ltb_spec (z + 2 ^ 32) (2 ^ 31)); lia.
  - rewrite Z.mod_small by lia. destruct (Z.ltb_spec z (2 ^ 31)); lia.
Qed.

(** Past [INT_MAX] the 32-bit sum is negative. *)
Lemma to_int_wrapped z : 2 ^ 31 ≤ z < 2 ^ 32 → to_int z = z - 2 ^ 32.
Proof.
  intros Hz. unfold to_int, wrap32. cbv zeta.
  rewrite Z.mod_small by lia. destruct (Z.ltb_spec z (2 ^ 31)); lia.
Qed.

(** [nice_to_weight] reads the table at the clamped index. *)
Lemma nice_to_weight_index nice :
  nice_to_weight nice
  = default 0 (nice_weights !! Z.to_nat (Z.max 0 (Z.min 39 (to_int (nice + 20))))).
Proof.
  unfold nice_to_weight. cbv zeta.
  destruct (Z.ltb_spec (to_int (nice + 20)) 0), (Z.leb_spec 40 (to_int (nice + 20)));
    try lia; f_equal; f_equal; f_equal; try lia.
  destruct (Z.leb_spec 40 0); lia.
Qed.

(** Each entry of the table is at most the entry before it. *)
Lemma nice_weights_step (i : nat) :
  (i < 39)%nat →
  default 0 (nice_weights !! S i) ≤ default 0 (nice_weights !! i).
Proof.
  intros Hi. do 39 (destruct i as [|i]; [vm_compute; discriminate|]). lia.
Qed.

Lemma nice_weights_antitone (i j : nat) :
  (i ≤ j < 40)%nat →
  default 0 (nice_weights !! j) ≤ default 0 (nice_weights !! i).
Proof.
  intros [Hij Hj]. induction Hij as [|j Hij IH]; [lia|].
  etrans; [apply nice_weights_step; lia|apply IH; lia].
Qed.

Lemma nice_weights_range (i : nat) :
  (i < 40)%nat → 15 ≤ default 0 (nice_weights !! i) ≤ 88761.
Proof.
  intros Hi. split.
  - change 15 with (default 0 (nice_weights !! 39%nat)).
    apply nice_weights_antitone. lia.
  - change 88761 with (default 0 (nice_weights !! 0%nat)).
    apply nice_weights_antitone. lia.
Qed.

Lemma nice_to_weight_pos nice : 15 ≤ nice_to_weight nice ≤ 88761.
Proof. rewrite nice_to_weight_index. apply nice_weights_range. lia. Qed.

(** As long as [nice + 20] fits an [int] the weight does not grow with
    the nice value. *)
Lemma nice_to_weight_le (a b : Z) :
  - 2 ^ 31 ≤ a → a ≤ b → b < 2 ^ 31 - 20 → nice_to_weight b ≤ nice_to_weight a.
Proof.
  intros Ha Hab Hb. rewrite !nice_to_weight_index.
  rewrite !to_int_small by lia. apply nice_weights_antitone. lia.
Qed.

(** X22: [nice_to_weight] never leaves the table: every [int], also one
    outside -20..19, gets a weight between 15 and 88761, so the division
    by the weight in [sched_update_runtime_stats] is never a division by
    zero.  Nice 0 has weight 1024.  Among the nice values for which
    [nice + 20] fits an [int], that is up to [INT_MAX - 20], the weight
    does not grow with the nice value, every value up to -20 has the
    weight of -20 and every value from 19 on the weight of 19.  For the
    twenty values above [INT_MAX - 20] the sum wraps to a negative index
    and the weight is the largest one, 88761. *)
Theorem nice_to_weight_antitone (a b c : Z) :
  - 2 ^ 31 ≤ a → a ≤ b → b < 2 ^ 31 - 20 →
  nice_to_weight b ≤ nice_to_weight a ∧
  15 ≤ nice_to_weight c ≤ 88761 ∧
  nice_to_weight 0 = 1024 ∧
  (b ≤ -20 → nice_to_weight a = 88761 ∧ nice_to_weight b = 88761) ∧
  (19 ≤ a → nice_to_weight a = 15 ∧ nice_to_weight b = 15) ∧
  (2 ^ 31 - 20 ≤ c < 2 ^ 31 → nice_to_weight c = 88761).
Proof.
  intros Ha Hab Hb. split; [by apply nice_to_weight_le|].
  split; [apply nice_to_weight_pos|]. split; [reflexivity|].
  split; [|split]; intros H; rewrite !nice_to_weight_index.
  - rewrite !to_int_small by lia.
    by replace (Z.max 0 (Z.min 39 (a + 20))) with 0 by lia;
      replace (Z.max 0 (Z.min 39 (b + 20))) with 0 by lia.
  - rewrite !to_int_small by lia.
    by replace (Z.max 0 (Z.min 39 (a + 20))) with 39 by lia;
      replace (Z.max 0 (Z.min 39 (b + 20))) with 39 by lia.
  - rewrite to_int_wrapped by lia.
    by replace (Z.max 0 (Z.min 39 (c + 20 - 2 ^ 32))) with 0 by lia.
Qed.

Lemma nice_to_weight_antitone_witness :
  nice_to_weight 10 ≤ nice_to_weight (-10) ∧ 15 ≤ nice_to_weight 2147483647 ∧
  nice_to_weight 2147483647 = 88761.
Proof.
  destruct (nice_to_weight_antitone (-10) 10 2147483647) as (H1 & [H2 _] & _ & _ & _ & H3);
    [lia..|].
  split; [done|]. split; [done|]. apply H3. lia.
Defined.

(** X23: [sched_update_runtime_stats] on a process with a statistics
    block, for a runtime below 2^54 (so that [runtime * 1024] fits in 64
    bits): the runtime is added to [runtime], a thousandth of it to
    [neural_cycles], and [vruntime] advances by runtime * 1024 / weight,
    which is never more than runtime * 1024 / 15.  At nice 0 the virtual
    runtime advances by exactly the runtime; at a negative nice value (an
    [int]) by no more; at a positive one by no less, as long as
    [nice + 20] fits an [int].  The nice value, the deadline, the last-run
    time and the counters of the block are kept, and no other PCB is
    written. *)
Theorem sched_update_runtime_stats_advances (p : positive) (r : Z) (k : kernel)
    (P : process) (st : process_sched_stats) :
  procs k !! p = Some P → sched_stats P = Some st → 0 ≤ r < 2 ^ 54 →
  ∃ k' st' gain,
    sched_update_runtime_stats (Some p) r k = Ret k' ∧
    procs k' = <[p := set_sched_stats (Some st') P]> (procs k) ∧
    runtime st' = wrap64 (runtime st + r) ∧
    neural_cycles st' = wrap64 (neural_cycles st + r / 1000) ∧
    vruntime st' = wrap64 (vruntime st + gain) ∧
    gain = r * 1024 / nice_to_weight (nice_value st) ∧
    0 ≤ gain ≤ r * 1024 / 15 ∧
    (nice_value st = 0 → gain = r) ∧
    (- 2 ^ 31 ≤ nice_value st ≤ 0 → gain ≤ r) ∧
    (0 ≤ nice_value st < 2 ^ 31 - 20 → r ≤ gain) ∧
    (nice_value st', deadline st', last_runtime st', st_context_switches st',
     preemptions st', wait_time st', neural_class st', neural_affinity st')
    = (nice_value st, deadline st, last_runtime st, st_context_switches st,
       preemptions st, wait_time st, neural_class st, neural_affinity st).
Proof.
  intros HP Hst Hr. unfold sched_update_runtime_stats.
  rewrite (deref_Some _ _ _ HP), bind_Ret, Hst, (store_Some _ _ _ _ HP).
  eexists _, (account_runtime r st), _. split; [reflexivity|].
  split; [reflexivity|]. split; [reflexivity|]. split; [reflexivity|].
  pose proof (nice_to_weight_pos (nice_value st)) as Hw.
  assert (wrap64 (r * 1024) = r * 1024) as Hfit.
  { unfold wrap64. apply Z.mod_small. lia. }
  split; [cbn [vruntime account_runtime]; by rewrite Hfit|].
  split; [reflexivity|].
  split.
  { split; [apply Z.div_pos; lia|].
    apply Z.div_le_compat_l; lia. }
  split.
  { intros ->. change (nice_to_weight 0) with 1024. apply Z.div_mul. lia. }
  split.
  { intros Hn. rewrite <- (Z.div_mul r 1024) at 2 by lia.
    apply Z.div_le_compat_l; [lia|]. split; [lia|].
    change 1024 with (nice_to_weight 0). apply nice_to_weight_le; lia. }
  split; [|reflexivity].
  intros Hn. rewrite <- (Z.div_mul r 1024) at 1 by lia.
  apply Z.div_le_compat_l; [lia|]. split; [lia|].
  change 1024 with (nice_to_weight 0). apply nice_to_weight_le; lia.
Qed.

Lemma sched_update_runtime_stats_advances_witness :
  ∃ k' st',
    sched_update_runtime_stats (Some 1%positive) 5000 fresh_kernel = Ret k' ∧
    (sched_stats <$> (procs k' !! 1%positive)) = Some (Some st') ∧
    vruntime st' = 5000.
Proof.
  destruct (sched_update_runtime_stats_advances 1 5000 fresh_kernel
              (stats_pcb 1 PRIORITY_NORMAL 0 1000 NEURAL_PRIORITY_NORMAL None)
              (mk_process_sched_stats 0 0 0 0 0 1000 0 NEURAL_PRIORITY_NORMAL 0 0 4294967295))
    as (k' & st' & gain & Hrun & Hp & _ & _ & Hv & _ & _ & Hg & _).
  - by vm_compute.
  - by vm_compute.
  - lia.
  - exists k', st'. split; [done|]. rewrite Hp, lookup_insert_eq.
    split; [done|]. rewrite Hv, Hg by done. reflexivity.
Defined.

(** ** Fair selection on a run queue (advanced_scheduler.c) *)

Lemma cfs_pick_walk_eq fuel k proc acc :
  cfs_pick_walk fuel k proc acc =
  match proc with
  | None => Ret acc
  | Some p =>
      match fuel with
      | O => Diverge
      | S fuel' =>
          P ← deref k p;
          cfs_pick_walk fuel' k (next_in_queue P)
            match sched_stats P with
            | Some st => if vruntime st <? snd acc then (Some p, vruntime st) else acc
            | None => acc
            end
      end
  end.
Proof. destruct fuel; reflexivity. Qed.

Lemma cfs_pick_walk_chain fuel k : ∀ l start acc,
  chain k start l → (length l ≤ fuel)%nat →
  cfs_pick_walk fuel k start acc = Ret (fold_left (cfs_step k) l acc).
Proof.
  intros l. revert fuel.
  induction l as [|p l IH]; intros fuel start acc Hc Hlen;
    rewrite cfs_pick_walk_eq; simpl in Hc.
  - by subst.
  - destruct Hc as (-> & P & HP & Hc). destruct fuel as [|fuel]; [simpl in Hlen; lia|].
    rewrite (deref_Some _ _ _ HP), bind_Ret. simpl.
    assert (match sched_stats P with
            | Some st => if vruntime st <? snd acc then (Some p, vruntime st) else acc
            | None => acc
            end = cfs_step k acc p) as ->.
    { unfold cfs_step, improve, vruntime_key, proc_vruntime. rewrite HP.
      destruct acc as [b e]. simpl.
      destruct (sched_stats P) as [st|]; simpl; [|by rewrite Z.opp_involutive].
      destruct (Z.ltb_spec (vruntime st) e), (Z.ltb_spec (- e) (- vruntime st));
        simpl; try lia; by rewrite Z.opp_involutive. }
    apply IH; [done|simpl in Hlen; lia].
Qed.

Lemma fold_cfs_step k l : ∀ acc,
  fold_left (cfs_step k) l acc =
  ((fold_left (improve (vruntime_key k)) l (acc.1, - acc.2)).1,
   - (fold_left (improve (vruntime_key k)) l (acc.1, - acc.2)).2).
Proof.
  induction l as [|p l IH]; intros [b e]; simpl.
  - by rewrite Z.opp_involutive.
  - rewrite IH. unfold cfs_step. simpl. rewrite Z.opp_involutive.
    by destruct (improve (vruntime_key k) (b, - e) p).
Qed.

(** X24: over a run queue whose six buckets are well-formed chains,
    [cfs_pick_next_task] returns the first process, in the order of the
    scan (bucket 0 first, each bucket from its head), among those of least
    virtual runtime; processes without a statistics block are passed over,
    and so is a process whose virtual runtime is [UINT64_MAX]: when no
    process has a smaller one, nobody is selected.  The bucket of a
    process, that is its priority, plays no part beyond the scan
    order. *)
Theorem cfs_pick_next_task_first_minimum (fuel : nat) (k : kernel)
    (rq : neural_runqueue) (ls : list (list positive)) :
  length ls = 6%nat →
  (∀ (j : nat) l, ls !! j = Some l →
     chain k (bucket rq (Z.of_nat j)) l ∧ (length l ≤ fuel)%nat) →
  ((∀ p v, p ∈ concat ls → proc_vruntime k p = Some v → UINT64_MAX ≤ v) →
   cfs_pick_next_task fuel k rq = Ret None)
  ∧
  ((∃ p v, p ∈ concat ls ∧ proc_vruntime k p = Some v ∧ v < UINT64_MAX) →
   ∃ pre p post v,
     concat ls = pre ++ p :: post ∧
     proc_vruntime k p = Some v ∧ v < UINT64_MAX ∧
     cfs_pick_next_task fuel k rq = Ret (Some p) ∧
     (∀ q t, q ∈ pre → proc_vruntime k q = Some t → v < t) ∧
     (∀ q t, q ∈ post → proc_vruntime k q = Some t → v ≤ t)).
Proof.
  intros Hlen Hls.
  assert (cfs_pick_next_task fuel k rq
          = Ret (fold_left (cfs_step k) (concat ls) (None, UINT64_MAX)).1) as ->.
  { unfold cfs_pick_next_task. rewrite <- Hlen.
    rewrite (for_buckets_chains
               (λ start acc, cfs_pick_walk fuel k start acc) (cfs_step k)
               (λ l, (length l ≤ fuel)%nat) k rq
               (λ start l, cfs_pick_walk_chain fuel k l start) ls 0
               (None, UINT64_MAX)); [done|lia|].
    intros j l Hj. rewrite Z.add_0_l. by apply Hls. }
  rewrite fold_cfs_step. cbn [fst snd]. split.
  - intros Hnone. rewrite fold_improve_none; [done|].
    intros x s Hx Hs. unfold vruntime_key in Hs.
    destruct (proc_vruntime k x) as [v|] eqn:Ev; [|done].
    injection Hs as <-. specialize (Hnone x v Hx Ev). lia.
  - intros (p & v & Hp & Hv & Hr).
    destruct (fold_improve_some (vruntime_key k) (concat ls) None (- UINT64_MAX))
      as (pre & x & post & s & Hsplit & Hk & Hf & Hs & Hpre & Hpost).
    { exists p, (- v). split; [done|]. unfold vruntime_key. rewrite Hv.
      split; [done|lia]. }
    unfold vruntime_key in Hk.
    destruct (proc_vruntime k x) as [vx|] eqn:Ex; [|done].
    injection Hk as <-.
    exists pre, x, post, vx. rewrite Hf.
    split; [done|]. split; [done|]. split; [lia|]. split; [done|]. split.
    + intros q t Hq Ht.
      assert (- t < - vx); [|lia]. apply (Hpre q); [done|].
      unfold vruntime_key. by rewrite Ht.
    + intros q t Hq Ht.
      assert (- t ≤ - vx); [|lia]. apply (Hpost q); [done|].
      unfold vruntime_key. by rewrite Ht.
Qed.

(** A closed fact [chain k start l] by evaluation. *)
Ltac solve_chain :=
  simpl;
  repeat (split; [reflexivity|]; eexists; split; [vm_compute; reflexivity|]);
  reflexivity.

(** The six buckets of a closed run queue. *)
Ltac solve_buckets :=
  let j := fresh "j" in
  let l := fresh "l" in
  let Hj := fresh "Hj" in
  intros j l Hj;
  destruct j as [|[|[|[|[|[|j]]]]]]; simpl in Hj; try discriminate Hj;
  injection Hj as <-; (split; [solve_chain|simpl; lia]).

Lemma cfs_pick_next_task_first_minimum_witness :
  ∃ pre p post v,
    concat [[3%positive]; []; [2%positive; 1%positive]; []; []; []] = pre ++ p :: post ∧
    proc_vruntime vruntime_kernel p = Some v ∧ v < UINT64_MAX ∧
    cfs_pick_next_task 4 vruntime_kernel vruntime_rq0 = Ret (Some p) ∧
    (∀ q t, q ∈ pre → proc_vruntime vruntime_kernel q = Some t → v < t) ∧
    (∀ q t, q ∈ post → proc_vruntime vruntime_kernel q = Some t → v ≤ t).
Proof.
  apply (proj2 (cfs_pick_next_task_first_minimum 4%nat vruntime_kernel vruntime_rq0
                  [[3%positive]; []; [2%positive; 1%positive]; []; []; []]
                  eq_refl ltac:(solve_buckets))).
  exists 1%positive, 10.
  split; [simpl; apply elem_of_cons; right; apply elem_of_cons; right;
          apply elem_of_cons; by left|].
  split; [vm_compute; reflexivity|reflexivity].
Defined.

(** The process selected in [vruntime_kernel] is process 3: it ties with
    process 1 and its bucket is scanned first. *)
Example cfs_pick_tie : cfs_pick_next_task 4 vruntime_kernel vruntime_rq0 = Ret (Some 3%positive).
Proof. vm_compute. reflexivity. Qed.

(** ** Cyberpunk selection (advanced_scheduler.c) *)

Lemma first_bucket_spec rq h : ∀ (n i : nat) (lo : Z),
  (i < n)%nat →
  (∀ j : nat, (j < i)%nat → bucket rq (lo + Z.of_nat j) = None) →
  bucket rq (lo + Z.of_nat i) = Some h →
  first_bucket rq n lo = Some h.
Proof.
  induction n as [|n IH]; intros i lo Hi Hempty Hh; [lia|]. simpl.
  destruct i as [|i].
  - rewrite Z.add_0_r in Hh. by rewrite Hh.
  - pose proof (Hempty 0%nat ltac:(lia)) as H0. rewrite Z.add_0_r in H0. rewrite H0.
    apply (IH i); [lia| |].
    + intros j Hj. specialize (Hempty (S j) ltac:(lia)).
      by replace (lo + 1 + Z.of_nat j) with (lo + Z.of_nat (S j)) by lia.
    + by replace (lo + 1 + Z.of_nat i) with (lo + Z.of_nat (S i)) by lia.
Qed.

Lemma first_bucket_none rq : ∀ (n : nat) (lo : Z),
  (∀ j : nat, (j < n)%nat → bucket rq (lo + Z.of_nat j) = None) →
  first_bucket rq n lo = None.
Proof.
  induction n as [|n IH]; intros lo Hempty; [done|]. simpl.
  pose proof (Hempty 0%nat ltac:(lia)) as H0. rewrite Z.add_0_r in H0. rewrite H0.
  apply IH. intros j Hj. specialize (Hempty (S j) ltac:(lia)).
  by replace (lo + 1 + Z.of_nat j) with (lo + Z.of_nat (S j)) by lia.
Qed.

Lemma cyberpunk_walk_eq fuel k proc best :
  cyberpunk_walk fuel k proc best =
  match proc with
  | None => Ret best
  | Some p =>
      match fuel with
      | O => Diverge
      | S fuel' =>
          P ← deref k p;
          if cyberpunk_name (name P) then Ret p
          else cyberpunk_walk fuel' k (next_in_queue P) best
      end
  end.
Proof. destruct fuel; reflexivity. Qed.

(** The walk stops at the first preferred name. *)
Lemma cyberpunk_walk_found k best : ∀ pre fuel start p post,
  chain k start (pre ++ p :: post) → (length pre < fuel)%nat →
  (∀ q, q ∈ pre → cyber k q = false) → cyber k p = true →
  cyberpunk_walk fuel k start best = Ret p.
Proof.
  induction pre as [|a pre IH]; intros fuel start p post Hc Hlen Hpre Hp;
    rewrite cyberpunk_walk_eq; destruct Hc as (-> & P & HP & Hc);
    (destruct fuel as [|fuel]; [simpl in Hlen; lia|]);
    rewrite (deref_Some _ _ _ HP), bind_Ret.
  - unfold cyber in Hp. rewrite HP in Hp. by rewrite Hp.
  - pose proof (Hpre a ltac:(left)) as Ha. unfold cyber in Ha. rewrite HP in Ha.
    rewrite Ha. apply (IH fuel _ p post); [done|simpl in Hlen; lia| |done].
    intros q Hq. apply Hpre. by right.
Qed.

(** Without a preferred name it runs to the end and keeps [best]. *)
Lemma cyberpunk_walk_none k best : ∀ l fuel start,
  chain k start l → (length l ≤ fuel)%nat →
  (∀ q, q ∈ l → cyber k q = false) →
  cyberpunk_walk fuel k start best = Ret best.
Proof.
  induction l as [|a l IH]; intros fuel start Hc Hlen Hl; rewrite cyberpunk_walk_eq.
  - simpl in Hc. by subst.
  - destruct Hc as (-> & P & HP & Hc).
    destruct fuel as [|fuel]; [simpl in Hlen; lia|].
    rewrite (deref_Some _ _ _ HP), bind_Ret.
    pose proof (Hl a ltac:(left)) as Ha. unfold cyber in Ha. rewrite HP in Ha.
    rewrite Ha. apply IH; [done|simpl in Hlen; lia|].
    intros q Hq. apply Hl. by right.
Qed.

(** X25: [cyberpunk_pick_next_task] looks at one bucket only, the first
    non-empty one counting from bucket 0 (the bucket of PRIORITY_IDLE).
    Over a well-formed chain in that bucket it returns the first process
    whose name contains neural, cyber or matrix, and the head of the
    bucket when no name does; what the later buckets hold, preferred names
    included, plays no part.  With all six buckets empty it returns
    NULL. *)
Theorem cyberpunk_pick_next_task_first_bucket (fuel : nat) (k : kernel)
    (rq : neural_runqueue) :
  ((∀ j : nat, (j < 6)%nat → bucket rq (Z.of_nat j) = None) →
   cyberpunk_pick_next_task fuel k rq = Ret None)
  ∧
  (∀ (i : nat) (h : positive) (l : list positive),
     (i < 6)%nat →
     (∀ j : nat, (j < i)%nat → bucket rq (Z.of_nat j) = None) →
     chain k (bucket rq (Z.of_nat i)) (h :: l) → (length (h :: l) ≤ fuel)%nat →
     ((∀ q, q ∈ h :: l → cyber k q = false) →
      cyberpunk_pick_next_task fuel k rq = Ret (Some h))
     ∧
     (∀ pre p post,
        h :: l = pre ++ p :: post →
        (∀ q, q ∈ pre → cyber k q = false) → cyber k p = true →
        cyberpunk_pick_next_task fuel k rq = Ret (Some p))).
Proof.
  split.
  - intros Hempty. unfold cyberpunk_pick_next_task.
    rewrite first_bucket_none; [done|]. intros j Hj. rewrite Z.add_0_l. by apply Hempty.
  - intros i h l Hi Hempty Hc Hlen.
    assert (first_bucket rq 6 0 = Some h) as Hfb.
    { apply (first_bucket_spec rq h 6 i 0 Hi).
      - intros j Hj. rewrite Z.add_0_l. by apply Hempty.
      - rewrite Z.add_0_l. by destruct Hc as [-> _]. }
    assert (chain k (Some h) (h :: l)) as Hc'.
    { destruct Hc as [Hh Hrest]. by split. }
    unfold cyberpunk_pick_next_task. rewrite Hfb. split.
    + intros Hnone. by rewrite (cyberpunk_walk_none k h (h :: l) fuel (Some h)).
    + intros pre p post Hsplit Hpre Hp. rewrite Hsplit in Hc', Hlen.
      rewrite (cyberpunk_walk_found k h pre fuel (Some h) p post); try done.
      rewrite length_app in Hlen. simpl in Hlen. lia.
Qed.

Lemma cyberpunk_pick_next_task_first_bucket_witness :
  cyberpunk_pick_next_task 3 cyberpunk_kernel cyberpunk_rq0 = Ret (Some 2%positive).
Proof.
  apply (proj2 (proj2 (cyberpunk_pick_next_task_first_bucket 3 cyberpunk_kernel cyberpunk_rq0)
                  1%nat 1%positive [2%positive; 3%positive]
                  ltac:(lia)
                  ltac:(intros [|j] Hj; [reflexivity|lia])
                  ltac:(solve_chain)
                  ltac:(simpl; lia))
           [1%positive] 2%positive [3%positive]).
  - reflexivity.
  - intros q Hq. apply list_elem_of_singleton in Hq. subst q. by vm_compute.
  - by vm_compute.
Defined.

(** ** Scheduling on a core (advanced_scheduler.c) *)

Lemma rq_get_Some k cpu_id rq :
  neural_runqueues k !! Z.to_nat cpu_id = Some rq → rq_get k cpu_id = Ret rq.
Proof. unfold rq_get. by intros ->. Qed.

Lemma rq_upd_lookup cpu_id f k rq :
  neural_runqueues k !! Z.to_nat cpu_id = Some rq →
  neural_runqueues (rq_upd cpu_id f k) !! Z.to_nat cpu_id = Some (f rq).
Proof.
  intros Hrq. unfold rq_upd. cbn [neural_runqueues set_neural_runqueues].
  by rewrite list_lookup_alter_eq, Hrq.
Qed.

Lemma rq_upd_lookup_ne cpu_id f k (j : nat) :
  j ≠ Z.to_nat cpu_id →
  neural_runqueues (rq_upd cpu_id f k) !! j = neural_runqueues k !! j.
Proof.
  intros Hj. unfold rq_upd. cbn [neural_runqueues set_neural_runqueues].
  by apply list_lookup_alter_ne.
Qed.

Lemma pick_next_task_fallback fuel k rq :
  ¬ (1 ≤ algorithm rq ≤ 4) → pick_next_task fuel k rq = Ret (first_bucket rq 6 0).
Proof.
  intros Halg. unfold pick_next_task, SCHED_ALGORITHM_CFS, SCHED_ALGORITHM_REALTIME,
    SCHED_ALGORITHM_NEURAL, SCHED_ALGORITHM_CYBERPUNK. cbv zeta.
  destruct (Z.eqb_spec (algorithm rq) 1); [lia|].
  destruct (Z.eqb_spec (algorithm rq) 2); [lia|].
  destruct (Z.eqb_spec (algorithm rq) 3); [lia|].
  destruct (Z.eqb_spec (algorithm rq) 4); [lia|]. done.
Qed.

(** One call under the fallback: the head of the first non-empty bucket
    is returned and stays where it is. *)
Lemma sched_schedule_next_fallback fuel cpu_id h k :
  0 ≤ cpu_id < 64 → fallback_head cpu_id h k →
  ∃ k' rq rq',
    sched_schedule_next fuel cpu_id k = Ret (Some h, k') ∧
    fallback_head cpu_id h k' ∧
    neural_runqueues k !! Z.to_nat cpu_id = Some rq ∧
    neural_runqueues k' !! Z.to_nat cpu_id = Some rq' ∧
    rq' = set_clock (get_system_time k) (set_rq_current (Some h) rq) ∧
    (∀ j : nat, j ≠ Z.to_nat cpu_id → neural_runqueues k' !! j = neural_runqueues k !! j) ∧
    (∀ a, a ≠ h → procs k' !! a = procs k !! a) ∧
    (next_in_queue <$> (procs k' !! h)) = (next_in_queue <$> (procs k !! h)) ∧
    (sched_stats <$> (procs k' !! h))
    = (fmap (mark_scheduled (get_system_time k)) <$> (sched_stats <$> (procs k !! h))).
Proof.
  intros Hcpu (rq & i & Hrq & Halg & Hi & Hempty & Hh & [H HH]).
  unfold sched_schedule_next. destruct (Z.leb_spec 64 cpu_id); [lia|].
  rewrite (rq_get_Some _ _ _ Hrq), bind_Ret, (pick_next_task_fallback _ _ _ Halg), bind_Ret.
  rewrite (first_bucket_spec rq h 6 i 0 Hi);
    [|by intros j Hj; rewrite Z.add_0_l; apply Hempty|by rewrite Z.add_0_l].
  cbv zeta.
  set (k1 := rq_upd cpu_id (set_clock _) (rq_upd cpu_id (set_rq_current (Some h)) k)).
  assert (procs k1 = procs k) as Hp1 by done.
  assert (neural_runqueues k1 !! Z.to_nat cpu_id
          = Some (set_clock (get_system_time k) (set_rq_current (Some h) rq))) as Hrq1.
  { subst k1. by apply rq_upd_lookup, rq_upd_lookup. }
  assert (∀ j : nat, j ≠ Z.to_nat cpu_id →
                     neural_runqueues k1 !! j = neural_runqueues k !! j) as Hne1.
  { intros j Hj. subst k1. by rewrite !rq_upd_lookup_ne. }
  rewrite (deref_Some k1 h H) by by rewrite Hp1.
  rewrite bind_Ret.
  assert (∀ k2, procs k2 !! h = Some (match sched_stats H with
                                       | Some st => set_sched_stats
                                                      (Some (mark_scheduled (get_system_time k) st)) H
                                       | None => H
                                       end) →
                (∀ a, a ≠ h → procs k2 !! a = procs k !! a) →
                neural_runqueues k2 = neural_runqueues k1 →
                ∃ rq0 rq',
                  fallback_head cpu_id h k2 ∧
                  neural_runqueues k !! Z.to_nat cpu_id = Some rq0 ∧
                  neural_runqueues k2 !! Z.to_nat cpu_id = Some rq' ∧
                  rq' = set_clock (get_system_time k) (set_rq_current (Some h) rq0) ∧
                  (∀ j : nat, j ≠ Z.to_nat cpu_id →
                              neural_runqueues k2 !! j = neural_runqueues k !! j) ∧
                  (∀ a, a ≠ h → procs k2 !! a = procs k !! a) ∧
                  (next_in_queue <$> (procs k2 !! h)) = (next_in_queue <$> (procs k !! h)) ∧
                  (sched_stats <$> (procs k2 !! h))
                  = (fmap (mark_scheduled (get_system_time k)) <$>
                       (sched_stats <$> (procs k !! h)))) as Hfin.
  { intros k2 Hh2 Ho2 Hq2. exists rq, (set_clock (get_system_time k) (set_rq_current (Some h) rq)).
    split.
    { eexists _, i. rewrite Hq2. split; [exact Hrq1|].
      split; [done|]. split; [done|]. split; [done|]. split; [done|].
      by rewrite Hh2. }
    split; [done|]. rewrite Hq2. split; [done|]. split; [done|].
    split; [done|]. split; [done|]. rewrite Hh2, HH. cbn.
    by destruct H as [? ? ? ? ? ? ? ? ? ? ? ? ? ? ? ? ? ? ? ? ? ? [st|]]. }
  destruct (sched_stats H) as [st|] eqn:Est.
  - rewrite (store_Some k1 h _ H) by by rewrite Hp1.
    rewrite bind_Ret.
    edestruct Hfin as (rq0 & rq' & ?); [| | |eexists _, rq0, rq'; split; [reflexivity|eassumption]].
    + cbn [procs set_procs]. by rewrite lookup_insert_eq.
    + intros a Ha. cbn [procs set_procs]. by rewrite lookup_insert_ne, Hp1.
    + done.
  - rewrite bind_Ret.
    edestruct Hfin as (rq0 & rq' & ?); [| | |eexists _, rq0, rq'; split; [reflexivity|eassumption]].
    + by rewrite Hp1.
    + intros a Ha. by rewrite Hp1.
    + done.
Qed.

(** X26: [sched_schedule_next] does not take the selected process out of
    its bucket, and the fallback of [pick_next_task] (round-robin, or any
    algorithm value outside 1..4) selects the head of the first non-empty
    bucket.  So under the fallback every call on a core returns the same
    process, however many processes the core holds: the calls write the
    current process and the clock of the run queue and the
    context-switch counter and last-run time of that process, but no
    bucket, no queue link, no counter of the run queue and no other
    PCB. *)
Theorem sched_schedule_next_never_rotates (fuel : nat) (cpu_id : Z) (h : positive)
    (n : nat) (k : kernel) :
  0 ≤ cpu_id < 64 → fallback_head cpu_id h k →
  ∃ k',
    schedule_n fuel cpu_id n k = Ret (replicate n (Some h), k') ∧
    fallback_head cpu_id h k' ∧
    (∀ a, a ≠ h → procs k' !! a = procs k !! a) ∧
    (next_in_queue <$> (procs k' !! h)) = (next_in_queue <$> (procs k !! h)) ∧
    ((λ rq, (active_queue rq, expired_queue rq, queue_bitmap rq, process_count rq,
             idle_task rq, algorithm rq)) <$> (neural_runqueues k' !! Z.to_nat cpu_id))
    = ((λ rq, (active_queue rq, expired_queue rq, queue_bitmap rq, process_count rq,
               idle_task rq, algorithm rq)) <$> (neural_runqueues k !! Z.to_nat cpu_id)) ∧
    (∀ j : nat, j ≠ Z.to_nat cpu_id → neural_runqueues k' !! j = neural_runqueues k !! j).
Proof.
  intros Hcpu. revert k. induction n as [|n IH]; intros k Hk.
  - exists k. by repeat split.
  - destruct (sched_schedule_next_fallback fuel cpu_id h k Hcpu Hk)
      as (k1 & rq & rq1 & Hrun & Hk1 & Hrq & Hrq1 & -> & Hne1 & Ho1 & Hn1 & _).
    destruct (IH k1 Hk1) as (k' & Hrest & Hk' & Ho' & Hn' & Hq' & Hne').
    exists k'. cbn [schedule_n replicate]. rewrite Hrun, bind_Ret.
    cbn beta iota. rewrite Hrest, bind_Ret.
    split; [done|]. split; [done|]. split.
    { intros a Ha. by rewrite Ho', Ho1. }
    split; [by rewrite Hn', Hn1|]. split.
    { rewrite Hq', Hrq1, Hrq. done. }
    intros j Hj. by rewrite Hne', Hne1.
Qed.

Lemma sched_schedule_next_never_rotates_witness :
  ∃ k',
    schedule_n 0 0 3 (rq_upd 0 (set_algorithm SCHED_ALGORITHM_ROUND_ROBIN) neural_kernel)
    = Ret ([Some 3%positive; Some 3%positive; Some 3%positive], k').
Proof.
  destruct (sched_schedule_next_never_rotates 0 0 3 3
              (rq_upd 0 (set_algorithm SCHED_ALGORITHM_ROUND_ROBIN) neural_kernel))
    as (k' & Hrun & _).
  - lia.
  - eexists _, 0%nat. split; [vm_compute; reflexivity|].
    split; [vm_compute; intros [H _]; by apply H|].
    split; [lia|]. split; [intros j Hj; lia|].
    split; [reflexivity|]. eexists. vm_compute. reflexivity.
  - by exists k'.
Defined.

(** ** Per-core run queues as lists (advanced_scheduler.c) *)

Lemma chain_frame k k' start l :
  (∀ a, a ∈ l → procs k' !! a = procs k !! a) → chain k start l → chain k' start l.
Proof.
  revert start. induction l as [|p l IH]; intros start Hsame; [done|].
  simpl. intros (-> & P & HP & Hrest). split; [done|].
  exists P. rewrite Hsame by left. split; [done|].
  apply IH; [|done]. intros a Ha. apply Hsame. by right.
Qed.

Lemma concat_lookup {A : Type} (ls : list (list A)) (i : nat) (l : list A) :
  ls !! i = Some l →
  concat ls = concat (take i ls) ++ l ++ concat (drop (S i) ls).
Proof.
  intros Hi. rewrite <- (take_drop_middle ls i l Hi) at 1.
  by rewrite concat_app, concat_cons.
Qed.

Lemma concat_insert {A : Type} (ls : list (list A)) (i : nat) (l l' : list A) :
  ls !! i = Some l →
  concat (<[i := l']> ls) = concat (take i ls) ++ l' ++ concat (drop (S i) ls).
Proof.
  intros Hi. rewrite insert_take_drop by by eapply lookup_lt_Some.
  by rewrite concat_app, concat_cons.
Qed.

Lemma elem_of_concat_lookup {A : Type} (ls : list (list A)) (i : nat) (l : list A) x :
  ls !! i = Some l → x ∈ l → x ∈ concat ls.
Proof.
  intros Hi Hx. rewrite (concat_lookup ls i l Hi), !elem_of_app. auto.
Qed.

Lemma bucket_index_range prio : bucket_index prio ≤ 5.
Proof. unfold bucket_index. cbv zeta. destruct (Z.leb_spec 6 (to_int prio)); lia. Qed.

Lemma bucket_insert rq (i j : nat) v :
  (i < length (active_queue rq))%nat →
  bucket (set_active_queue (<[i := v]> (active_queue rq)) rq) (Z.of_nat j)
  = if decide (j = i) then v else bucket rq (Z.of_nat j).
Proof.
  intros Hi. unfold bucket. cbn [active_queue set_active_queue]. rewrite !Nat2Z.id.
  destruct (decide (j = i)) as [->|Hne].
  - by rewrite list_lookup_insert_eq.
  - by rewrite list_lookup_insert_ne.
Qed.

Lemma testbit_shiftl_1 (i j : Z) :
  0 ≤ i → 0 ≤ j → Z.testbit (Z.shiftl 1 i) j = bool_decide (j = i).
Proof.
  intros Hi Hj. rewrite Z.shiftl_spec by done.
  destruct (decide (j = i)) as [->|Hne].
  - rewrite Z.sub_diag, bool_decide_eq_true_2 by done. reflexivity.
  - rewrite bool_decide_eq_false_2 by done.
    destruct (Z.lt_ge_cases j i).
    + apply Z.testbit_neg_r. lia.
    + replace (j - i) with (Z.succ (j - i - 1)) by lia.
      change 1 with (2 * 0 + 1). rewrite Z.testbit_odd_succ by lia.
      apply Z.testbit_0_l.
Qed.

(** X27: [sched_add_process_to_runqueue] pushes the process on the front
    of the bucket of its priority (bucket 5 for a priority of 6 or more).
    On a well-formed run queue that does not hold the process yet, the
    bucket chain grows by the process at its head, the other buckets are
    as before, the count grows by one, the bit of the bucket is set in
    the bitmap, and the run queue is well-formed again.  A process
    without a statistics block gets a new one, initialised with the
    current time, when the allocation succeeds, and stays without one
    otherwise; an existing block is kept.  No other PCB and no other run
    queue is written. *)
Theorem sched_add_process_to_runqueue_pushes (pc : Z) (kmalloc_stats : bool)
    (p : positive) (cpu_id : Z) (k : kernel) (rq : neural_runqueue)
    (ls : list (list positive)) (P : process) (i : nat) (l : list positive) :
  0 ≤ cpu_id < 64 →
  neural_runqueues k !! Z.to_nat cpu_id = Some rq →
  runqueue_holds k rq ls →
  procs k !! p = Some P → p ∉ concat ls →
  bucket_index (priority P) = Z.of_nat i → ls !! i = Some l →
  ∃ k' rq' P',
    sched_add_process_to_runqueue pc kmalloc_stats (Some p) cpu_id k = Ret k' ∧
    neural_runqueues k' !! Z.to_nat cpu_id = Some rq' ∧
    runqueue_holds k' rq' (<[i := p :: l]> ls) ∧
    procs k' !! p = Some P' ∧
    sched_stats P' = match sched_stats P with
                     | Some st => Some st
                     | None =>
                         if kmalloc_stats
                         then Some (initial_sched_stats pc (get_system_time k) (priority P))
                         else None
                     end ∧
    (∀ a, a ≠ p → procs k' !! a = procs k !! a) ∧
    (∀ j : nat, j ≠ Z.to_nat cpu_id → neural_runqueues k' !! j = neural_runqueues k !! j).
Proof.
  intros Hcpu Hrq (Hlen & Haq & Hch & Hnd & Hcnt & Hbm) HP Hp Hi Hl.
  assert (i < 6)%nat as Hi6 by (rewrite <- Hlen; by eapply lookup_lt_Some).
  set (rq' := set_queue_bitmap (Z.lor (queue_bitmap rq) (Z.shiftl 1 (Z.of_nat i)))
                (set_process_count (wrap32 (process_count rq + 1))
                   (set_active_queue (<[i := Some p]> (active_queue rq)) rq))).
  set (P1 := set_next_in_queue (bucket rq (Z.of_nat i)) P).
  assert (∀ k' P',
            procs k' = <[p := P']> (procs k) →
            next_in_queue P' = bucket rq (Z.of_nat i) →
            runqueue_holds k' rq' (<[i := p :: l]> ls)) as Hholds.
  { intros k' P' Hp' Hnx.
    split; [by rewrite length_insert|]. split; [by cbn; rewrite length_insert|].
    split.
    { intros j l' Hj.
      assert (bucket rq' (Z.of_nat j) = if decide (j = i) then Some p else bucket rq (Z.of_nat j))
        as -> by (apply bucket_insert; lia).
      destruct (decide (j = i)) as [->|Hne].
      - rewrite list_lookup_insert_eq in Hj by by eapply lookup_lt_Some.
        injection Hj as <-. split; [done|]. exists P'.
        split; [by rewrite Hp', lookup_insert_eq|]. rewrite Hnx.
        apply (chain_frame k); [|by apply Hch].
        intros a Ha. rewrite Hp'. apply lookup_insert_ne. intros <-.
        apply Hp. by eapply elem_of_concat_lookup.
      - rewrite list_lookup_insert_ne in Hj by done.
        apply (chain_frame k); [|by apply Hch].
        intros a Ha. rewrite Hp'. apply lookup_insert_ne. intros <-.
        apply Hp. by eapply elem_of_concat_lookup. }
    assert (concat (<[i := p :: l]> ls) ≡ₚ p :: concat ls) as Hperm.
    { rewrite (concat_insert ls i l (p :: l) Hl), (concat_lookup ls i l Hl).
      rewrite <- app_comm_cons. by rewrite <- Permutation_middle. }
    split; [rewrite Hperm; by apply NoDup_cons|].
    split.
    { cbn [process_count rq' set_queue_bitmap set_process_count].
      rewrite Hperm, Hcnt, wrap32_succ. cbn [length]. f_equal. lia. }
    intros j l' Hj. cbn [queue_bitmap rq' set_queue_bitmap].
    rewrite Z.lor_spec, testbit_shiftl_1 by lia.
    destruct (decide (j = i)) as [->|Hne].
    - rewrite list_lookup_insert_eq in Hj by by eapply lookup_lt_Some.
      injection Hj as <-. rewrite (bool_decide_eq_true_2 (Z.of_nat i = Z.of_nat i)) by done.
      rewrite orb_true_r. by rewrite bool_decide_eq_true_2.
    - rewrite list_lookup_insert_ne in Hj by done.
      rewrite (bool_decide_eq_false_2 (Z.of_nat j = Z.of_nat i)) by lia.
      rewrite orb_false_r. by apply Hbm. }
  unfold sched_add_process_to_runqueue.
  destruct (Z.leb_spec 64 cpu_id); [lia|].
  rewrite (rq_get_Some _ _ _ Hrq), bind_Ret, (deref_Some _ _ _ HP), bind_Ret.
  cbv zeta. rewrite Hi. destruct (Z.ltb_spec (Z.of_nat i) 0); [lia|].
  rewrite (store_Some _ _ _ _ HP), bind_Ret. rewrite Nat2Z.id. fold P1.
  match goal with |- context [deref ?kk p] => set (k4 := kk) end.
  assert (procs k4 = <[p := P1]> (procs k)) as Hp4 by done.
  assert (neural_runqueues k4 !! Z.to_nat cpu_id = Some rq') as Hrq4.
  { subst k4.
    eapply eq_trans; [apply rq_upd_lookup, rq_upd_lookup, rq_upd_lookup; exact Hrq|].
    reflexivity. }
  assert (∀ j : nat, j ≠ Z.to_nat cpu_id →
                     neural_runqueues k4 !! j = neural_runqueues k !! j) as Hne4.
  { intros j Hj. subst k4. by rewrite !rq_upd_lookup_ne. }
  assert (system_time k4 = system_time k) as Ht4 by done.
  assert (procs k4 !! p = Some P1) as HP4 by (rewrite Hp4; apply lookup_insert_eq).
  rewrite (deref_Some _ _ _ HP4), bind_Ret.
  replace (sched_stats P1) with (sched_stats P) by by destruct P.
  replace (priority P1) with (priority P) by by destruct P.
  destruct (sched_stats P) as [st|] eqn:Est; [|destruct kmalloc_stats].
  - exists k4, rq', P1. split; [done|]. split; [done|].
    split; [apply (Hholds k4 P1 Hp4); by destruct P|].
    split; [done|]. split; [by destruct P; cbn in *|].
    split; [|done]. intros a Ha. rewrite Hp4. by apply lookup_insert_ne.
  - rewrite (store_Some _ _ _ _ HP4).
    eexists _, rq', _. split; [reflexivity|]. cbn [procs neural_runqueues set_procs].
    split; [done|].
    split.
    { eapply Hholds; [cbn [procs set_procs]; by rewrite Hp4, insert_insert_eq|].
      by destruct P. }
    split; [apply lookup_insert_eq|]. split; [by destruct P|].
    split; [|done]. intros a Ha. rewrite lookup_insert_ne by done.
    rewrite Hp4. by apply lookup_insert_ne.
  - exists k4, rq', P1. split; [done|]. split; [done|].
    split; [apply (Hholds k4 P1 Hp4); by destruct P|].
    split; [done|]. split; [by destruct P; cbn in *|].
    split; [|done]. intros a Ha. rewrite Hp4. by apply lookup_insert_ne.
Qed.

Lemma runqueue_holds_initial k now alg :
  runqueue_holds k (initial_runqueue now alg) (replicate 6 []).
Proof.
  split; [done|]. split; [done|]. split.
  { intros j l Hj. apply lookup_replicate in Hj as [-> Hj].
    do 6 (destruct j as [|j]; [reflexivity|]). lia. }
  split; [apply NoDup_nil_2|]. split; [done|].
  intros j l Hj. apply lookup_replicate in Hj as [-> _]. apply Z.testbit_0_l.
Qed.

Lemma sched_add_process_to_runqueue_pushes_witness :
  ∃ k' rq',
    sched_add_process_to_runqueue 5 true (Some 1%positive) 0 two_process_kernel = Ret k' ∧
    neural_runqueues k' !! 0%nat = Some rq' ∧
    runqueue_holds k' rq' [[]; []; [1%positive]; []; []; []].
Proof.
  destruct (sched_add_process_to_runqueue_pushes 5 true 1 0 two_process_kernel
              (initial_runqueue 0 SCHED_ALGORITHM_NEURAL) (replicate 6 [])
              (demo_pcb 1 PRIORITY_NORMAL PROCESS_READY) 2 [])
    as (k' & rq' & P' & Hrun & Hrq & Hholds & _).
  - lia.
  - reflexivity.
  - apply runqueue_holds_initial.
  - by vm_compute.
  - apply not_elem_of_nil.
  - reflexivity.
  - reflexivity.
  - by exists k', rq'.
Defined.











(** ** Initialisation and algorithm change (advanced_scheduler.c) *)


Lemma rq_store_Some cpu_id f k rq :
  neural_runqueues k !! Z.to_nat cpu_id = Some rq →
  rq_store cpu_id f k = Ret (rq_upd cpu_id f k).
Proof. intros Hrq. unfold rq_store. by rewrite (rq_get_Some _ _ _ Hrq). Qed.


(** A loop that rewrites the run queues of the cores [lo .. lo + n - 1]. *)
Lemma for_cpus_rq_store (F : kernel → neural_runqueue → neural_runqueue) :
  (∀ i f k, F (rq_upd i f k) = F k) →
  ∀ (n : nat) (lo : Z) (k : kernel),
    0 ≤ lo → (Z.to_nat lo + n ≤ length (neural_runqueues k))%nat →
    ∃ k',
      for_cpus (λ i k, rq_store i (F k) k) n lo k = Ret k' ∧
      k' = set_neural_runqueues (neural_runqueues k') k ∧
      length (neural_runqueues k') = length (neural_runqueues k) ∧
      ∀ j : nat,
        neural_runqueues k' !! j
        = if decide (Z.to_nat lo ≤ j < Z.to_nat lo + n)%nat
          then F k <$> (neural_runqueues k !! j)
          else neural_runqueues k !! j.
Proof.
  intros HF. induction n as [|n IH]; intros lo k Hlo Hlen.
  - exists k. split; [done|]. split; [by destruct k|]. split; [done|].
    intros j. rewrite decide_False by lia. done.
  - cbn [for_cpus]. cbn beta.
    destruct (lookup_lt_is_Some_2 (neural_runqueues k) (Z.to_nat lo) ltac:(lia)) as [rq Hrq].
    rewrite (rq_store_Some _ _ _ _ Hrq), bind_Ret.
    destruct (IH (lo + 1) (rq_upd lo (F k) k) ltac:(lia)) as (k' & Hrun & Hk' & Hlen' & Hlook).
    { unfold rq_upd. cbn [neural_runqueues set_neural_runqueues].
      rewrite length_alter. lia. }
    exists k'. split; [done|]. split; [by rewrite Hk' at 1|].
    split.
    { rewrite Hlen'. unfold rq_upd. cbn [neural_runqueues set_neural_runqueues].
      by rewrite length_alter. }
    intros j. rewrite Hlook, HF.
    destruct (decide (j = Z.to_nat lo)) as [->|Hne].
    + rewrite decide_False by lia. rewrite decide_True by lia.
      by rewrite (rq_upd_lookup _ _ _ _ Hrq), Hrq.
    + rewrite rq_upd_lookup_ne by done.
      destruct (decide (Z.to_nat (lo + 1) ≤ j < Z.to_nat (lo + 1) + n)%nat),
               (decide (Z.to_nat lo ≤ j < Z.to_nat lo + S n)%nat); try done; lia.
Qed.





(** On a run queue whose buckets are all empty every algorithm selects
    nobody. *)
Lemma pick_next_task_empty fuel k rq :
  (∀ j : nat, (j < 6)%nat → bucket rq (Z.of_nat j) = None) →
  pick_next_task fuel k rq = Ret None.
Proof.
  intros Hempty.
  assert (∀ (j : nat) (l : list positive),
            [[]; []; []; []; []; []] !! j = Some l →
            l = [] ∧ bucket rq (Z.of_nat j) = None) as Hls.
  { intros j l Hj. change [[]; []; []; []; []; []] with (replicate 6 (@nil positive)) in Hj.
    apply lookup_replicate in Hj as [-> Hj]. split; [done|by apply Hempty]. }
  unfold pick_next_task. cbv zeta.
  destruct (algorithm rq =? SCHED_ALGORITHM_CFS).
  { unfold cfs_pick_next_task.
    pose proof (for_buckets_chains
                  (λ start acc, cfs_pick_walk fuel k start acc) (cfs_step k)
                  (λ l, (length l ≤ fuel)%nat) k rq
                  (λ start l, cfs_pick_walk_chain fuel k l start) [[]; []; []; []; []; []] 0
                  (None, UINT64_MAX)) as Hfb.
    cbn [length concat app] in Hfb. rewrite Hfb; [done|lia|].
    intros j l Hj. destruct (Hls j l Hj) as [-> Hb]. rewrite Z.add_0_l.
    split; [done|simpl; lia]. }
  destruct (algorithm rq =? SCHED_ALGORITHM_REALTIME).
  { apply (proj1 (realtime_pick_first_two_buckets fuel k rq [] []
                    (Hempty 0%nat ltac:(lia)) (Hempty 1%nat ltac:(lia))
                    ltac:(simpl; lia) ltac:(simpl; lia))).
    intros p d Hp. by apply elem_of_nil in Hp. }
  destruct (algorithm rq =? SCHED_ALGORITHM_NEURAL).
  { rewrite (neural_pick_fold fuel k rq [[]; []; []; []; []; []]); [done|done|].
    intros j l Hj. destruct (Hls j l Hj) as [-> Hb].
    split; [done|]. split; [apply List.Forall_nil|simpl; lia]. }
  destruct (algorithm rq =? SCHED_ALGORITHM_CYBERPUNK).
  { unfold cyberpunk_pick_next_task. rewrite first_bucket_none; [done|].
    intros j Hj. rewrite Z.add_0_l. by apply Hempty. }
  rewrite first_bucket_none; [done|].
  intros j Hj. rewrite Z.add_0_l. by apply Hempty.
Qed.

(** X30: [advanced_scheduler_init] gives every core below the CPU count
    (at most 64) an empty run queue: six empty buckets, count and bitmap
    zero, no current process and no idle task, the clock at the current
    time, the global algorithm and a time slice of 1000000; it records
    the current time as time base and sets the initialised flag.  PCBs are
    not touched, the run queues from the CPU count on stay as they were.
    On an initialised core [sched_schedule_next] returns NULL under every
    algorithm, since nothing is queued and there is no idle task. *)
Theorem advanced_scheduler_init_empties (cpu_count : Z) (g : adv_globals) (k : kernel) :
  0 ≤ cpu_count ≤ 64 → length (neural_runqueues k) = 64%nat →
  ∃ k',
    advanced_scheduler_init cpu_count g k
    = Ret (mk_adv_globals (global_algorithm g) (get_system_time k) 1, k') ∧
    k' = set_neural_runqueues (neural_runqueues k') k ∧
    (∀ j : nat,
       neural_runqueues k' !! j
       = if decide (Z.of_nat j < cpu_count)
         then Some (initial_runqueue (get_system_time k) (global_algorithm g))
         else neural_runqueues k !! j) ∧
    (∀ (j : nat) rq,
       Z.of_nat j < cpu_count → neural_runqueues k' !! j = Some rq →
       runqueue_holds k' rq (replicate 6 [])) ∧
    (∀ fuel cpu_id,
       0 ≤ cpu_id < cpu_count →
       ∃ k'', sched_schedule_next fuel cpu_id k' = Ret (None, k'') ∧
              procs k'' = procs k).
Proof.
  intros Hc Hlen. unfold advanced_scheduler_init.
  destruct (for_cpus_rq_store
              (λ k _, initial_runqueue (get_system_time k) (global_algorithm g))
              ltac:(done) (Z.to_nat cpu_count) 0 k ltac:(lia) ltac:(simpl; lia))
    as (k' & Hrun & Hk' & Hlen' & Hlook).
  rewrite Hrun, bind_Ret.
  assert (get_system_time k' = get_system_time k) as Ht by by rewrite Hk'.
  rewrite Ht. exists k'. split; [done|]. split; [done|].
  assert (∀ j : nat,
            neural_runqueues k' !! j
            = if decide (Z.of_nat j < cpu_count)
              then Some (initial_runqueue (get_system_time k) (global_algorithm g))
              else neural_runqueues k !! j) as Hall.
  { intros j. rewrite Hlook.
    destruct (decide (Z.to_nat 0 ≤ j < Z.to_nat 0 + Z.to_nat cpu_count)%nat),
             (decide (Z.of_nat j < cpu_count)); try done; simpl in *; try lia.
    destruct (lookup_lt_is_Some_2 (neural_runqueues k) j ltac:(lia)) as [rq ->]. done. }
  split; [done|]. split.
  { intros j rq Hj Hrq. rewrite Hall, decide_True in Hrq by done.
    injection Hrq as <-. apply runqueue_holds_initial. }
  intros fuel cpu_id Hcpu.
  pose proof (Hall (Z.to_nat cpu_id)) as Hrq. rewrite decide_True in Hrq by lia.
  unfold sched_schedule_next. destruct (Z.leb_spec 64 cpu_id); [lia|].
  rewrite (rq_get_Some _ _ _ Hrq), bind_Ret.
  rewrite pick_next_task_empty, bind_Ret.
  - eexists. split; [reflexivity|]. cbn. by rewrite Hk'.
  - intros j Hj. by do 6 (destruct j as [|j]; [reflexivity|]); lia.
Qed.

Lemma advanced_scheduler_init_empties_witness :
  ∃ k' k'',
    advanced_scheduler_init 4 (mk_adv_globals SCHED_ALGORITHM_NEURAL 0 0) neural_kernel
    = Ret (mk_adv_globals SCHED_ALGORITHM_NEURAL 1000 1, k') ∧
    sched_schedule_next 0 0 k' = Ret (None, k'').
Proof.
  destruct (advanced_scheduler_init_empties 4 (mk_adv_globals SCHED_ALGORITHM_NEURAL 0 0)
              neural_kernel ltac:(lia) eq_refl)
    as (k' & Hrun & _ & _ & _ & Hnext).
  destruct (Hnext 0%nat 0 ltac:(lia)) as (k'' & Hn & _).
  by exists k', k''.
Defined.

(** * From boot: who is current *)

(** [current_process] is assigned in one place only, in [process_init],
    where it becomes the idle process; [context_switch] records the
    process it switches to in [running_process] of the scheduler.  What
    follows runs the code from the boot sequence on. *)

(** C3 (evaluation at the failing input): after the boot sequence the idle
    process is current and the test processes 2 and 3 are queued in this
    order.  The first [scheduler_yield] dispatches process 2.  When
    process 2, RUNNING, then calls [scheduler_yield], the function looks
    at [process_get_current()], which still is the idle process and is
    READY: nobody is appended to the ready queue, process 3 is dispatched,
    and process 2 is left RUNNING in no queue.  The queue is empty from
    then on: a further yield changes nothing and [scheduler_next] never
    returns process 2 again. *)
Theorem scheduler_yield_loses_dispatched_caller :
  ∃ k0 k1 k2,
    booted = Ret k0 ∧
    process_get_current k0 = Some 1%positive ∧
    ready_queue k0 [2%positive; 3%positive] ∧
    scheduler_yield 0 k0 = Ret k1 ∧
    running_process (sch k1) = Some 2%positive ∧
    (state <$> (procs k1 !! 2%positive)) = Some PROCESS_RUNNING ∧
    ready_queue k1 [3%positive] ∧
    process_get_current k1 = Some 1%positive ∧
    (state <$> (procs k1 !! 1%positive)) = Some PROCESS_READY ∧
    scheduler_yield 0 k1 = Ret k2 ∧
    running_process (sch k2) = Some 3%positive ∧
    (state <$> (procs k2 !! 2%positive)) = Some PROCESS_RUNNING ∧
    ready_queue k2 [] ∧
    scheduler_yield 0 k2 = Ret k2 ∧
    ∀ fuel n, next_n fuel n k2 = Ret (replicate n None, k2).
Proof.
  eexists _, _, _.
  split; [vm_compute; reflexivity|].
  split; [vm_compute; reflexivity|].
  split; [solve_ready_queue|].
  split; [vm_compute; reflexivity|].
  split; [vm_compute; reflexivity|].
  split; [vm_compute; reflexivity|].
  split; [solve_ready_queue|].
  split; [vm_compute; reflexivity|].
  split; [vm_compute; reflexivity|].
  split; [vm_compute; reflexivity|].
  split; [vm_compute; reflexivity|].
  split; [vm_compute; reflexivity|].
  split; [solve_ready_queue|].
  split; [vm_compute; reflexivity|].
  match goal with
  | |- ∀ fuel n, next_n fuel n ?K = _ =>
      assert (current_algorithm (sch K) = SCHED_ROUND_ROBIN) as Halg by reflexivity;
      assert (ready_queue K []) as Hq by solve_ready_queue;
      set (k2 := K) in *; clearbody k2
  end.
  intros fuel n. induction n as [|n IH]; [reflexivity|].
  cbn [next_n replicate]. rewrite (scheduler_next_rr_empty fuel k2 Halg Hq), bind_Ret.
  cbn beta iota. by rewrite IH, bind_Ret.
Qed.

(** C6 (evaluation at the failing input): after the boot sequence and a
    first yield process 2 runs and sends the three bytes ABC to process 3
    (pid 3).  The send succeeds and the message is in the mailbox of
    process 3, though with the pid of the idle process as sender, since
    the sender is taken from [process_get_current()].  After the next
    yield process 3 runs and calls [ipc_receive_message]: the call looks
    into the mailbox of [process_get_current()], the idle process, which
    has none, and returns -1.  The buffer is untouched and the mailbox of
    process 3 still holds the message, its count still 1. *)
Theorem ipc_receive_after_dispatch_fails :
  ∃ k0 k1 k2 k3,
    booted = Ret k0 ∧
    scheduler_yield 0 k0 = Ret k1 ∧
    running_process (sch k1) = Some 2%positive ∧
    (pid <$> (procs k1 !! 2%positive)) = Some 2 ∧
    process_get_by_pid 3 k1 = Some 3%positive ∧
    ipc_send_message 0 ipc_env 3 ipc_payload 3 k1 = Ret (0, k2) ∧
    mailbox k2 3 [9%positive] ∧
    (sender_pid <$> (msgs k2 !! 9%positive)) = Some 1 ∧
    scheduler_yield 0 k2 = Ret k3 ∧
    running_process (sch k3) = Some 3%positive ∧
    (state <$> (procs k3 !! 3%positive)) = Some PROCESS_RUNNING ∧
    process_get_current k3 = Some 1%positive ∧
    ipc_receive_message (replicate 8 Byte.xff) 8 k3
    = Ret (-1, replicate 8 Byte.xff, k3) ∧
    mailbox k3 3 [9%positive] ∧
    (message_queue_of <$> (procs k3 !! 3%positive))
    = Some (Some (mk_message_queue (Some 9%positive) (Some 9%positive) 1)).
Proof.
  assert (∀ k P M,
            procs k !! 3%positive = Some P →
            message_queue_of P
            = Some (mk_message_queue (Some 9%positive) (Some 9%positive) 1) →
            msgs k !! 9%positive = Some M → msg_next M = None →
            mailbox k 3 [9%positive]) as Hbox.
  { intros k P M HP HQ HM Hnx. exists P. split; [done|]. rewrite HQ.
    split; [done|]. split; [done|]. split; [done|].
    split; [apply NoDup_singleton|]. split; [done|]. exists M. by rewrite Hnx. }
  eexists _, _, _, _.
  split; [vm_compute; reflexivity|].
  split; [vm_compute; reflexivity|].
  split; [vm_compute; reflexivity|].
  split; [vm_compute; reflexivity|].
  split; [vm_compute; reflexivity|].
  split; [vm_compute; reflexivity|].
  split; [eapply Hbox; vm_compute; reflexivity|].
  split; [vm_compute; reflexivity|].
  split; [vm_compute; reflexivity|].
  split; [vm_compute; reflexivity|].
  split; [vm_compute; reflexivity|].
  split; [vm_compute; reflexivity|].
  split; [vm_compute; reflexivity|].
  split; [eapply Hbox; vm_compute; reflexivity|].
  vm_compute. reflexivity.
Qed.
